(** * Telesight analytics core: a shallow embedding and its checked properties

    The development follows the library modules of the repository:
    - [telegram-types]  : the message record and [getMessageText];
    - [fraud-detector]  : the heuristic fraud detector and its aggregates;
    - [reply-graph]     : [buildReplyGraph] and its chains;
    - [post-scoring]    : [computePostScore] and [findSimilarPosts];
    - [calendar-wrapped]: [computeWrappedStats] (the posting streak).

    JavaScript strings are sequences of UTF-16 code units, numbers that the
    code only uses as integers are [Z] (counts are [N]), [Map]s and [Set]s
    that are only looked up are [gmap]/[gset], and those that are iterated
    are lists in insertion order. *)

From stdpp Require Import gmap list.
From Stdlib Require Import ZArith QArith Qround Qpower Ascii String List Lia Permutation Sorted.
From Stdlib Require Floats.
Import ListNotations.

Local Open Scope Z_scope.

(* ===================================================================== *)
(** ** JavaScript strings *)
(* ===================================================================== *)

(** A string is the list of its UTF-16 code units. *)
Definition jsstring : Type := list Z.

(** An ASCII literal as a [jsstring]. *)
Definition js (s : string) : jsstring :=
  map (fun a => Z.of_N (N_of_ascii a)) (list_ascii_of_string s).

Definition dquote : Z := 34.
Definition euro_sign : Z := 0x20AC.
Definition pound_sign : Z := 0xA3.

(** [s.length] *)
Definition str_length (s : jsstring) : Z := Z.of_nat (length s).

Fixpoint str_eqb (s t : jsstring) : bool :=
  match s, t with
  | [], [] => true
  | a :: s', b :: t' => (a =? b) && str_eqb s' t'
  | _, _ => false
  end.

Fixpoint startsWith (p s : jsstring) : bool :=
  match p, s with
  | [], _ => true
  | a :: p', b :: s' => (a =? b) && startsWith p' s'
  | _ :: _, [] => false
  end.

(** [s.includes(p)] *)
Fixpoint includes (s p : jsstring) : bool :=
  startsWith p s ||
  match s with
  | [] => false
  | _ :: s' => includes s' p
  end.

(** [parts.join] with the empty separator *)
Definition join_empty (parts : list jsstring) : jsstring := concat parts.

(** [s.slice(0, n)] for a literal count [n]. *)
Definition str_slice0 (n : nat) (s : jsstring) : jsstring := firstn n s.

(** [parts.join(sep)] *)
Fixpoint join_with (sep : jsstring) (parts : list jsstring) : jsstring :=
  match parts with
  | [] => []
  | [p] => p
  | p :: rest => p ++ sep ++ join_with sep rest
  end.

(** The decimal digits of a natural number, most significant first;
    [fuel] bounds their number. *)
Fixpoint decimal_digits (fuel : nat) (n : Z) (acc : jsstring) : jsstring :=
  match fuel with
  | O => acc
  | S fuel' =>
      let acc := (48 + n mod 10) :: acc in
      if n <? 10 then acc else decimal_digits fuel' (n / 10) acc
  end.

(** [String(n)] for an integer [n], as in a template literal. *)
Definition decimal (n : Z) : jsstring :=
  if n <? 0
  then 45 :: decimal_digits (S (Z.to_nat (Z.log2 (- n)))) (- n) []
  else decimal_digits (S (Z.to_nat (Z.log2 n))) n [].

(** Character classes of the regular expressions in the sources. *)
Definition in_range (lo hi c : Z) : bool := (lo <=? c) && (c <=? hi).

Definition is_digit (c : Z) : bool := in_range 48 57 c.
Definition is_ascii_upper (c : Z) : bool := in_range 65 90 c.
Definition is_ascii_lower (c : Z) : bool := in_range 97 122 c.
Definition is_ascii_letter (c : Z) : bool := is_ascii_upper c || is_ascii_lower c.

(** [\w] *)
Definition is_word (c : Z) : bool := is_ascii_letter c || is_digit c || (c =? 95).

(** [\s]: WhiteSpace and LineTerminator of ECMAScript. *)
Definition is_space (c : Z) : bool :=
  in_range 9 13 c || (c =? 32) || (c =? 0xA0) || (c =? 0x1680) ||
  in_range 0x2000 0x200A c || (c =? 0x2028) || (c =? 0x2029) ||
  (c =? 0x202F) || (c =? 0x205F) || (c =? 0x3000) || (c =? 0xFEFF).

(** [Ѐ-ӿ] *)
Definition is_cyrillic_block (c : Z) : bool := in_range 0x400 0x4FF c.

(** Canonicalize of a regular expression with the [i] flag and without the
    [u] flag: the upper-case form of a code unit, except that a code unit
    above 127 is never mapped into ASCII.  For the ASCII letters of the
    patterns below this is the map a-z to A-Z. *)
Definition canonicalize_ascii (c : Z) : Z := if is_ascii_lower c then c - 32 else c.

(** [String.prototype.toLowerCase] applies the Unicode lower-case mapping,
    a table of the platform.  The code is embedded over any such mapping;
    the scenarios run with any [standard_case], defined next. *)
Class CaseMapping := toLowerCase : jsstring -> jsstring.

(** The lower-case mapping of ASCII, Latin-1 and the basic Cyrillic
    alphabet, code unit by code unit. *)
Definition lower_unit (c : Z) : Z :=
  if is_ascii_upper c then c + 32
  else if in_range 0xC0 0xDE c && negb (c =? 0xD7) then c + 32
  else if in_range 0x410 0x42F c then c + 32
  else if in_range 0x400 0x40F c then c + 80
  else c.

(** ASCII and the two currency signs of the keyword tables: on a string of
    such code units [toLowerCase] maps A-Z to a-z and changes nothing else. *)
Definition plain_unit (c : Z) : bool :=
  in_range 0 127 c || (c =? euro_sign) || (c =? pound_sign).

(** A case mapping that is the standard one on plain strings and [rest]
    on the others; [String.prototype.toLowerCase] is of this form. *)
Definition standard_case (rest : CaseMapping) : CaseMapping :=
  fun s => if forallb plain_unit s then map lower_unit s else rest s.

(* ===================================================================== *)
(** ** Regular expressions *)
(* ===================================================================== *)

(** The regular-expression literals of the sources are written as terms of
    [regex] and run by Brzozowski derivatives. *)
Inductive regex : Type :=
| Never                         (* matches nothing *)
| Empty                         (* matches the empty string *)
| Char (p : Z -> bool)          (* one code unit of a class *)
| Seq (r1 r2 : regex)
| Alt (r1 r2 : regex)
| Star (r : regex).

Definition Plus (r : regex) : regex := Seq r (Star r).
Definition Opt (r : regex) : regex := Alt r Empty.

(** A literal, case-sensitive *)
Fixpoint Lit (s : jsstring) : regex :=
  match s with
  | [] => Empty
  | c :: s' => Seq (Char (Z.eqb c)) (Lit s')
  end.

(** A literal under the [i] flag *)
Fixpoint LitI (s : jsstring) : regex :=
  match s with
  | [] => Empty
  | c :: s' =>
      Seq (Char (fun x => canonicalize_ascii x =? canonicalize_ascii c)) (LitI s')
  end.

Fixpoint nullable (r : regex) : bool :=
  match r with
  | Never => false
  | Empty => true
  | Char _ => false
  | Seq r1 r2 => nullable r1 && nullable r2
  | Alt r1 r2 => nullable r1 || nullable r2
  | Star _ => true
  end.

Definition mkSeq (r1 r2 : regex) : regex :=
  match r1 with
  | Never => Never
  | Empty => r2
  | _ => Seq r1 r2
  end.

Definition mkAlt (r1 r2 : regex) : regex :=
  match r1, r2 with
  | Never, _ => r2
  | _, Never => r1
  | _, _ => Alt r1 r2
  end.

Fixpoint deriv (c : Z) (r : regex) : regex :=
  match r with
  | Never | Empty => Never
  | Char p => if p c then Empty else Never
  | Seq r1 r2 =>
      if nullable r1
      then mkAlt (mkSeq (deriv c r1) r2) (deriv c r2)
      else mkSeq (deriv c r1) r2
  | Alt r1 r2 => mkAlt (deriv c r1) (deriv c r2)
  | Star r1 => mkSeq (deriv c r1) (Star r1)
  end.

(** Some prefix of [s] matches [r]. *)
Fixpoint matchesPrefix (r : regex) (s : jsstring) : bool :=
  nullable r ||
  match s with
  | [] => false
  | c :: s' => matchesPrefix (deriv c r) s'
  end.

(** [r.test(s)] for a regular expression whose [lastIndex] is 0: some
    substring of [s] matches. *)
Fixpoint regex_test (r : regex) (s : jsstring) : bool :=
  matchesPrefix r s ||
  match s with
  | [] => false
  | _ :: s' => regex_test r s'
  end.

(** Length of the longest prefix of [s] that matches [r]. *)
Fixpoint longestPrefix (r : regex) (s : jsstring) : option nat :=
  let here := if nullable r then Some O else None in
  match s with
  | [] => here
  | c :: s' =>
      match longestPrefix (deriv c r) s' with
      | Some n => Some (S n)
      | None => here
      end
  end.

(** [s.match(r)] under the [g] flag, for the patterns of the sources: a
    fixed first code unit or word followed by a greedy class repetition, for
    which the leftmost greedy match is the leftmost longest one and is never
    empty.  [skip] counts the code units still covered by the last match. *)
Fixpoint matchAll_from (r : regex) (skip : nat) (s : jsstring) : list jsstring :=
  match s with
  | [] => []
  | _ :: s' =>
      match skip with
      | S k => matchAll_from r k s'
      | O =>
          match longestPrefix r s with
          | Some (S n) => firstn (S n) s :: matchAll_from r n s'
          | _ => matchAll_from r O s'
          end
      end
  end.

Definition matchAll (r : regex) (s : jsstring) : list jsstring := matchAll_from r O s.

(* ===================================================================== *)
(** ** telegram-types: the message model *)
(* ===================================================================== *)

Inductive MessageKind := message | service.

Definition MessageKind_eqb (a b : MessageKind) : bool :=
  match a, b with
  | message, message | service, service => true
  | _, _ => false
  end.

Record TextEntity := {
  entity_type : jsstring;
  entity_text : jsstring
}.

(** [MessageText = string | TextEntity] *)
Inductive MessageText :=
| PlainPart (s : jsstring)
| EntityPart (e : TextEntity).

(** [text: string | MessageText[]] *)
Inductive MessageBody :=
| BodyString (s : jsstring)
| BodyParts (parts : list MessageText).

Record Reaction := {
  emoji : jsstring;
  count : N
}.

(** The fields of [TelegramMessage] that the analytics read.  Optional
    fields are [option]s ([None] is [undefined]). *)
Record TelegramMessage := {
  id : Z;
  type : MessageKind;
  date : jsstring;
  from : option jsstring;
  text : MessageBody;
  reply_to_message_id : option Z;
  forwarded_from : option jsstring;
  photo : option jsstring;
  file : option jsstring;
  media_type : option jsstring;
  reactions : option (list Reaction)
}.

Definition getMessageText (msg : TelegramMessage) : jsstring :=
  match text msg with
  | BodyString s => s
  | BodyParts parts =>
      join_empty
        (map (fun part => match part with
                          | PlainPart s => s
                          | EntityPart e => entity_text e
                          end) parts)
  end.

(** Truthiness of an optional string: present and not empty. *)
Definition truthy_str (o : option jsstring) : bool :=
  match o with
  | Some (_ :: _) => true
  | _ => false
  end.

(** Truthiness of an optional number: present and not zero. *)
Definition truthy_num (o : option Z) : bool :=
  match o with
  | Some n => negb (n =? 0)
  | None => false
  end.

(** [msg.reactions?.reduce((s, r) => s + r.count, 0) || 0] *)
Definition reactionTotal (msg : TelegramMessage) : N :=
  match reactions msg with
  | Some rs => fold_left (fun s r => (s + count r)%N) rs 0%N
  | None => 0%N
  end.

(** [msg.photo || msg.file || msg.media_type], as a truth value *)
Definition hasMediaField (msg : TelegramMessage) : bool :=
  truthy_str (photo msg) || truthy_str (file msg) || truthy_str (media_type msg).

(* ===================================================================== *)
(** ** Arrays: [sort] with a comparator and [slice(0, end)] *)
(* ===================================================================== *)

Section ArraySort.
Context {A : Type}.
Variable cmp : A -> A -> Z.

  (** [x] goes in front of the first element it does not have to follow. *)
Fixpoint insert_sorted (x : A) (l : list A) : list A :=
    match l with
    | [] => [x]
    | y :: l' => if cmp x y <=? 0 then x :: y :: l' else y :: insert_sorted x l'
    end.

  (** [l.sort(cmp)]: [Array.prototype.sort] is stable, so for a consistent
      comparator its result is the one of the stable insertion sort. *)
Fixpoint array_sort (l : list A) : list A :=
    match l with
    | [] => []
    | x :: l' => insert_sorted x (array_sort l')
    end.
End ArraySort.

(** The comparator [(a, b) => key(b) - key(a)]: descending by [key]. *)
Definition descending {A : Type} (key : A -> Z) (a b : A) : Z := key b - key a.

(** [a] may stand in front of [b] in a list sorted by descending [key]. *)
Definition key_ge {A : Type} (key : A -> Z) (a b : A) : Prop := key b <= key a.

(** [l.slice(0, end)] for an integer [end]: a negative [end] counts from the
    end of the array. *)
Definition slice0 {A : Type} (l : list A) (e : Z) : list A :=
  let len := Z.of_nat (length l) in
  let k := if e <? 0 then Z.max (len + e) 0 else Z.min e len in
  firstn (Z.to_nat k) l.

(** [Set.add] on a set that is iterated: insertion order, no duplicates. *)
Definition set_add (x : jsstring) (s : list jsstring) : list jsstring :=
  if existsb (str_eqb x) s then s else s ++ [x].

(** [new Set(array)] *)
Definition set_of_list (l : list jsstring) : list jsstring :=
  fold_left (fun s x => set_add x s) l [].

(** [set.has(x)] *)
Definition set_has (s : list jsstring) (x : jsstring) : bool := existsb (str_eqb x) s.

(* ===================================================================== *)
(** ** fraud-detector *)
(* ===================================================================== *)

Module Fraud.

Inductive FraudType := phishing | money_request | impersonation | urgency | suspicious_link.

Inductive Severity := low | medium | high | critical.

Definition FraudType_eqb (a b : FraudType) : bool :=
  match a, b with
  | phishing, phishing | money_request, money_request
  | impersonation, impersonation | urgency, urgency
  | suspicious_link, suspicious_link => true
  | _, _ => false
  end.

Record FraudResult := {
  r_message : TelegramMessage;
  r_type : FraudType;
  r_severity : Severity;
  r_score : Z;
  r_reasons : list jsstring;
  r_matchedPatterns : list jsstring
}.

(** *** Rule tables *)

Definition SUSPICIOUS_DOMAINS : list jsstring := map js [
  "bit.ly"; "tinyurl"; "t.co"; "goo.gl"; "ow.ly"; "short.link";
  "login-"; "verify-"; "secure-"; "account-"; "update-";
  "telegram-security"; "telegram-verify"; "tg-official";
  "free-nitro"; "discord-gift"; "steam-gift";
  "binance-"; "coinbase-"; "crypto-"; "wallet-";
  "paypal-verify"; "banking-"; "secure-bank" ]%string.

Definition PHISHING_KEYWORDS : list jsstring := map js [
  "click here to verify"; "confirm your account"; "suspicious activity";
  "account will be suspended"; "verify your identity"; "login to continue";
  "update your information"; "security alert"; "unusual login";
  "confirm password"; "validate account"; "reactivate account" ]%string.

Definition MONEY_KEYWORDS : list jsstring :=
  map js [
    "send me"; "transfer"; "wire money"; "send money"; "pay me";
    "urgent payment"; "immediately"; "asap"; "right now"; "don't delay";
    "family emergency"; "hospital"; "accident"; "stuck in";
    "lost my wallet"; "phone died"; "stranded"; "need help";
    "double your money"; "guaranteed return"; "investment opportunity";
    "crypto opportunity"; "forex trading"; "binary options";
    "send $" ]%string
  ++ [ js "send " ++ [euro_sign]; js "send " ++ [pound_sign] ]
  ++ map js [
    "transfer $"; "wire $";
    "bitcoin"; "ethereum"; "crypto"; "usdt"; "tether";
    "western union"; "moneygram"; "gift card"; "itunes card" ]%string.

Definition IMPERSONATION_PATTERNS : list jsstring := map js [
  "i am the admin"; "i'm the admin"; "this is official";
  "telegram support"; "telegram team"; "official team";
  "as your admin"; "channel owner"; "group administrator";
  "i work for telegram"; "telegram staff"; "support team";
  "verify your account"; "mandatory verification";
  "dm me to verify"; "message me privately"; "don't tell anyone" ]%string.

Definition URGENCY_PATTERNS : list jsstring := map js [
  "act now"; "limited time"; "expires soon"; "last chance";
  "only today"; "24 hours only"; "urgent"; "emergency";
  "hurry"; "don't wait"; "immediately"; "right away";
  "quickly"; "as soon as possible"; "time sensitive" ]%string.

(** *** Regular expressions of the detector *)

Definition Seqs (rs : list regex) : regex := fold_right Seq Empty rs.
Definition Alts (rs : list regex) : regex := fold_right Alt Never rs.

Definition digits : regex := Plus (Char is_digit).
Definition spaces : regex := Plus (Char is_space).

(** [/https?:\/\/[^\s)]+/gi] *)
Definition urlRegex : regex :=
  Seqs [ LitI (js "http"); Opt (LitI (js "s")); Lit (js "://");
         Plus (Char (fun c => negb (is_space c || (c =? 41)))) ].

(** [/bit\.ly|tinyurl|t\.co|goo\.gl|ow\.ly|short\.link/i] *)
Definition shortenerRegex : regex :=
  Alts (map (fun s => LitI (js s))
          [ "bit.ly"; "tinyurl"; "t.co"; "goo.gl"; "ow.ly"; "short.link" ]%string).

(** [/https?:\/\/\d+\.\d+\.\d+\.\d+/] *)
Definition ipRegex : regex :=
  Seqs [ Lit (js "http"); Opt (Lit (js "s")); Lit (js "://");
         digits; Lit (js "."); digits; Lit (js "."); digits; Lit (js "."); digits ].

(** [/[а-яА-Я]/]: U+0430..U+044F and U+0410..U+042F *)
Definition cyrillicLetterRegex : regex :=
  Char (fun c => in_range 0x430 0x44F c || in_range 0x410 0x42F c).

(** [/[a-zA-Z]/] *)
Definition latinLetterRegex : regex := Char is_ascii_letter.

(** [/\$?\d+\s*(usd|eur|gbp|btc|eth)?|\$\d+/gi] *)
Definition amountPattern : regex :=
  Alt (Seqs [ Opt (Lit (js "$")); digits; Star (Char is_space);
              Opt (Alts (map (fun s => LitI (js s)) [ "usd"; "eur"; "gbp"; "btc"; "eth" ]%string)) ])
      (Seqs [ Lit (js "$"); digits ]).

(** [/(dm|message)\s+me\s+privately?|contact\s+me\s+privately?|don't\s+tell/i] *)
Definition privateContactRegex : regex :=
  Alts [ Seqs [ Alt (LitI (js "dm")) (LitI (js "message")); spaces; LitI (js "me"); spaces;
                LitI (js "privatel"); Opt (LitI (js "y")) ];
         Seqs [ LitI (js "contact"); spaces; LitI (js "me"); spaces;
                LitI (js "privatel"); Opt (LitI (js "y")) ];
         Seqs [ LitI (js "don't"); spaces; LitI (js "tell") ] ].

(** [/password|login|credential|username/i] *)
Definition credentialRegex : regex :=
  Alts (map (fun s => LitI (js s)) [ "password"; "login"; "credential"; "username" ]%string).

(** [/suspended|disabled|blocked|banned\s+permanently/i] *)
Definition suspensionRegex : regex :=
  Alts [ LitI (js "suspended"); LitI (js "disabled"); LitI (js "blocked");
         Seqs [ LitI (js "banned"); spaces; LitI (js "permanently") ] ].

(** *** The checks *)

(** Result of [checkMoneyRequest], [checkImpersonation] and [checkPhishing];
    while a check runs, [detected] is not yet set. *)
Record Check := {
  detected : bool;
  reasons : list jsstring;
  score : Z
}.

Record UrlCheck := {
  isSuspicious : bool;
  urls : list jsstring;
  url_reasons : list jsstring
}.

(** [reasons.push(reason); score += w] *)
Definition hit (reason : jsstring) (w : Z) (c : Check) : Check :=
  {| detected := detected c; reasons := reasons c ++ [reason]; score := score c + w |}.

Definition hit_if (b : bool) (reason : jsstring) (w : Z) (c : Check) : Check :=
  if b then hit reason w c else c.

Definition no_hits : Check := {| detected := false; reasons := []; score := 0 |}.

(** [return { detected: score > 0, reasons, score }] *)
Definition finish (c : Check) : Check :=
  {| detected := 0 <? score c; reasons := reasons c; score := score c |}.

Definition quoted (label : string) (s : jsstring) : jsstring :=
  js label ++ [dquote] ++ s ++ [dquote].

Section Detector.
Context `{CaseMapping}.

  (** The reasons one URL adds, in the order of the loop body. *)
Definition urlReasons (url : jsstring) : list jsstring :=
    let lowerUrl := toLowerCase url in
    flat_map (fun domain =>
                if includes lowerUrl domain
                then [js "Suspicious domain: " ++ domain] else [])
             SUSPICIOUS_DOMAINS
    ++ (if regex_test shortenerRegex lowerUrl
        then [js "URL shortener detected (hides real destination)"] else [])
    ++ (if regex_test ipRegex url
        then [js "Direct IP address link (suspicious)"] else [])
    ++ (if regex_test cyrillicLetterRegex lowerUrl && regex_test latinLetterRegex url
        then [js "Mixed alphabet characters (possible spoofing)"] else [])
    ++ (if includes url (js "@") && includes url (js "http")
        then [js "URL contains @ symbol (credential stuffing)"] else []).

Definition checkSuspiciousUrl (text : jsstring) : UrlCheck :=
    let urls := matchAll urlRegex text in
    let reasons := flat_map urlReasons urls in
    {| isSuspicious := (0 <? Z.of_nat (length reasons));
       urls := urls;
       url_reasons := reasons |}.

Definition emotionalWords : list jsstring :=
    map js [ "please help"; "beg you"; "desperate"; "emergency"; "family" ]%string.

Definition checkMoneyRequest (text : jsstring) : Check :=
    let lowerText := toLowerCase text in
    (* direct money keywords *)
    let c := fold_left
               (fun c keyword =>
                  hit_if (includes lowerText (toLowerCase keyword))
                         (quoted "Money keyword: " keyword) 3 c)
               MONEY_KEYWORDS no_hits in
    (* specific amounts *)
    let c := hit_if (regex_test amountPattern text) (js "Specific amount mentioned") 2 c in
    (* urgency + money combination *)
    let hasUrgency := existsb (fun p => includes lowerText (toLowerCase p)) URGENCY_PATTERNS in
    let hasMoney := existsb (fun k => includes lowerText (toLowerCase k)) MONEY_KEYWORDS in
    let c := hit_if (hasUrgency && hasMoney)
                    (js "Urgency + money request combination (high risk)") 5 c in
    (* emotional manipulation words *)
    let c := fold_left
               (fun c word =>
                  hit_if (includes lowerText word)
                         (quoted "Emotional manipulation: " word) 2 c)
               emotionalWords c in
    finish c.

Definition authorityWords : list jsstring :=
    map js [ "official"; "administrator"; "moderator"; "support"; "staff" ]%string.

Definition checkImpersonation (text : jsstring) (sender : option jsstring) : Check :=
    let lowerText := toLowerCase text in
    let c := fold_left
               (fun c pattern =>
                  hit_if (includes lowerText (toLowerCase pattern))
                         (quoted "Impersonation claim: " pattern) 4 c)
               IMPERSONATION_PATTERNS no_hits in
    (* [a && b || c] groups as [(a && b) || c] *)
    let c := fold_left
               (fun c word =>
                  hit_if ((includes lowerText word && includes lowerText (js "i am"))
                          || includes lowerText (js "i'm"))
                         (quoted "Authority claim: " word) 3 c)
               authorityWords c in
    let c := hit_if (includes lowerText (js "verify")
                     && (includes lowerText (js "account") || includes lowerText (js "profile")))
                    (js "Demands account verification") 3 c in
    let c := hit_if (regex_test privateContactRegex lowerText)
                    (js "Requests private communication (isolation tactic)") 4 c in
    finish c.

Definition checkPhishing (text : jsstring) : Check :=
    let lowerText := toLowerCase text in
    let c := fold_left
               (fun c keyword =>
                  hit_if (includes lowerText (toLowerCase keyword))
                         (quoted "Phishing phrase: " keyword) 3 c)
               PHISHING_KEYWORDS no_hits in
    let c := hit_if (regex_test credentialRegex text)
                    (js "Requests credentials or login info") 5 c in
    let c := hit_if (regex_test suspensionRegex lowerText)
                    (js "Threatens account suspension") 4 c in
    finish c.

  (** *** [analyzeMessageForFraud] *)

  (** The local variables of [analyzeMessageForFraud]. *)
Record Tally := {
    all_reasons : list jsstring;
    matchedPatterns : list jsstring;
    totalScore : Z;
    primaryType : FraudType;
    maxSeverityScore : Z
  }.

Definition tally0 : Tally :=
    {| all_reasons := []; matchedPatterns := []; totalScore := 0;
       primaryType := suspicious_link; maxSeverityScore := 0 |}.

Definition push_reasons (rs : list jsstring) (t : Tally) : Tally :=
    {| all_reasons := all_reasons t ++ rs; matchedPatterns := matchedPatterns t;
       totalScore := totalScore t; primaryType := primaryType t;
       maxSeverityScore := maxSeverityScore t |}.

Definition push_pattern (p : jsstring) (t : Tally) : Tally :=
    {| all_reasons := all_reasons t; matchedPatterns := matchedPatterns t ++ [p];
       totalScore := totalScore t; primaryType := primaryType t;
       maxSeverityScore := maxSeverityScore t |}.

Definition add_score (n : Z) (t : Tally) : Tally :=
    {| all_reasons := all_reasons t; matchedPatterns := matchedPatterns t;
       totalScore := totalScore t + n; primaryType := primaryType t;
       maxSeverityScore := maxSeverityScore t |}.

Definition set_type (ty : FraudType) (t : Tally) : Tally :=
    {| all_reasons := all_reasons t; matchedPatterns := matchedPatterns t;
       totalScore := totalScore t; primaryType := ty;
       maxSeverityScore := maxSeverityScore t |}.

Definition raise_max (n : Z) (t : Tally) : Tally :=
    {| all_reasons := all_reasons t; matchedPatterns := matchedPatterns t;
       totalScore := totalScore t; primaryType := primaryType t;
       maxSeverityScore := Z.max (maxSeverityScore t) n |}.

  (** The body of [analyzeMessageForFraud] between the length gate and the
      severity bucketing, statement by statement. *)
Definition tallyChecks (text : jsstring) (sender : option jsstring) : Tally :=
    let t := tally0 in
    (* suspicious URLs *)
    let urlCheck := checkSuspiciousUrl text in
    let t :=
      if isSuspicious urlCheck then
        let t := push_reasons (url_reasons urlCheck) t in
        let t := push_pattern (js "suspicious_url") t in
        let t := add_score (Z.of_nat (length (url_reasons urlCheck)) * 2) t in
        let phishingCheck := checkPhishing text in
        if detected phishingCheck then
          let t := set_type phishing t in
          let t := add_score (score phishingCheck) t in
          let t := raise_max (score phishingCheck) t in
          push_reasons (reasons phishingCheck) t
        else t
      else t in
    (* money requests *)
    let moneyCheck := checkMoneyRequest text in
    let t :=
      if detected moneyCheck then
        let t := set_type money_request t in
        let t := add_score (score moneyCheck) t in
        let t := raise_max (score moneyCheck) t in
        let t := push_reasons (reasons moneyCheck) t in
        push_pattern (js "money_request") t
      else t in
    (* impersonation *)
    let impersonationCheck := checkImpersonation text sender in
    let t :=
      if detected impersonationCheck then
        let t := if FraudType_eqb (primaryType t) money_request then t
                 else set_type impersonation t in
        let t := add_score (score impersonationCheck) t in
        let t := raise_max (score impersonationCheck) t in
        let t := push_reasons (reasons impersonationCheck) t in
        push_pattern (js "impersonation") t
      else t in
    (* urgency *)
    let urgencyCheck :=
      includes (toLowerCase text) (js "urgent")
      || includes (toLowerCase text) (js "emergency")
      || includes (toLowerCase text) (js "immediately") in
    if urgencyCheck then
      let t := add_score 2 t in
      let t := push_reasons [js "Uses urgency language"] t in
      push_pattern (js "urgency") t
    else t.

Definition severityOf (totalScore : Z) : Severity :=
    if 10 <=? totalScore then critical
    else if 7 <=? totalScore then high
    else if 4 <=? totalScore then medium
    else low.

Definition analyzeMessageForFraud (msg : TelegramMessage) : option FraudResult :=
    if negb (MessageKind_eqb (type msg) message) then None else
    let text := getMessageText msg in
    (* [!text || text.length < 5] *)
    if str_eqb text [] || (str_length text <? 5) then None else
    let t := tallyChecks text (from msg) in
    let severity := severityOf (totalScore t) in
    (* only a significant score is returned *)
    if totalScore t <? 3 then None else
    Some {| r_message := msg;
            r_type := primaryType t;
            r_severity := severity;
            r_score := totalScore t;
            r_reasons := all_reasons t;
            r_matchedPatterns := matchedPatterns t |}.

  (** *** [findFraud] *)

Record FindOptions := {
    minSeverity : option Severity;
    maxResults : option Z;
    types : option (list FraudType)
  }.

  (** [severityLevels = { low: 1, medium: 2, high: 3, critical: 4 }] *)
Definition severityLevels (s : Severity) : Z :=
    match s with low => 1 | medium => 2 | high => 3 | critical => 4 end.

Definition findFraud (messages : list TelegramMessage) (options : FindOptions)
    : list FraudResult :=
    let minSeverity := default low (minSeverity options) in
    let maxResults := default 50 (maxResults options) in
    let minLevel := severityLevels minSeverity in
    let results :=
      fold_left
        (fun results msg =>
           match analyzeMessageForFraud msg with
           | None => results
           | Some fraud =>
               if severityLevels (r_severity fraud) <? minLevel then results
               else
                 match types options with
                 | Some ts =>
                     if negb (existsb (FraudType_eqb (r_type fraud)) ts) then results
                     else results ++ [fraud]
                 | None => results ++ [fraud]
                 end
           end)
        messages [] in
    let results := array_sort (descending r_score) results in
    slice0 results maxResults.

  (** *** [getFraudStats] *)

  (** [Record<FraudType, number>] *)
Record ByType := {
    n_phishing : Z; n_money_request : Z; n_impersonation : Z;
    n_urgency : Z; n_suspicious_link : Z
  }.

Record BySeverity := { n_low : Z; n_medium : Z; n_high : Z; n_critical : Z }.

  (** [byType[ty]++] *)
Definition incrType (ty : FraudType) (b : ByType) : ByType :=
    match ty with
    | phishing => {| n_phishing := n_phishing b + 1; n_money_request := n_money_request b;
                     n_impersonation := n_impersonation b; n_urgency := n_urgency b;
                     n_suspicious_link := n_suspicious_link b |}
    | money_request => {| n_phishing := n_phishing b; n_money_request := n_money_request b + 1;
                     n_impersonation := n_impersonation b; n_urgency := n_urgency b;
                     n_suspicious_link := n_suspicious_link b |}
    | impersonation => {| n_phishing := n_phishing b; n_money_request := n_money_request b;
                     n_impersonation := n_impersonation b + 1; n_urgency := n_urgency b;
                     n_suspicious_link := n_suspicious_link b |}
    | urgency => {| n_phishing := n_phishing b; n_money_request := n_money_request b;
                     n_impersonation := n_impersonation b; n_urgency := n_urgency b + 1;
                     n_suspicious_link := n_suspicious_link b |}
    | suspicious_link => {| n_phishing := n_phishing b; n_money_request := n_money_request b;
                     n_impersonation := n_impersonation b; n_urgency := n_urgency b;
                     n_suspicious_link := n_suspicious_link b + 1 |}
    end.

  (** [bySeverity[s]++] *)
Definition incrSeverity (s : Severity) (b : BySeverity) : BySeverity :=
    match s with
    | low => {| n_low := n_low b + 1; n_medium := n_medium b; n_high := n_high b;
                n_critical := n_critical b |}
    | medium => {| n_low := n_low b; n_medium := n_medium b + 1; n_high := n_high b;
                n_critical := n_critical b |}
    | high => {| n_low := n_low b; n_medium := n_medium b; n_high := n_high b + 1;
                n_critical := n_critical b |}
    | critical => {| n_low := n_low b; n_medium := n_medium b; n_high := n_high b;
                n_critical := n_critical b + 1 |}
    end.

Record Contributor := { name : jsstring; c_count : Z; c_totalScore : Z }.

  (** [senderScores.get(sender) || { count: 0, totalScore: 0 }], then the
      two updates and [senderScores.set(sender, existing)]: a [Map] keeps the
      position of a key that is set again. *)
Fixpoint creditSender (sender : jsstring) (s : Z) (m : list Contributor) : list Contributor :=
    match m with
    | [] => [ {| name := sender; c_count := 0 + 1; c_totalScore := 0 + s |} ]
    | e :: m' =>
        if str_eqb (name e) sender
        then {| name := sender; c_count := c_count e + 1; c_totalScore := c_totalScore e + s |} :: m'
        else e :: creditSender sender s m'
    end.

Record FraudStats := {
    total : Z;
    byType : ByType;
    bySeverity : BySeverity;
    topContributors : list Contributor
  }.

  (** The aggregates of [getFraudStats] over the list it calls [allFraud]. *)
Definition statsOf (allFraud : list FraudResult) : FraudStats :=
    let byType := fold_left (fun b fraud => incrType (r_type fraud) b) allFraud
                    {| n_phishing := 0; n_money_request := 0; n_impersonation := 0;
                       n_urgency := 0; n_suspicious_link := 0 |} in
    let bySeverity := fold_left (fun b fraud => incrSeverity (r_severity fraud) b) allFraud
                    {| n_low := 0; n_medium := 0; n_high := 0; n_critical := 0 |} in
    let senderScores :=
      fold_left
        (fun m fraud =>
           let sender := if truthy_str (from (r_message fraud))
                         then default [] (from (r_message fraud))
                         else js "Unknown" in
           creditSender sender (r_score fraud) m)
        allFraud [] in
    let topContributors :=
      slice0 (array_sort (descending c_totalScore) senderScores) 5 in
    {| total := Z.of_nat (length allFraud);
       byType := byType;
       bySeverity := bySeverity;
       topContributors := topContributors |}.

  (** Sums of the tallies, to state that each counts every result once. *)
Definition sumByType (b : ByType) : Z :=
    n_phishing b + n_money_request b + n_impersonation b + n_urgency b + n_suspicious_link b.

Definition sumBySeverity (b : BySeverity) : Z :=
    n_low b + n_medium b + n_high b + n_critical b.

Definition getFraudStats (messages : list TelegramMessage) : FraudStats :=
    let allFraud :=
      findFraud messages {| minSeverity := None; maxResults := Some 1000; types := None |} in
    statsOf allFraud.

End Detector.

End Fraud.

(* ===================================================================== *)
(** ** reply-graph *)
(* ===================================================================== *)

(** *** The breadth-first loops

    Both [while] loops of [buildReplyGraph] have the shape

      while (queue.length > 0) {
        const current = queue.shift()
        ... visit current ...
        for (const n of successors(current))
          if (!visited.has(key(n))) { visited.add(key(n)); queue.push(n) }
      }

    [worklist] is that loop; [fuel] bounds the number of iterations and
    [None] is returned when it runs out. *)
Section Worklist.
Context {X St : Type}.
Variable key : X -> Z.
Variable successors : X -> list X.
Variable visit : X -> St -> St.

Definition enqueue_new (qv : list X * gset Z) (n : X) : list X * gset Z :=
    if decide (key n ∈ qv.2) then qv else (qv.1 ++ [n], {[key n]} ∪ qv.2).

Fixpoint worklist (fuel : nat) (queue : list X) (visited : gset Z) (st : St)
    : option (St * gset Z) :=
    match fuel with
    | O => None
    | S fuel' =>
        match queue with
        | [] => Some (st, visited)
        | current :: rest =>
            let st := visit current st in
            let qv := fold_left enqueue_new (successors current) (rest, visited) in
            worklist fuel' qv.1 qv.2 st
        end
    end.
End Worklist.

Module ReplyGraph.

(** [date] and [radius], which only the rendering reads, and the d3-force
    fields are left out. *)
Record GraphNode := {
  node_id : Z;
  node_message : TelegramMessage;
  node_text : jsstring;
  reactionCount : N;
  hasMedia : bool;
  isForwardedReply : bool;
  chainId : Z
}.

Record GraphEdge := {
  source : Z;
  target : Z
}.

Record ReplyChain := {
  chain_id : Z;
  chain_nodes : list GraphNode;
  chain_edges : list GraphEdge;
  rootId : Z;
  depth : Z
}.

Record ReplyGraphData := {
  nodes : list GraphNode;
  edges : list GraphEdge;
  chains : list ReplyChain;
  selfReplyCount : Z;
  crossChannelReplyCount : Z
}.

Definition createPhantomMessage (i : Z) : TelegramMessage :=
  {| id := i; type := message; date := js "1970-01-01T00:00:00";
     from := None; text := BodyString (js "[External / missing message]");
     reply_to_message_id := None; forwarded_from := None;
     photo := None; file := None; media_type := None; reactions := None |}.

(** [nodeIds.add(i)] on the insertion-ordered [Set<number>] *)
Definition add_id (i : Z) (s : list Z) : list Z :=
  if existsb (Z.eqb i) s then s else s ++ [i].

(** [array.includes(i)] *)
Definition includes_id (l : list Z) (i : Z) : bool := existsb (Z.eqb i) l.

(** The variables of the first loop of [buildReplyGraph]. *)
Record Replies := {
  selfReplies : Z;
  crossChannelReplies : Z;
  ids : list Z;
  replyEdges : list GraphEdge
}.

Definition messageMapOf (messages : list TelegramMessage) : gmap Z TelegramMessage :=
  fold_left (fun m msg => <[id msg := msg]> m) messages ∅.

Definition collectReply (messageMap : gmap Z TelegramMessage) (includeCrossChannel : bool)
           (st : Replies) (msg : TelegramMessage) : Replies :=
  match reply_to_message_id msg with
  | None => st
  | Some targetId =>
      let link (st : Replies) (self cross : Z) : Replies :=
        {| selfReplies := self; crossChannelReplies := cross;
           ids := add_id targetId (add_id (id msg) (ids st));
           replyEdges := replyEdges st ++ [ {| source := targetId; target := id msg |} ] |} in
      match messageMap !! targetId with
      | Some _ => link st (selfReplies st + 1) (crossChannelReplies st)
      | None =>
          if includeCrossChannel
          then link st (selfReplies st) (crossChannelReplies st + 1)
          else {| selfReplies := selfReplies st;
                  crossChannelReplies := crossChannelReplies st + 1;
                  ids := ids st; replyEdges := replyEdges st |}
      end
  end.

Definition buildNode (messageMap : gmap Z TelegramMessage) (i : Z) : GraphNode :=
  let msg := messageMap !! i in
  let text := match msg with
              | Some m => getMessageText m
              | None => js "[External message]"
              end in
  {| node_id := i;
     node_message := default (createPhantomMessage i) msg;
     node_text := str_slice0 120 text;
     reactionCount := from_option reactionTotal 0%N msg;
     hasMedia := from_option hasMediaField false msg;
     isForwardedReply := negb (bool_decide (is_Some (messageMap !! i)));
     chainId := 0 |}.

Definition set_chainId (c : Z) (n : GraphNode) : GraphNode :=
  {| node_id := node_id n; node_message := node_message n; node_text := node_text n;
     reactionCount := reactionCount n; hasMedia := hasMedia n;
     isForwardedReply := isForwardedReply n; chainId := c |}.

(** The adjacency lists: [adj.get(k).push(v)]. *)
Definition adjacency (nodeIds : list Z) (edges : list GraphEdge) : gmap Z (list Z) :=
  let adj := fold_left (fun adj i => <[i := []]> adj) nodeIds ∅ in
  fold_left
    (fun adj e =>
       let adj := alter (fun l => l ++ [target e]) (source e) adj in
       alter (fun l => l ++ [source e]) (target e) adj)
    edges adj.

(** A chain as the component loop leaves it: its nodes are references into
    the node map, kept here as ids. *)
Record ChainDraft := {
  draft_id : Z;
  draft_nodeIds : list Z;
  draft_edges : list GraphEdge;
  draft_rootId : Z;
  draft_depth : Z
}.

(** The variables of the component loop. *)
Record Components := {
  visited : gset Z;
  drafts : list ChainDraft;
  lastChainId : Z;
  nodeObjects : gmap Z GraphNode
}.

(** [roots[0] || chainNodeIds[0]]: a root with id 0 is falsy. *)
Definition pickRoot (roots chainNodeIds : list Z) : Z :=
  match roots with
  | r :: _ => if r =? 0 then hd 0 chainNodeIds else r
  | [] => hd 0 chainNodeIds
  end.

(** [adj.get(current) || []] *)
Definition neighbours (adj : gmap Z (list Z)) (current : Z) : list Z :=
  default [] (adj !! current).

(** [chainNodeIds.push(current); if (node) node.chainId = chainId] *)
Definition mark (chainId : Z) (current : Z) (acc : list Z * gmap Z GraphNode)
  : list Z * gmap Z GraphNode :=
  (acc.1 ++ [current], alter (set_chainId chainId) current acc.2).

(** The entries [[e.target, depth + 1]] for the edges [e] of the chain
    that leave [cid], where the queue entry [cur] is [[cid, depth]]. *)
Definition deeper (chainEdges : list GraphEdge) (cur : Z * Z) : list (Z * Z) :=
  map (fun e => (target e, cur.2 + 1))
      (filter (fun e => source e =? cur.1) chainEdges).

Section Component.
Variable fuel : nat.
Variable adj : gmap Z (list Z).
Variable edges : list GraphEdge.

  (** The depth loop: breadth-first from the root along the chain's edges. *)
Definition chainDepth (chainEdges : list GraphEdge) (rootId : Z) : option Z :=
    fst <$>
      worklist fst (deeper chainEdges)
        (fun cur maxDepth => Z.max maxDepth cur.2)
        fuel [(rootId, 0)] {[rootId]} 0.

  (** One iteration of [for (const startId of nodeIds)]. *)
Definition component (st : Components) (startId : Z) : option Components :=
    if decide (startId ∈ visited st) then Some st else
    let chainId := lastChainId st + 1 in
    '(found, visited') ←
      worklist (fun i : Z => i) (neighbours adj) (mark chainId)
        fuel [startId] ({[startId]} ∪ visited st) ([], nodeObjects st);
    let chainNodeIds := found.1 in
    let chainEdges :=
      filter (fun e => includes_id chainNodeIds (source e)
                       && includes_id chainNodeIds (target e)) edges in
    let hasIncoming := map target chainEdges in
    let roots := filter (fun i => negb (includes_id hasIncoming i)) chainNodeIds in
    let rootId := pickRoot roots chainNodeIds in
    maxDepth ← chainDepth chainEdges rootId;
    Some {| visited := visited';
            drafts := drafts st ++
                      [ {| draft_id := chainId; draft_nodeIds := chainNodeIds;
                           draft_edges := chainEdges; draft_rootId := rootId;
                           draft_depth := maxDepth |} ];
            lastChainId := chainId;
            nodeObjects := found.2 |}.
End Component.

(** [chainNodeIds.map((id) => nodeMap.get(id)!)], read when the function
    returns: the chain shares its node objects with [nodes]. *)
Definition resolveChain (nodeMap : gmap Z GraphNode) (d : ChainDraft) : ReplyChain :=
  {| chain_id := draft_id d;
     chain_nodes := omap (fun i => nodeMap !! i) (draft_nodeIds d);
     chain_edges := draft_edges d;
     rootId := draft_rootId d;
     depth := draft_depth d |}.

(** [None] only if a loop bound is exhausted, which never happens (see
    [buildReplyGraph_returns]). *)
Definition buildReplyGraph (messages : list TelegramMessage) (includeCrossChannel : bool)
  : option ReplyGraphData :=
  let messageMap := messageMapOf messages in
  let replyMessages :=
    filter (fun m => MessageKind_eqb (type m) message
                     && bool_decide (is_Some (reply_to_message_id m))) messages in
  let replies :=
    fold_left (collectReply messageMap includeCrossChannel) replyMessages
      {| selfReplies := 0; crossChannelReplies := 0; ids := []; replyEdges := [] |} in
  let nodeIds := ids replies in
  let edges := replyEdges replies in
  let nodes := map (buildNode messageMap) nodeIds in
  let adj := adjacency nodeIds edges in
  let nodeMap := fold_left (fun m n => <[node_id n := n]> m) nodes ∅ in
  let fuel := S (length nodeIds) in
  final ← fold_left (fun st startId => st ← st; component fuel adj edges st startId)
                nodeIds
                (Some {| visited := ∅; drafts := []; lastChainId := 0; nodeObjects := nodeMap |});
  (* the node objects, as mutated by the component loop *)
  let nodes := omap (fun i => nodeObjects final !! i) nodeIds in
  let chains := map (resolveChain (nodeObjects final)) (drafts final) in
  let chains :=
    array_sort (descending (fun c => Z.of_nat (length (chain_nodes c)))) chains in
  Some {| nodes := nodes;
          edges := edges;
          chains := chains;
          selfReplyCount := selfReplies replies;
          crossChannelReplyCount := crossChannelReplies replies |}.

(** *** Invariants of the loops *)

(** The reply loop: the ids are distinct and hold the end points of the
    edges. *)
Definition replies_ok (st : Replies) : Prop :=
  base.NoDup (ids st)
  /\ (forall e, e ∈ replyEdges st -> (source e ∈ ids st) /\ (target e ∈ ids st)).

(** The adjacency lists only hold end points of edges of [E]. *)
Definition endpoints_only (E : list GraphEdge) (adj : gmap Z (list Z)) : Prop :=
  forall k l n, adj !! k = Some l -> n ∈ l ->
                exists e, e ∈ E /\ (n = source e \/ n = target e).

(** A node is stored under its id. *)
Definition nodes_ok (nm : gmap Z GraphNode) : Prop :=
  forall i n, nm !! i = Some n -> node_id n = i.

(** The component loop, for node ids in [U]: the chains found so far are
    disjoint and cover exactly the visited ids. *)
Definition components_ok (U : gset Z) (st : Components) : Prop :=
  let found := concat (map draft_nodeIds (drafts st)) in
  base.NoDup found
  /\ (forall i, i ∈ visited st <-> i ∈ found)
  /\ visited st ⊆ U
  /\ nodes_ok (nodeObjects st)
  /\ (forall i, i ∈ U -> is_Some (nodeObjects st !! i)).

End ReplyGraph.

(* ===================================================================== *)
(** ** Numbers *)
(* ===================================================================== *)

(** A JavaScript number is an IEEE-754 double.  Integers are exact in
    doubles up to 2^53 and are kept in [Z] where the code only counts.  The
    keyword overlap of [findSimilarPosts] divides one small count by another
    and multiplies by 40: there a double is the rational it denotes, and the
    division and the multiplication are rounded by [round_double], whose
    exponent range is not bounded since these values stay far from overflow
    and underflow.  The post score and the ranking of the top posts add up
    and divide reaction counts, which are arbitrary numbers of the export:
    they are computed in [Double.double], further down, with overflow to
    Infinity and NaN. *)

Local Open Scope Q_scope.

(** The integer nearest to [q], ties to even. *)
Definition round_half_even (q : Q) : Z :=
  let f := Qfloor q in
  let r := q - inject_Z f in
  match Qcompare r (1 # 2) with
  | Lt => f
  | Gt => (f + 1)%Z
  | Eq => if Z.even f then f else (f + 1)%Z
  end.

(** [2^k] for any integer [k] *)
Definition pow2 (k : Z) : Q := Qpower 2 k.

(** The exponent [e] with [2^e <= q < 2^(e+1)], for [0 < q]. *)
Definition exponent (q : Q) : Z :=
  let k := (Z.log2 (Qnum q) - Z.log2 (Zpos (Qden q)))%Z in
  if Qle_bool (pow2 k) q then k else (k - 1)%Z.

(** Round to nearest, ties to even, with a significand of 53 bits. *)
Definition round_double (q : Q) : Q :=
  match Qnum q with
  | Z0 => 0
  | Zpos _ =>
      let e := (exponent q - 52)%Z in
      inject_Z (round_half_even (q / pow2 e)) * pow2 e
  | Zneg _ =>
      let e := (exponent (- q) - 52)%Z in
      - (inject_Z (round_half_even (- q / pow2 e)) * pow2 e)
  end.

(** [a / b] and [a * b] on doubles *)
Definition fdiv (a b : Q) : Q := round_double (a / b).
Definition fmul (a b : Q) : Q := round_double (a * b).

(** The literal [0.3] *)
Definition double_0_3 : Q := round_double (3 # 10).

(** [Math.round]: the nearest integer, ties towards positive infinity. *)
Definition Math_round (q : Q) : Z := Qfloor (q + (1 # 2)).

(** [Math.min] and [Math.max] on doubles *)
Definition Math_min (a b : Q) : Q := if Qle_bool a b then a else b.
Definition Math_max (a b : Q) : Q := if Qle_bool a b then b else a.

(** The rational a finite binary64 value denotes, to compare
    [round_double] with the arithmetic of the machine. *)
Definition binary64_value (f : PrimFloat.float) : Q :=
  match FloatOps.Prim2SF f with
  | SpecFloat.S754_finite s m e =>
      (if s then - inject_Z (Zpos m) else inject_Z (Zpos m)) * pow2 e
  | _ => 0
  end.

Definition binary64_of_Z (z : Z) : PrimFloat.float :=
  PrimFloat.of_uint63 (Uint63.of_Z z).

(** [a / b * c] in [round_double] arithmetic is the binary64 result. *)
Definition agrees_on (a b c : Z) : bool :=
  Qeq_bool (fmul (fdiv (inject_Z a) (inject_Z b)) (inject_Z c))
           (binary64_value
              (PrimFloat.mul
                 (PrimFloat.div (binary64_of_Z a) (binary64_of_Z b))
                 (binary64_of_Z c))).

(** [n * 0.3] in [round_double] arithmetic is the binary64 result; the
    literal [0.3] is the binary64 value of 5404319552844595 * 2^-54. *)
Definition agrees_on_0_3 (n : Z) : bool :=
  Qeq_bool (fmul (inject_Z n) double_0_3)
           (binary64_value
              (PrimFloat.mul (binary64_of_Z n)
                 (FloatOps.SF2Prim (SpecFloat.S754_finite false 5404319552844595 (-54))))).

(** *** Doubles with their infinities

    Where a sum or a quotient can leave the range of the finite doubles (the
    reaction counts of an export are arbitrary JSON numbers) a number is a
    [double]: a finite value, as the rational it denotes, an infinity or
    NaN.  Rounding is to nearest, ties to even, with a significand of 53
    bits above [2^-1022], the fixed spacing [2^-1074] below, and overflow to
    an infinity from [2^1024] on.  The sign of a zero is not kept: no
    operation below divides by a zero or looks at its sign. *)

Module Double.

Inductive double :=
| finite (q : Q)
| infinity (negative : bool)
| NaN.

(** [q] rounded to a multiple of [2^e] *)
Definition round_at (e : Z) (q : Q) : Q :=
  inject_Z (round_half_even (q / pow2 e)) * pow2 e.

(** The exponent of the last place of the double nearest to [q], [0 < q]. *)
Definition last_place (q : Q) : Z := Z.max (exponent q - 52) (-1074).

(** The double nearest to [q]. *)
Definition round_binary64 (q : Q) : double :=
  match Qnum q with
  | Z0 => finite 0
  | Zpos _ =>
      let r := round_at (last_place q) q in
      if Qle_bool (pow2 1024) r then infinity false else finite (Qred r)
  | Zneg _ =>
      let r := round_at (last_place (- q)) (- q) in
      if Qle_bool (pow2 1024) r then infinity true else finite (Qred (- r))
  end.

(** A literal, and a count read by [JSON.parse]. *)
Definition of_Z (z : Z) : double := round_binary64 (inject_Z z).
Definition of_N (n : N) : double := of_Z (Z.of_N n).

(** The integer [n] as a double: exact below [2^53]. *)
Definition int (n : Z) : double := finite (inject_Z n).

(** A string or array length: an integer below [2^53], which is a double. *)
Definition of_length (z : Z) : double := int z.

Definition is_negative (q : Q) : bool :=
  match Qnum q with Zneg _ => true | _ => false end.

Definition is_zero (q : Q) : bool :=
  match Qnum q with Z0 => true | _ => false end.

(** [a + b] *)
Definition add (a b : double) : double :=
  match a, b with
  | NaN, _ | _, NaN => NaN
  | infinity s, infinity s' => if Bool.eqb s s' then infinity s else NaN
  | infinity s, finite _ => infinity s
  | finite _, infinity s => infinity s
  | finite x, finite y => round_binary64 (x + y)
  end.

(** [-a] *)
Definition neg (a : double) : double :=
  match a with
  | NaN => NaN
  | infinity s => infinity (negb s)
  | finite x => finite (- x)
  end.

(** [a - b] *)
Definition sub (a b : double) : double := add a (neg b).

(** [a * b] *)
Definition mul (a b : double) : double :=
  match a, b with
  | NaN, _ | _, NaN => NaN
  | infinity s, infinity s' => infinity (xorb s s')
  | infinity s, finite y =>
      if is_zero y then NaN else infinity (xorb s (is_negative y))
  | finite x, infinity s =>
      if is_zero x then NaN else infinity (xorb (is_negative x) s)
  | finite x, finite y => round_binary64 (x * y)
  end.

(** [a / b]; a zero divisor is [+0]. *)
Definition div (a b : double) : double :=
  match a, b with
  | NaN, _ | _, NaN => NaN
  | infinity _, infinity _ => NaN
  | infinity s, finite y => infinity (xorb s (is_negative y))
  | finite _, infinity _ => finite 0
  | finite x, finite y =>
      if is_zero y
      then if is_zero x then NaN else infinity (is_negative x)
      else round_binary64 (x / y)
  end.

(** [a < b] and [a <= b]; a comparison with NaN is false. *)
Definition lt (a b : double) : bool :=
  match a, b with
  | NaN, _ | _, NaN => false
  | infinity s, infinity s' => s && negb s'
  | infinity s, finite _ => s
  | finite _, infinity s => negb s
  | finite x, finite y => negb (Qle_bool y x)
  end.

Definition le (a b : double) : bool :=
  match a, b with
  | NaN, _ | _, NaN => false
  | infinity s, infinity s' => s || negb s'
  | infinity s, finite _ => s
  | finite _, infinity s => negb s
  | finite x, finite y => Qle_bool x y
  end.

(** [a > b] and [a >= b] *)
Definition gt (a b : double) : bool := lt b a.
Definition ge (a b : double) : bool := le b a.

(** [Math.min(a, b)] and [Math.max(a, b)]: NaN when an argument is NaN. *)
Definition Math_min (a b : double) : double :=
  match a, b with
  | NaN, _ | _, NaN => NaN
  | _, _ => if le a b then a else b
  end.

Definition Math_max (a b : double) : double :=
  match a, b with
  | NaN, _ | _, NaN => NaN
  | _, _ => if le a b then b else a
  end.

(** [Math.round(a)]: the nearest integer, ties towards positive infinity. *)
Definition Math_round (a : double) : double :=
  match a with
  | finite x => finite (inject_Z (Qfloor (x + (1 # 2))))
  | _ => a
  end.

(** [a || 0]: zero and NaN are falsy. *)
Definition or_zero (a : double) : double :=
  match a with
  | NaN => finite 0
  | _ => a
  end.

(** The sign of the number a comparator returns, as [sort] reads it: NaN
    counts as 0. *)
Definition sign (a : double) : Z :=
  match a with
  | NaN => 0
  | infinity s => if s then -1 else 1
  | finite x => Z.sgn (Qnum x)
  end.

(** The binary64 value [m * 2^e], and the [double] a binary64 value is. *)
Definition binary64 (m e : Z) : PrimFloat.float :=
  FloatOps.SF2Prim (SpecFloat.binary_normalize FloatOps.prec FloatOps.emax m e false).

Definition of_binary64 (f : PrimFloat.float) : double :=
  match FloatOps.Prim2SF f with
  | SpecFloat.S754_zero _ => finite 0
  | SpecFloat.S754_infinity s => infinity s
  | SpecFloat.S754_nan => NaN
  | SpecFloat.S754_finite s m e =>
      finite (Qred ((if s then - inject_Z (Zpos m) else inject_Z (Zpos m)) * pow2 e))
  end.

(** The operations computed by the machine agree with the ones above on
    [x] and [y]. *)
Definition agrees_with_binary64 (x y : PrimFloat.float) : bool :=
  let same (f : PrimFloat.float) (d : double) :=
    match of_binary64 f, d with
    | finite p, finite q => Qeq_bool p q
    | infinity s, infinity s' => Bool.eqb s s'
    | NaN, NaN => true
    | _, _ => false
    end in
  same (PrimFloat.add x y) (add (of_binary64 x) (of_binary64 y))
  && same (PrimFloat.sub x y) (sub (of_binary64 x) (of_binary64 y))
  && same (PrimFloat.mul x y) (mul (of_binary64 x) (of_binary64 y))
  && (PrimFloat.is_zero y
      || same (PrimFloat.div x y) (div (of_binary64 x) (of_binary64 y)))
  && Bool.eqb (PrimFloat.ltb x y) (lt (of_binary64 x) (of_binary64 y))
  && Bool.eqb (PrimFloat.leb x y) (le (of_binary64 x) (of_binary64 y)).

(** Operands for the comparison: zero, Infinity and NaN, a small integer, a
    negative fraction, the literal [0.3], a count that overflows when
    doubled and the smallest positive double. *)
Definition sample_operands : list PrimFloat.float :=
  [ PrimFloat.zero; PrimFloat.infinity; PrimFloat.nan;
    binary64 3 0; binary64 (-3) (-2); binary64 5404319552844595 (-54);
    binary64 (10 ^ 308) 0; binary64 1 (-1074) ]%Z.

End Double.

Local Close Scope Q_scope.

(* ===================================================================== *)
(** ** post-scoring *)
(* ===================================================================== *)

Module PostScoring.

Section Score.
Import Double.

Record Breakdown := {
  s_reactions : double;
  s_textLength : double;
  s_media : double;
  s_links : double;
  s_replies : double;
  s_forwarded : double
}.

Record PostScore := {
  total : double;
  breakdown : Breakdown;
  percentile : double;
  label : jsstring
}.

(** [cond ? 1 : 0] *)
Definition flag (b : bool) : double := if b then finite 1 else finite 0.

(** [text.includes("http://") || text.includes("https://")] *)
Definition hasLinks (text : jsstring) : bool :=
  includes text (js "http://") || includes text (js "https://").

(** [msg.reactions?.reduce((s, r) => s + r.count, 0) || 0]: the counts are
    added as doubles, one after the other. *)
Definition reactionSum (msg : TelegramMessage) : double :=
  match reactions msg with
  | Some rs => or_zero (fold_left (fun s r => add s (of_N (count r))) rs (finite 0))
  | None => finite 0
  end.

(** The loop over [posts] that finds [maxReactions] and [maxTextLen]. *)
Definition corpusMaxima (posts : list TelegramMessage) : double * Z :=
  fold_left
    (fun mx m =>
       let r := reactionSum m in
       let t := str_length (getMessageText m) in
       (if gt r mx.1 then r else mx.1, if mx.2 <? t then t else mx.2))
    posts (finite 0, 0).

(** The literal [0.3] *)
Definition literal_0_3 : double := round_binary64 (3 # 10)%Q.

(** The six weighted sub-scores of a message; the source writes this
    expression once for [breakdown] and once more inside [allScores]. *)
Definition subScores (maxReactions : double) (maxTextLen : Z) (m : TelegramMessage)
  : Breakdown :=
  let totalReactions := reactionSum m in
  let text := getMessageText m in
  let textLen := str_length text in
  {| s_reactions :=
       if gt maxReactions (finite 0)
       then Math_round (mul (div totalReactions maxReactions) (finite 50))
       else finite 0;
     s_textLength :=
       if 0 <? maxTextLen
       then Math_round
              (mul (Math_min
                      (div (of_length textLen)
                           (Math_max (mul (of_length maxTextLen) literal_0_3) (finite 1)))
                      (finite 1))
                   (finite 20))
       else finite 0;
     s_media := mul (flag (hasMediaField m)) (finite 10);
     s_links := mul (flag (hasLinks text)) (finite 8);
     s_replies := mul (flag (truthy_num (reply_to_message_id m))) (finite 7);
     s_forwarded := mul (flag (truthy_str (forwarded_from m))) (finite 5) |}.

(** [Math.min(100, reactions + textLength + media + links + replies +
    forwarded)] *)
Definition cappedSum (b : Breakdown) : double :=
  Math_min (finite 100)
    (add (add (add (add (add (s_reactions b) (s_textLength b)) (s_media b)) (s_links b))
              (s_replies b))
         (s_forwarded b)).

Definition labelOf (percentile : double) : jsstring :=
  if ge percentile (finite 95) then js "Exceptional"
  else if ge percentile (finite 80) then js "Strong"
  else if ge percentile (finite 60) then js "Above Average"
  else if ge percentile (finite 40) then js "Average"
  else if ge percentile (finite 20) then js "Below Average"
  else js "Low".

Definition computePostScore (msg : TelegramMessage) (allMessages : list TelegramMessage)
  : PostScore :=
  let posts := filter (fun m => MessageKind_eqb (type m) message) allMessages in
  let mx := corpusMaxima posts in
  let breakdown := subScores mx.1 mx.2 msg in
  let total := cappedSum breakdown in
  (* percentile *)
  let allScores := map (fun m => cappedSum (subScores mx.1 mx.2 m)) posts in
  let allScores := array_sort (fun a b => sign (sub a b)) allScores in
  let rank := Z.of_nat (length (filter (fun s => le s total) allScores)) in
  let percentile :=
    Math_round
      (mul (div (of_length rank) (of_length (Z.max (Z.of_nat (length allScores)) 1)))
           (finite 100)) in
  {| total := total; breakdown := breakdown; percentile := percentile;
     label := labelOf percentile |}.

(** The reactions part as the machine computes it for a message with two
    reactions counted [c] times each, alone in its corpus. *)
Definition binary64_reactions_part (c : PrimFloat.float) : PrimFloat.float :=
  let totalReactions := PrimFloat.add (PrimFloat.add (binary64 0 0) c) c in
  let maxReactions := totalReactions in
  PrimFloat.mul (PrimFloat.div totalReactions maxReactions) (binary64 50 0).

End Score.

(** *** Similar posts *)

Record SimilarPost := {
  sp_message : TelegramMessage;
  sp_score : Z;
  sp_reasons : list jsstring
}.

(** [[\wЀ-ӿ]] under the [i] flag: the class and the code units
    whose upper-case form is the one of a member, U+1C80..U+1C87. *)
Definition is_tag_unit (c : Z) : bool :=
  is_word c || is_cyrillic_block c || in_range 0x1C80 0x1C87 c.

(** [/#[\wЀ-ӿ]+/gi] *)
Definition hashtagRegex : regex := Seq (Char (Z.eqb 35)) (Plus (Char is_tag_unit)).

(** [s.replace(/[^\w\sЀ-ӿ]/g, " ")] *)
Definition blankPunctuation (s : jsstring) : jsstring :=
  map (fun c => if is_word c || is_space c || is_cyrillic_block c then c else 32) s.

(** [s.split(/\s+/)]: [cur] is the piece being read, reversed, and
    [inSep] tells that the last code unit was white space. *)
Fixpoint split_spaces_from (cur : jsstring) (inSep : bool) (s : jsstring) : list jsstring :=
  match s with
  | [] => [rev cur]
  | c :: s' =>
      if is_space c
      then if inSep then split_spaces_from cur true s'
           else rev cur :: split_spaces_from [] true s'
      else split_spaces_from (c :: cur) false s'
  end.

Definition split_spaces (s : jsstring) : list jsstring := split_spaces_from [] false s.

Definition stopWords : list jsstring := map js [
  "that"; "this"; "with"; "from"; "have"; "been"; "will"; "your"; "what";
  "when"; "where"; "which"; "their"; "there"; "would"; "could"; "should";
  "about"; "after"; "before"; "being"; "between"; "both"; "each"; "also";
  "than"; "then"; "them"; "they"; "into"; "just"; "very"; "some"; "more";
  "only"; "over"; "such"; "like"; "http"; "https"; "were"; "does"; "done";
  "make"; "made"; "much"; "many"; "most"; "other"; "these"; "those" ]%string.

Section Similar.
Context `{CaseMapping}.

  (** The hashtags of a message: the [hashtag] entities of its body and
      the matches of [hashtagRegex] in its lower-cased text. *)
Definition hashtagsOf (msg : TelegramMessage) (lowerText : jsstring) : list jsstring :=
    let tags :=
      match text msg with
      | BodyParts parts =>
          fold_left
            (fun tags part =>
               match part with
               | EntityPart e =>
                   if str_eqb (entity_type e) (js "hashtag")
                   then set_add (toLowerCase (entity_text e)) tags else tags
               | PlainPart _ => tags
               end)
            parts []
      | BodyString _ => []
      end in
    fold_left (fun tags h => set_add (toLowerCase h) tags) (matchAll hashtagRegex lowerText) tags.

  (** The significant words of a lower-cased text. *)
Definition wordsOf (lowerText : jsstring) : list jsstring :=
    set_of_list
      (filter (fun w => (4 <? str_length w) && negb (set_has stopWords w))
              (split_spaces (blankPunctuation lowerText))).

  (** [n shared label(s)] *)
Definition counted (n : Z) (label : string) : jsstring :=
    decimal n ++ js label ++ (if 1 <? n then js "s" else []).

  (** The body of the loop over [posts]: the score of [msg] against the
      target and the reasons that go with it. *)
Definition similarity (target : TelegramMessage) (targetHashtags targetWords : list jsstring)
             (msg : TelegramMessage) : SimilarPost :=
    let msgText := toLowerCase (getMessageText msg) in
    let score := 0 in
    let reasons := [] in
    (* hashtag overlap *)
    let msgHashtags := hashtagsOf msg msgText in
    let matchedTags := filter (set_has msgHashtags) targetHashtags in
    let sharedHashtags := Z.of_nat (length matchedTags) in
    let '(score, reasons) :=
      if 0 <? sharedHashtags
      then (score + sharedHashtags * 30,
            reasons ++ [ counted sharedHashtags " shared hashtag" ++ js ": "
                         ++ join_with (js ", ") (firstn 3 matchedTags) ])
      else (score, reasons) in
    (* keyword overlap *)
    let msgWords := wordsOf msgText in
    let sharedWords := Z.of_nat (length (filter (set_has msgWords) targetWords)) in
    let size := Z.of_nat (length targetWords) in
    let '(score, reasons) :=
      if (0 <? sharedWords) && (0 <? size)
      then
        let wordScore :=
          Z.min 40 (Math_round (fmul (fdiv (inject_Z sharedWords) (inject_Z (Z.max size 1))) 40)) in
        (score + wordScore, reasons ++ [ counted sharedWords " shared keyword" ])
      else (score, reasons) in
    (* same forward source *)
    let '(score, reasons) :=
      match forwarded_from target, forwarded_from msg with
      | Some src, Some src' =>
          if truthy_str (Some src) && str_eqb src' src
          then (score + 15, reasons ++ [ js "Same source: " ++ src ])
          else (score, reasons)
      | _, _ => (score, reasons)
      end in
    (* same media type *)
    let '(score, reasons) :=
      match media_type target, media_type msg with
      | Some mt, Some mt' =>
          if truthy_str (Some mt) && str_eqb mt' mt
          then (score + 5, reasons ++ [ js "Same media type" ])
          else (score, reasons)
      | _, _ => (score, reasons)
      end in
    {| sp_message := msg; sp_score := score; sp_reasons := reasons |}.

  (** The candidate entry of [msg] for [target], scored as in the loop of
      [findSimilarPosts]. *)
Definition similarityTo (target msg : TelegramMessage) : SimilarPost :=
    let targetText := toLowerCase (getMessageText target) in
    similarity target (hashtagsOf target targetText) (wordsOf targetText) msg.

  (** The messages [findSimilarPosts] compares the target with. *)
Definition otherPosts (target : TelegramMessage) (allMessages : list TelegramMessage)
    : list TelegramMessage :=
    filter (fun m => MessageKind_eqb (type m) message && negb (id m =? id target))
           allMessages.

Definition findSimilarPosts (target : TelegramMessage) (allMessages : list TelegramMessage)
             (limit : Z) : list SimilarPost :=
    let targetText := toLowerCase (getMessageText target) in
    let targetHashtags := hashtagsOf target targetText in
    let targetWords := wordsOf targetText in
    let posts :=
      filter (fun m => MessageKind_eqb (type m) message && negb (id m =? id target))
             allMessages in
    let candidates :=
      fold_left
        (fun candidates msg =>
           let c := similarity target targetHashtags targetWords msg in
           if 10 <? sp_score c then candidates ++ [c] else candidates)
        posts [] in
    slice0 (array_sort (descending sp_score) candidates) limit.
End Similar.

End PostScoring.

(* ===================================================================== *)
(** ** calendar-wrapped *)
(* ===================================================================== *)

Module Calendar.

(** *** Dates *)

(** A valid [Date], by its fields in local time; [month] counts from 0 as
    [getMonth] does.  An invalid [Date] is [None].  The local time zone is
    taken to have a fixed offset, so a calendar day has 86400000 ms. *)
Record LocalDate := {
  fullYear : Z;
  month : Z;
  dayOfMonth : Z;
  hours : Z;
  minutes : Z;
  seconds : Z
}.

Definition msPerDay : Z := 1000 * 60 * 60 * 24.

(** Days from 1970-01-01 to the first day of month [m] (1..12) of year [y]
    in the proleptic Gregorian calendar. *)
Definition daysFromCivil (y m : Z) : Z :=
  let y' := if m <=? 2 then y - 1 else y in
  let era := y' / 400 in
  let yoe := y' - era * 400 in
  let doy := (153 * (if 2 <? m then m - 3 else m + 9) + 2) / 5 in
  let doe := yoe * 365 + yoe / 4 - yoe / 100 + doy in
  era * 146097 + doe - 719468.

(** [MakeDay(year, month, date)] of ECMAScript, [month] from 0 and carried
    into the year when it is out of 0..11. *)
Definition MakeDay (year month0 date : Z) : Z :=
  daysFromCivil (year + month0 / 12) (month0 mod 12 + 1) + date - 1.

Definition isLeapYear (y : Z) : bool :=
  ((y mod 4 =? 0) && negb (y mod 100 =? 0)) || (y mod 400 =? 0).

Definition daysInMonth (y m : Z) : Z :=
  if m =? 2 then (if isLeapYear y then 29 else 28)
  else if (m =? 4) || (m =? 6) || (m =? 9) || (m =? 11) then 30
  else 31.

(** A run of decimal digits as a number. *)
Definition parseDigits (s : jsstring) : option Z :=
  match s with
  | [] => None
  | _ => if forallb is_digit s
         then Some (fold_left (fun n c => n * 10 + (c - 48)) s 0)
         else None
  end.

(** [s.split(sep)] for a one-unit separator *)
Fixpoint split_on (sep : Z) (cur : jsstring) (s : jsstring) : list jsstring :=
  match s with
  | [] => [rev cur]
  | c :: s' => if c =? sep then rev cur :: split_on sep [] s'
               else split_on sep (c :: cur) s'
  end.

(** [new Date(s)] for the date-time form of an export,
    [YYYY-MM-DDTHH:mm:ss], which is read as local time.  Other strings, and
    days that the month does not have, on which engines differ, are taken
    as invalid. *)
Definition Date_ofExport (s : jsstring) : option LocalDate :=
  match split_on 84 [] s with
  | [d; t] =>
      match split_on 45 [] d, split_on 58 [] t with
      | [ys; ms; ds], [hs; mins; ss] =>
          if (length ys =? 4)%nat && (length ms =? 2)%nat && (length ds =? 2)%nat
             && (length hs =? 2)%nat && (length mins =? 2)%nat && (length ss =? 2)%nat
          then
            y ← parseDigits ys; m ← parseDigits ms; d ← parseDigits ds;
            h ← parseDigits hs; mi ← parseDigits mins; sec ← parseDigits ss;
            if in_range 1 12 m && in_range 1 (daysInMonth y m) d
               && in_range 0 23 h && in_range 0 59 mi && in_range 0 59 sec
            then Some {| fullYear := y; month := m - 1; dayOfMonth := d;
                         hours := h; minutes := mi; seconds := sec |}
            else None
          else None
      | _, _ => None
      end
  | _ => None
  end.

(** The three numbers of a [Y/M/D] string. *)
Definition slashNumbers (s : jsstring) : option (Z * Z * Z) :=
  match split_on 47 [] s with
  | [a; b; c] =>
      a ← parseDigits a; b ← parseDigits b; c ← parseDigits c; Some (a, b, c)
  | _ => None
  end.

(** [new Date(s).getTime()] for a string of three numbers separated by
    slashes.  This form is not the ISO one, so the engine's own parser reads
    it; this is the one of V8 (its [DayComposer]): the numbers are
    year/month/day unless the first could be a day, then month/day/year; a
    year below 100 is completed; the month must be 1..12 and the day 1..31;
    a day past the end of the month runs into the next.  [None] is [NaN]. *)
Definition Date_parse_legacy (s : jsstring) : option Z :=
  '(a, b, c) ← slashNumbers s;
  let '(year, mon, day) := if in_range 1 31 a then (c, a, b) else (a, b, c) in
  let year := if in_range 0 49 year then year + 2000
              else if in_range 50 99 year then year + 1900 else year in
  if in_range 1 12 mon && in_range 1 31 day
  then Some (MakeDay year (mon - 1) day * msPerDay)
  else None.

(** A parser that takes any month number, carrying it into the year as
    [MakeDay] does: month 0 is the December before. *)
Definition Date_parse_lenient (s : jsstring) : option Z :=
  '(year, mon, day) ← slashNumbers s;
  Some (MakeDay year (mon - 1) day * msPerDay).

(** *** [computeWrappedStats] *)

(** The scope of the statistics; [month] counts from 0, as [getMonth]. *)
Inductive Scope :=
| ScopeYear (year : Z)
| ScopeMonth (year month : Z)
| ScopeDay (year month day : Z).

(** The filter of [computeWrappedStats]: an invalid date has [NaN] fields,
    which equal nothing. *)
Definition inScope (scope : Scope) (m : TelegramMessage) : bool :=
  MessageKind_eqb (type m) message &&
  match Date_ofExport (date m) with
  | None => false
  | Some d =>
      match scope with
      | ScopeYear y => fullYear d =? y
      | ScopeMonth y mo => (fullYear d =? y) && (month d =? mo)
      | ScopeDay y mo da => (fullYear d =? y) && (month d =? mo) && (dayOfMonth d =? da)
      end
  end.

(** The key of a day in [daySet]: year, [getMonth()] and [getDate()],
    joined by "-". *)
Definition dayKey (d : LocalDate) : jsstring :=
  decimal (fullYear d) ++ js "-" ++ decimal (month d) ++ js "-" ++ decimal (dayOfMonth d).

(** [daySet], in insertion order *)
Definition daySetOf (filtered : list TelegramMessage) : list jsstring :=
  fold_left
    (fun daySet msg =>
       match Date_ofExport (date msg) with
       | Some d => set_add (dayKey d) daySet
       | None => daySet
       end)
    filtered [].

(** The order of [sort()] without a comparator: by code units. *)
Fixpoint str_ltb (s t : jsstring) : bool :=
  match s, t with
  | _, [] => false
  | [], _ :: _ => true
  | a :: s', b :: t' => (a <? b) || ((a =? b) && str_ltb s' t')
  end.

Definition compareStrings (s t : jsstring) : Z :=
  if str_ltb s t then -1 else if str_ltb t s then 1 else 0.

(** [key.replace(/-/g, "/")] *)
Definition dashesToSlashes (s : jsstring) : jsstring :=
  map (fun c => if c =? 45 then 47 else c) s.

Section Streak.
  (** The parser behind [new Date(key)] *)
Variable parse : jsstring -> option Z.

  (** [diff === 1] for [diff = (curr.getTime() - prev.getTime()) / msPerDay]:
      the quotient of two integers is the double 1 only if they are equal,
      and a [NaN] equals nothing. *)
Definition oneDayApart (prevKey currKey : jsstring) : bool :=
    match parse (dashesToSlashes prevKey), parse (dashesToSlashes currKey) with
    | Some prev, Some curr => curr - prev =? msPerDay
    | _, _ => false
    end.

  (** The streak loop from index 1 on: [prev] is [sortedDays[i - 1]] and
      the state is [(maxStreak, currentStreak)]. *)
Fixpoint streakLoop (prev : jsstring) (rest : list jsstring) (st : Z * Z) : Z * Z :=
    match rest with
    | [] => st
    | curr :: rest' =>
        let st := if oneDayApart prev curr
                  then (st.1, st.2 + 1)
                  else (Z.max st.1 st.2, 1) in
        streakLoop curr rest' st
    end.

Definition longestStreak (sortedDays : list jsstring) : Z :=
    let st := match sortedDays with
              | [] => (0, 1)
              | first :: rest => streakLoop first rest (0, 1)
              end in
    Z.max st.1 st.2.
End Streak.

(** The fields of [WrappedStats] that depend on the days alone; the
    totals, histograms and highlights computed from texts, reactions and
    hours are left out. *)
Record WrappedStats := {
  totalPosts : Z;
  streakDays : Z;
  avgPostsPerDay : Q
}.

Definition wrappedStatsWith (parse : jsstring -> option Z)
           (messages : list TelegramMessage) (scope : Scope) : WrappedStats :=
  let filtered := filter (inScope scope) messages in
  let daySet := daySetOf filtered in
  let sortedDays := array_sort compareStrings daySet in
  let totalPosts := Z.of_nat (length filtered) in
  let size := Z.of_nat (length daySet) in
  {| totalPosts := totalPosts;
     streakDays := longestStreak parse sortedDays;
     avgPostsPerDay := if 0 <? size then fdiv (inject_Z totalPosts) (inject_Z size) else 0%Q |}.

Definition computeWrappedStats : list TelegramMessage -> Scope -> WrappedStats :=
  wrappedStatsWith Date_parse_legacy.

End Calendar.

(* ===================================================================== *)
(** ** fraud-detector: the filter of [findFraud], the sender tallies and
       the call of the fraud view *)
(* ===================================================================== *)

Module FraudMore.
Import Fraud.

Section Detector.
Context `{CaseMapping}.

  (** The two tests a result passes before [findFraud] pushes it: its
      severity level is not below the one of [minSeverity], and its type is
      in [types] when [types] is given. *)
Definition passes (options : FindOptions) (fraud : FraudResult) : bool :=
    negb (severityLevels (r_severity fraud) <? severityLevels (default low (minSeverity options)))
    && match types options with
       | Some ts => existsb (FraudType_eqb (r_type fraud)) ts
       | None => true
       end.

  (** [fraud.message.from || "Unknown"] *)
Definition senderOf (fraud : FraudResult) : jsstring :=
    if truthy_str (from (r_message fraud))
    then default [] (from (r_message fraud))
    else js "Unknown".

  (** The entries of [senderScores] after the loop of [getFraudStats], in
      insertion order. *)
Definition senderScoresOf (allFraud : list FraudResult) : list Contributor :=
    fold_left (fun m fraud => creditSender (senderOf fraud) (r_score fraud) m) allFraud [].

  (** The results a sender is credited with. *)
Definition resultsFrom (sender : jsstring) (allFraud : list FraudResult) : list FraudResult :=
    List.filter (fun fraud => str_eqb (senderOf fraud) sender) allFraud.

Definition sumScores (l : list FraudResult) : Z :=
    fold_right Z.add 0 (map r_score l).

  (** [byType[ty]] *)
Definition byTypeAt (b : ByType) (ty : FraudType) : Z :=
    match ty with
    | phishing => n_phishing b
    | money_request => n_money_request b
    | impersonation => n_impersonation b
    | urgency => n_urgency b
    | suspicious_link => n_suspicious_link b
    end.

  (** [bySeverity[s]] *)
Definition bySeverityAt (b : BySeverity) (s : Severity) : Z :=
    match s with
    | low => n_low b
    | medium => n_medium b
    | high => n_high b
    | critical => n_critical b
    end.

Definition Severity_eqb (a b : Severity) : bool :=
    severityLevels a =? severityLevels b.

  (** The results of a type and of a severity among [allFraud]. *)
Definition resultsOfType (ty : FraudType) (allFraud : list FraudResult) : list FraudResult :=
    List.filter (fun fraud => FraudType_eqb (r_type fraud) ty) allFraud.

Definition resultsOfSeverity (s : Severity) (allFraud : list FraudResult)
    : list FraudResult :=
    List.filter (fun fraud => Severity_eqb (r_severity fraud) s) allFraud.

  (** The entry a sender has when the results credited are those of
      [allFraud]: their number and the sum of their scores. *)
Definition contributorOf (allFraud : list FraudResult) (sender : jsstring) : Contributor :=
    {| name := sender;
       c_count := Z.of_nat (length (resultsFrom sender allFraud));
       c_totalScore := sumScores (resultsFrom sender allFraud) |}.

  (** The call of the fraud view (src/unnamed/part_004):
      [findFraud(messages, { minSeverity, types: selectedTypes.length > 0 ?
      selectedTypes : undefined, maxResults: 50 })]. *)
Definition shownFrauds (messages : list TelegramMessage) (minSeverity : Severity)
             (selectedTypes : list FraudType) : list FraudResult :=
    findFraud messages
      {| minSeverity := Some minSeverity;
         maxResults := Some 50;
         types := if 0 <? Z.of_nat (length selectedTypes) then Some selectedTypes else None |}.
End Detector.

End FraudMore.

(* ===================================================================== *)
(** ** reply-graph: what the loops of [buildReplyGraph] establish *)
(* ===================================================================== *)

Module ReplyGraphMore.
Import ReplyGraph.

(** [messages.filter((m) => m.type === "message" && m.reply_to_message_id != null)] *)
Definition replyMessagesOf (messages : list TelegramMessage) : list TelegramMessage :=
  filter (fun m => MessageKind_eqb (type m) message
                   && bool_decide (is_Some (reply_to_message_id m))) messages.

(** [messageMap.has(msg.reply_to_message_id)] *)
Definition targetExists (messageMap : gmap Z TelegramMessage) (msg : TelegramMessage) : bool :=
  match reply_to_message_id msg with
  | Some targetId => bool_decide (is_Some (messageMap !! targetId))
  | None => false
  end.

(** The edge [{ source: targetId, target: msg.id }] of a reply. *)
Definition edgeOf (msg : TelegramMessage) : GraphEdge :=
  {| source := default 0 (reply_to_message_id msg); target := id msg |}.

(** The node objects after the component loop: the nodes of a chain found
    so far carry its id, the others are as they were built. *)
Definition labels_ok (nodeMap0 : gmap Z GraphNode) (st : Components) : Prop :=
  (forall d i, d ∈ drafts st -> i ∈ draft_nodeIds d ->
               nodeObjects st !! i = set_chainId (draft_id d) <$> nodeMap0 !! i)
  /\ (forall i, i ∉ visited st -> nodeObjects st !! i = nodeMap0 !! i).

(** The chains are numbered from 1 in the order they are found. *)
Definition numbered (st : Components) : Prop :=
  map draft_id (drafts st) = map Z.of_nat (seq 1 (length (drafts st)))
  /\ lastChainId st = Z.of_nat (length (drafts st)).

(** Each chain has a node, a root among its nodes, a depth below its
    number of nodes, the edges of [E] between its nodes, and the root that
    [pickRoot] takes among the nodes without an incoming edge. *)
Definition chain_ok (E : list GraphEdge) (d : ChainDraft) : Prop :=
  draft_nodeIds d <> []
  /\ draft_rootId d ∈ draft_nodeIds d
  /\ 0 <= draft_depth d < Z.of_nat (length (draft_nodeIds d))
  /\ draft_edges d
     = filter (fun e => includes_id (draft_nodeIds d) (source e)
                        && includes_id (draft_nodeIds d) (target e)) E
  /\ draft_rootId d
     = pickRoot (filter (fun i => negb (includes_id (map target (draft_edges d)) i))
                        (draft_nodeIds d))
                (draft_nodeIds d).

(** [n] is pushed onto the list of [k] for the edge [e]. *)
Definition joins (e : GraphEdge) (k n : Z) : Prop :=
  (source e = k /\ target e = n) \/ (target e = k /\ source e = n).

(** The chains found so far are closed under the adjacency lists. *)
Definition closed (adj : gmap Z (list Z)) (st : Components) : Prop :=
  forall d i n, d ∈ drafts st -> i ∈ draft_nodeIds d -> n ∈ neighbours adj i ->
                n ∈ draft_nodeIds d.

(** What one iteration of the component loop keeps, besides
    [components_ok]. *)
Definition chains_ok (E : list GraphEdge) (nodeMap0 : gmap Z GraphNode)
           (st : Components) : Prop :=
  labels_ok nodeMap0 st /\ numbered st /\ Forall (chain_ok E) (drafts st)
  /\ Forall (fun d => base.NoDup (draft_nodeIds d)) (drafts st).

(** The chain returned for a draft: its nodes are the built nodes,
    labelled with the id of the chain. *)
Definition chainOf (mm : gmap Z TelegramMessage) (d : ChainDraft) : ReplyChain :=
  {| chain_id := draft_id d;
     chain_nodes := map (fun i => set_chainId (draft_id d) (buildNode mm i))
                        (draft_nodeIds d);
     chain_edges := draft_edges d;
     rootId := draft_rootId d;
     depth := draft_depth d |}.

End ReplyGraphMore.

(* ===================================================================== *)
(** ** reply-graph: [buildForwardGraph] *)
(* ===================================================================== *)

Module ForwardGraph.
Import ReplyGraph.

(** [firstDate] and [lastDate], which only the rendering reads, are left
    out, as [date] and [radius] are in [GraphNode]. *)
Record ForwardSource := {
  name : jsstring;
  count : Z;
  totalReactions : N;
  messages : list TelegramMessage
}.

Record ForwardGraphData := {
  nodes : list GraphNode;
  edges : list GraphEdge;
  chains : list ReplyChain;
  sources : list ForwardSource;
  totalForwarded : Z;
  selfReplyCount : Z;
  crossChannelReplyCount : Z
}.

(** [messages.filter((m) => m.type === "message" && m.forwarded_from)] *)
Definition forwardedOf (messages : list TelegramMessage) : list TelegramMessage :=
  filter (fun m => MessageKind_eqb (type m) message && truthy_str (forwarded_from m)) messages.

(** An entry of [sourceMap]. *)
Definition SourceEntry : Type := jsstring * list TelegramMessage.

(** [if (!sourceMap.has(src)) sourceMap.set(src, []); sourceMap.get(src).push(msg)]
    on the insertion-ordered [Map]. *)
Fixpoint pushTo (src : jsstring) (msg : TelegramMessage) (m : list SourceEntry)
  : list SourceEntry :=
  match m with
  | [] => [ (src, [] ++ [msg]) ]
  | (k, msgs) :: m' =>
      if str_eqb k src then (k, msgs ++ [msg]) :: m'
      else (k, msgs) :: pushTo src msg m'
  end.

(** [msg.forwarded_from!] *)
Definition fwd (msg : TelegramMessage) : jsstring := default [] (forwarded_from msg).

Definition sourceMapOf (forwarded : list TelegramMessage) : list SourceEntry :=
  fold_left (fun m msg => pushTo (fwd msg) msg m) forwarded [].

(** [-(chainId * 10000)] *)
Definition hubIdOf (chainId : Z) : Z := - (chainId * 10000).

Definition hubNode (chainId : Z) (entry : SourceEntry) : GraphNode :=
  {| node_id := hubIdOf chainId;
     node_message := createPhantomMessage (hubIdOf chainId);
     node_text := entry.1;
     reactionCount := fold_left (fun s m => (s + reactionTotal m)%N) entry.2 0%N;
     hasMedia := false;
     isForwardedReply := true;
     chainId := chainId |}.

Definition msgNode (chainId : Z) (msg : TelegramMessage) : GraphNode :=
  {| node_id := id msg;
     node_message := msg;
     node_text := str_slice0 120 (getMessageText msg);
     reactionCount := reactionTotal msg;
     hasMedia := hasMediaField msg;
     isForwardedReply := false;
     chainId := chainId |}.

Definition sourceOf (entry : SourceEntry) : ForwardSource :=
  {| name := entry.1;
     count := Z.of_nat (length entry.2);
     totalReactions := fold_left (fun s m => (s + reactionTotal m)%N) entry.2 0%N;
     messages := entry.2 |}.

(** The variables of the loop over [sortedSources]. *)
Record Hubs := {
  lastChainId : Z;
  hubSources : list ForwardSource;
  hubNodes : list GraphNode;
  hubEdges : list GraphEdge
}.

(** One iteration of [for (const [sourceName, msgs] of sortedSources)]. *)
Definition addSource (st : Hubs) (entry : SourceEntry) : Hubs :=
  let chainId := lastChainId st + 1 in
  let hubId := hubIdOf chainId in
  {| lastChainId := chainId;
     hubSources := hubSources st ++ [sourceOf entry];
     hubNodes := hubNodes st ++ hubNode chainId entry :: map (msgNode chainId) entry.2;
     hubEdges := hubEdges st
                 ++ map (fun msg => {| source := hubId; target := id msg |}) entry.2 |}.

(** The chain built for the index [idx] of [sortedSources]. *)
Definition chainAt (nodes : list GraphNode) (edges : list GraphEdge) (idx : nat) : ReplyChain :=
  let cId := Z.of_nat idx + 1 in
  let hubId := hubIdOf cId in
  {| chain_id := cId;
     chain_nodes := filter (fun n => chainId n =? cId) nodes;
     chain_edges := filter (fun e => source e =? hubId) edges;
     rootId := hubId;
     depth := 1 |}.

Definition buildForwardGraph (messages : list TelegramMessage) : ForwardGraphData :=
  let forwarded := forwardedOf messages in
  let sourceMap := sourceMapOf forwarded in
  let sortedSources :=
    array_sort (descending (fun entry : SourceEntry => Z.of_nat (length entry.2))) sourceMap in
  let st := fold_left addSource sortedSources
              {| lastChainId := 0; hubSources := []; hubNodes := []; hubEdges := [] |} in
  let chains := map (chainAt (hubNodes st) (hubEdges st)) (seq 0 (length sortedSources)) in
  {| nodes := hubNodes st;
     edges := hubEdges st;
     chains := chains;
     sources := hubSources st;
     totalForwarded := Z.of_nat (length forwarded);
     selfReplyCount := 0;
     crossChannelReplyCount := 0 |}.

(** The nodes and edges that the loop adds for the entries [l], the first
    of which gets the chain id [c + 1]. *)
Fixpoint nodesFrom (c : Z) (l : list SourceEntry) : list GraphNode :=
  match l with
  | [] => []
  | entry :: l' => (hubNode (c + 1) entry :: map (msgNode (c + 1)) entry.2)
                   ++ nodesFrom (c + 1) l'
  end.

Fixpoint edgesFrom (c : Z) (l : list SourceEntry) : list GraphEdge :=
  match l with
  | [] => []
  | entry :: l' => map (fun msg => {| source := hubIdOf (c + 1); target := id msg |}) entry.2
                   ++ edgesFrom (c + 1) l'
  end.

End ForwardGraph.

(* ===================================================================== *)
(** ** post-scoring: [getTopPosts] *)
(* ===================================================================== *)

Module TopPosts.

Section Ranking.
Import Double.

Record TopPost := {
  tp_message : TelegramMessage;
  totalReactions : double;
  score : double
}.

(** The callback of [posts.map]: the score is computed in doubles. *)
Definition topPostOf (msg : TelegramMessage) : TopPost :=
  let totalReactions := PostScoring.reactionSum msg in
  let text := getMessageText msg in
  let score :=
    add (add (mul totalReactions (finite 10))
             (if 100 <? str_length text then finite 5 else finite 0))
        (if truthy_str (photo msg) then finite 3 else finite 0) in
  {| tp_message := msg; totalReactions := totalReactions; score := score |}.

(** [(a, b) => b.score - a.score], as [sort] reads it *)
Definition byScore (a b : TopPost) : Z := sign (sub (score b) (score a)).

Definition getTopPosts (messages : list TelegramMessage) (limit : Z) : list TopPost :=
  let posts := filter (fun m => MessageKind_eqb (type m) message) messages in
  slice0
    (array_sort byScore
       (filter (fun p => gt (totalReactions p) (finite 0)) (map topPostOf posts)))
    limit.

(** The two bonuses of a message *)
Definition bonus (msg : TelegramMessage) : Z :=
  (if 100 <? str_length (getMessageText msg) then 5 else 0)
  + (if truthy_str (photo msg) then 3 else 0).

End Ranking.

End TopPosts.

(* ===================================================================== *)
(** ** telegram-types: [computeStats], [detectExportType] and
       [getDMParticipants] *)
(* ===================================================================== *)

Module TelegramTypes.

Record TelegramExport := {
  export_name : jsstring;
  export_type : jsstring;
  export_id : Z;
  messages : list TelegramMessage
}.

Record DateRange := { range_start : jsstring; range_end : jsstring }.

Record ChannelStats := {
  name : jsstring;
  stats_type : jsstring;
  totalMessages : Z;
  totalServiceMessages : Z;
  dateRange : DateRange;
  topReactions : list Reaction;
  totalReactions : N;
  messagesWithLinks : Z;
  messagesWithMedia : Z;
  forwardedMessages : Z;
  repliedMessages : Z
}.

(** [reactionMap.set(r.emoji, (reactionMap.get(r.emoji) || 0) + r.count)] on
    the insertion-ordered [Map]: a key that is set again keeps its place. *)
Fixpoint addReaction (e : jsstring) (c : N) (m : list Reaction) : list Reaction :=
  match m with
  | [] => [ {| emoji := e; count := 0 + c |} ]
  | r :: m' =>
      if str_eqb (emoji r) e
      then {| emoji := emoji r; count := count r + c |} :: m'
      else r :: addReaction e c m'
  end.

(** The variables of the reaction loop. *)
Record Tally := { reactionMap : list Reaction; reactionSum : N }.

(** The body of [for (const r of msg.reactions)]. *)
Definition countReaction (t : Tally) (r : Reaction) : Tally :=
  {| reactionMap := addReaction (emoji r) (count r) (reactionMap t);
     reactionSum := reactionSum t + count r |}.

(** The body of [for (const msg of messages)]. *)
Definition countReactions (t : Tally) (msg : TelegramMessage) : Tally :=
  match reactions msg with
  | Some rs => fold_left countReaction rs t
  | None => t
  end.

(** [text.includes("http://") || text.includes("https://")] *)
Definition hasLink (m : TelegramMessage) : bool :=
  includes (getMessageText m) (js "http://") || includes (getMessageText m) (js "https://").

Definition computeStats (data : TelegramExport) : ChannelStats :=
  let contentMessages :=
    filter (fun m => MessageKind_eqb (type m) message) (messages data) in
  let serviceMessages :=
    filter (fun m => MessageKind_eqb (type m) service) (messages data) in
  let tally := fold_left countReactions contentMessages
                 {| reactionMap := []; reactionSum := 0 |} in
  let topReactions :=
    slice0 (array_sort (descending (fun r => Z.of_N (count r))) (reactionMap tally)) 6 in
  let dates := array_sort Calendar.compareStrings (map date (messages data)) in
  {| name := export_name data;
     stats_type := export_type data;
     totalMessages := Z.of_nat (length contentMessages);
     totalServiceMessages := Z.of_nat (length serviceMessages);
     (* [dates[0] || ""] and [dates[dates.length - 1] || ""] *)
     dateRange := {| range_start := hd [] dates; range_end := last dates [] |};
     topReactions := topReactions;
     totalReactions := reactionSum tally;
     messagesWithLinks := Z.of_nat (length (filter hasLink contentMessages));
     messagesWithMedia := Z.of_nat (length (filter hasMediaField contentMessages));
     forwardedMessages :=
       Z.of_nat (length (filter (fun m => truthy_str (forwarded_from m)) contentMessages));
     repliedMessages :=
       Z.of_nat (length (filter (fun m => truthy_num (reply_to_message_id m))
                                contentMessages)) |}.



(** [s <= t] in the order of [sort()]: by code units. *)
Definition str_leb (s t : jsstring) : bool := negb (Calendar.str_ltb t s).

(** *** [detectExportType] and [getDMParticipants] *)

Inductive ExportType := channel | group | dm.

Section Senders.
Context `{CaseMapping}.

  (** The field [from_id] of a message, which the message record above
      leaves out: any assignment of optional strings to messages. *)
Variable from_id : TelegramMessage -> option jsstring.

  (** [msg.from_id || msg.from] *)
Definition senderIdOf (msg : TelegramMessage) : option jsstring :=
    if truthy_str (from_id msg) then from_id msg else from msg.

  (** The loop of [detectExportType] over [data.messages]; [None] is the
      early [return "group"]. *)
Fixpoint sendersLoop (msgs : list TelegramMessage) (senders : list jsstring)
    : option (list jsstring) :=
    match msgs with
    | [] => Some senders
    | msg :: rest =>
        let senderId := senderIdOf msg in
        let senders := if truthy_str senderId
                       then set_add (default [] senderId) senders else senders in
        if (2 <? length senders)%nat then None else sendersLoop rest senders
    end.

Definition detectExportType (data : TelegramExport) : ExportType :=
    (* [data.type?.toLowerCase() || ""] *)
    let t := toLowerCase (export_type data) in
    if includes t (js "personal_chat") || str_eqb t (js "private") then dm
    else if includes t (js "supergroup") || includes t (js "private_group")
            || includes t (js "basic_group") || includes t (js "public_group")
    then group
    else
      match sendersLoop (messages data) [] with
      | None => group
      | Some senders => if (length senders =? 2)%nat then dm else channel
      end.

  (** [m.type === "message" && m.from && m.from_id] *)
Definition hasSender (m : TelegramMessage) : bool :=
    MessageKind_eqb (type m) message && truthy_str (from m) && truthy_str (from_id m).

  (** [senders.has(id)] on the [Map] of ids to names *)
Definition knows (senders : list (jsstring * jsstring)) (i : jsstring) : bool :=
    existsb (fun e : jsstring * jsstring => str_eqb e.1 i) senders.

  (** The loop of [getDMParticipants], which ends at the [break]. *)
Fixpoint participantsLoop (msgs : list TelegramMessage)
           (senders : list (jsstring * jsstring)) : list (jsstring * jsstring) :=
    match msgs with
    | [] => senders
    | m :: rest =>
        if hasSender m then
          let senders :=
            if knows senders (default [] (from_id m)) then senders
            else senders ++ [ (default [] (from_id m), default [] (from m)) ] in
          if (2 <=? length senders)%nat then senders else participantsLoop rest senders
        else participantsLoop rest senders
    end.

Definition getDMParticipants (msgs : list TelegramMessage) : option (jsstring * jsstring) :=
    let names := map snd (participantsLoop msgs []) in
    match names with
    | [a; b] => Some (a, b)
    | _ => None
    end.

  (** The sender ids the loop of [detectExportType] adds, in order. *)
Definition senderIds (msgs : list TelegramMessage) : list jsstring :=
    omap (fun msg => if truthy_str (senderIdOf msg) then senderIdOf msg else None) msgs.
End Senders.

End TelegramTypes.

(* ===================================================================== *)
(** ** Scenario data *)
(* ===================================================================== *)

(** *** The platform tables *)

(** The mapping of [lower_unit] applied to every string; closed examples
    run with it. *)
#[export] Instance toLowerCase_tables : CaseMapping := map lower_unit.

(** A content message with only an id, a sender and a plain text. *)
Definition textMessage (i : Z) (sender : string) (body : string) : TelegramMessage :=
  {| id := i; type := message; date := js "2024-01-01T12:00:00";
     from := Some (js sender); text := BodyString (js body);
     reply_to_message_id := None; forwarded_from := None;
     photo := None; file := None; media_type := None; reactions := None |}.

Definition urgent_text : jsstring :=
  js "URGENT: please send me $500 immediately, family emergency".

Definition neutral_text : jsstring := js "ok see you tomorrow".

Definition urgent_message : TelegramMessage :=
  textMessage 1 "Alice" "URGENT: please send me $500 immediately, family emergency".

Definition neutral_message : TelegramMessage :=
  textMessage 2 "Alice" "ok see you tomorrow".

(** What the detector reports for a message with [urgent_text]. *)
Definition urgent_result (msg : TelegramMessage) : Fraud.FraudResult :=
  {| Fraud.r_message := msg;
     Fraud.r_type := Fraud.money_request;
     Fraud.r_severity := Fraud.critical;
     Fraud.r_score := 22;
     Fraud.r_reasons :=
       [ Fraud.quoted "Money keyword: " (js "send me");
         Fraud.quoted "Money keyword: " (js "immediately");
         Fraud.quoted "Money keyword: " (js "family emergency");
         js "Specific amount mentioned";
         js "Urgency + money request combination (high risk)";
         Fraud.quoted "Emotional manipulation: " (js "emergency");
         Fraud.quoted "Emotional manipulation: " (js "family");
         js "Uses urgency language" ];
     Fraud.r_matchedPatterns := [ js "money_request"; js "urgency" ] |}.

(** An amount and an urgency word, but no money keyword. *)
Definition prize_message : TelegramMessage :=
  textMessage 3 "Bob" "urgent: claim prize 1000".

(** A single content message, id 1, replying to the absent id 999. *)
Definition orphan_reply : TelegramMessage :=
  {| id := 1; type := message; date := js "2024-01-01T12:00:00";
     from := Some (js "Alice"); text := BodyString (js "see above");
     reply_to_message_id := Some 999; forwarded_from := None;
     photo := None; file := None; media_type := None; reactions := None |}.

(** A content message that replies to [target]. *)
Definition replyTo (i : Z) (target : option Z) : TelegramMessage :=
  {| id := i; type := message; date := js "2024-01-01T12:00:00";
     from := Some (js "Alice"); text := BodyString (js "hi");
     reply_to_message_id := target; forwarded_from := None;
     photo := None; file := None; media_type := None; reactions := None |}.

(** Two threads: 1 with replies 2, 3 and 4, and the absent 77 with replies
    5 and 6. *)
Definition two_threads : list TelegramMessage :=
  [ replyTo 1 None; replyTo 2 (Some 1); replyTo 3 (Some 2); replyTo 4 (Some 1);
    replyTo 5 (Some 77); replyTo 6 (Some 5) ].

(** A post with reactions, for corpora without any. *)
Definition liked_post : TelegramMessage :=
  {| id := 20; type := message; date := js "2024-01-01T12:00:00";
     from := Some (js "Alice"); text := BodyString (js "see https://example.org");
     reply_to_message_id := Some 3; forwarded_from := Some (js "News");
     photo := Some (js "photo.jpg"); file := None; media_type := None;
     reactions := Some [ {| emoji := js "+"; count := 1000 |} ] |}.

(** A target with four significant words and a candidate sharing one. *)
Definition fruit_target : TelegramMessage :=
  textMessage 10 "Alice" "apple banana cherry grape".

Definition fruit_candidate : TelegramMessage :=
  textMessage 11 "Bob" "apple".

Definition fruit_corpus : list TelegramMessage :=
  [ fruit_target; fruit_candidate;
    textMessage 12 "Carol" "Banana, cherry!";
    textMessage 13 "Dave" "APPLE banana  cherry grape" ].

(** One content message at noon of a day. *)
Definition postOn (i : Z) (day : string) : TelegramMessage :=
  {| id := i; type := message; date := js day ++ js "T12:00:00";
     from := Some (js "Alice"); text := BodyString (js "post");
     reply_to_message_id := None; forwarded_from := None;
     photo := None; file := None; media_type := None; reactions := None |}.

(** Posts on 2024-01-01..05, then on 2024-01-10 and 2024-01-11. *)
Definition january_posts : list TelegramMessage :=
  [ postOn 1 "2024-01-01"; postOn 2 "2024-01-02"; postOn 3 "2024-01-03";
    postOn 4 "2024-01-04"; postOn 5 "2024-01-05";
    postOn 6 "2024-01-10"; postOn 7 "2024-01-11" ].

(** The same days of March. *)
Definition march_posts : list TelegramMessage :=
  [ postOn 1 "2024-03-01"; postOn 2 "2024-03-02"; postOn 3 "2024-03-03";
    postOn 4 "2024-03-04"; postOn 5 "2024-03-05";
    postOn 6 "2024-03-10"; postOn 7 "2024-03-11" ].

(** Five consecutive days that sort the same as strings and as dates. *)
Definition mid_march_posts : list TelegramMessage :=
  [ postOn 1 "2024-03-10"; postOn 2 "2024-03-11"; postOn 3 "2024-03-12";
    postOn 4 "2024-03-13"; postOn 5 "2024-03-14";
    postOn 6 "2024-03-20"; postOn 7 "2024-03-21" ].

(** *** Further scenario data *)

(** A shortened link and nothing else that scores. *)
Definition link_message : TelegramMessage :=
  textMessage 5 "Mallory" "free gift at http://bit.ly/abc".

(** Three flagged messages of three senders and one that is not flagged. *)
Definition scam_messages : list TelegramMessage :=
  [ link_message; urgent_message; neutral_message; prize_message ].

(** A target with no hashtag, no word of more than four letters and no
    forward source. *)
Definition bare_target : TelegramMessage := textMessage 30 "Alice" "ok go".

(** Two forwards of one source among other messages. *)
Definition forwards_and_others : list TelegramMessage :=
  [ liked_post; neutral_message; liked_post; urgent_message ].

(** An export of the January posts and one post with reactions. *)
Definition january_export : TelegramTypes.TelegramExport :=
  {| TelegramTypes.export_name := js "Channel";
     TelegramTypes.export_type := js "public_channel";
     TelegramTypes.export_id := 1;
     TelegramTypes.messages := january_posts ++ [liked_post] |}.

(** Sender ids derived from the sender names. *)
Definition user_id (m : TelegramMessage) : option jsstring :=
  option_map (fun n => js "user:" ++ n) (from m).

(** An export whose type names neither a personal chat nor a group, with
    three messages of two senders. *)
Definition chat_export : TelegramTypes.TelegramExport :=
  {| TelegramTypes.export_name := js "Chat";
     TelegramTypes.export_type := js "bot_chat";
     TelegramTypes.export_id := 2;
     TelegramTypes.messages := [ urgent_message; neutral_message; prize_message ] |}.

(** A post with two reactions counted 1e308 times each: either count is a
    finite double, their sum is not. *)
Definition overflow_post : TelegramMessage :=
  {| id := 40; type := message; date := js "2024-01-01T12:00:00";
     from := Some (js "Alice"); text := BodyString (js "hello");
     reply_to_message_id := None; forwarded_from := None;
     photo := None; file := None; media_type := None;
     reactions := Some [ {| emoji := js "+"; count := 10 ^ 308 |};
                         {| emoji := js "-"; count := 10 ^ 308 |} ] |}.

(** Two posts whose reaction totals are above [2^53 / 10]: the first has
    the smaller total, a long text and a photo. *)
Definition big_post (i : Z) (n : N) (body : string) (picture : option jsstring)
  : TelegramMessage :=
  {| id := i; type := message; date := js "2024-01-01T12:00:00";
     from := Some (js "Alice"); text := BodyString (js body);
     reply_to_message_id := None; forwarded_from := None;
     photo := picture; file := None; media_type := None;
     reactions := Some [ {| emoji := js "+"; count := n |} ] |}.

Definition long_text : string :=
  "0123456789012345678901234567890123456789012345678901234567890123456789012345678901234567890123456789x".

Definition big_posts : list TelegramMessage :=
  [ big_post 51 (10 ^ 15 + 1) long_text (Some (js "p.jpg"));
    big_post 52 (10 ^ 15 + 2) "short" None ].

(* ===================================================================== *)
(** * Properties *)
(* ===================================================================== *)


(** ** Facts about [array_sort] and [slice0] *)

Section SortFacts.
Context {A : Type}.

Lemma insert_sorted_perm (cmp : A -> A -> Z) (x : A) (l : list A) :
    Permutation (insert_sorted cmp x l) (x :: l).
Proof.
    induction l as [|y l IH]; simpl; [reflexivity|].
    destruct (cmp x y <=? 0); [reflexivity|].
    rewrite IH. apply perm_swap.
Qed.

Lemma array_sort_perm (cmp : A -> A -> Z) (l : list A) :
    Permutation (array_sort cmp l) l.
Proof.
    induction l as [|x l IH]; simpl; [reflexivity|].
    rewrite insert_sorted_perm. now constructor.
Qed.

Lemma in_skipn (n : nat) (l : list A) (b : A) : In b (skipn n l) -> In b l.
Proof.
    intros Hb. rewrite <- (firstn_skipn n l). apply in_or_app. now right.
Qed.

Lemma in_firstn (n : nat) (l : list A) (a : A) : In a (firstn n l) -> In a l.
Proof.
    intros Ha. rewrite <- (firstn_skipn n l). apply in_or_app. now left.
Qed.

Variable key : A -> Z.

Lemma insert_sorted_desc (x : A) (l : list A) :
    StronglySorted (key_ge key) l ->
    StronglySorted (key_ge key) (insert_sorted (descending key) x l).
Proof.
    induction 1 as [|y l Hs IH Hy]; simpl.
    - repeat constructor.
    - unfold descending at 1. destruct (Z.leb_spec (key y - key x) 0) as [Hle|Hgt].
      + constructor; [now constructor|].
        constructor; [unfold key_ge; lia|].
        eapply Forall_impl; [|exact Hy]. unfold key_ge. intros; lia.
      + constructor; [exact IH|].
        rewrite (insert_sorted_perm (descending key) x l).
        constructor; [unfold key_ge; lia | exact Hy].
Qed.

Lemma array_sort_desc (l : list A) :
    StronglySorted (key_ge key) (array_sort (descending key) l).
Proof.
    induction l as [|x l IH]; simpl; [constructor|].
    now apply insert_sorted_desc.
Qed.

Lemma sorted_prefix_dominates (n : nat) (l : list A) :
    StronglySorted (key_ge key) l ->
    forall a b, In a (firstn n l) -> In b (skipn n l) -> key b <= key a.
Proof.
    intros Hs. revert n.
    induction Hs as [|x l Hs IH Hx]; intros n a b Ha Hb.
    - destruct n; simpl in Ha; contradiction.
    - destruct n as [|n]; simpl in Ha, Hb; [contradiction|].
      destruct Ha as [<-|Ha].
      + rewrite Forall_forall in Hx. apply Hx.
        apply (in_skipn n). exact Hb.
      + now apply (IH n).
Qed.

Lemma slice0_firstn (l : list A) (e : Z) :
    0 <= e -> slice0 l e = firstn (Z.to_nat e) l.
Proof.
    intros He. unfold slice0.
    destruct (Z.ltb_spec e 0); [lia|].
    destruct (Z.le_gt_cases e (Z.of_nat (length l))).
    - now rewrite Z.min_l.
    - rewrite Z.min_r by lia. rewrite Nat2Z.id.
      rewrite !firstn_all2; auto; lia.
Qed.

Lemma slice0_length (l : list A) (e : Z) :
    0 <= e -> Z.of_nat (length (slice0 l e)) = Z.min e (Z.of_nat (length l)).
Proof.
    intros He. rewrite slice0_firstn by exact He.
    rewrite length_firstn. lia.
Qed.
End SortFacts.

(** ** fraud-detector *)

Section FraudFacts.
Import Fraud.
Context `{CaseMapping}.

Lemma score_hit_if (b : bool) (reason : jsstring) (w : Z) (c : Check) :
    0 <= w -> score c <= score (hit_if b reason w c).
Proof. intros Hw. destruct b; simpl; lia. Qed.

Lemma score_fold_hits {X : Type} (test : X -> bool) (label : X -> jsstring)
        (w : Z) (l : list X) (c : Check) :
    0 <= w ->
    score c <= score (fold_left (fun c x => hit_if (test x) (label x) w c) l c).
Proof.
    intros Hw. revert c. induction l as [|x l IH]; intros c; simpl; [lia|].
    etransitivity; [|apply IH]. now apply score_hit_if.
Qed.

Lemma detected_finish (c : Check) : detected (finish c) = (0 <? score c).
Proof. reflexivity. Qed.

Lemma detected_money (text : jsstring) :
    detected (checkMoneyRequest text) = (0 <? score (checkMoneyRequest text)).
Proof. reflexivity. Qed.

Lemma detected_impersonation (text : jsstring) (sender : option jsstring) :
    detected (checkImpersonation text sender) = (0 <? score (checkImpersonation text sender)).
Proof. reflexivity. Qed.

Lemma detected_phishing (text : jsstring) :
    detected (checkPhishing text) = (0 <? score (checkPhishing text)).
Proof. reflexivity. Qed.

  (** The primary type only depends on which checks fired. *)
Lemma primaryType_tallyChecks (text : jsstring) (sender : option jsstring) :
    primaryType (tallyChecks text sender) =
      if detected (checkMoneyRequest text) then money_request
      else if detected (checkImpersonation text sender) then impersonation
      else if isSuspicious (checkSuspiciousUrl text) && detected (checkPhishing text)
           then phishing
           else suspicious_link.
Proof.
    unfold tallyChecks.
    generalize (checkSuspiciousUrl text) (checkPhishing text)
               (checkMoneyRequest text) (checkImpersonation text sender).
    intros u p m i.
    destruct (includes (toLowerCase text) (js "urgent")
              || includes (toLowerCase text) (js "emergency")
              || includes (toLowerCase text) (js "immediately"));
      destruct (isSuspicious u), (detected p), (detected m), (detected i);
      reflexivity.
Qed.

Lemma analyze_Some (msg : TelegramMessage) (r : FraudResult) :
    analyzeMessageForFraud msg = Some r ->
    type msg = message
    /\ 5 <= str_length (getMessageText msg)
    /\ 3 <= r_score r
    /\ r_score r = totalScore (tallyChecks (getMessageText msg) (from msg))
    /\ r_type r = primaryType (tallyChecks (getMessageText msg) (from msg))
    /\ r_severity r = severityOf (r_score r).
Proof.
    unfold analyzeMessageForFraud.
    destruct (type msg); simpl; [|discriminate].
    destruct (str_eqb (getMessageText msg) []); simpl; [discriminate|].
    destruct (Z.ltb_spec (str_length (getMessageText msg)) 5); [discriminate|].
    destruct (Z.ltb_spec (totalScore (tallyChecks (getMessageText msg) (from msg))) 3);
      [discriminate|].
    intros [= <-]. simpl. repeat split; auto.
Qed.

Lemma analyze_None (msg : TelegramMessage) :
    analyzeMessageForFraud msg = None <->
    (type msg <> message
     \/ str_length (getMessageText msg) < 5
     \/ totalScore (tallyChecks (getMessageText msg) (from msg)) < 3).
Proof.
    unfold analyzeMessageForFraud.
    destruct (type msg); simpl.
    2: { split; [left; discriminate | reflexivity]. }
    destruct (getMessageText msg) as [|c text] eqn:Etext; simpl.
    { split; [intros _; right; left; unfold str_length; simpl; lia | reflexivity]. }
    rewrite <- Etext.
    destruct (Z.ltb_spec (str_length (getMessageText msg)) 5).
    { split; [intros _; right; left; assumption | reflexivity]. }
    destruct (Z.ltb_spec (totalScore (tallyChecks (getMessageText msg) (from msg))) 3).
    { split; [intros _; right; right; assumption | reflexivity]. }
    split; [discriminate|]. intros [Hk|[Hl|Hs]]; [congruence | lia | lia].
Qed.

  (** *** The amount pattern fires on any digit *)

Lemma regex_test_suffix (r : regex) (pre suf : jsstring) :
    matchesPrefix r suf = true -> regex_test r (pre ++ suf) = true.
Proof.
    intros Hm. induction pre as [|c pre IH]; simpl.
    - destruct suf; simpl in *; rewrite Hm; reflexivity.
    - rewrite IH. apply orb_true_r.
Qed.

Lemma matchesPrefix_nullable (r : regex) (s : jsstring) :
    nullable r = true -> matchesPrefix r s = true.
Proof. intros Hn. destruct s; simpl; rewrite Hn; reflexivity. Qed.

Lemma nullable_mkAlt (r1 r2 : regex) :
    nullable (mkAlt r1 r2) = nullable r1 || nullable r2.
Proof. destruct r1, r2; simpl; auto with bool; now rewrite ?orb_false_r. Qed.

Lemma nullable_mkSeq (r1 r2 : regex) :
    nullable (mkSeq r1 r2) = nullable r1 && nullable r2.
Proof. destruct r1; reflexivity. Qed.

Lemma nullable_deriv_Seq (c : Z) (r1 r2 : regex) :
    nullable (deriv c (Seq r1 r2)) =
      (nullable (deriv c r1) && nullable r2) || (nullable r1 && nullable (deriv c r2)).
Proof.
    simpl. destruct (nullable r1); simpl.
    - now rewrite nullable_mkAlt, nullable_mkSeq.
    - now rewrite nullable_mkSeq, orb_false_r.
Qed.

Lemma nullable_deriv_Alt (c : Z) (r1 r2 : regex) :
    nullable (deriv c (Alt r1 r2)) = nullable (deriv c r1) || nullable (deriv c r2).
Proof. simpl. apply nullable_mkAlt. Qed.

Lemma nullable_deriv_Char (c : Z) (p : Z -> bool) : nullable (deriv c (Char p)) = p c.
Proof. simpl. now destruct (p c). Qed.

Lemma amountPattern_digit (c : Z) (s : jsstring) :
    is_digit c = true -> matchesPrefix amountPattern (c :: s) = true.
Proof.
    intros Hd. change (matchesPrefix (deriv c amountPattern) s = true).
    apply matchesPrefix_nullable.
    unfold amountPattern, Seqs, digits, Plus, Opt. cbn [fold_right].
    generalize (Lit (js "$")) as dollar.
    generalize (Alts (map (fun s => LitI (js s)) ["usd"; "eur"; "gbp"; "btc"; "eth"]%string))
      as unit.
    intros unit dollar.
    rewrite nullable_deriv_Alt, !nullable_deriv_Seq, !nullable_deriv_Char, Hd.
    cbn [nullable]. rewrite !orb_true_r. reflexivity.
Qed.

Lemma amountPattern_test (text : jsstring) :
    (exists c, In c text /\ is_digit c = true) ->
    regex_test amountPattern text = true.
Proof.
    intros (c & Hin & Hd).
    destruct (in_split _ _ Hin) as (pre & suf & ->).
    apply regex_test_suffix. now apply amountPattern_digit.
Qed.

Lemma money_score_with_amount (text : jsstring) :
    regex_test amountPattern text = true -> 2 <= score (checkMoneyRequest text).
Proof.
    intros Ht. unfold checkMoneyRequest. rewrite Ht.
    cbn [finish score].
    etransitivity; [|apply score_fold_hits; lia].
    etransitivity; [|apply score_hit_if; lia].
    cbn [hit_if hit score].
    pose proof (score_fold_hits
                  (fun keyword => includes (toLowerCase text) (toLowerCase keyword))
                  (quoted "Money keyword: ") 3 MONEY_KEYWORDS no_hits) as Hk.
    simpl score at 1 in Hk. lia.
Qed.
End FraudFacts.

Section FraudClaims.
Import Fraud.
Context `{CaseMapping}.

  (** C3.  Whenever [analyzeMessageForFraud] returns a result, its type is
      [money_request] if the money-request check has a positive score;
      otherwise [impersonation] if the impersonation check has a positive
      score; otherwise [phishing] if a suspicious URL was found and the
      phishing check has a positive score, and [suspicious_link] if not. *)
Theorem primary_type_priority (msg : TelegramMessage) (r : FraudResult) :
    analyzeMessageForFraud msg = Some r ->
    let text := getMessageText msg in
    let money := score (checkMoneyRequest text) in
    let imperson := score (checkImpersonation text (from msg)) in
    let phish := isSuspicious (checkSuspiciousUrl text) = true
                 /\ 0 < score (checkPhishing text) in
    (0 < money -> r_type r = money_request)
    /\ (~ 0 < money -> 0 < imperson -> r_type r = impersonation)
    /\ (~ 0 < money -> ~ 0 < imperson -> phish -> r_type r = phishing)
    /\ (~ 0 < money -> ~ 0 < imperson -> ~ phish -> r_type r = suspicious_link).
Proof.
    intros Hr text money imperson phish.
    destruct (analyze_Some msg r Hr) as (_ & _ & _ & _ & Hty & _).
    rewrite Hty, primaryType_tallyChecks.
    rewrite detected_money, detected_impersonation, detected_phishing.
    fold text. fold money. fold imperson.
    unfold phish.
    set (su := isSuspicious (checkSuspiciousUrl text)).
    set (sp := score (checkPhishing text)).
    clearbody money imperson su sp.
    destruct (Z.ltb_spec 0 money); destruct (Z.ltb_spec 0 imperson);
      destruct su; destruct (Z.ltb_spec 0 sp); cbn [andb];
      intuition (try lia; try congruence).
Qed.

  (** C9.  If the flattened text of a message contains a decimal digit, the
      money-request check reports [detected = true] with a score of at least
      2, whether or not a money keyword occurs; so whenever
      [analyzeMessageForFraud] returns a result for such a message, its type
      is [money_request]. *)
Theorem digit_forces_money_request (msg : TelegramMessage) :
    (exists c, In c (getMessageText msg) /\ is_digit c = true) ->
    detected (checkMoneyRequest (getMessageText msg)) = true
    /\ 2 <= score (checkMoneyRequest (getMessageText msg))
    /\ (forall r, analyzeMessageForFraud msg = Some r -> r_type r = money_request).
Proof.
    intros Hd.
    pose proof (money_score_with_amount _ (amountPattern_test _ Hd)) as Hs.
    assert (Hdet : detected (checkMoneyRequest (getMessageText msg)) = true).
    { rewrite detected_money. apply Z.ltb_lt. lia. }
    repeat split; auto.
    intros r Hr.
    destruct (analyze_Some msg r Hr) as (_ & _ & _ & _ & Hty & _).
    now rewrite Hty, primaryType_tallyChecks, Hdet.
Qed.
End FraudClaims.

Section FraudStatsFacts.
Import Fraud.
Context `{CaseMapping}.

Lemma severityLevels_pos (s : Severity) : 1 <= severityLevels s.
Proof. destruct s; simpl; lia. Qed.

Lemma findFraud_loop (messages : list TelegramMessage) (acc : list FraudResult) :
    fold_left
      (fun results msg =>
         match analyzeMessageForFraud msg with
         | None => results
         | Some fraud =>
             if severityLevels (r_severity fraud) <? 1 then results
             else results ++ [fraud]
         end) messages acc
    = acc ++ omap analyzeMessageForFraud messages.
Proof.
    revert acc. induction messages as [|msg messages IH]; intros acc; simpl.
    - now rewrite app_nil_r.
    - rewrite IH. destruct (analyzeMessageForFraud msg) as [fraud|]; [|reflexivity].
      pose proof (severityLevels_pos (r_severity fraud)).
      destruct (Z.ltb_spec (severityLevels (r_severity fraud)) 1); [lia|].
      now rewrite <- app_assoc.
Qed.

  (** With only [maxResults] given, [findFraud] filters nothing out. *)
Lemma findFraud_maxResults (messages : list TelegramMessage) (n : Z) :
    findFraud messages {| minSeverity := None; maxResults := Some n; types := None |}
    = slice0 (array_sort (descending r_score) (omap analyzeMessageForFraud messages)) n.
Proof.
    unfold findFraud. cbn [minSeverity maxResults types default severityLevels].
    now rewrite findFraud_loop.
Qed.

Lemma sumByType_fold (l : list FraudResult) (b : ByType) :
    sumByType (fold_left (fun b fraud => incrType (r_type fraud) b) l b)
    = sumByType b + Z.of_nat (length l).
Proof.
    revert b. induction l as [|x l IH]; intros b; simpl fold_left; simpl length.
    - lia.
    - rewrite IH. destruct (r_type x); unfold sumByType; simpl; lia.
Qed.

Lemma sumBySeverity_fold (l : list FraudResult) (b : BySeverity) :
    sumBySeverity (fold_left (fun b fraud => incrSeverity (r_severity fraud) b) l b)
    = sumBySeverity b + Z.of_nat (length l).
Proof.
    revert b. induction l as [|x l IH]; intros b; simpl fold_left; simpl length.
    - lia.
    - rewrite IH. destruct (r_severity x); unfold sumBySeverity; simpl; lia.
Qed.

Lemma omap_repeat (msg : TelegramMessage) (r : FraudResult) (n : nat) :
    analyzeMessageForFraud msg = Some r ->
    omap analyzeMessageForFraud (repeat msg n) = repeat r n.
Proof.
    intros Hr. induction n as [|n IH]; [reflexivity|].
    simpl repeat. rewrite <- IH. simpl. now rewrite Hr.
Qed.
End FraudStatsFacts.

Section FraudScenarios.
Import Fraud.

  (** C5.  A content message whose text is "URGENT: please send me $500
      immediately, family emergency" gets a result of type [money_request];
      the money check scores its three keywords, the amount and two emotional
      words, and the urgency-plus-money bonus of 5 on top of them; the
      severity is [critical], which is at least [medium].  This holds with
      every case mapping that is the standard one on plain strings. *)
Theorem urgent_money_request_scenario (rest : CaseMapping) (msg : TelegramMessage) :
    type msg = message ->
    getMessageText msg = urgent_text ->
    exists r,
      @analyzeMessageForFraud (standard_case rest) msg = Some r
      /\ r = urgent_result msg
      /\ r_type r = money_request
      /\ In (js "Urgency + money request combination (high risk)") (r_reasons r)
      /\ reasons (@checkMoneyRequest (standard_case rest) urgent_text)
         = [ quoted "Money keyword: " (js "send me");
             quoted "Money keyword: " (js "immediately");
             quoted "Money keyword: " (js "family emergency");
             js "Specific amount mentioned";
             js "Urgency + money request combination (high risk)";
             quoted "Emotional manipulation: " (js "emergency");
             quoted "Emotional manipulation: " (js "family") ]
      /\ score (@checkMoneyRequest (standard_case rest) urgent_text)
         = (3 + 3 + 3) + 2 + 5 + (2 + 2)
      /\ r_score r = score (@checkMoneyRequest (standard_case rest) urgent_text) + 2
      /\ r_severity r = critical
      /\ severityLevels medium <= severityLevels (r_severity r).
Proof.
    intros Hty Htext.
    exists (urgent_result msg).
    split.
    { unfold analyzeMessageForFraud. rewrite Hty, Htext. vm_compute. reflexivity. }
    split; [reflexivity|].
    cbn [urgent_result r_type r_reasons r_score r_severity].
    split; [reflexivity|].
    split; [vm_compute; repeat (first [left; reflexivity | right])|].
    split; [vm_compute; reflexivity|].
    split; [vm_compute; reflexivity|].
    split; [vm_compute; reflexivity|].
    split; [reflexivity|].
    simpl. lia.
Qed.

Lemma urgent_money_request_scenario_witness :
    exists r,
      @analyzeMessageForFraud (standard_case toLowerCase_tables) urgent_message = Some r
      /\ r_type r = money_request.
Proof.
    destruct (urgent_money_request_scenario toLowerCase_tables urgent_message eq_refl eq_refl)
      as (r & Hr & _ & Hty & _).
    exists r. split; assumption.
Defined.

  (** C6.  [analyzeMessageForFraud] is a total function, and it returns no
      result exactly when the message is not a content message, its
      flattened text is shorter than 5 code units, or its cumulative score
      is below 3; a message with text "ok see you tomorrow" gets no result,
      with every case mapping that is the standard one on plain strings. *)
Theorem fraud_gate_no_result :
    (forall (cm : CaseMapping) (msg : TelegramMessage),
        analyzeMessageForFraud msg = None <->
        (type msg <> message
         \/ str_length (getMessageText msg) < 5
         \/ totalScore (tallyChecks (getMessageText msg) (from msg)) < 3))
    /\ (forall (rest : CaseMapping) (msg : TelegramMessage),
          getMessageText msg = neutral_text ->
          @analyzeMessageForFraud (standard_case rest) msg = None).
Proof.
    split.
    - intros cm msg. apply analyze_None.
    - intros rest msg Htext. apply analyze_None. right. right.
      rewrite Htext. vm_compute. reflexivity.
Qed.

Lemma fraud_gate_no_result_witness :
    @analyzeMessageForFraud (standard_case toLowerCase_tables) neutral_message = None
    /\ analyzeMessageForFraud (textMessage 4 "Alice" "ok") = None.
Proof.
    split.
    - apply (proj2 fraud_gate_no_result). reflexivity.
    - apply (proj1 fraud_gate_no_result). right. left. vm_compute. reflexivity.
Defined.

Lemma primary_type_priority_witness :
    analyzeMessageForFraud urgent_message = Some (urgent_result urgent_message)
    /\ r_type (urgent_result urgent_message) = money_request.
Proof.
    assert (Hr : analyzeMessageForFraud urgent_message = Some (urgent_result urgent_message))
      by (vm_compute; reflexivity).
    split; [exact Hr|].
    apply (primary_type_priority urgent_message (urgent_result urgent_message) Hr).
    vm_compute. reflexivity.
Defined.

Lemma digit_forces_money_request_witness :
    detected (checkMoneyRequest (getMessageText prize_message)) = true
    /\ r_type <$> analyzeMessageForFraud prize_message = Some money_request
    /\ existsb (fun k => includes (toLowerCase (getMessageText prize_message)) (toLowerCase k))
               MONEY_KEYWORDS = false.
Proof.
    assert (Hd : exists c, In c (getMessageText prize_message) /\ is_digit c = true).
    { exists 49. split; [vm_compute; tauto | reflexivity]. }
    destruct (digit_forces_money_request prize_message Hd) as (Hdet & _ & Hty).
    split; [exact Hdet|]. split; [|vm_compute; reflexivity].
    destruct (analyzeMessageForFraud prize_message) as [r|] eqn:Hr;
      [|vm_compute in Hr; discriminate].
    simpl. f_equal. now apply Hty.
Defined.

Lemma urgent_message_flagged :
    exists r, analyzeMessageForFraud urgent_message = Some r.
Proof. vm_compute. eexists. reflexivity. Qed.

End FraudScenarios.

(** ** reply-graph: the breadth-first loop *)

Section WorklistFacts.
Context {X St : Type}.
Variable key : X -> Z.

  (** What one pass over the successors adds to the queue and to [visited]. *)
Lemma enqueue_new_spec (succs : list X) (q : list X) (v : gset Z) :
    exists added,
      fold_left (enqueue_new key) succs (q, v)
      = (q ++ added, list_to_set (key <$> added) ∪ v)
      /\ base.NoDup (key <$> added)
      /\ (forall n, n ∈ added -> (key n ∉ v) /\ (n ∈ succs)).
Proof.
    revert q v. induction succs as [|n succs IH]; intros q v; simpl.
    - exists []. rewrite app_nil_r. split; [f_equal; set_solver|].
      split; [constructor|]. intros n Hn. inversion Hn.
    - unfold enqueue_new at 2. simpl. destruct (decide (key n ∈ v)) as [Hin|Hnin].
      + destruct (IH q v) as (added & Heq & Hnd & Hadd).
        exists added. split; [exact Heq|]. split; [exact Hnd|].
        intros m Hm. destruct (Hadd m Hm). split; [assumption|]. now right.
      + destruct (IH (q ++ [n]) ({[key n]} ∪ v)) as (added & Heq & Hnd & Hadd).
        exists (n :: added). rewrite Heq. split.
        { rewrite <- app_assoc. simpl. f_equal. set_solver. }
        split.
        { simpl. apply list.NoDup_cons. split; [|exact Hnd].
          intros Hk. apply list_elem_of_fmap in Hk as (m & Hkm & Hm).
          destruct (Hadd m Hm) as [Hnv _]. set_solver. }
        intros m Hm. apply list.elem_of_cons in Hm as [->|Hm].
        * split; [assumption|]. now left.
        * destruct (Hadd m Hm) as [Hnv Hs]. split; [set_solver|]. now right.
Qed.

Variable successors : X -> list X.
Variable visit : X -> St -> St.

  (** An invariant of the loop holds of its result. *)
Lemma worklist_invariant (P : list X -> gset Z -> St -> Prop) :
    (forall current rest v st,
        P (current :: rest) v st ->
        let qv := fold_left (enqueue_new key) (successors current) (rest, v) in
        P qv.1 qv.2 (visit current st)) ->
    forall fuel queue v st r,
      P queue v st ->
      worklist key successors visit fuel queue v st = Some r ->
      P [] r.2 r.1.
Proof.
    intros Hstep. induction fuel as [|fuel IH]; intros queue v st r HP Hr; simpl in Hr.
    - discriminate.
    - destruct queue as [|current rest].
      + injection Hr as <-. exact HP.
      + eapply IH; [|exact Hr]. now apply Hstep.
Qed.

  (** The loop ends within [fuel] iterations when the keys it can reach
      lie in a set [U] and [fuel] exceeds the keys of [U] not yet visited
      plus the length of the queue. *)
Lemma worklist_returns (U : gset Z) :
    (forall x n, n ∈ successors x -> key n ∈ U) ->
    forall fuel queue v st,
      v ⊆ U ->
      (size U - size v + length queue < fuel)%nat ->
      is_Some (worklist key successors visit fuel queue v st).
Proof.
    intros HU. induction fuel as [|fuel IH]; intros queue v st Hv Hfuel; [lia|].
    simpl. destruct queue as [|current rest]; [eauto|].
    destruct (enqueue_new_spec (successors current) rest v) as (added & Heq & Hnd & Hadd).
    rewrite Heq. simpl.
    assert (Hkeys : list_to_set (key <$> added) ⊆ U).
    { intros k Hk. apply elem_of_list_to_set, list_elem_of_fmap in Hk as (m & -> & Hm).
      apply (HU current). now apply Hadd. }
    assert (Hdisj : list_to_set (key <$> added) ## v).
    { intros k Hk Hkv. apply elem_of_list_to_set, list_elem_of_fmap in Hk as (m & -> & Hm).
      now apply (Hadd m Hm). }
    apply IH; [set_solver|].
    rewrite size_union by exact Hdisj.
    rewrite size_list_to_set by exact Hnd.
    rewrite length_fmap, length_app.
    assert (size (list_to_set (key <$> added) ∪ v) <= size U)%nat as Hle.
    { apply subseteq_size. set_solver. }
    rewrite size_union in Hle by exact Hdisj.
    rewrite size_list_to_set, length_fmap in Hle by exact Hnd.
    simpl in Hfuel. lia.
Qed.
End WorklistFacts.

(** ** reply-graph: [buildReplyGraph] *)

Section ReplyGraphFacts.
Import ReplyGraph.

Lemma includes_id_elem (l : list Z) (i : Z) : includes_id l i = true <-> i ∈ l.
Proof.
    unfold includes_id. rewrite existsb_exists. split.
    - intros (x & Hx & Heq). apply Z.eqb_eq in Heq. subst. now apply list_elem_of_In.
    - intros Hi. exists i. split; [now apply list_elem_of_In | apply Z.eqb_refl].
Qed.

Lemma elem_of_add_id (x i : Z) (s : list Z) : x ∈ add_id i s <-> x = i \/ x ∈ s.
Proof.
    unfold add_id. destruct (existsb (Z.eqb i) s) eqn:E.
    - apply (includes_id_elem s i) in E. split; [now right|]. now intros [->|].
    - rewrite list.elem_of_app, list.list_elem_of_singleton. tauto.
Qed.

Lemma NoDup_add_id (i : Z) (s : list Z) : base.NoDup s -> base.NoDup (add_id i s).
Proof.
    intros Hs. unfold add_id. destruct (existsb (Z.eqb i) s) eqn:E; [exact Hs|].
    apply list.NoDup_app. split; [exact Hs|]. split.
    - intros x Hx Hxi. apply list.list_elem_of_singleton in Hxi as ->.
      apply (includes_id_elem s i) in Hx. unfold includes_id in Hx. congruence.
    - apply list.NoDup_singleton.
Qed.

  (** *** The reply loop *)

Lemma collectReply_ok (messageMap : gmap Z TelegramMessage) (flag : bool)
        (st : Replies) (msg : TelegramMessage) :
    replies_ok st -> replies_ok (collectReply messageMap flag st msg).
Proof.
    intros [Hnd Hedges]. unfold collectReply.
    destruct (reply_to_message_id msg) as [targetId|]; [|now split].
    assert (Hlink : forall self cross,
               replies_ok
                 {| selfReplies := self; crossChannelReplies := cross;
                    ids := add_id targetId (add_id (id msg) (ids st));
                    replyEdges := replyEdges st ++ [ {| source := targetId; target := id msg |} ] |}).
    { intros self cross. split; simpl.
      - now apply NoDup_add_id, NoDup_add_id.
      - intros e He. rewrite !elem_of_add_id.
        apply list.elem_of_app in He as [He|He].
        + destruct (Hedges e He). tauto.
        + apply list.list_elem_of_singleton in He as ->. simpl. tauto. }
    destruct (messageMap !! targetId); [apply Hlink|].
    destruct flag; [apply Hlink|]. now split.
Qed.

Lemma replies_fold_ok (messageMap : gmap Z TelegramMessage) (flag : bool)
        (msgs : list TelegramMessage) (st : Replies) :
    replies_ok st -> replies_ok (fold_left (collectReply messageMap flag) msgs st).
Proof.
    revert st. induction msgs as [|msg msgs IH]; intros st Hst; simpl; [exact Hst|].
    now apply IH, collectReply_ok.
Qed.

  (** *** The adjacency lists only hold end points of edges *)

Lemma adjacency_init_empty (nodeIds : list Z) (adj : gmap Z (list Z)) :
    (forall k l, adj !! k = Some l -> l = []) ->
    forall k l, fold_left (fun adj i => <[i := []]> adj) nodeIds adj !! k = Some l -> l = [].
Proof.
    revert adj. induction nodeIds as [|i nodeIds IH]; intros adj Hadj k l; simpl.
    - apply Hadj.
    - apply IH. intros k' l'. rewrite lookup_insert.
      destruct (decide (i = k')); [congruence | apply Hadj].
Qed.

Lemma endpoints_alter (E : list GraphEdge) (adj : gmap Z (list Z)) (e : GraphEdge)
        (k n : Z) :
    e ∈ E -> (n = source e \/ n = target e) ->
    endpoints_only E adj -> endpoints_only E (alter (fun l => l ++ [n]) k adj).
Proof.
    intros He Hn Hadj k' l m Hl Hm.
    rewrite lookup_alter in Hl. destruct (decide (k = k')) as [->|Hne].
    - destruct (adj !! k') as [l0|] eqn:El0; simpl in Hl; [|discriminate].
      injection Hl as <-. apply list.elem_of_app in Hm as [Hm|Hm].
      + eapply Hadj; eauto.
      + apply list.list_elem_of_singleton in Hm as ->. eauto.
    - eapply Hadj; eauto.
Qed.

Lemma adjacency_edges (E es : list GraphEdge) (adj : gmap Z (list Z)) :
    (forall e, e ∈ es -> e ∈ E) ->
    endpoints_only E adj ->
    endpoints_only E
      (fold_left
         (fun adj e =>
            let adj := alter (fun l => l ++ [target e]) (source e) adj in
            alter (fun l => l ++ [source e]) (target e) adj)
         es adj).
Proof.
    revert adj. induction es as [|e es IH]; intros adj Hes Hadj; simpl; [exact Hadj|].
    apply IH.
    - intros e' He'. apply Hes. now right.
    - assert (e ∈ E) by (apply Hes; now left).
      eapply endpoints_alter; eauto. eapply endpoints_alter; eauto.
Qed.

Lemma adjacency_endpoints (nodeIds : list Z) (E : list GraphEdge) :
    endpoints_only E (adjacency nodeIds E).
Proof.
    unfold adjacency. apply adjacency_edges; [auto|].
    intros k l n Hl Hn.
    apply adjacency_init_empty in Hl as ->; [inversion Hn|].
    intros k' l'. rewrite lookup_empty. discriminate.
Qed.

  (** *** The node map *)

Lemma nodeMap_fold_ok (messageMap : gmap Z TelegramMessage) (l : list Z)
        (nm : gmap Z GraphNode) :
    nodes_ok nm ->
    let nm' := fold_left (fun m n => <[node_id n := n]> m) (map (buildNode messageMap) l) nm in
    nodes_ok nm'
    /\ (forall i, i ∈ l \/ is_Some (nm !! i) -> is_Some (nm' !! i)).
Proof.
    revert nm. induction l as [|i l IH]; intros nm Hnm; simpl.
    - split; [exact Hnm|]. intros i [Hi|Hi]; [inversion Hi | exact Hi].
    - set (nm1 := <[i := buildNode messageMap i]> nm).
      assert (Hnm1 : nodes_ok nm1).
      { intros k n. unfold nm1. rewrite lookup_insert.
        destruct (decide (i = k)) as [->|]; [|apply Hnm].
        now intros [= <-]. }
      destruct (IH nm1 Hnm1) as [Hok Hdom]. split; [exact Hok|].
      intros k Hk. apply Hdom. unfold nm1. rewrite lookup_insert.
      destruct (decide (i = k)) as [->|Hne]; [right; eauto|].
      destruct Hk as [Hk|Hk]; [|now right].
      apply list.elem_of_cons in Hk as [->|Hk]; [congruence | now left].
Qed.

Lemma nodes_ok_alter (c k : Z) (nm : gmap Z GraphNode) :
    nodes_ok nm -> nodes_ok (alter (set_chainId c) k nm).
Proof.
    intros Hnm i n. rewrite lookup_alter. destruct (decide (k = i)) as [->|]; [|apply Hnm].
    destruct (nm !! i) as [n0|] eqn:En0; simpl; [|discriminate].
    intros [= <-]. simpl. now apply Hnm.
Qed.

Lemma is_Some_alter (c k i : Z) (nm : gmap Z GraphNode) :
    is_Some (nm !! i) -> is_Some (alter (set_chainId c) k nm !! i).
Proof.
    intros [n Hn]. rewrite lookup_alter. destruct (decide (k = i)) as [->|]; [|eauto].
    rewrite Hn. simpl. eauto.
Qed.
End ReplyGraphFacts.

Section ComponentFacts.
Import ReplyGraph.

Variable U : gset Z.
Variable fuel : nat.
Variable adj : gmap Z (list Z).
Variable E : list GraphEdge.

Hypothesis adj_in_U : forall k l n, adj !! k = Some l -> n ∈ l -> n ∈ U.
Hypothesis edges_in_U : forall e, e ∈ E -> (source e ∈ U) /\ (target e ∈ U).
Hypothesis enough_fuel : (size U < fuel)%nat.

Lemma neighbours_in_U (x n : Z) : n ∈ neighbours adj x -> n ∈ U.
Proof.
    unfold neighbours. destruct (adj !! x) as [l|] eqn:El; simpl.
    - now apply (adj_in_U x l).
    - intros Hn. inversion Hn.
Qed.

  (** The component search from an unvisited [start]. *)
Lemma component_search (chainId start : Z) (v0 : gset Z) (nm0 : gmap Z GraphNode) :
    start ∈ U -> start ∉ v0 -> v0 ⊆ U -> nodes_ok nm0 ->
    exists chain nm' v',
      worklist (fun i : Z => i) (neighbours adj) (mark chainId)
               fuel [start] ({[start]} ∪ v0) ([], nm0)
      = Some ((chain, nm'), v')
      /\ base.NoDup chain
      /\ (forall i, i ∈ v' <-> i ∈ v0 \/ i ∈ chain)
      /\ (forall i, i ∈ chain -> i ∉ v0)
      /\ start ∈ chain
      /\ v' ⊆ U
      /\ nodes_ok nm'
      /\ (forall i, is_Some (nm0 !! i) -> is_Some (nm' !! i)).
Proof.
    intros HsU Hsv Hv0 Hnm0.
    destruct (worklist_returns (fun i : Z => i) (neighbours adj) (mark chainId) U
                neighbours_in_U fuel [start] ({[start]} ∪ v0) ([], nm0))
      as [[[chain nm'] v'] Hrun].
    { set_solver. }
    { rewrite size_union by set_solver. rewrite size_singleton. simpl.
      assert (size ({[start]} ∪ v0) <= size U)%nat as Hle
          by (apply subseteq_size; set_solver).
      rewrite size_union, size_singleton in Hle by set_solver. lia. }
    exists chain, nm', v'. split; [exact Hrun|].
    pose (P := fun (q : list Z) (v : gset Z) (st : list Z * gmap Z GraphNode) =>
                 base.NoDup (st.1 ++ q)
                 /\ (forall i, i ∈ v <-> i ∈ v0 \/ i ∈ st.1 ++ q)
                 /\ (forall i, i ∈ st.1 ++ q -> i ∉ v0)
                 /\ start ∈ st.1 ++ q
                 /\ v ⊆ U
                 /\ nodes_ok st.2
                 /\ (forall i, is_Some (nm0 !! i) -> is_Some (st.2 !! i))).
    assert (Hend : P [] v' (chain, nm')).
    { apply (worklist_invariant (fun i : Z => i) (neighbours adj) (mark chainId) P)
        with (fuel := fuel) (queue := [start]) (v := {[start]} ∪ v0) (st := ([], nm0))
             (r := ((chain, nm'), v')); [|..|exact Hrun].
      - (* one iteration *)
        intros current rest v [ch nm] (Hnd & Hmem & Hfresh & Hstart & HvU & Hok & Hdom).
        simpl in *.
        destruct (enqueue_new_spec (fun i : Z => i) (neighbours adj current) rest v)
          as (added & Heq & Hnda & Hadd).
        rewrite list_fmap_id in Heq, Hnda.
        unfold P. rewrite Heq. unfold mark. cbn [fst snd].
        replace ((ch ++ [current]) ++ rest ++ added)
          with ((ch ++ current :: rest) ++ added)
          by (rewrite <- !app_assoc; reflexivity).
        repeat split.
        + apply list.NoDup_app. repeat split; [exact Hnd| |exact Hnda].
          intros x Hx Hxa. destruct (Hadd x Hxa) as [Hxv _].
          apply Hxv, Hmem. now right.
        + intros Hi. apply elem_of_union in Hi as [Hi|Hi].
          * apply elem_of_list_to_set in Hi. right. apply list.elem_of_app. now right.
          * apply Hmem in Hi as [Hi|Hi]; [now left|]. right. apply list.elem_of_app. now left.
        + intros [Hi|Hi].
          * apply elem_of_union. right. apply Hmem. now left.
          * apply list.elem_of_app in Hi as [Hi|Hi].
            -- apply elem_of_union. right. apply Hmem. now right.
            -- apply elem_of_union. left. now apply elem_of_list_to_set.
        + intros i Hi. apply list.elem_of_app in Hi as [Hi|Hi]; [now apply Hfresh|].
          destruct (Hadd i Hi) as [Hiv _]. intros Hi0. apply Hiv, Hmem. now left.
        + apply list.elem_of_app. now left.
        + intros i Hi. apply elem_of_union in Hi as [Hi|Hi]; [|now apply HvU].
          apply elem_of_list_to_set in Hi. destruct (Hadd i Hi) as [_ Hn].
          now apply (neighbours_in_U current).
        + now apply nodes_ok_alter.
        + intros i Hi. now apply is_Some_alter, Hdom.
      - (* on entry *)
        unfold P. simpl. repeat split.
        + apply list.NoDup_singleton.
        + intros Hi. apply elem_of_union in Hi as [Hi|Hi]; [|now left].
          apply elem_of_singleton in Hi as ->. right. now left.
        + intros [Hi|Hi]; [set_solver|].
          apply list.list_elem_of_singleton in Hi as ->. set_solver.
        + intros i Hi. apply list.list_elem_of_singleton in Hi as ->. exact Hsv.
        + now left.
        + set_solver.
        + exact Hnm0.
        + auto. }
    destruct Hend as (Hnd & Hmem & Hfresh & Hstart & HvU & Hok & Hdom).
    simpl in *. rewrite app_nil_r in *.
    repeat split; auto; apply Hmem.
Qed.

Lemma pickRoot_in (roots chain : list Z) :
    chain <> [] -> (forall r, r ∈ roots -> r ∈ chain) -> pickRoot roots chain ∈ chain.
Proof.
    intros Hne Hroots.
    assert (Hhd : hd 0 chain ∈ chain) by (destruct chain; [congruence | now left]).
    unfold pickRoot. destruct roots as [|r roots]; [exact Hhd|].
    destruct (r =? 0); [exact Hhd|]. apply Hroots. now left.
Qed.

Lemma chainDepth_returns (chainEdges : list GraphEdge) (root : Z) :
    (forall e, In e chainEdges -> In e E) -> root ∈ U ->
    is_Some (chainDepth fuel chainEdges root).
Proof.
    intros Hsub Hroot. unfold chainDepth. apply fmap_is_Some.
    apply (worklist_returns _ _ _ U).
    - intros [cid d] [n d'] Hn. unfold deeper in Hn. simpl in *.
      apply list_elem_of_In, in_map_iff in Hn as (e & [= <- _] & He).
      apply filter_In in He as [He _].
      apply edges_in_U, list_elem_of_In, Hsub, He.
    - set_solver.
    - rewrite size_singleton. simpl.
      assert (size ({[root]} : gset Z) <= size U)%nat as Hle
          by (apply subseteq_size; set_solver).
      rewrite size_singleton in Hle. lia.
Qed.

Lemma component_step (st : Components) (start : Z) :
    start ∈ U -> components_ok U st ->
    exists st',
      component fuel adj E st start = Some st'
      /\ components_ok U st'
      /\ visited st ⊆ visited st'
      /\ start ∈ visited st'.
Proof.
    intros HsU (Hnd & Hmem & HvU & Hok & Hdom). unfold component.
    destruct (decide (start ∈ visited st)) as [Hin|Hnin].
    { exists st. split; [reflexivity|].
      split; [repeat split; auto; apply Hmem|]. split; [reflexivity | exact Hin]. }
    destruct (component_search (lastChainId st + 1) start (visited st) (nodeObjects st)
                HsU Hnin HvU Hok)
      as (chain & nm' & v' & Hrun & Hndc & Hmemc & Hfresh & Hstart & Hv'U & Hok' & Hdom').
    rewrite Hrun. simpl.
    set (chainEdges := List.filter _ E).
    set (root := pickRoot _ chain).
    assert (Hroot : root ∈ chain).
    { apply pickRoot_in.
      - intros ->. inversion Hstart.
      - intros r Hr. apply list_elem_of_In, filter_In in Hr as [Hr _].
        now apply list_elem_of_In. }
    destruct (chainDepth_returns chainEdges root) as [maxDepth HmaxDepth].
    { intros e He. now apply filter_In in He as [He _]. }
    { apply Hv'U, Hmemc. now right. }
    rewrite HmaxDepth. simpl. eexists. split; [reflexivity|].
    unfold components_ok. simpl.
    rewrite map_app, concat_app. simpl. rewrite app_nil_r.
    repeat split; auto.
    - apply list.NoDup_app. repeat split; [exact Hnd| |exact Hndc].
      intros x Hx Hxc. apply (Hfresh x Hxc), Hmem, Hx.
    - intros Hi. apply list.elem_of_app. apply Hmemc in Hi as [Hi|Hi]; [left|now right].
      now apply Hmem.
    - intros Hi. apply Hmemc. apply list.elem_of_app in Hi as [Hi|Hi]; [left|now right].
      now apply Hmem.
    - intros i Hi. apply Hmemc. now left.
    - apply Hmemc. now right.
Qed.

Lemma component_loop (l : list Z) (st : Components) :
    (forall i, i ∈ l -> i ∈ U) -> components_ok U st ->
    exists st',
      fold_left (fun st startId => st ← st; component fuel adj E st startId) l (Some st)
      = Some st'
      /\ components_ok U st'
      /\ visited st ⊆ visited st'
      /\ (forall i, i ∈ l -> i ∈ visited st').
Proof.
    revert st. induction l as [|start l IH]; intros st Hl Hst; simpl.
    - exists st. split; [reflexivity|]. split; [exact Hst|].
      split; [reflexivity|]. intros i Hi. inversion Hi.
    - destruct (component_step st start) as (st1 & Hstep & Hst1 & Hmono & Hstart);
        [apply Hl; now left | exact Hst |].
      rewrite Hstep.
      destruct (IH st1) as (st' & Hfold & Hst' & Hmono' & Hall);
        [intros i Hi; apply Hl; now right | exact Hst1 |].
      exists st'. split; [exact Hfold|]. split; [exact Hst'|].
      split; [now transitivity (visited st1)|].
      intros i Hi. apply list.elem_of_cons in Hi as [->|Hi]; [|now apply Hall].
      now apply Hmono'.
Qed.
End ComponentFacts.

Section Partition.
Context {A : Type}.

  (** Lists whose concatenation has no duplicates are pairwise disjoint. *)
Lemma NoDup_concat_disjoint (L : list (list A)) :
    List.NoDup (concat L) ->
    forall i j li lj x,
      i <> j -> nth_error L i = Some li -> nth_error L j = Some lj ->
      In x li -> ~ In x lj.
Proof.
    induction L as [|l L IH]; intros Hnd i j li lj x Hij Hi Hj Hxi Hxj.
    - destruct i; discriminate.
    - simpl in Hnd. apply NoDup_ListNoDup, list.NoDup_app in Hnd as (Hl & Hdisj & HL).
      apply NoDup_ListNoDup in HL.
      destruct i as [|i], j as [|j]; simpl in Hi, Hj.
      + congruence.
      + injection Hi as <-. apply (Hdisj x); apply list_elem_of_In; [exact Hxi|].
        apply in_concat. exists lj. split; [now apply (nth_error_In L j) | exact Hxj].
      + injection Hj as <-. apply (Hdisj x); apply list_elem_of_In; [exact Hxj|].
        apply in_concat. exists li. split; [now apply (nth_error_In L i) | exact Hxi].
      + apply (IH HL i j li lj x); auto.
Qed.
End Partition.

Section ReplyGraphClaims.
Import ReplyGraph.

Lemma resolved_nodes (nm : gmap Z GraphNode) (ds : list ChainDraft) :
    concat (map chain_nodes (map (resolveChain nm) ds))
    = omap (fun i => nm !! i) (concat (map draft_nodeIds ds)).
Proof.
    induction ds as [|d ds IH]; simpl; [reflexivity|].
    now rewrite omap_app, IH.
Qed.

Lemma resolved_ids (nm : gmap Z GraphNode) (l : list Z) :
    nodes_ok nm -> (forall i, i ∈ l -> is_Some (nm !! i)) ->
    map node_id (omap (fun i => nm !! i) l) = l.
Proof.
    intros Hok. induction l as [|i l IH]; intros Hl; [reflexivity|].
    destruct (Hl i) as [n Hn]; [now left|].
    simpl. rewrite Hn. simpl. rewrite (Hok i n Hn). f_equal.
    apply IH. intros k Hk. apply Hl. now right.
Qed.

  (** [buildReplyGraph] returns, and the nodes of its chains, taken
      together, are its nodes, each once. *)
Lemma buildReplyGraph_returns (messages : list TelegramMessage) (flag : bool) :
    exists g,
      buildReplyGraph messages flag = Some g
      /\ Permutation (concat (map chain_nodes (chains g))) (nodes g)
      /\ List.NoDup (map node_id (nodes g)).
Proof.
    unfold buildReplyGraph.
    set (messageMap := messageMapOf messages).
    set (replies := fold_left (collectReply messageMap flag) _ _).
    assert (Hreplies : replies_ok replies).
    { apply replies_fold_ok. split; simpl; [constructor|]. intros e He. inversion He. }
    destruct Hreplies as [Hnd Hedges].
    set (nodeIds := ids replies) in *.
    set (E := replyEdges replies) in *.
    set (U := list_to_set nodeIds : gset Z).
    set (nodeMap0 := fold_left _ (map (buildNode messageMap) nodeIds) ∅).
    destruct (nodeMap_fold_ok messageMap nodeIds ∅) as [Hok0 Hdom0].
    { intros i n. rewrite lookup_empty. discriminate. }
    fold nodeMap0 in Hok0, Hdom0.
    destruct (component_loop U (S (length nodeIds)) (adjacency nodeIds E) E)
      with (l := nodeIds)
           (st := {| visited := ∅; drafts := []; lastChainId := 0; nodeObjects := nodeMap0 |})
      as (final & Hfold & (Hndf & Hmem & HvU & Hok & Hdom) & _ & Hall).
    - intros k l n Hl Hn.
      destruct (adjacency_endpoints nodeIds E k l n Hl Hn) as (e & He & [->| ->]);
        apply elem_of_list_to_set; now apply Hedges.
    - intros e He. split; apply elem_of_list_to_set; now apply Hedges.
    - unfold U. rewrite size_list_to_set by exact Hnd. lia.
    - intros i Hi. now apply elem_of_list_to_set.
    - split; [constructor|]. simpl.
      split; [intros i; split; intros Hi; inversion Hi|].
      split; [apply empty_subseteq|]. split; [exact Hok0|].
      intros i Hi. apply Hdom0. left. now apply elem_of_list_to_set in Hi.
    - rewrite Hfold. simpl. eexists. split; [reflexivity|]. simpl.
      set (found := concat (map draft_nodeIds (drafts final))) in *.
      assert (Hperm : Permutation found nodeIds).
      { apply list.NoDup_Permutation; [exact Hndf | exact Hnd |].
        intros i. rewrite <- Hmem. split; intros Hi.
        - apply HvU in Hi. now apply elem_of_list_to_set in Hi.
        - now apply Hall. }
      split.
      + rewrite array_sort_perm, resolved_nodes. fold found.
        now apply omap_Permutation.
      + rewrite resolved_ids; [now apply NoDup_ListNoDup | exact Hok |].
        intros i Hi. apply Hdom. now apply elem_of_list_to_set.
Qed.

  (** C8.  For every message list and flag, [buildReplyGraph] returns a
      graph whose chains partition its nodes: every node belongs to exactly
      one chain, the nodes of the chains are together the nodes of the
      graph, and two distinct chains share no node. *)
Theorem chains_partition_nodes (messages : list TelegramMessage)
          (includeCrossChannel : bool) :
    exists g,
      buildReplyGraph messages includeCrossChannel = Some g
      /\ (forall n, In n (nodes g) ->
            exists c, In c (chains g) /\ In n (chain_nodes c)
                      /\ forall c', In c' (chains g) -> In n (chain_nodes c') -> c' = c)
      /\ (forall n, In n (nodes g) <->
            exists c, In c (chains g) /\ In n (chain_nodes c))
      /\ (forall i j ci cj,
            i <> j ->
            nth_error (chains g) i = Some ci -> nth_error (chains g) j = Some cj ->
            forall n, In n (chain_nodes ci) -> ~ In n (chain_nodes cj))
      /\ Permutation (concat (map chain_nodes (chains g))) (nodes g)
      /\ List.NoDup (nodes g).
Proof.
    destruct (buildReplyGraph_returns messages includeCrossChannel)
      as (g & Hg & Hperm & Hids).
    exists g. split; [exact Hg|].
    assert (Hnodes : List.NoDup (nodes g)) by (eapply NoDup_map_inv; exact Hids).
    assert (Hcat : List.NoDup (concat (map chain_nodes (chains g)))).
    { eapply Permutation_NoDup; [symmetry; exact Hperm | exact Hnodes]. }
    assert (Hdisj : forall i j ci cj,
               i <> j ->
               nth_error (chains g) i = Some ci -> nth_error (chains g) j = Some cj ->
               forall n, In n (chain_nodes ci) -> ~ In n (chain_nodes cj)).
    { intros i j ci cj Hij Hi Hj n.
      apply (NoDup_concat_disjoint _ Hcat i j); [exact Hij | |];
        rewrite nth_error_map; [now rewrite Hi | now rewrite Hj]. }
    assert (Hcover : forall n, In n (nodes g) <->
                               exists c, In c (chains g) /\ In n (chain_nodes c)).
    { intros n. split.
      - intros Hn. apply (Permutation_in _ (Permutation_sym Hperm)) in Hn.
        apply in_concat in Hn as (l & Hl & Hnl).
        apply in_map_iff in Hl as (c & <- & Hc). eauto.
      - intros (c & Hc & Hn). apply (Permutation_in _ Hperm).
        apply in_concat. exists (chain_nodes c). split; [now apply in_map | exact Hn]. }
    repeat split; auto; try apply Hcover.
    intros n Hn. apply Hcover in Hn as (c & Hc & Hnc).
    exists c. repeat split; auto.
    intros c' Hc' Hnc'.
    apply In_nth_error in Hc as [i Hi]. apply In_nth_error in Hc' as [j Hj].
    destruct (Nat.eq_dec j i) as [->|Hne]; [congruence|].
    exfalso. exact (Hdisj j i c' c Hne Hj Hi n Hnc' Hnc).
Qed.
End ReplyGraphClaims.

Section ReplyGraphScenario.
Import ReplyGraph.

  (** C2.  For the list of one content message with id 1 whose reply target
      999 is absent: without cross-channel replies the graph has no node and
      no edge and counts one external reply; with them it has the two nodes
      1 and 999, the second a phantom, and the one edge from 999 to 1, and
      still counts one external reply. *)
Theorem phantom_reply_scenario (msg : TelegramMessage) :
    id msg = 1 -> type msg = message -> reply_to_message_id msg = Some 999 ->
    (exists g,
        buildReplyGraph [msg] false = Some g
        /\ nodes g = [] /\ edges g = [] /\ chains g = []
        /\ crossChannelReplyCount g = 1 /\ selfReplyCount g = 0)
    /\ (exists g,
          buildReplyGraph [msg] true = Some g
          /\ length (nodes g) = 2%nat
          /\ map node_id (nodes g) = [1; 999]
          /\ map isForwardedReply (nodes g) = [false; true]
          /\ map node_message (nodes g) = [msg; createPhantomMessage 999]
          /\ edges g = [ {| source := 999; target := 1 |} ]
          /\ length (edges g) = 1%nat
          /\ crossChannelReplyCount g = 1 /\ selfReplyCount g = 0).
Proof.
    intros Hid Hty Hreply.
    destruct msg as [i k d f t r fw p fi mt rs]. simpl in Hid, Hty, Hreply. subst.
    set (msg := {| id := 1; type := message; date := d; from := f; text := t;
                   reply_to_message_id := Some 999; forwarded_from := fw; photo := p;
                   file := fi; media_type := mt; reactions := rs |}).
    split.
    - exists {| nodes := []; edges := []; chains := [];
                selfReplyCount := 0; crossChannelReplyCount := 1 |}.
      split; [vm_compute; reflexivity|]. repeat split.
    - set (n1 := set_chainId 1 (buildNode (messageMapOf [msg]) 1)).
      set (n999 := set_chainId 1 (buildNode (messageMapOf [msg]) 999)).
      exists {| nodes := [n1; n999];
                edges := [ {| source := 999; target := 1 |} ];
                chains := [ {| chain_id := 1; chain_nodes := [n1; n999];
                               chain_edges := [ {| source := 999; target := 1 |} ];
                               rootId := 999; depth := 1 |} ];
                selfReplyCount := 0; crossChannelReplyCount := 1 |}.
      split; [vm_compute; reflexivity|].
      repeat split; vm_compute; reflexivity.
Qed.

Lemma phantom_reply_scenario_witness :
    (nodes <$> buildReplyGraph [orphan_reply] false = Some [])
    /\ (length ∘ nodes <$> buildReplyGraph [orphan_reply] true = Some 2%nat).
Proof.
    destruct (phantom_reply_scenario orphan_reply eq_refl eq_refl eq_refl)
      as [(g0 & Hg0 & Hn0 & _) (g1 & Hg1 & Hn1 & _)].
    rewrite Hg0, Hg1. simpl. now rewrite Hn0, Hn1.
Defined.

Lemma chains_partition_nodes_witness :
    exists g,
      buildReplyGraph two_threads true = Some g
      /\ map node_id (nodes g) = [2; 1; 3; 4; 5; 77; 6]
      /\ map (fun c => map node_id (chain_nodes c)) (chains g) = [[2; 1; 3; 4]; [5; 77; 6]]
      /\ Permutation (concat (map chain_nodes (chains g))) (nodes g).
Proof.
    destruct (chains_partition_nodes two_threads true) as (g & Hg & _ & _ & _ & Hperm & _).
    exists g. split; [exact Hg|].
    assert (Hsome : Some g = buildReplyGraph two_threads true) by (symmetry; exact Hg).
    vm_compute in Hsome. injection Hsome as ->.
    split; [reflexivity|]. split; [reflexivity|]. exact Hperm.
Defined.
End ReplyGraphScenario.

(** ** Numbers: rounding keeps the sign *)

Section NumberFacts.
Local Open Scope Q_scope.

Lemma Qfloor_nonneg (q : Q) : 0 <= q -> (0 <= Qfloor q)%Z.
Proof. intros Hq. change 0%Z with (Qfloor 0). now apply Qfloor_resp_le. Qed.

Lemma round_half_even_nonneg (q : Q) : 0 <= q -> (0 <= round_half_even q)%Z.
Proof.
    intros Hq. pose proof (Qfloor_nonneg q Hq) as Hf. unfold round_half_even.
    destruct (Qcompare _ _); [destruct (Z.even _)| |]; lia.
Qed.

Lemma pow2_pos (k : Z) : 0 < pow2 k.
Proof. apply Qpower_0_lt. reflexivity. Qed.

Lemma Qdiv_nonneg (a b : Q) : 0 <= a -> 0 <= b -> 0 <= a / b.
Proof.
    intros Ha Hb. apply Qmult_le_0_compat; [exact Ha|]. now apply Qinv_le_0_compat.
Qed.

Lemma round_double_nonneg (q : Q) : 0 <= q -> 0 <= round_double q.
Proof.
    intros Hq. unfold round_double. destruct q as [n d]. simpl Qnum.
    destruct n as [|n|n].
    - apply Qle_refl.
    - apply Qmult_le_0_compat; [|apply Qlt_le_weak, pow2_pos].
      change 0 with (inject_Z 0). rewrite <- Zle_Qle.
      apply round_half_even_nonneg, Qdiv_nonneg; [exact Hq|].
      apply Qlt_le_weak, pow2_pos.
    - exfalso. unfold Qle in Hq. simpl in Hq. lia.
Qed.

Lemma fdiv_nonneg (a b : Q) : 0 <= a -> 0 <= b -> 0 <= fdiv a b.
Proof. intros Ha Hb. now apply round_double_nonneg, Qdiv_nonneg. Qed.

Lemma fmul_nonneg (a b : Q) : 0 <= a -> 0 <= b -> 0 <= fmul a b.
Proof. intros Ha Hb. now apply round_double_nonneg, Qmult_le_0_compat. Qed.

Lemma Math_min_nonneg (a b : Q) : 0 <= a -> 0 <= b -> 0 <= Math_min a b.
Proof. intros Ha Hb. unfold Math_min. now destruct (Qle_bool a b). Qed.

Lemma Math_max_nonneg (a b : Q) : 0 <= a -> 0 <= b -> 0 <= Math_max a b.
Proof. intros Ha Hb. unfold Math_max. now destruct (Qle_bool a b). Qed.

Lemma Math_round_nonneg (q : Q) : 0 <= q -> (0 <= Math_round q)%Z.
Proof.
    intros Hq. apply Qfloor_nonneg.
    apply Qle_trans with q; [exact Hq|].
    rewrite <- (Qplus_0_r q) at 1. apply Qplus_le_r. discriminate.
Qed.

Lemma inject_Z_nonneg (z : Z) : (0 <= z)%Z -> 0 <= inject_Z z.
Proof. intros Hz. change 0 with (inject_Z 0). now rewrite <- Zle_Qle. Qed.

  (** On a grid of operands, [round_double] computes what binary64
      arithmetic computes. *)
Example round_double_is_binary64 :
    forallb (fun a => forallb (fun b => agrees_on a b 50 && agrees_on a b 40
                                        && agrees_on a b 100 && agrees_on a b 20)
                              (map Z.of_nat (seq 1 40)))
            (map Z.of_nat (seq 0 40))
    && forallb agrees_on_0_3 (map Z.of_nat (seq 0 400)) = true.
Proof. vm_compute. reflexivity. Qed.
End NumberFacts.

(** ** post-scoring: [findSimilarPosts] *)

Section SimilarPostsClaims.
Import PostScoring.
Context `{CaseMapping}.

Lemma similar_loop (target : TelegramMessage) (tags words : list jsstring)
        (posts : list TelegramMessage) (acc : list SimilarPost) :
    fold_left
      (fun candidates msg =>
         let c := similarity target tags words msg in
         if 10 <? sp_score c then candidates ++ [c] else candidates)
      posts acc
    = acc ++ filter (fun c => 10 <? sp_score c) (map (similarity target tags words) posts).
Proof.
    revert acc. induction posts as [|msg posts IH]; intros acc; simpl.
    - now rewrite app_nil_r.
    - rewrite IH. destruct (10 <? sp_score (similarity target tags words msg)).
      + now rewrite <- app_assoc.
      + reflexivity.
Qed.

Lemma findSimilarPosts_unfold (target : TelegramMessage)
        (allMessages : list TelegramMessage) (limit : Z) :
    findSimilarPosts target allMessages limit
    = slice0 (array_sort (descending sp_score)
                (filter (fun c => 10 <? sp_score c)
                        (map (similarityTo target) (otherPosts target allMessages))))
             limit.
Proof. unfold findSimilarPosts. now rewrite similar_loop. Qed.

Lemma similarity_message (target : TelegramMessage) (tags words : list jsstring)
        (msg : TelegramMessage) :
    sp_message (similarity target tags words msg) = msg.
Proof.
    unfold similarity.
    repeat match goal with
           | |- context [let '(_, _) := ?x in _] => destruct x
           end.
    reflexivity.
Qed.

  (** The four parts of a similarity score. *)
Lemma similarity_score (target : TelegramMessage) (tags words : list jsstring)
        (msg : TelegramMessage) :
    exists shared keyword source media,
      sp_score (similarity target tags words msg)
      = shared * 30 + keyword + source + media
      /\ 0 <= shared /\ 0 <= keyword <= 40
      /\ (source = 0 \/ source = 15) /\ (media = 0 \/ media = 5).
Proof.
    unfold similarity.
    set (shared := Z.of_nat (length (filter _ tags))).
    set (sharedWords := Z.of_nat (length (filter _ words))).
    set (size := Z.of_nat (length words)).
    set (wordScore := Z.min 40 _).
    assert (Hw : 0 <= wordScore <= 40).
    { unfold wordScore. split; [|apply Z.le_min_l].
      apply Z.min_glb; [lia|].
      apply Math_round_nonneg, fmul_nonneg; [|discriminate].
      apply fdiv_nonneg; apply inject_Z_nonneg; unfold sharedWords, size; lia. }
    clearbody wordScore.
    assert (Hs : 0 <= shared) by (unfold shared; lia).
    clearbody shared sharedWords size.
    exists (if 0 <? shared then shared else 0).
    exists (if (0 <? sharedWords) && (0 <? size) then wordScore else 0).
    exists (match forwarded_from target, forwarded_from msg with
            | Some src, Some src' => if truthy_str (Some src) && str_eqb src' src then 15 else 0
            | _, _ => 0
            end).
    exists (match media_type target, media_type msg with
            | Some mt, Some mt' => if truthy_str (Some mt) && str_eqb mt' mt then 5 else 0
            | _, _ => 0
            end).
    destruct (0 <? shared); destruct ((0 <? sharedWords) && (0 <? size));
      destruct (forwarded_from target) as [src|]; destruct (forwarded_from msg) as [src'|];
      destruct (media_type target) as [mt|]; destruct (media_type msg) as [mt'|];
      repeat match goal with
             | |- context [if ?b then _ else _] => destruct b
             end;
      cbn [sp_score]; repeat split; auto; lia.
Qed.

  (** C7, as the code has it.  [findSimilarPosts] scores every other
      content message against the target (30 per shared hashtag, at most 40
      for the keyword overlap, 15 for the same forward source, 5 for the same
      media type), drops exactly the candidates whose score is at most 10, so
      a candidate that scores exactly 10 is dropped, and returns the others
      sorted by descending score and truncated to the count [limit]. *)
Theorem similar_posts_above_10 (target : TelegramMessage)
          (allMessages : list TelegramMessage) (limit : nat) :
    let posts := otherPosts target allMessages in
    let kept := filter (fun c => 10 <? sp_score c) (map (similarityTo target) posts) in
    let ranked := array_sort (descending sp_score) kept in
    findSimilarPosts target allMessages (Z.of_nat limit) = firstn limit ranked
    /\ Permutation ranked kept
    /\ StronglySorted (fun a b => sp_score b <= sp_score a) ranked
    /\ (forall m, In m posts -> sp_score (similarityTo target m) <= 10 ->
                  ~ In (similarityTo target m) ranked)
    /\ (forall m, In m posts -> 10 < sp_score (similarityTo target m) ->
                  In (similarityTo target m) ranked)
    /\ (forall c, In c (findSimilarPosts target allMessages (Z.of_nat limit)) ->
                  10 < sp_score c /\ In (sp_message c) posts)
    /\ (forall m, exists shared keyword source media,
           sp_score (similarityTo target m) = shared * 30 + keyword + source + media
           /\ 0 <= shared /\ 0 <= keyword <= 40
           /\ (source = 0 \/ source = 15) /\ (media = 0 \/ media = 5)).
Proof.
    intros posts kept ranked.
    assert (Hfind : findSimilarPosts target allMessages (Z.of_nat limit)
                    = firstn limit ranked).
    { rewrite findSimilarPosts_unfold, slice0_firstn by lia. now rewrite Nat2Z.id. }
    assert (Hperm : Permutation ranked kept) by apply array_sort_perm.
    assert (Hkept : forall c, In c kept <->
                              (exists m, In m posts /\ c = similarityTo target m)
                              /\ 10 < sp_score c).
    { intros c. unfold kept. rewrite filter_In, in_map_iff, Z.ltb_lt.
      split; intros [(m & Hm1 & Hm2) Hc]; (split; [exists m|]; auto). }
    split; [exact Hfind|].
    split; [exact Hperm|].
    split; [apply (array_sort_desc sp_score)|].
    split.
    { intros m Hm Hle Hin. apply (Permutation_in _ Hperm), Hkept in Hin as [_ Hgt]. lia. }
    split.
    { intros m Hm Hgt. apply (Permutation_in _ (Permutation_sym Hperm)), Hkept.
      split; [exists m|]; auto. }
    split.
    { intros c Hc. rewrite Hfind in Hc.
      assert (Hin : In c ranked).
      { eapply in_firstn. exact Hc. }
      apply (Permutation_in _ Hperm), Hkept in Hin as [(m & Hm & ->) Hgt].
      split; [exact Hgt|]. unfold similarityTo. now rewrite similarity_message. }
    intros m. apply similarity_score.
Qed.
End SimilarPostsClaims.

Section SimilarPostsScenario.
Import PostScoring.

  (** C7 as written fails: a candidate that shares one of the
      target's four significant words scores exactly 10 and is not returned,
      although the limit leaves room for it. *)
Lemma similar_posts_score_10_excluded :
    In fruit_candidate (otherPosts fruit_target fruit_corpus)
    /\ sp_score (similarityTo fruit_target fruit_candidate) = 10
    /\ ~ In fruit_candidate (map sp_message (findSimilarPosts fruit_target fruit_corpus 6))
    /\ (length (findSimilarPosts fruit_target fruit_corpus 6) < 6)%nat.
Proof.
    split; [vm_compute; tauto|].
    split; [vm_compute; reflexivity|].
    split; [|vm_compute; lia].
    intros Hin. vm_compute in Hin.
    repeat destruct Hin as [Hin|Hin]; try discriminate Hin. exact Hin.
Qed.

  (** The same with every case mapping that is the standard one on plain
      strings. *)
Remark score_10_excluded_standard_case (rest : CaseMapping) :
    sp_score (@similarityTo (standard_case rest) fruit_target fruit_candidate) = 10
    /\ map (fun c => id (sp_message c))
           (@findSimilarPosts (standard_case rest) fruit_target fruit_corpus 6)
       = [13; 12].
Proof. split; vm_compute; reflexivity. Qed.

Lemma similar_posts_above_10_witness :
    map (fun c => (id (sp_message c), sp_score c)) (findSimilarPosts fruit_target fruit_corpus 2)
    = [(13, 40); (12, 20)].
Proof.
    destruct (similar_posts_above_10 fruit_target fruit_corpus 2) as (Hcut & _).
    change 2 with (Z.of_nat 2). rewrite Hcut. vm_compute. reflexivity.
Defined.
End SimilarPostsScenario.

(** ** calendar-wrapped *)

Section CalendarScenario.
Import Calendar.

  (** The day keys of the January scenario, as [sort()] orders them:
      day 1, then 10 and 11, then 2 to 5. *)
Lemma january_sorted_days :
    array_sort compareStrings (daySetOf january_posts)
    = map js [ "2024-0-1"; "2024-0-10"; "2024-0-11"; "2024-0-2";
               "2024-0-3"; "2024-0-4"; "2024-0-5" ]%string.
Proof. vm_compute. reflexivity. Qed.

  (** C1, on the code.  For posts on 2024-01-01..05, 10 and 11 and the
      scope of the year 2024, all seven posts are in scope, one a day, and
      [computeWrappedStats] returns [streakDays = 1], not 5: the key of a
      January day has month 0, which [new Date] does not read back, so no
      two days are one day apart.  With a parser that reads month 0, and for
      the same days of March, whose keys are read back, the result is 4: the
      keys are sorted as strings, which puts days 10 and 11 between days 1
      and 2. *)
Theorem january_streak_is_1 :
    let stats := computeWrappedStats january_posts (ScopeYear 2024) in
    totalPosts stats = 7
    /\ length (daySetOf january_posts) = 7%nat
    /\ streakDays stats = 1
    /\ streakDays stats <> 5
    /\ streakDays (wrappedStatsWith Date_parse_lenient january_posts (ScopeYear 2024)) = 4
    /\ streakDays (computeWrappedStats march_posts (ScopeYear 2024)) = 4.
Proof. vm_compute. repeat split; congruence. Qed.

  (** Where the string order of the keys is the order of the days and the
      month of the keys is not 0, the streak is the longest run. *)
Example mid_march_streak :
    streakDays (computeWrappedStats mid_march_posts (ScopeMonth 2024 2)) = 5.
Proof. vm_compute. reflexivity. Qed.
End CalendarScenario.

(* ===================================================================== *)
(** ** fraud-detector: results, filters and contributors *)
(* ===================================================================== *)

Section ListFacts.
Context {A : Type}.

Lemma str_eqb_eq (s t : jsstring) : str_eqb s t = true <-> s = t.
Proof.
    revert t. induction s as [|a s IH]; intros [|b t]; simpl; split;
      try discriminate; try reflexivity.
    - intros [Hab Hst]%andb_prop. apply Z.eqb_eq in Hab. apply IH in Hst. congruence.
    - intros [= -> ->]. rewrite Z.eqb_refl. simpl. now apply IH.
Qed.

Lemma str_eqb_refl (s : jsstring) : str_eqb s s = true.
Proof. now apply str_eqb_eq. Qed.

Lemma str_eqb_neq (s t : jsstring) : str_eqb s t = false <-> s <> t.
Proof.
    split.
    - intros Hf Heq. apply str_eqb_eq in Heq. congruence.
    - intros Hne. destruct (str_eqb s t) eqn:E; [|reflexivity].
      apply str_eqb_eq in E. contradiction.
Qed.

Variable key : A -> Z.

Lemma sorted_firstn (n : nat) (l : list A) :
    StronglySorted (key_ge key) l -> StronglySorted (key_ge key) (firstn n l).
Proof.
    intros Hs. revert n. induction Hs as [|x l Hs IH Hx]; intros [|n]; simpl;
      try constructor; [apply IH|].
    rewrite Forall_forall in *. intros y Hy. apply Hx. now apply (in_firstn n).
Qed.

Lemma slice0_is_firstn (l : list A) (e : Z) : exists n, slice0 l e = firstn n l.
Proof. unfold slice0. eexists. reflexivity. Qed.

Lemma in_slice0 (l : list A) (e : Z) (a : A) : In a (slice0 l e) -> In a l.
Proof. destruct (slice0_is_firstn l e) as [n ->]. apply in_firstn. Qed.

Lemma sorted_slice0 (l : list A) (e : Z) :
    StronglySorted (key_ge key) l -> StronglySorted (key_ge key) (slice0 l e).
Proof. destruct (slice0_is_firstn l e) as [n ->]. apply sorted_firstn. Qed.

Lemma slice0_all (l : list A) (e : Z) :
    Z.of_nat (length l) <= e -> slice0 l e = l.
Proof.
    intros He. rewrite slice0_firstn by lia. apply firstn_all2. lia.
Qed.

Lemma slice0_prefix (l : list A) (n m : Z) :
    0 <= n <= m -> slice0 l n = firstn (Z.to_nat n) (slice0 l m).
Proof.
    intros Hnm. rewrite !slice0_firstn by lia.
    rewrite firstn_firstn. f_equal. lia.
Qed.

Lemma NoDup_firstn_map {B : Type} (f : A -> B) (n : nat) (l : list A) :
    List.NoDup (map f l) -> List.NoDup (map f (firstn n l)).
Proof.
    revert n. induction l as [|x l IH]; intros [|n] Hnd; simpl; try constructor.
    - inversion Hnd as [|? ? Hx Hl]; subst. intros Hin. apply Hx.
      apply in_map_iff in Hin as (y & Hy & Hin). apply in_map_iff.
      exists y. split; [exact Hy|]. now apply (in_firstn n).
    - inversion Hnd; subst. now apply IH.
Qed.
End ListFacts.

Section FraudMoreFacts.
Import Fraud FraudMore.
Context `{CaseMapping}.

  (** *** What a result is made of *)

Lemma totalScore_tallyChecks (text : jsstring) (sender : option jsstring) :
    totalScore (tallyChecks text sender) =
      (if isSuspicious (checkSuspiciousUrl text)
       then Z.of_nat (length (url_reasons (checkSuspiciousUrl text))) * 2
            + (if detected (checkPhishing text) then score (checkPhishing text) else 0)
       else 0)
      + (if detected (checkMoneyRequest text) then score (checkMoneyRequest text) else 0)
      + (if detected (checkImpersonation text sender)
         then score (checkImpersonation text sender) else 0)
      + (if includes (toLowerCase text) (js "urgent")
            || includes (toLowerCase text) (js "emergency")
            || includes (toLowerCase text) (js "immediately")
         then 2 else 0).
Proof.
    unfold tallyChecks.
    generalize (checkSuspiciousUrl text) (checkPhishing text)
               (checkMoneyRequest text) (checkImpersonation text sender).
    intros u p m i.
    destruct (includes (toLowerCase text) (js "urgent")
              || includes (toLowerCase text) (js "emergency")
              || includes (toLowerCase text) (js "immediately"));
      destruct (isSuspicious u), (detected p), (detected m), (detected i);
      cbn; lia.
Qed.

Lemma matchedPatterns_tallyChecks (text : jsstring) (sender : option jsstring) :
    matchedPatterns (tallyChecks text sender) =
      (if isSuspicious (checkSuspiciousUrl text) then [js "suspicious_url"] else [])
      ++ (if detected (checkMoneyRequest text) then [js "money_request"] else [])
      ++ (if detected (checkImpersonation text sender) then [js "impersonation"] else [])
      ++ (if includes (toLowerCase text) (js "urgent")
             || includes (toLowerCase text) (js "emergency")
             || includes (toLowerCase text) (js "immediately")
          then [js "urgency"] else []).
Proof.
    unfold tallyChecks.
    generalize (checkSuspiciousUrl text) (checkPhishing text)
               (checkMoneyRequest text) (checkImpersonation text sender).
    intros u p m i.
    destruct (includes (toLowerCase text) (js "urgent")
              || includes (toLowerCase text) (js "emergency")
              || includes (toLowerCase text) (js "immediately"));
      destruct (isSuspicious u), (detected p), (detected m), (detected i);
      reflexivity.
Qed.

Lemma analyze_message (msg : TelegramMessage) (r : FraudResult) :
    analyzeMessageForFraud msg = Some r ->
    r_message r = msg
    /\ r_matchedPatterns r = matchedPatterns (tallyChecks (getMessageText msg) (from msg)).
Proof.
    unfold analyzeMessageForFraud.
    destruct (negb _); [discriminate|].
    destruct (_ || _); [discriminate|].
    destruct (_ <? 3); [discriminate|].
    intros [= <-]. split; reflexivity.
Qed.

Lemma suspicious_has_url (text : jsstring) :
    isSuspicious (checkSuspiciousUrl text) = true ->
    urls (checkSuspiciousUrl text) <> []
    /\ 0 < Z.of_nat (length (url_reasons (checkSuspiciousUrl text))).
Proof.
    unfold checkSuspiciousUrl. cbn [isSuspicious urls url_reasons].
    intros Hs. apply Z.ltb_lt in Hs. split; [|exact Hs].
    intros Hnil. rewrite Hnil in Hs. simpl in Hs. lia.
Qed.

  (** A result needs one of the three scored checks: urgency language alone
      adds 2, below the threshold 3. *)
Lemma result_needs_check (msg : TelegramMessage) (r : FraudResult) :
    analyzeMessageForFraud msg = Some r ->
    isSuspicious (checkSuspiciousUrl (getMessageText msg)) = true
    \/ detected (checkMoneyRequest (getMessageText msg)) = true
    \/ detected (checkImpersonation (getMessageText msg) (from msg)) = true.
Proof.
    intros Hr. apply analyze_Some in Hr as (_ & _ & Hs & Hscore & _).
    rewrite Hscore, totalScore_tallyChecks in Hs.
    destruct (isSuspicious _); [now left|].
    destruct (detected (checkMoneyRequest _)); [now right; left|].
    destruct (detected (checkImpersonation _ _)); [now right; right|].
    destruct (_ || _); lia.
Qed.

Lemma result_type_not_urgency (msg : TelegramMessage) (r : FraudResult) :
    analyzeMessageForFraud msg = Some r -> r_type r <> urgency.
Proof.
    intros Hr. apply analyze_Some in Hr as (_ & _ & _ & _ & Hty & _).
    rewrite Hty, primaryType_tallyChecks.
    destruct (detected (checkMoneyRequest _)); [discriminate|].
    destruct (detected (checkImpersonation _ _)); [discriminate|].
    destruct (_ && _); discriminate.
Qed.

  (** X1.  Every result of [analyzeMessageForFraud] carries the analysed
      message, which is a content message with at least five code units of
      text; its score is at least 3 and fixes its severity: low exactly for
      a score of 3, medium for 4 to 6, high for 7 to 9, critical from 10;
      and it names at least one matched pattern. *)
Theorem fraud_result_wellformed (msg : TelegramMessage) (r : FraudResult) :
    analyzeMessageForFraud msg = Some r ->
    r_message r = msg
    /\ type msg = message
    /\ 5 <= str_length (getMessageText msg)
    /\ 3 <= r_score r
    /\ (r_severity r = low <-> r_score r = 3)
    /\ (r_severity r = medium <-> 4 <= r_score r <= 6)
    /\ (r_severity r = high <-> 7 <= r_score r <= 9)
    /\ (r_severity r = critical <-> 10 <= r_score r)
    /\ r_matchedPatterns r <> [].
Proof.
    intros Hr.
    pose proof (result_needs_check msg r Hr) as Hcheck.
    destruct (analyze_message msg r Hr) as [Hmsg Hpat].
    destruct (analyze_Some msg r Hr) as (Hty & Hlen & Hs & _ & _ & Hsev).
    split; [exact Hmsg|]. split; [exact Hty|]. split; [exact Hlen|].
    split; [exact Hs|].
    rewrite Hsev. unfold severityOf.
    destruct (Z.leb_spec 10 (r_score r)), (Z.leb_spec 7 (r_score r)),
      (Z.leb_spec 4 (r_score r));
      (split; [split; [try discriminate; lia | try lia; reflexivity]|]);
      (split; [split; [try discriminate; lia | try lia; reflexivity]|]);
      (split; [split; [try discriminate; lia | try lia; reflexivity]|]);
      (split; [split; [try discriminate; lia | try lia; reflexivity]|]);
      rewrite Hpat, matchedPatterns_tallyChecks;
      destruct Hcheck as [->|[->| ->]];
      repeat match goal with |- context [if ?b then _ else _] => destruct b end;
      discriminate.
Qed.

  (** X2.  The primary type of a result is never [urgency]; a result exists
      only if the URL check, the money check or the impersonation check
      fired (urgency language alone is not enough); and a result of type
      [phishing] or [suspicious_link] means that the text holds at least one
      URL that the URL check found suspicious, while neither the money check
      nor the impersonation check fired. *)
Theorem fraud_type_needs_its_check (msg : TelegramMessage) (r : FraudResult) :
    analyzeMessageForFraud msg = Some r ->
    let text := getMessageText msg in
    r_type r <> urgency
    /\ (isSuspicious (checkSuspiciousUrl text) = true
        \/ detected (checkMoneyRequest text) = true
        \/ detected (checkImpersonation text (from msg)) = true)
    /\ (r_type r = phishing \/ r_type r = suspicious_link ->
        isSuspicious (checkSuspiciousUrl text) = true
        /\ urls (checkSuspiciousUrl text) <> []
        /\ detected (checkMoneyRequest text) = false
        /\ detected (checkImpersonation text (from msg)) = false).
Proof.
    intros Hr text.
    pose proof (result_needs_check msg r Hr) as Hcheck. fold text in Hcheck.
    split; [now apply (result_type_not_urgency msg)|].
    split; [exact Hcheck|].
    destruct (analyze_Some msg r Hr) as (_ & _ & _ & _ & Hty & _).
    rewrite Hty, primaryType_tallyChecks. fold text.
    intros Hlink.
    destruct (detected (checkMoneyRequest text));
      [destruct Hlink; discriminate|].
    destruct (detected (checkImpersonation text (from msg)));
      [destruct Hlink; discriminate|].
    destruct Hcheck as [Hu|[Hm|Hi]]; try discriminate.
    split; [exact Hu|]. split; [|split; reflexivity].
    now apply suspicious_has_url.
Qed.

  (** *** [findFraud] with any options *)

Lemma findFraud_loop_passes (options : FindOptions) (messages : list TelegramMessage)
        (acc : list FraudResult) :
    fold_left
      (fun results msg =>
         match analyzeMessageForFraud msg with
         | None => results
         | Some fraud =>
             if severityLevels (r_severity fraud)
                <? severityLevels (default low (minSeverity options))
             then results
             else
               match types options with
               | Some ts =>
                   if negb (existsb (FraudType_eqb (r_type fraud)) ts) then results
                   else results ++ [fraud]
               | None => results ++ [fraud]
               end
         end) messages acc
    = acc ++ List.filter (passes options) (omap analyzeMessageForFraud messages).
Proof.
    revert acc. induction messages as [|msg messages IH]; intros acc; simpl.
    - now rewrite app_nil_r.
    - rewrite IH. destruct (analyzeMessageForFraud msg) as [fraud|]; [|reflexivity].
      simpl. unfold passes at 2.
      destruct (_ <? _); simpl; [reflexivity|].
      destruct (types options) as [ts|].
      + destruct (existsb _ ts); simpl; [|reflexivity]. now rewrite <- app_assoc.
      + now rewrite <- app_assoc.
Qed.

Lemma findFraud_filter (messages : list TelegramMessage) (options : FindOptions) :
    findFraud messages options
    = slice0 (array_sort (descending r_score)
                (List.filter (passes options) (omap analyzeMessageForFraud messages)))
             (default 50 (maxResults options)).
Proof. unfold findFraud. now rewrite findFraud_loop_passes. Qed.

Lemma FraudType_eqb_eq (a b : FraudType) : FraudType_eqb a b = true <-> a = b.
Proof. destruct a, b; simpl; split; try discriminate; reflexivity. Qed.

Lemma in_findFraud (messages : list TelegramMessage) (options : FindOptions)
        (r : FraudResult) :
    In r (findFraud messages options) ->
    passes options r = true
    /\ exists msg, In msg messages /\ analyzeMessageForFraud msg = Some r.
Proof.
    rewrite findFraud_filter. intros Hin%in_slice0.
    apply (Permutation_in _ (array_sort_perm _ _)) in Hin.
    apply filter_In in Hin as [Hin Hpass]. split; [exact Hpass|].
    apply list_elem_of_In, list_elem_of_omap in Hin as (msg & Hmsg & Hr).
    exists msg. split; [now apply list_elem_of_In | exact Hr].
Qed.

  (** X3.  [findFraud], for any options: every result is the analysis of one
      of the messages, has a severity not below [minSeverity] (default low)
      and, when [types] is given, a type listed there; results come by
      descending score; a non-negative [maxResults] (default 50) bounds their
      number; and when the matching results are no more than [maxResults],
      all of them are returned. *)
Theorem findFraud_filters_sorts_limits (messages : list TelegramMessage)
          (options : FindOptions) :
    let found := findFraud messages options in
    let limit := default 50 (maxResults options) in
    let matching := List.filter (passes options) (omap analyzeMessageForFraud messages) in
    (forall r, In r found ->
       (exists msg, In msg messages /\ analyzeMessageForFraud msg = Some r /\ r_message r = msg)
       /\ severityLevels (default low (minSeverity options)) <= severityLevels (r_severity r)
       /\ (forall ts, types options = Some ts -> In (r_type r) ts))
    /\ StronglySorted (key_ge r_score) found
    /\ (0 <= limit -> Z.of_nat (length found) = Z.min limit (Z.of_nat (length matching)))
    /\ (Z.of_nat (length matching) <= limit -> Permutation found matching).
Proof.
    intros found limit matching. split; [|split; [|split]].
    - intros r Hin. apply in_findFraud in Hin as (Hpass & msg & Hmsg & Hr).
      split.
      { exists msg. split; [exact Hmsg|]. split; [exact Hr|].
        now apply analyze_message. }
      unfold passes in Hpass. apply andb_prop in Hpass as [Hsev Hty].
      split.
      { destruct (Z.ltb_spec (severityLevels (r_severity r))
                             (severityLevels (default low (minSeverity options))));
          [discriminate | lia]. }
      intros ts Hts. rewrite Hts in Hty.
      apply existsb_exists in Hty as (ty & Hin & Heq).
      apply FraudType_eqb_eq in Heq. now subst.
    - unfold found. rewrite findFraud_filter. apply sorted_slice0, array_sort_desc.
    - intros Hl. unfold found. rewrite findFraud_filter. fold matching. fold limit.
      rewrite slice0_length by exact Hl.
      now rewrite (Permutation_length (array_sort_perm _ matching)).
    - intros Hl. unfold found. rewrite findFraud_filter. fold matching. fold limit.
      rewrite slice0_all.
      + apply array_sort_perm.
      + now rewrite (Permutation_length (array_sort_perm _ matching)).
Qed.

  (** X4.  Lowering [maxResults] only cuts the list: for [0 <= n <= m] the
      results with [maxResults = n] are the first [n] results with
      [maxResults = m], the other options being the same. *)
Theorem findFraud_fewer_results_is_prefix (messages : list TelegramMessage)
          (sev : option Severity) (ts : option (list FraudType)) (n m : Z) :
    0 <= n <= m ->
    findFraud messages {| minSeverity := sev; maxResults := Some n; types := ts |}
    = firstn (Z.to_nat n)
        (findFraud messages {| minSeverity := sev; maxResults := Some m; types := ts |}).
Proof.
    intros Hnm. rewrite !findFraud_filter. cbn [maxResults default].
    rewrite (slice0_prefix _ n m Hnm). reflexivity.
Qed.

  (** *** [getFraudStats] *)

Lemma n_urgency_fold (l : list FraudResult) (b : ByType) :
    (forall r, In r l -> r_type r <> urgency) ->
    n_urgency (fold_left (fun b fraud => incrType (r_type fraud) b) l b) = n_urgency b.
Proof.
    revert b. induction l as [|x l IH]; intros b Hl; simpl; [reflexivity|].
    rewrite IH by (intros r Hr; apply Hl; now right).
    assert (Hx : r_type x <> urgency) by (apply Hl; now left).
    destruct (r_type x); try reflexivity. contradiction.
Qed.

  (** X5.  No result of [findFraud] has the type [urgency], whatever the
      options: a search for the type [urgency] alone returns nothing, the
      [urgency] entry of [byType] in [getFraudStats] is always 0, and the
      other four entries add up to the total. *)
Theorem urgency_is_never_counted (messages : list TelegramMessage) :
    (forall options r, In r (findFraud messages options) -> r_type r <> urgency)
    /\ (forall sev limit,
          findFraud messages
            {| minSeverity := sev; maxResults := limit; types := Some [urgency] |} = [])
    /\ n_urgency (byType (getFraudStats messages)) = 0
    /\ n_phishing (byType (getFraudStats messages))
       + n_money_request (byType (getFraudStats messages))
       + n_impersonation (byType (getFraudStats messages))
       + n_suspicious_link (byType (getFraudStats messages))
       = total (getFraudStats messages).
Proof.
    assert (Hall : forall options r,
               In r (findFraud messages options) -> r_type r <> urgency).
    { intros options r Hin. apply in_findFraud in Hin as (_ & msg & _ & Hr).
      now apply (result_type_not_urgency msg). }
    split; [exact Hall|].
    split.
    { intros sev limit.
      destruct (findFraud messages
                  {| minSeverity := sev; maxResults := limit; types := Some [urgency] |})
        as [|r rest] eqn:E; [reflexivity|].
      exfalso.
      assert (Hin : In r (findFraud messages
                  {| minSeverity := sev; maxResults := limit; types := Some [urgency] |}))
        by (rewrite E; now left).
      pose proof (Hall _ _ Hin) as Hne.
      apply in_findFraud in Hin as (Hpass & _).
      unfold passes in Hpass. cbn [types] in Hpass.
      apply andb_prop in Hpass as [_ Hty]. cbn [existsb] in Hty.
      rewrite orb_false_r in Hty. now apply FraudType_eqb_eq in Hty. }
    assert (Hu : n_urgency (byType (getFraudStats messages)) = 0).
    { unfold getFraudStats, statsOf. cbn [byType].
      rewrite n_urgency_fold; [reflexivity|]. apply Hall. }
    split; [exact Hu|].
    pose proof (sumByType_fold
                  (findFraud messages
                     {| minSeverity := None; maxResults := Some 1000; types := None |})
                  {| n_phishing := 0; n_money_request := 0; n_impersonation := 0;
                     n_urgency := 0; n_suspicious_link := 0 |}) as Hsum.
    unfold getFraudStats, statsOf in *. cbn [byType total] in *.
    unfold sumByType in Hsum. simpl in Hsum. lia.
Qed.

  (** *** The contributors of [getFraudStats] *)

Lemma creditSender_names (s : jsstring) (v : Z) (m : list Contributor) :
    map name (creditSender s v m)
    = if existsb (fun e => str_eqb (name e) s) m then map name m else map name m ++ [s].
Proof.
    induction m as [|e m IH]; simpl; [reflexivity|].
    destruct (str_eqb (name e) s) eqn:E; simpl.
    - apply str_eqb_eq in E. now rewrite E.
    - rewrite IH. now destruct (existsb _ m).
Qed.

Lemma creditSender_in (s : jsstring) (v : Z) (m : list Contributor) (e : Contributor) :
    List.NoDup (map name m) ->
    In e (creditSender s v m) ->
    (name e <> s /\ In e m)
    \/ (name e = s
        /\ ((exists e0, In e0 m /\ name e0 = s
                        /\ c_count e = c_count e0 + 1
                        /\ c_totalScore e = c_totalScore e0 + v)
            \/ ((forall e0, In e0 m -> name e0 <> s)
                /\ c_count e = 1 /\ c_totalScore e = v))).
Proof.
    induction m as [|e0 m IH]; simpl; intros Hnd Hin.
    - destruct Hin as [<-|[]]. right. split; [reflexivity|]. right.
      split; [intros ? []|]. split; reflexivity.
    - inversion Hnd as [|? ? Hnotin Hnd']; subst.
      destruct (str_eqb (name e0) s) eqn:E.
      + apply str_eqb_eq in E. destruct Hin as [<-|Hin].
        * right. split; [reflexivity|]. left. exists e0.
          split; [now left|]. split; [exact E|]. split; reflexivity.
        * left. split; [|now right]. intros Hs. apply Hnotin.
          rewrite E, <- Hs. now apply in_map.
      + apply str_eqb_neq in E. destruct Hin as [<-|Hin].
        * left. split; [exact E | now left].
        * destruct (IH Hnd' Hin) as [[Hne Hm]|[Heq [(e1 & He1 & Hn1 & Hc & Ht)|(Hno & Hc & Ht)]]].
          -- left. split; [exact Hne | now right].
          -- right. split; [exact Heq|]. left. exists e1.
             split; [now right|]. repeat split; assumption.
          -- right. split; [exact Heq|]. right.
             split; [|split; assumption].
             intros e1 [<-|He1]; [exact E | now apply Hno].
Qed.

Lemma resultsFrom_snoc (s : jsstring) (l : list FraudResult) (f : FraudResult) :
    resultsFrom s (l ++ [f])
    = resultsFrom s l ++ (if str_eqb (senderOf f) s then [f] else []).
Proof. unfold resultsFrom. now rewrite filter_app. Qed.

Lemma sumScores_app (a b : list FraudResult) :
    sumScores (a ++ b) = sumScores a + sumScores b.
Proof.
    unfold sumScores. induction a as [|x a IH]; simpl; [reflexivity|].
    rewrite IH. lia.
Qed.

Lemma resultsFrom_nil (s : jsstring) (l : list FraudResult) :
    (forall f, In f l -> senderOf f <> s) -> resultsFrom s l = [].
Proof.
    intros Hl. unfold resultsFrom. induction l as [|f l IH]; simpl; [reflexivity|].
    assert (E : str_eqb (senderOf f) s = false)
      by (apply str_eqb_neq, Hl; now left).
    rewrite E. apply IH. intros f' Hf'. apply Hl. now right.
Qed.

  (** What the loop over [allFraud] leaves in [senderScores]: one entry per
      sender, with the number and the summed score of the sender's results. *)
Lemma senderScores_credited (allFraud : list FraudResult) :
    List.NoDup (map name (senderScoresOf allFraud))
    /\ (forall e, In e (senderScoresOf allFraud) ->
          c_count e = Z.of_nat (length (resultsFrom (name e) allFraud))
          /\ c_totalScore e = sumScores (resultsFrom (name e) allFraud)
          /\ 1 <= c_count e)
    /\ (forall f, In f allFraud -> In (senderOf f) (map name (senderScoresOf allFraud))).
Proof.
    unfold senderScoresOf.
    induction allFraud as [|f l (Hnd & Hent & Hcov)] using rev_ind.
    { simpl. split; [constructor|]. split; intros ? []. }
    rewrite fold_left_app. cbn [fold_left].
    set (m := fold_left _ l []) in *.
    set (s := senderOf f).
    assert (Hnames := creditSender_names s (r_score f) m).
    assert (Hex : existsb (fun e => str_eqb (name e) s) m = true <-> In s (map name m)).
    { rewrite existsb_exists, in_map_iff. split.
      - intros (e & He & Heq). apply str_eqb_eq in Heq. now exists e.
      - intros (e & Heq & He). exists e. split; [exact He | now apply str_eqb_eq]. }
    split; [|split].
    - rewrite Hnames. destruct (existsb _ m) eqn:E; [exact Hnd|].
      apply NoDup_ListNoDup, list.NoDup_app. split; [now apply NoDup_ListNoDup|].
      split; [|apply NoDup_ListNoDup; repeat constructor; intros []].
      intros x Hx Hx'. apply list.list_elem_of_singleton in Hx'. subst x.
      apply list_elem_of_In, Hex in Hx. congruence.
    - intros e He. rewrite resultsFrom_snoc, length_app, sumScores_app.
      destruct (creditSender_in s (r_score f) m e Hnd He)
        as [[Hne Hm]|[Heq [(e0 & He0 & Hn0 & Hc & Ht)|(Hno & Hc & Ht)]]].
      + destruct (Hent e Hm) as (Hc & Ht & Hpos).
        assert (E : str_eqb (senderOf f) (name e) = false)
          by (apply str_eqb_neq; fold s; congruence).
        rewrite E. unfold sumScores at 2. simpl. rewrite Hc, Ht. lia.
      + destruct (Hent e0 He0) as (Hc0 & Ht0 & Hpos0).
        rewrite Heq. fold s. rewrite str_eqb_refl.
        unfold sumScores at 2. simpl. rewrite Hc, Ht, Hc0, Ht0, Hn0. lia.
      + rewrite Heq. fold s. rewrite str_eqb_refl.
        rewrite resultsFrom_nil.
        * unfold sumScores. simpl. lia.
        * intros f' Hf' Hs'. apply Hcov in Hf'. rewrite Hs' in Hf'.
          apply in_map_iff in Hf' as (e0 & Hn0 & He0). now apply (Hno e0).
    - intros f' Hf'. rewrite Hnames.
      assert (Hin : In (senderOf f') (map name m ++ [s])).
      { apply in_app_or in Hf' as [Hf'|[<-|[]]].
        - apply in_or_app. left. now apply Hcov.
        - apply in_or_app. right. now left. }
      destruct (existsb _ m) eqn:E; [|exact Hin].
      apply in_app_or in Hin as [Hin|[<-|[]]]; [exact Hin|]. now apply Hex.
Qed.

Lemma sumScores_resultsFrom_ge (s : jsstring) (l : list FraudResult) :
    (forall f, In f l -> 3 <= r_score f) ->
    3 * Z.of_nat (length (resultsFrom s l)) <= sumScores (resultsFrom s l).
Proof.
    intros Hl. unfold resultsFrom, sumScores.
    induction l as [|f l IH]; simpl; [lia|].
    assert (3 <= r_score f) by (apply Hl; now left).
    assert (IH' := IH (fun f' Hf' => Hl f' (or_intror Hf'))).
    destruct (str_eqb (senderOf f) s); simpl in *; lia.
Qed.

Lemma topContributors_statsOf (allFraud : list FraudResult) :
    topContributors (statsOf allFraud)
    = firstn 5 (array_sort (descending c_totalScore) (senderScoresOf allFraud)).
Proof.
    unfold statsOf. cbn [topContributors]. now rewrite slice0_firstn by lia.
Qed.

  (** X6.  [topContributors] of [getFraudStats] lists at most five senders,
      each once, by descending total score.  An entry holds the number of the
      counted results of that sender (a missing or empty [from] counts as
      "Unknown") and the sum of their scores, which is at least three times
      their number; and every sender of a counted result that is left out has
      a total score no greater than any listed one. *)
Theorem top_contributors_are_the_five_highest (messages : list TelegramMessage) :
    let counted :=
      findFraud messages {| minSeverity := None; maxResults := Some 1000; types := None |} in
    let top := topContributors (getFraudStats messages) in
    (length top <= 5)%nat
    /\ List.NoDup (map name top)
    /\ StronglySorted (key_ge c_totalScore) top
    /\ (forall c, In c top ->
          (exists f, In f counted /\ senderOf f = name c)
          /\ c_count c = Z.of_nat (length (resultsFrom (name c) counted))
          /\ c_totalScore c = sumScores (resultsFrom (name c) counted)
          /\ 3 * c_count c <= c_totalScore c)
    /\ (forall f, In f counted ->
          In (senderOf f) (map name top)
          \/ forall c, In c top -> sumScores (resultsFrom (senderOf f) counted) <= c_totalScore c).
Proof.
    intros counted top.
    assert (Htop : top = firstn 5 (array_sort (descending c_totalScore)
                                     (senderScoresOf counted)))
      by apply topContributors_statsOf.
    destruct (senderScores_credited counted) as (Hnd & Hent & Hcov).
    pose proof (array_sort_perm (descending c_totalScore) (senderScoresOf counted)) as Hperm.
    assert (Hscore : forall f, In f counted -> 3 <= r_score f).
    { intros f Hf. apply in_findFraud in Hf as (_ & msg & _ & Hr).
      now apply analyze_Some in Hr. }
    rewrite Htop. split; [|split; [|split; [|split]]].
    - rewrite length_firstn. lia.
    - apply NoDup_firstn_map.
      eapply Permutation_NoDup; [|exact Hnd]. symmetry. now apply Permutation_map.
    - apply sorted_firstn, array_sort_desc.
    - intros c Hc. apply in_firstn in Hc. apply (Permutation_in _ Hperm) in Hc.
      destruct (Hent c Hc) as (Hcount & Htotal & Hpos).
      split; [|split; [exact Hcount|split; [exact Htotal|]]].
      + destruct (resultsFrom (name c) counted) as [|f fs] eqn:E;
          [simpl in Hcount; lia|].
        assert (Hf : In f (resultsFrom (name c) counted)) by (rewrite E; now left).
        apply filter_In in Hf as [Hf Heq]. exists f. split; [exact Hf|].
        now apply str_eqb_eq.
      + rewrite Hcount, Htotal. now apply sumScores_resultsFrom_ge.
    - intros f Hf. apply Hcov in Hf. apply in_map_iff in Hf as (e & Hname & He).
      apply (Permutation_in _ (Permutation_sym Hperm)) in He.
      rewrite <- (firstn_skipn 5 (array_sort _ _)) in He.
      apply in_app_or in He as [He|He].
      + left. rewrite <- Hname. now apply in_map.
      + right. intros c Hc.
        assert (Hle := sorted_prefix_dominates c_totalScore 5 _
                         (array_sort_desc c_totalScore (senderScoresOf counted)) c e Hc He).
        apply in_skipn in He. apply (Permutation_in _ Hperm) in He.
        destruct (Hent e He) as (_ & Htotal & _).
        rewrite <- Hname, <- Htotal. exact Hle.
Qed.

  (** X7.  The list of the fraud view: at most 50 results, each with a
      severity not below the selected one and, when types are selected, a
      selected type.  With the initial state (severity low, no type selected)
      it is the first 50 of the results that [getFraudStats] counts, so its
      length is the smaller of 50 and the reported total. *)
Theorem fraud_view_shows_first_50 (messages : list TelegramMessage)
          (sev : Severity) (selectedTypes : list FraudType) :
    let shown := shownFrauds messages sev selectedTypes in
    (length shown <= 50)%nat
    /\ (forall r, In r shown ->
          severityLevels sev <= severityLevels (r_severity r)
          /\ (selectedTypes <> [] -> In (r_type r) selectedTypes))
    /\ shownFrauds messages low []
       = firstn 50 (findFraud messages
                      {| minSeverity := None; maxResults := Some 1000; types := None |})
    /\ Z.of_nat (length (shownFrauds messages low []))
       = Z.min 50 (total (getFraudStats messages)).
Proof.
    intros shown.
    assert (Hfirst : shownFrauds messages low []
              = firstn 50 (findFraud messages
                      {| minSeverity := None; maxResults := Some 1000; types := None |})).
    { unfold shownFrauds. rewrite !findFraud_filter. cbn [maxResults default length].
      change (0 <? Z.of_nat 0) with false. cbv iota.
      rewrite (slice0_prefix _ 50 1000) by lia. reflexivity. }
    split; [|split; [|split]].
    - unfold shown, shownFrauds. rewrite findFraud_filter.
      rewrite (slice0_firstn _ 50) by lia. rewrite length_firstn.
      change (Z.to_nat 50) with 50%nat. apply Nat.le_min_l.
    - intros r Hin. apply in_findFraud in Hin as (Hpass & _).
      apply andb_prop in Hpass as [Hsev Hty].
      change (negb (severityLevels (r_severity r) <? severityLevels sev) = true) in Hsev.
      split.
      + destruct (Z.ltb_spec (severityLevels (r_severity r)) (severityLevels sev));
          [discriminate | lia].
      + intros Hne. destruct selectedTypes as [|ty tys]; [contradiction|].
        change (existsb (FraudType_eqb (r_type r)) (ty :: tys) = true) in Hty.
        apply existsb_exists in Hty as (ty' & Hin & Heq).
        apply FraudType_eqb_eq in Heq. now subst.
    - exact Hfirst.
    - rewrite Hfirst, length_firstn. unfold getFraudStats, statsOf. cbn [total]. lia.
Qed.
End FraudMoreFacts.

Section FraudMoreScenarios.
Import Fraud FraudMore.

Lemma fraud_result_wellformed_witness :
    analyzeMessageForFraud urgent_message = Some (urgent_result urgent_message)
    /\ r_severity (urgent_result urgent_message) = critical
    /\ 10 <= r_score (urgent_result urgent_message).
Proof.
    assert (Hr : analyzeMessageForFraud urgent_message = Some (urgent_result urgent_message))
      by (vm_compute; reflexivity).
    split; [exact Hr|].
    destruct (fraud_result_wellformed urgent_message (urgent_result urgent_message) Hr)
      as (_ & _ & _ & _ & _ & _ & _ & Hcritical & _).
    split; [reflexivity|]. apply Hcritical. reflexivity.
Defined.

Lemma fraud_type_needs_its_check_witness :
    (r_type <$> analyzeMessageForFraud link_message) = Some suspicious_link
    /\ urls (checkSuspiciousUrl (getMessageText link_message)) = [js "http://bit.ly/abc"]
    /\ isSuspicious (checkSuspiciousUrl (getMessageText link_message)) = true.
Proof.
    split; [vm_compute; reflexivity|]. split; [vm_compute; reflexivity|].
    destruct (analyzeMessageForFraud link_message) as [r|] eqn:Hr;
      [|vm_compute in Hr; discriminate].
    assert (Hty : r_type r = suspicious_link)
      by (vm_compute in Hr; injection Hr as <-; reflexivity).
    destruct (fraud_type_needs_its_check link_message r Hr) as (_ & _ & Hlink).
    apply Hlink. now right.
Defined.

Lemma findFraud_filters_sorts_limits_witness :
    map r_score (findFraud scam_messages
                   {| minSeverity := Some medium; maxResults := Some 2;
                      types := Some [money_request] |}) = [22; 4]
    /\ StronglySorted (key_ge r_score)
         (findFraud scam_messages
            {| minSeverity := Some medium; maxResults := Some 2;
               types := Some [money_request] |}).
Proof.
    split; [vm_compute; reflexivity|].
    apply (findFraud_filters_sorts_limits scam_messages
             {| minSeverity := Some medium; maxResults := Some 2;
                types := Some [money_request] |}).
Defined.

Lemma findFraud_fewer_results_is_prefix_witness :
    0 <= 1 <= 3
    /\ map r_score (findFraud scam_messages
                      {| minSeverity := None; maxResults := Some 3; types := None |})
       = [22; 4; 4]
    /\ findFraud scam_messages {| minSeverity := None; maxResults := Some 1; types := None |}
       = firstn 1 (findFraud scam_messages
                     {| minSeverity := None; maxResults := Some 3; types := None |}).
Proof.
    split; [lia|]. split; [vm_compute; reflexivity|].
    apply (findFraud_fewer_results_is_prefix scam_messages None None 1 3). lia.
Defined.

Lemma top_contributors_are_the_five_highest_witness :
    map (fun c => (name c, c_count c, c_totalScore c))
        (topContributors (getFraudStats (scam_messages ++ [urgent_message])))
    = [ (js "Alice", 2, 44); (js "Mallory", 1, 4); (js "Bob", 1, 4) ]
    /\ StronglySorted (key_ge c_totalScore)
         (topContributors (getFraudStats (scam_messages ++ [urgent_message]))).
Proof.
    split; [vm_compute; reflexivity|].
    apply (top_contributors_are_the_five_highest (scam_messages ++ [urgent_message])).
Defined.

Lemma urgency_is_never_counted_witness :
    n_urgency (byType (getFraudStats scam_messages)) = 0
    /\ findFraud scam_messages
         {| minSeverity := None; maxResults := None; types := Some [urgency] |} = [].
Proof.
    destruct (urgency_is_never_counted scam_messages) as (_ & Hnone & Hzero & _).
    split; [exact Hzero | apply Hnone].
Defined.

Lemma fraud_view_shows_first_50_witness :
    map r_score (shownFrauds scam_messages medium [money_request]) = [22; 4]
    /\ shownFrauds scam_messages low []
       = firstn 50 (findFraud scam_messages
                      {| minSeverity := None; maxResults := Some 1000; types := None |}).
Proof.
    split; [vm_compute; reflexivity|].
    apply (fraud_view_shows_first_50 scam_messages low []).
Defined.

End FraudMoreScenarios.

(* ===================================================================== *)
(** ** reply-graph: counters, nodes, labels and depths *)
(* ===================================================================== *)

Section ReplyLoopFacts.
Import ReplyGraph ReplyGraphMore.

Lemma messageMap_fold_lookup (messages : list TelegramMessage)
        (m0 : gmap Z TelegramMessage) (i : Z) (msg : TelegramMessage) :
    fold_left (fun m msg => <[id msg := msg]> m) messages m0 !! i = Some msg ->
    (In msg messages /\ id msg = i) \/ m0 !! i = Some msg.
Proof.
    revert m0. induction messages as [|x messages IH]; intros m0 Hl; simpl in *.
    - now right.
    - apply IH in Hl as [[Hin Hid]|Hl]; [left; split; [now right | exact Hid]|].
      rewrite lookup_insert in Hl. destruct (decide (id x = i)) as [Heq|Hne].
      + injection Hl as <-. left. split; [now left | exact Heq].
      + now right.
Qed.

Lemma messageMap_fold_has (messages : list TelegramMessage)
        (m0 : gmap Z TelegramMessage) (i : Z) :
    is_Some (fold_left (fun m msg => <[id msg := msg]> m) messages m0 !! i)
    <-> (exists msg, In msg messages /\ id msg = i) \/ is_Some (m0 !! i).
Proof.
    revert m0. induction messages as [|x messages IH]; intros m0; simpl.
    - split; [now right|]. intros [(msg & [] & _)|Hs]. exact Hs.
    - rewrite IH, lookup_insert. destruct (decide (id x = i)) as [Heq|Hne].
      + split; [|eauto]. intros _. left. exists x. split; [now left | exact Heq].
      + split.
        * intros [(msg & Hin & Hid)|Hs]; [|now right].
          left. exists msg. split; [now right | exact Hid].
        * intros [(msg & [<-|Hin] & Hid)|Hs]; [contradiction| |now right].
          left. now exists msg.
Qed.

  (** [messageMap.has(i)]: some message of the list has the id [i]. *)
Lemma messageMap_has (messages : list TelegramMessage) (i : Z) :
    is_Some (messageMapOf messages !! i) <-> exists msg, In msg messages /\ id msg = i.
Proof.
    unfold messageMapOf. rewrite messageMap_fold_has, lookup_empty.
    split; [|eauto]. intros [Hm|[x Hx]]; [exact Hm | discriminate].
Qed.

Lemma messageMap_lookup (messages : list TelegramMessage) (i : Z) (msg : TelegramMessage) :
    messageMapOf messages !! i = Some msg -> In msg messages /\ id msg = i.
Proof.
    intros Hl. apply messageMap_fold_lookup in Hl as [Hl|Hl]; [exact Hl|].
    rewrite lookup_empty in Hl. discriminate.
Qed.

Lemma replyMessagesOf_spec (messages : list TelegramMessage) (msg : TelegramMessage) :
    In msg (replyMessagesOf messages)
    <-> In msg messages /\ type msg = message /\ is_Some (reply_to_message_id msg).
Proof.
    unfold replyMessagesOf. rewrite filter_In. split.
    - intros (Hin & [Hty Hr]%andb_prop). split; [exact Hin|]. split.
      + now destruct (type msg).
      + now apply bool_decide_eq_true in Hr.
    - intros (Hin & Hty & Hr). split; [exact Hin|]. rewrite Hty. simpl.
      now apply bool_decide_eq_true.
Qed.

  (** The reply loop, for messages that all reply to something. *)
Lemma replies_fold (messageMap : gmap Z TelegramMessage) (flag : bool)
        (msgs : list TelegramMessage) (st : Replies) :
    (forall m, In m msgs -> is_Some (reply_to_message_id m)) ->
    let st' := fold_left (collectReply messageMap flag) msgs st in
    selfReplies st'
    = selfReplies st + Z.of_nat (length (filter (targetExists messageMap) msgs))
    /\ crossChannelReplies st'
       = crossChannelReplies st
         + Z.of_nat (length (filter (fun m => negb (targetExists messageMap m)) msgs))
    /\ replyEdges st'
       = replyEdges st
         ++ map edgeOf (filter (fun m => targetExists messageMap m || flag) msgs)
    /\ (forall i, i ∈ ids st' <->
                  i ∈ ids st
                  \/ exists m, In m (filter (fun m => targetExists messageMap m || flag) msgs)
                               /\ (i = source (edgeOf m) \/ i = target (edgeOf m))).
Proof.
    revert st. induction msgs as [|msg msgs IH]; intros st Hall.
    - simpl. rewrite app_nil_r. repeat split; try lia.
      + now left.
      + intros [Hi|(m & [] & _)]. exact Hi.
    - cbn zeta. cbn [fold_left].
      destruct (IH (collectReply messageMap flag st msg)) as (Hself & Hcross & Hedges & Hids).
      { intros m Hm. apply Hall. now right. }
      rewrite Hself, Hcross, Hedges. clear Hself Hcross Hedges.
      destruct (Hall msg (or_introl eq_refl)) as [targetId Htarget].
      assert (Hedge : edgeOf msg = {| source := targetId; target := id msg |})
        by (unfold edgeOf; now rewrite Htarget).
      assert (Hte : targetExists messageMap msg
                    = bool_decide (is_Some (messageMap !! targetId)))
        by (unfold targetExists; now rewrite Htarget).
      assert (Hlinked : forall self cross i,
                 i ∈ ids {| selfReplies := self; crossChannelReplies := cross;
                            ids := add_id targetId (add_id (id msg) (ids st));
                            replyEdges := replyEdges st
                                          ++ [ {| source := targetId; target := id msg |} ] |}
                 \/ (exists m, In m (filter (fun m => targetExists messageMap m || flag) msgs)
                               /\ (i = source (edgeOf m) \/ i = target (edgeOf m)))
                 <-> i ∈ ids st
                     \/ exists m, In m (msg :: filter (fun m => targetExists messageMap m || flag) msgs)
                                  /\ (i = source (edgeOf m) \/ i = target (edgeOf m))).
      { intros self cross i. cbn [ids]. rewrite !elem_of_add_id. split.
        - intros [[->|[->|Hi]]|(m & Hm & Hi)].
          + right. exists msg. split; [now left|]. left. now rewrite Hedge.
          + right. exists msg. split; [now left|]. now right.
          + now left.
          + right. exists m. split; [now right | exact Hi].
        - intros [Hi|(m & [<-|Hm] & Hi)].
          + left. tauto.
          + left. rewrite Hedge in Hi. simpl in Hi. tauto.
          + right. now exists m. }
      cbn [filter]. rewrite Hte.
      unfold collectReply in *. rewrite Htarget in *.
      destruct (messageMap !! targetId) as [tm|] eqn:Etm.
      + rewrite bool_decide_eq_true_2 by eauto. cbn [negb orb length map].
        cbn [selfReplies crossChannelReplies replyEdges].
        split; [lia|]. split; [lia|].
        split; [rewrite <- app_assoc, Hedge; reflexivity|].
        intros i. rewrite Hids. apply Hlinked.
      + rewrite bool_decide_eq_false_2 by (intros [x Hx]; discriminate).
        cbn [negb orb]. destruct flag.
        * cbn [length map selfReplies crossChannelReplies replyEdges].
          split; [lia|]. split; [lia|].
          split; [rewrite <- app_assoc, Hedge; reflexivity|].
          intros i. rewrite Hids. apply Hlinked.
        * cbn [length map selfReplies crossChannelReplies replyEdges].
          split; [lia|]. split; [lia|]. split; [reflexivity|].
          intros i. rewrite Hids. cbn [ids]. reflexivity.
Qed.

  (** The node map before the component loop. *)
Lemma nodeMap_fold_lookup (messageMap : gmap Z TelegramMessage) (l : list Z)
        (nm : gmap Z GraphNode) (i : Z) :
    fold_left (fun m n => <[node_id n := n]> m) (map (buildNode messageMap) l) nm !! i
    = if decide (i ∈ l) then Some (buildNode messageMap i) else nm !! i.
Proof.
    revert nm. induction l as [|k l IH]; intros nm; simpl.
    - destruct (decide (i ∈ [])) as [Hi|]; [inversion Hi | reflexivity].
    - rewrite IH. destruct (decide (i ∈ l)) as [Hil|Hnil].
      + rewrite decide_True by (now right). reflexivity.
      + rewrite lookup_insert. destruct (decide (k = i)) as [->|Hne].
        * rewrite decide_True by (now left). reflexivity.
        * rewrite decide_False; [reflexivity|].
          intros Hi. apply list.elem_of_cons in Hi as [->|Hi]; contradiction.
Qed.
End ReplyLoopFacts.

Section ComponentMore.
Import ReplyGraph ReplyGraphMore.

Lemma set_chainId_twice (c : Z) (n : GraphNode) :
    set_chainId c (set_chainId c n) = set_chainId c n.
Proof. reflexivity. Qed.

  (** The search labels the nodes it takes out of the queue, and no other. *)
Lemma search_labels (fuel : nat) (adj : gmap Z (list Z)) (chainId : Z)
        (queue : list Z) (v0 : gset Z) (nm0 : gmap Z GraphNode)
        (chain : list Z) (nm' : gmap Z GraphNode) (v' : gset Z) :
    worklist (fun i : Z => i) (neighbours adj) (mark chainId) fuel queue v0 ([], nm0)
    = Some ((chain, nm'), v') ->
    forall i, nm' !! i = if decide (i ∈ chain) then set_chainId chainId <$> nm0 !! i
                         else nm0 !! i.
Proof.
    intros Hrun.
    pose (P := fun (q : list Z) (v : gset Z) (st : list Z * gmap Z GraphNode) =>
                 forall i, st.2 !! i
                           = if decide (i ∈ st.1) then set_chainId chainId <$> nm0 !! i
                             else nm0 !! i).
    apply (worklist_invariant (fun i : Z => i) (neighbours adj) (mark chainId) P)
      with (fuel := fuel) (queue := queue) (v := v0) (st := ([], nm0))
           (r := ((chain, nm'), v')); [| |exact Hrun].
    - intros current rest v [ch nm] HP qv i. unfold P in *. simpl in *.
      rewrite lookup_alter.
      destruct (decide (current = i)) as [->|Hne]; rewrite HP;
        destruct (decide (i ∈ ch)) as [Hi|Hni];
        destruct (decide (_ ∈ ch ++ [_])) as [Hi2|Hni2];
        try reflexivity; try (destruct (nm0 !! i); reflexivity);
        try solve [ exfalso; apply Hni2, list.elem_of_app;
                    first [left; assumption | right; now left] ];
        try solve [ exfalso; apply list.elem_of_app in Hi2 as [Hi2|Hi2];
                [contradiction | apply list.list_elem_of_singleton in Hi2; congruence] ].
    - intros i. simpl. destruct (decide (i ∈ [])) as [Hi|]; [inversion Hi | reflexivity].
Qed.

  (** The depth loop: the depth found is below the number of ids the edges
      can reach. *)
Lemma chainDepth_bound (fuel : nat) (chainEdges : list GraphEdge) (root : Z)
        (chain : list Z) (d : Z) :
    base.NoDup chain -> root ∈ chain ->
    (forall e, In e chainEdges -> target e ∈ chain) ->
    chainDepth fuel chainEdges root = Some d ->
    0 <= d < Z.of_nat (length chain).
Proof.
    intros Hnd Hroot Hedges Hd. unfold chainDepth in Hd.
    destruct (worklist _ _ _ _ _ _ _) as [[maxDepth v]|] eqn:Hrun; [|discriminate].
    simpl in Hd. injection Hd as ->.
    pose (P := fun (q : list (Z * Z)) (v : gset Z) (maxDepth : Z) =>
                 0 <= maxDepth < Z.of_nat (size v)
                 /\ (forall x, x ∈ q -> 0 <= x.2 < Z.of_nat (size v))
                 /\ v ⊆ list_to_set chain).
    assert (Hend : P [] v d).
    { apply (worklist_invariant fst (deeper chainEdges)
               (fun cur maxDepth => Z.max maxDepth cur.2) P)
        with (fuel := fuel) (queue := [(root, 0)]) (v := {[root]}) (st := 0)
             (r := (d, v)); [| |exact Hrun].
      - intros current rest v1 st (Hmax & Hq & Hv) qv.
        destruct (enqueue_new_spec fst (deeper chainEdges current) rest v1)
          as (added & Heq & Hnda & Hadd).
        unfold qv. rewrite Heq. unfold P. cbn [fst snd].
        assert (Hdisj : list_to_set (fst <$> added) ## v1).
        { intros k Hk Hkv. apply elem_of_list_to_set, list_elem_of_fmap in Hk as (m & -> & Hm).
          now apply (Hadd m Hm). }
        rewrite size_union by exact Hdisj.
        rewrite size_list_to_set by exact Hnda. rewrite length_fmap.
        assert (Hcur : 0 <= current.2 < Z.of_nat (size v1)) by (apply Hq; now left).
        split; [lia|]. split.
        + intros x Hx. apply list.elem_of_app in Hx as [Hx|Hx].
          * assert (0 <= x.2 < Z.of_nat (size v1)) by (apply Hq; now right). lia.
          * assert (Hlen : (1 <= length added)%nat).
            { destruct added; [inversion Hx | simpl; lia]. }
            destruct (Hadd x Hx) as [_ Hdeeper].
            unfold deeper in Hdeeper.
            apply list_elem_of_In, in_map_iff in Hdeeper as (e & <- & _).
            cbn [snd]. lia.
        + intros k Hk. apply elem_of_union in Hk as [Hk|Hk]; [|now apply Hv].
          apply elem_of_list_to_set, list_elem_of_fmap in Hk as (m & -> & Hm).
          destruct (Hadd m Hm) as [_ Hdeeper]. unfold deeper in Hdeeper.
          apply list_elem_of_In, in_map_iff in Hdeeper as (e & <- & He).
          apply filter_In in He as [He _]. cbn [fst].
          apply elem_of_list_to_set. now apply Hedges.
      - unfold P. rewrite size_singleton. split; [lia|]. split.
        + intros x Hx. apply list.list_elem_of_singleton in Hx as ->. simpl. lia.
        + intros k Hk. apply elem_of_singleton in Hk as ->.
          now apply elem_of_list_to_set. }
    destruct Hend as (Hmax & _ & Hv).
    assert (Hsize : (size v <= length chain)%nat).
    { rewrite <- (size_list_to_set (C := gset Z) chain) by exact Hnd.
      now apply subseteq_size. }
    lia.
Qed.

Variable U : gset Z.
Variable fuel : nat.
Variable adj : gmap Z (list Z).
Variable E : list GraphEdge.
Variable nodeMap0 : gmap Z GraphNode.

Hypothesis adj_in_U : forall k l n, adj !! k = Some l -> n ∈ l -> n ∈ U.
Hypothesis edges_in_U : forall e, e ∈ E -> (source e ∈ U) /\ (target e ∈ U).
Hypothesis enough_fuel : (size U < fuel)%nat.

Lemma component_step_more (st st' : Components) (start : Z) :
    start ∈ U -> components_ok U st -> chains_ok E nodeMap0 st ->
    component fuel adj E st start = Some st' ->
    chains_ok E nodeMap0 st'.
Proof.
    intros HsU Hok Hmore Hstep.
    destruct Hok as (Hnd & Hmem & HvU & Hnm & Hdom).
    destruct Hmore as ((Hlab & Hrest) & (Hids & Hlast) & Hchains & Hnds).
    unfold component in Hstep.
    destruct (decide (start ∈ visited st)) as [Hin|Hnin].
    { injection Hstep as <-. repeat split; assumption. }
    destruct (component_search U fuel adj E adj_in_U edges_in_U enough_fuel
                (lastChainId st + 1) start (visited st) (nodeObjects st)
                HsU Hnin HvU Hnm)
      as (chain & nm' & v' & Hrun & Hndc & Hmemc & Hfresh & Hstart & Hv'U & Hok' & Hdom').
    rewrite Hrun in Hstep. simpl in Hstep.
    pose proof (search_labels _ _ _ _ _ _ _ _ _ Hrun) as Hmarks.
    set (chainEdges := List.filter _ E) in Hstep.
    set (root := pickRoot _ chain) in Hstep.
    assert (Hroot : root ∈ chain).
    { apply pickRoot_in.
      - intros ->. inversion Hstart.
      - intros r Hr. apply list_elem_of_In, filter_In in Hr as [Hr _].
        now apply list_elem_of_In. }
    destruct (chainDepth fuel chainEdges root) as [maxDepth|] eqn:Hdepth;
      [|discriminate].
    simpl in Hstep. injection Hstep as <-.
    assert (Hbound : 0 <= maxDepth < Z.of_nat (length chain)).
    { apply (chainDepth_bound fuel chainEdges root chain maxDepth Hndc Hroot);
        [|exact Hdepth].
      intros e He. apply filter_In in He as [_ He].
      apply andb_prop in He as [_ He]. now apply includes_id_elem. }
    unfold chains_ok, labels_ok, numbered. cbn [drafts visited nodeObjects lastChainId].
    split; [split|split; [split|split]].
    - intros d i Hd Hi. rewrite Hmarks.
      apply list.elem_of_app in Hd as [Hd|Hd].
      + assert (Hiv : i ∈ visited st).
        { apply Hmem. apply list_elem_of_In, in_concat.
          exists (draft_nodeIds d). split; [|now apply list_elem_of_In].
          apply in_map. now apply list_elem_of_In. }
        rewrite decide_False by (intros Hic; now apply (Hfresh i Hic)).
        now apply Hlab.
      + apply list.list_elem_of_singleton in Hd as ->. cbn [draft_nodeIds draft_id] in *.
        rewrite decide_True by exact Hi.
        rewrite Hrest; [reflexivity|]. now apply Hfresh.
    - intros i Hi. rewrite Hmarks.
      rewrite decide_False by (intros Hic; apply Hi, Hmemc; now right).
      apply Hrest. intros Hiv. apply Hi, Hmemc. now left.
    - rewrite map_app, length_app. cbn [map length draft_id].
      rewrite Nat.add_1_r, seq_S, map_app, Hids, Hlast. cbn [map]. do 2 f_equal. lia.
    - rewrite length_app. cbn [length]. lia.
    - apply Forall_app. split; [exact Hchains|]. constructor; [|constructor].
      unfold chain_ok. cbn [draft_nodeIds draft_rootId draft_depth draft_edges].
      split; [intros ->; inversion Hstart|]. split; [exact Hroot|].
      split; [exact Hbound|]. split; reflexivity.
    - apply Forall_app. split; [exact Hnds|]. constructor; [exact Hndc | constructor].
Qed.

Lemma component_loop_more (l : list Z) (st st' : Components) :
    (forall i, i ∈ l -> i ∈ U) -> components_ok U st -> chains_ok E nodeMap0 st ->
    fold_left (fun st startId => st ← st; component fuel adj E st startId) l (Some st)
    = Some st' ->
    chains_ok E nodeMap0 st'.
Proof.
    revert st. induction l as [|start l IH]; intros st Hl Hok Hmore Hfold; simpl in Hfold.
    - now injection Hfold as <-.
    - destruct (component_step U fuel adj E adj_in_U edges_in_U enough_fuel st start)
        as (st1 & Hstep & Hst1 & _ & _); [apply Hl; now left | exact Hok |].
      rewrite Hstep in Hfold.
      apply (IH st1); [intros i Hi; apply Hl; now right | exact Hst1 | | exact Hfold].
      now apply (component_step_more st st1 start); [apply Hl; left| | |].
Qed.
End ComponentMore.

Section Connectivity.
Import ReplyGraph ReplyGraphMore.

Context {X : Type}.

  (** After one pass over the successors, each of them is in [visited]. *)
Lemma enqueue_new_covers (key : X -> Z) (succs : list X) (q : list X) (v : gset Z) :
    let qv := fold_left (enqueue_new key) succs (q, v) in
    v ⊆ qv.2 /\ (forall n, n ∈ succs -> key n ∈ qv.2).
Proof.
    revert q v. induction succs as [|n succs IH]; intros q v; simpl.
    - split; [reflexivity|]. intros n Hn. inversion Hn.
    - destruct (IH (enqueue_new key (q, v) n).1 (enqueue_new key (q, v) n).2)
        as [Hmono Hcov].
      rewrite <- surjective_pairing in Hmono, Hcov.
      assert (Hn : v ⊆ (enqueue_new key (q, v) n).2 /\ key n ∈ (enqueue_new key (q, v) n).2).
      { unfold enqueue_new. simpl. destruct (decide (key n ∈ v)); simpl.
        - split; [reflexivity | assumption].
        - split; [apply union_subseteq_r | apply elem_of_union; left; now apply elem_of_singleton]. }
      destruct Hn as [Hv Hkn]. split.
      + now transitivity (enqueue_new key (q, v) n).2.
      + intros m Hm. apply list.elem_of_cons in Hm as [->|Hm]; [|now apply Hcov].
        now apply Hmono.
Qed.
End Connectivity.

Section Closure.
Import ReplyGraph ReplyGraphMore.

  (** The search leaves every neighbour of a node it took out of the queue
      in [visited]. *)
Lemma search_closed (fuel : nat) (adj : gmap Z (list Z)) (chainId : Z)
        (queue : list Z) (v0 : gset Z) (nm0 : gmap Z GraphNode)
        (chain : list Z) (nm' : gmap Z GraphNode) (v' : gset Z) :
    worklist (fun i : Z => i) (neighbours adj) (mark chainId) fuel queue v0 ([], nm0)
    = Some ((chain, nm'), v') ->
    forall i n, i ∈ chain -> n ∈ neighbours adj i -> n ∈ v'.
Proof.
    intros Hrun.
    pose (P := fun (q : list Z) (v : gset Z) (st : list Z * gmap Z GraphNode) =>
                 forall i n, i ∈ st.1 -> n ∈ neighbours adj i -> n ∈ v).
    apply (worklist_invariant (fun i : Z => i) (neighbours adj) (mark chainId) P)
      with (fuel := fuel) (queue := queue) (v := v0) (st := ([], nm0))
           (r := ((chain, nm'), v')); [| |exact Hrun].
    - intros current rest v [ch nm] HP qv i n Hi Hn. unfold P in HP. simpl in *.
      destruct (enqueue_new_covers (fun i : Z => i) (neighbours adj current) rest v)
        as [Hmono Hcov].
      apply list.elem_of_app in Hi as [Hi|Hi].
      + apply Hmono. now apply (HP i).
      + apply list.list_elem_of_singleton in Hi as ->. now apply Hcov.
    - intros i n Hi. inversion Hi.
Qed.

  (** *** The adjacency lists hold exactly the edges *)

Lemma adjacency_init_lookup (nodeIds : list Z) (adj : gmap Z (list Z)) (k : Z) :
    fold_left (fun adj i => <[i := []]> adj) nodeIds adj !! k
    = if decide (k ∈ nodeIds) then Some [] else adj !! k.
Proof.
    revert adj. induction nodeIds as [|i nodeIds IH]; intros adj; simpl.
    - destruct (decide (k ∈ [])) as [Hk|]; [inversion Hk | reflexivity].
    - rewrite IH. destruct (decide (k ∈ nodeIds)) as [Hk|Hnk].
      + rewrite decide_True by (now right). reflexivity.
      + rewrite lookup_insert. destruct (decide (i = k)) as [->|Hne].
        * rewrite decide_True by (now left). reflexivity.
        * rewrite decide_False; [reflexivity|].
          intros Hk. apply list.elem_of_cons in Hk as [->|Hk]; contradiction.
Qed.

Lemma adjacency_step_lookup (adj : gmap Z (list Z)) (e : GraphEdge) (k n : Z) :
    n ∈ default [] (alter (fun l => l ++ [source e]) (target e)
                      (alter (fun l => l ++ [target e]) (source e) adj) !! k)
    <-> n ∈ default [] (adj !! k) \/ (is_Some (adj !! k) /\ joins e k n).
Proof.
    unfold joins.
    assert (Hnone : ~ is_Some (@None (list Z))) by (intros [x Hx]; discriminate).
    assert (Hsome : forall l : list Z, is_Some (Some l)) by eauto.
    assert (Hnil : ~ n ∈ @nil Z) by (intros Hn; inversion Hn).
    generalize (source e) (target e). intros s t.
    destruct (decide (t = k)) as [->|Ht]; destruct (decide (s = k)) as [->|Hs];
      rewrite ?lookup_alter_eq, ?lookup_alter_ne by congruence;
      rewrite ?lookup_alter_eq, ?lookup_alter_ne by congruence;
      destruct (adj !! k) as [l|]; simpl;
      rewrite ?list.elem_of_app, ?list.list_elem_of_singleton;
      specialize (Hsome l) || idtac; intuition congruence.
Qed.

Lemma adjacency_step_dom (adj : gmap Z (list Z)) (e : GraphEdge) (k : Z) :
    is_Some (alter (fun l => l ++ [source e]) (target e)
               (alter (fun l => l ++ [target e]) (source e) adj) !! k)
    <-> is_Some (adj !! k).
Proof.
    generalize (source e) (target e). intros s t.
    destruct (decide (t = k)) as [->|Ht]; destruct (decide (s = k)) as [->|Hs];
      rewrite ?lookup_alter_eq, ?lookup_alter_ne by congruence;
      rewrite ?lookup_alter_eq, ?lookup_alter_ne by congruence;
      destruct (adj !! k); simpl; split; intros [x Hx]; eauto; discriminate.
Qed.

Lemma adjacency_fold_lookup (es : list GraphEdge) (adj : gmap Z (list Z)) (k n : Z) :
    let adj' := fold_left
                  (fun adj e =>
                     let adj := alter (fun l => l ++ [target e]) (source e) adj in
                     alter (fun l => l ++ [source e]) (target e) adj)
                  es adj in
    (is_Some (adj' !! k) <-> is_Some (adj !! k))
    /\ (n ∈ default [] (adj' !! k)
        <-> n ∈ default [] (adj !! k)
            \/ (is_Some (adj !! k) /\ exists e, e ∈ es /\ joins e k n)).
Proof.
    revert adj. induction es as [|e es IH]; intros adj; simpl.
    - split; [reflexivity|]. split; [now left|].
      intros [Hn|[_ (e & He & _)]]; [exact Hn | inversion He].
    - destruct (IH (alter (fun l => l ++ [source e]) (target e)
                      (alter (fun l => l ++ [target e]) (source e) adj)))
        as [Hdom Hin].
      split; [now rewrite Hdom, adjacency_step_dom|].
      rewrite Hin, adjacency_step_lookup, adjacency_step_dom. split.
      + intros [[Hn|[Hs Hj]]|[Hs (e' & He' & Hj)]].
        * now left.
        * right. split; [exact Hs|]. exists e. split; [now left | exact Hj].
        * right. split; [exact Hs|]. exists e'. split; [now right | exact Hj].
      + intros [Hn|[Hs (e' & He' & Hj)]]; [now left; left|].
        apply list.elem_of_cons in He' as [->|He'].
        * left. right. now split.
        * right. split; [exact Hs|]. now exists e'.
Qed.

  (** [adj.get(k)] holds [n] exactly when an edge joins [k] and [n], for
      node ids that hold the end points of the edges. *)
Lemma neighbours_adjacency (nodeIds : list Z) (E : list GraphEdge) (k n : Z) :
    (forall e, e ∈ E -> (source e ∈ nodeIds) /\ (target e ∈ nodeIds)) ->
    n ∈ neighbours (adjacency nodeIds E) k <-> exists e, e ∈ E /\ joins e k n.
Proof.
    intros Hends. unfold neighbours, adjacency.
    destruct (adjacency_fold_lookup E
                (fold_left (fun adj i => <[i := []]> adj) nodeIds ∅) k n) as [_ Hin].
    rewrite Hin, adjacency_init_lookup. split.
    - intros [Hn|[_ He]]; [|exact He].
      destruct (decide (k ∈ nodeIds)); simpl in Hn; [inversion Hn|].
      rewrite lookup_empty in Hn. inversion Hn.
    - intros (e & He & Hj). right. split; [|now exists e].
      rewrite decide_True; [eauto|].
      destruct (Hends e He) as [Hs Ht]. destruct Hj as [[<- _]|[<- _]]; assumption.
Qed.

Lemma joins_sym (e : GraphEdge) (k n : Z) : joins e k n -> joins e n k.
Proof. unfold joins. tauto. Qed.

Variable U : gset Z.
Variable fuel : nat.
Variable adj : gmap Z (list Z).
Variable E : list GraphEdge.

Hypothesis adj_in_U : forall k l n, adj !! k = Some l -> n ∈ l -> n ∈ U.
Hypothesis edges_in_U : forall e, e ∈ E -> (source e ∈ U) /\ (target e ∈ U).
Hypothesis enough_fuel : (size U < fuel)%nat.
Hypothesis adj_sym : forall i n, n ∈ neighbours adj i -> i ∈ neighbours adj n.

Lemma component_step_closed (st st' : Components) (start : Z) :
    start ∈ U -> components_ok U st -> closed adj st ->
    component fuel adj E st start = Some st' ->
    closed adj st'.
Proof.
    intros HsU Hok Hclosed Hstep.
    destruct Hok as (Hnd & Hmem & HvU & Hnm & Hdom).
    unfold component in Hstep.
    destruct (decide (start ∈ visited st)) as [Hin|Hnin].
    { now injection Hstep as <-. }
    destruct (component_search U fuel adj E adj_in_U edges_in_U enough_fuel
                (lastChainId st + 1) start (visited st) (nodeObjects st)
                HsU Hnin HvU Hnm)
      as (chain & nm' & v' & Hrun & Hndc & Hmemc & Hfresh & Hstart & Hv'U & Hok' & Hdom').
    rewrite Hrun in Hstep. simpl in Hstep.
    pose proof (search_closed _ _ _ _ _ _ _ _ _ Hrun) as Hcl.
    destruct (chainDepth fuel _ _) as [maxDepth|]; [|discriminate].
    simpl in Hstep. injection Hstep as <-.
    intros d i n Hd Hi Hn. cbn [drafts] in Hd.
    apply list.elem_of_app in Hd as [Hd|Hd]; [now apply (Hclosed d i n)|].
    apply list.list_elem_of_singleton in Hd as ->. cbn [draft_nodeIds] in *.
    assert (Hnv : n ∈ v') by now apply (Hcl i n).
    apply Hmemc in Hnv as [Hnv|Hnv]; [|exact Hnv].
    exfalso. apply (Hfresh i Hi).
    apply Hmem in Hnv. apply list_elem_of_In, in_concat in Hnv as (l & Hl & Hnl).
    apply in_map_iff in Hl as (d' & <- & Hd').
    apply Hmem, list_elem_of_In, in_concat. exists (draft_nodeIds d').
    split; [now apply in_map|]. apply list_elem_of_In.
    apply (Hclosed d' n i); [now apply list_elem_of_In | now apply list_elem_of_In|].
    now apply adj_sym.
Qed.

Lemma component_loop_closed (l : list Z) (st st' : Components) :
    (forall i, i ∈ l -> i ∈ U) -> components_ok U st -> closed adj st ->
    fold_left (fun st startId => st ← st; component fuel adj E st startId) l (Some st)
    = Some st' ->
    closed adj st'.
Proof.
    revert st. induction l as [|start l IH]; intros st Hl Hok Hclosed Hfold; simpl in Hfold.
    - now injection Hfold as <-.
    - destruct (component_step U fuel adj E adj_in_U edges_in_U enough_fuel st start)
        as (st1 & Hstep & Hst1 & _ & _); [apply Hl; now left | exact Hok |].
      rewrite Hstep in Hfold.
      apply (IH st1); [intros i Hi; apply Hl; now right | exact Hst1 | | exact Hfold].
      now apply (component_step_closed st st1 start); [apply Hl; left| | |].
Qed.
End Closure.

Section ReplyGraphAnatomy.
Import ReplyGraph ReplyGraphMore.

Lemma filter_length_split {A : Type} (p : A -> bool) (l : list A) :
    (length (filter p l) + length (filter (fun x => negb (p x)) l) = length l)%nat.
Proof.
    induction l as [|x l IH]; simpl; [reflexivity|].
    destruct (p x); simpl; lia.
Qed.

Lemma node_id_buildNode (messageMap : gmap Z TelegramMessage) (c i : Z) :
    node_id (set_chainId c (buildNode messageMap i)) = i.
Proof. reflexivity. Qed.

  (** The parts of the graph that [buildReplyGraph] returns. *)
Lemma buildReplyGraph_anatomy (messages : list TelegramMessage) (flag : bool) :
    let mm := messageMapOf messages in
    let rs := replyMessagesOf messages in
    let linked := filter (fun m => targetExists mm m || flag) rs in
    exists g nodeIds ds nmf,
      buildReplyGraph messages flag = Some g
      /\ edges g = map edgeOf linked
      /\ selfReplyCount g = Z.of_nat (length (filter (targetExists mm) rs))
      /\ crossChannelReplyCount g
         = Z.of_nat (length (filter (fun m => negb (targetExists mm m)) rs))
      /\ base.NoDup nodeIds
      /\ (forall i, i ∈ nodeIds <->
                    exists m, In m linked
                              /\ (i = source (edgeOf m) \/ i = target (edgeOf m)))
      /\ nodes g = omap (fun i => nmf !! i) nodeIds
      /\ chains g
         = array_sort (descending (fun c => Z.of_nat (length (chain_nodes c))))
             (map (resolveChain nmf) ds)
      /\ Permutation (concat (map draft_nodeIds ds)) nodeIds
      /\ (forall d i, d ∈ ds -> i ∈ draft_nodeIds d ->
                      nmf !! i = Some (set_chainId (draft_id d) (buildNode mm i)))
      /\ map draft_id ds = map Z.of_nat (seq 1 (length ds))
      /\ Forall (chain_ok (edges g)) ds
      /\ Forall (fun d => base.NoDup (draft_nodeIds d)) ds
      /\ (forall d e, d ∈ ds -> e ∈ edges g ->
                      source e ∈ draft_nodeIds d <-> target e ∈ draft_nodeIds d).
Proof.
    intros mm rs linked. unfold buildReplyGraph.
    fold mm. change (filter _ messages) with rs.
    set (replies := fold_left (collectReply mm flag) rs _).
    assert (Hreplies : replies_ok replies).
    { apply replies_fold_ok. split; simpl; [constructor|]. intros e He. inversion He. }
    destruct Hreplies as [Hnd Hedges].
    destruct (replies_fold mm flag rs
                {| selfReplies := 0; crossChannelReplies := 0; ids := []; replyEdges := [] |})
      as (Hself & Hcross & HE & Hids).
    { intros m Hm. now apply replyMessagesOf_spec in Hm. }
    fold replies in Hself, Hcross, HE, Hids. fold linked in HE, Hids.
    cbn [selfReplies crossChannelReplies replyEdges ids app] in Hself, Hcross, HE, Hids.
    set (nodeIds := ids replies) in *.
    set (E := replyEdges replies) in *.
    set (U := list_to_set nodeIds : gset Z).
    set (nodeMap0 := fold_left _ (map (buildNode mm) nodeIds) ∅).
    destruct (nodeMap_fold_ok mm nodeIds ∅) as [Hok0 Hdom0].
    { intros i n. rewrite lookup_empty. discriminate. }
    fold nodeMap0 in Hok0, Hdom0.
    assert (HadjU : forall k l n, adjacency nodeIds E !! k = Some l -> n ∈ l -> n ∈ U).
    { intros k l n Hl Hn.
      destruct (adjacency_endpoints nodeIds E k l n Hl Hn) as (e & He & [->| ->]);
        apply elem_of_list_to_set; now apply Hedges. }
    assert (HEU : forall e, e ∈ E -> (source e ∈ U) /\ (target e ∈ U)).
    { intros e He. split; apply elem_of_list_to_set; now apply Hedges. }
    assert (Hfuel : (size U < S (length nodeIds))%nat).
    { unfold U. rewrite size_list_to_set by exact Hnd. lia. }
    assert (HlU : forall i, i ∈ nodeIds -> i ∈ U).
    { intros i Hi. now apply elem_of_list_to_set. }
    set (st0 := {| visited := ∅; drafts := []; lastChainId := 0; nodeObjects := nodeMap0 |}).
    assert (Hst0 : components_ok U st0).
    { split; [constructor|]. simpl.
      split; [intros i; split; intros Hi; inversion Hi|].
      split; [apply empty_subseteq|]. split; [exact Hok0|].
      intros i Hi. apply Hdom0. left. now apply elem_of_list_to_set in Hi. }
    destruct (component_loop U (S (length nodeIds)) (adjacency nodeIds E) E
                HadjU HEU Hfuel nodeIds st0 HlU Hst0)
      as (final & Hfold & (Hndf & Hmem & HvU & Hok & Hdom) & _ & Hall).
    assert (Hmore : chains_ok E nodeMap0 final).
    { apply (component_loop_more U (S (length nodeIds)) (adjacency nodeIds E) E nodeMap0
               HadjU HEU Hfuel nodeIds st0 final HlU Hst0); [|exact Hfold].
      split; [split|split; [split|split]]; simpl; try constructor; try reflexivity.
      intros d i Hd. inversion Hd. }
    destruct Hmore as ((Hlab & _) & (Hnum & _) & Hchains & Hnds).
    assert (Hneigh : forall k n, n ∈ neighbours (adjacency nodeIds E) k
                                 <-> exists e, e ∈ E /\ joins e k n).
    { intros k n. now apply neighbours_adjacency. }
    assert (Hclosed : closed (adjacency nodeIds E) final).
    { apply (component_loop_closed U (S (length nodeIds)) (adjacency nodeIds E) E
               HadjU HEU Hfuel) with (l := nodeIds) (st := st0);
        [|exact HlU|exact Hst0| |exact Hfold].
      - intros i n Hn. apply Hneigh in Hn as (e & He & Hj).
        apply Hneigh. exists e. split; [exact He | now apply joins_sym].
      - intros d i n Hd. inversion Hd. }
    rewrite Hfold. cbn [mbind option_bind].
    eexists _, nodeIds, (drafts final), (nodeObjects final).
    split; [reflexivity|]. cbn [edges selfReplyCount crossChannelReplyCount nodes chains].
    split; [exact HE|]. split; [rewrite Hself; lia|]. split; [rewrite Hcross; lia|].
    split; [exact Hnd|].
    split.
    { intros i. rewrite Hids. split; [|now right].
      intros [Hi|Hi]; [inversion Hi | exact Hi]. }
    split; [reflexivity|]. split; [reflexivity|].
    assert (Hperm : Permutation (concat (map draft_nodeIds (drafts final))) nodeIds).
    { apply list.NoDup_Permutation; [exact Hndf | exact Hnd |].
      intros i. rewrite <- Hmem. split; intros Hi.
      - apply HvU in Hi. now apply elem_of_list_to_set in Hi.
      - now apply Hall. }
    split; [exact Hperm|].
    split.
    { intros d i Hd Hi. rewrite (Hlab d i Hd Hi).
      unfold nodeMap0. rewrite nodeMap_fold_lookup.
      rewrite decide_True; [reflexivity|].
      apply list_elem_of_In, (Permutation_in _ Hperm), in_concat.
      exists (draft_nodeIds d). split; [|now apply list_elem_of_In].
      apply in_map. now apply list_elem_of_In. }
    split; [exact Hnum|]. split; [exact Hchains|]. split; [exact Hnds|].
    intros d e Hd He. split; intros Hi.
    - apply (Hclosed d (source e) (target e) Hd Hi).
      apply Hneigh. exists e. split; [exact He|]. now left.
    - apply (Hclosed d (target e) (source e) Hd Hi).
      apply Hneigh. exists e. split; [exact He|]. now right.
Qed.
End ReplyGraphAnatomy.

Section ReplyGraphShape.
Import ReplyGraph ReplyGraphMore.

Lemma omap_labelled {A : Type} (nm : gmap Z A) (f : Z -> A) (l : list Z) :
    (forall i, i ∈ l -> nm !! i = Some (f i)) ->
    omap (fun i => nm !! i) l = map f l.
Proof.
    induction l as [|i l IH]; intros Hl; [reflexivity|].
    simpl. rewrite (Hl i) by (now left). simpl. f_equal.
    apply IH. intros k Hk. apply Hl. now right.
Qed.

Lemma omap_ids (nm : gmap Z GraphNode) (l : list Z) :
    (forall i, i ∈ l -> exists n, nm !! i = Some n /\ node_id n = i) ->
    map node_id (omap (fun i => nm !! i) l) = l.
Proof.
    induction l as [|i l IH]; intros Hl; [reflexivity|].
    destruct (Hl i) as (n & Hn & Hid); [now left|].
    simpl. rewrite Hn. simpl. rewrite Hid. f_equal.
    apply IH. intros k Hk. apply Hl. now right.
Qed.

Lemma chainOf_ids (mm : gmap Z TelegramMessage) (d : ChainDraft) :
    map node_id (chain_nodes (chainOf mm d)) = draft_nodeIds d.
Proof.
    unfold chainOf. cbn [chain_nodes]. rewrite map_map. cbn [set_chainId buildNode node_id].
    apply map_id.
Qed.

Lemma buildReplyGraph_shape (messages : list TelegramMessage) (flag : bool) :
    let mm := messageMapOf messages in
    let rs := replyMessagesOf messages in
    let linked := filter (fun m => targetExists mm m || flag) rs in
    exists g,
      buildReplyGraph messages flag = Some g
      /\ edges g = map edgeOf linked
      /\ selfReplyCount g = Z.of_nat (length (filter (targetExists mm) rs))
      /\ crossChannelReplyCount g
         = Z.of_nat (length (filter (fun m => negb (targetExists mm m)) rs))
      /\ List.NoDup (map node_id (nodes g))
      /\ (forall i, In i (map node_id (nodes g)) <->
                    exists m, In m linked
                              /\ (i = source (edgeOf m) \/ i = target (edgeOf m)))
      /\ (forall n, In n (nodes g) ->
            exists c, In c (chains g) /\ In n (chain_nodes c)
                      /\ n = set_chainId (chain_id c) (buildNode mm (node_id n)))
      /\ (forall c, In c (chains g) ->
            exists d, c = chainOf mm d
                      /\ chain_ok (edges g) d
                      /\ base.NoDup (draft_nodeIds d)
                      /\ (forall i, i ∈ draft_nodeIds d -> In i (map node_id (nodes g)))
                      /\ (forall e, In e (edges g) ->
                             source e ∈ draft_nodeIds d <-> target e ∈ draft_nodeIds d))
      /\ (forall c c' i, In c (chains g) -> In c' (chains g) ->
                         In i (map node_id (chain_nodes c)) ->
                         In i (map node_id (chain_nodes c')) -> c = c')
      /\ Permutation (map chain_id (chains g))
                     (map Z.of_nat (seq 1 (length (chains g))))
      /\ StronglySorted (key_ge (fun c => Z.of_nat (length (chain_nodes c)))) (chains g).
Proof.
    intros mm rs linked.
    destruct (buildReplyGraph_anatomy messages flag)
      as (g & nodeIds & ds & nmf & Hg & HE & Hself & Hcross & Hnd & Hids & Hnodes
          & Hchains & Hperm & Hlab & Hnum & Hok & Hnds & Hcl).
    fold mm rs linked in HE, Hself, Hcross, Hids, Hlab.
    exists g. split; [exact Hg|]. split; [exact HE|].
    split; [exact Hself|]. split; [exact Hcross|].
    assert (Hin_ds : forall i, i ∈ nodeIds -> exists d, d ∈ ds /\ i ∈ draft_nodeIds d).
    { intros i Hi. apply list_elem_of_In, (Permutation_in _ (Permutation_sym Hperm)) in Hi.
      apply in_concat in Hi as (l & Hl & Hil).
      apply in_map_iff in Hl as (d & <- & Hd).
      exists d. split; now apply list_elem_of_In. }
    assert (Hnode_ids : map node_id (nodes g) = nodeIds).
    { rewrite Hnodes. apply omap_ids. intros i Hi.
      destruct (Hin_ds i Hi) as (d & Hd & Hid).
      eexists. split; [now apply (Hlab d i)|]. reflexivity. }
    assert (Hresolve : forall d, d ∈ ds -> resolveChain nmf d = chainOf mm d).
    { intros d Hd. unfold resolveChain, chainOf. f_equal.
      apply omap_labelled. intros i Hi. now apply Hlab. }
    assert (Hchain_in : forall c, In c (chains g) <-> exists d, d ∈ ds /\ c = chainOf mm d).
    { intros c. rewrite Hchains. split.
      - intros Hc. apply (Permutation_in _ (array_sort_perm _ _)) in Hc.
        apply in_map_iff in Hc as (d & <- & Hd). apply list_elem_of_In in Hd.
        exists d. split; [exact Hd | now apply Hresolve].
      - intros (d & Hd & ->). apply (Permutation_in _ (Permutation_sym (array_sort_perm _ _))).
        apply in_map_iff. exists d. split; [now apply Hresolve | now apply list_elem_of_In]. }
    rewrite Hnode_ids.
    split; [now apply NoDup_ListNoDup|].
    split.
    { intros i. rewrite <- Hids. split; apply list_elem_of_In. }
    split.
    { intros n Hn. rewrite Hnodes in Hn.
      apply list_elem_of_In, list_elem_of_omap in Hn as (i & Hi & Hn).
      destruct (Hin_ds i Hi) as (d & Hd & Hid).
      rewrite (Hlab d i Hd Hid) in Hn. injection Hn as <-.
      exists (chainOf mm d). split; [apply Hchain_in; eauto|].
      split; [|reflexivity].
      unfold chainOf. cbn [chain_nodes]. apply in_map_iff.
      exists i. split; [reflexivity | now apply list_elem_of_In]. }
    split.
    { intros c Hc. apply Hchain_in in Hc as (d & Hd & ->).
      exists d. split; [reflexivity|].
      rewrite Forall_forall in Hok, Hnds.
      split; [apply Hok; now apply list_elem_of_In|].
      split; [apply Hnds; now apply list_elem_of_In|].
      split.
      - intros i Hi. apply (Permutation_in _ Hperm), in_concat.
        exists (draft_nodeIds d).
        split; [apply in_map; now apply list_elem_of_In | now apply list_elem_of_In].
      - intros e He. apply Hcl; [exact Hd | now apply list_elem_of_In]. }
    split.
    { intros c c' i Hc Hc' Hi Hi'.
      apply Hchain_in in Hc as (d & Hd & ->). apply Hchain_in in Hc' as (d' & Hd' & ->).
      rewrite chainOf_ids in Hi, Hi'.
      apply list_elem_of_In, In_nth_error in Hd as [k Hk].
      apply list_elem_of_In, In_nth_error in Hd' as [k' Hk'].
      destruct (Nat.eq_dec k k') as [->|Hne]; [congruence|].
      exfalso.
      apply (NoDup_concat_disjoint (map draft_nodeIds ds)) with
        (i := k) (j := k') (li := draft_nodeIds d) (lj := draft_nodeIds d') (x := i);
        try assumption.
      - apply NoDup_ListNoDup.
        eapply (list.NoDup_Permutation_proper _ _ Hperm). exact Hnd.
      - rewrite nth_error_map, Hk. reflexivity.
      - rewrite nth_error_map, Hk'. reflexivity. }
    split.
    { rewrite Hchains.
      rewrite (Permutation_length (array_sort_perm _ _)), length_map.
      rewrite (Permutation_map chain_id (array_sort_perm _ _)).
      assert (Hm : map chain_id (map (resolveChain nmf) ds) = map draft_id ds)
        by (rewrite map_map; reflexivity).
      now rewrite Hm, Hnum. }
    rewrite Hchains. apply array_sort_desc.
Qed.
End ReplyGraphShape.

(** ** reply-graph: properties of the returned graph *)

Section ReplyGraphExtras.
Import ReplyGraph ReplyGraphMore.

Lemma collect_flag_irrelevant (mm : gmap Z TelegramMessage) (rs : list TelegramMessage)
        (st : Replies) :
    (forall m, In m rs -> targetExists mm m = true) ->
    fold_left (collectReply mm false) rs st = fold_left (collectReply mm true) rs st.
Proof.
    revert st. induction rs as [|m rs IH]; intros st Hall; [reflexivity|].
    simpl. rewrite IH by (intros m' Hm'; apply Hall; now right). f_equal.
    assert (Hm : targetExists mm m = true) by (apply Hall; now left).
    unfold targetExists in Hm. unfold collectReply.
    destruct (reply_to_message_id m) as [t|]; [|reflexivity].
    apply bool_decide_eq_true in Hm as [x Hx]. now rewrite Hx.
Qed.

Lemma filter_nil_forall {A : Type} (p : A -> bool) (l : list A) :
    length (filter (fun x => negb (p x)) l) = 0%nat -> forall x, In x l -> p x = true.
Proof.
    induction l as [|y l IH]; intros Hlen x Hx; [contradiction|].
    simpl in Hlen. destruct (p y) eqn:Ey; simpl in Hlen; [|discriminate].
    destruct Hx as [<-|Hx]; [exact Ey | now apply IH].
Qed.

  (** X8.  The two counters of [buildReplyGraph] do not depend on
      [includeCrossChannel]: together they count the content messages that
      reply to something, [selfReplyCount] those whose target is in the
      list.  The graph has one edge per counted self reply without the flag,
      and one per reply with it; and when no reply points outside the list,
      the flag changes nothing at all. *)
Theorem reply_counters_ignore_the_flag (messages : list TelegramMessage) :
    exists g0 g1,
      buildReplyGraph messages false = Some g0
      /\ buildReplyGraph messages true = Some g1
      /\ selfReplyCount g0 = selfReplyCount g1
      /\ crossChannelReplyCount g0 = crossChannelReplyCount g1
      /\ selfReplyCount g1 + crossChannelReplyCount g1
         = Z.of_nat (length (replyMessagesOf messages))
      /\ Z.of_nat (length (edges g0)) = selfReplyCount g0
      /\ Z.of_nat (length (edges g1)) = selfReplyCount g1 + crossChannelReplyCount g1
      /\ (crossChannelReplyCount g1 = 0 -> g0 = g1).
Proof.
    destruct (buildReplyGraph_shape messages false)
      as (g0 & Hg0 & HE0 & Hself0 & Hcross0 & _).
    destruct (buildReplyGraph_shape messages true)
      as (g1 & Hg1 & HE1 & Hself1 & Hcross1 & _).
    set (mm := messageMapOf messages) in *.
    set (rs := replyMessagesOf messages) in *.
    exists g0, g1. split; [exact Hg0|]. split; [exact Hg1|].
    split; [congruence|]. split; [congruence|].
    pose proof (filter_length_split (targetExists mm) rs) as Hsplit.
    split; [lia|].
    split.
    { rewrite HE0, length_map, Hself0. do 2 f_equal. apply filter_ext.
      intros m. apply orb_false_r. }
    split.
    { rewrite HE1, length_map.
      rewrite (filter_ext (fun m => targetExists mm m || true) (fun _ => true))
        by (intros m; apply orb_true_r).
      rewrite forallb_filter_id by (now apply forallb_forall). lia. }
    intros Hcross.
    assert (Hall : forall m, In m rs -> targetExists mm m = true).
    { apply filter_nil_forall. lia. }
    assert (Hsame : buildReplyGraph messages false = buildReplyGraph messages true).
    { unfold buildReplyGraph. fold mm. change (filter _ messages) with rs.
      now rewrite (collect_flag_irrelevant mm rs _ Hall). }
    congruence.
Qed.

Lemma edge_of_reply (messages : list TelegramMessage) (flag : bool) (m : TelegramMessage) :
    In m (filter (fun m => targetExists (messageMapOf messages) m || flag)
                 (replyMessagesOf messages)) ->
    In m messages /\ type m = message
    /\ reply_to_message_id m = Some (source (edgeOf m))
    /\ id m = target (edgeOf m)
    /\ ((exists t, In t messages /\ id t = source (edgeOf m)) \/ flag = true).
Proof.
    intros Hm. apply filter_In in Hm as [Hm Hlinked].
    apply replyMessagesOf_spec in Hm as (Hin & Hty & [t Ht]).
    split; [exact Hin|]. split; [exact Hty|].
    unfold edgeOf, targetExists in *. rewrite Ht in *. cbn [source target default from_option].
    split; [reflexivity|]. split; [reflexivity|].
    apply orb_prop in Hlinked as [Hex|Hflag]; [left|now right].
    apply bool_decide_eq_true in Hex. now apply messageMap_has.
Qed.

  (** X9.  Every edge of the graph goes from the target of a reply to the
      content message that replies, both end points are nodes, every node is
      an end point of some edge, and no two nodes share an id.  Without the
      cross-channel flag, the source of every edge is the id of a message of
      the list. *)
Theorem reply_edges_join_graph_nodes (messages : list TelegramMessage) (flag : bool) :
    exists g,
      buildReplyGraph messages flag = Some g
      /\ (forall e, In e (edges g) ->
            (exists msg, In msg messages /\ type msg = message
                         /\ reply_to_message_id msg = Some (source e)
                         /\ id msg = target e)
            /\ In (source e) (map node_id (nodes g))
            /\ In (target e) (map node_id (nodes g)))
      /\ (forall n, In n (nodes g) ->
            exists e, In e (edges g) /\ (node_id n = source e \/ node_id n = target e))
      /\ List.NoDup (map node_id (nodes g))
      /\ (flag = false ->
          forall e, In e (edges g) -> exists t, In t messages /\ id t = source e).
Proof.
    destruct (buildReplyGraph_shape messages flag)
      as (g & Hg & HE & _ & _ & Hnd & Hids & _).
    exists g. split; [exact Hg|].
    split; [|split; [|split; [exact Hnd|]]].
    - intros e He. rewrite HE in He. apply in_map_iff in He as (m & <- & Hm).
      destruct (edge_of_reply messages flag m Hm) as (Hin & Hty & Hr & Hid & _).
      split; [now exists m|].
      split; apply Hids; exists m; (split; [exact Hm|]); [now left | now right].
    - intros n Hn. apply (in_map node_id) in Hn. apply Hids in Hn as (m & Hm & Hi).
      exists (edgeOf m). split; [|exact Hi]. rewrite HE. now apply in_map.
    - intros -> e He. rewrite HE in He. apply in_map_iff in He as (m & <- & Hm).
      destruct (edge_of_reply messages false m Hm) as (_ & _ & _ & _ & [Ht|Hf]);
        [exact Ht | discriminate].
Qed.

  (** X10.  A node is marked [isForwardedReply] exactly when no message of
      the list has its id.  Such a phantom node only appears with the
      cross-channel flag, is the source of an edge, and carries the
      placeholder message and text with no reactions and no media; any other
      node carries a message of the list with its id, the first 120 code
      units of that message's text, its reaction total and its media flag. *)
Theorem phantom_nodes_are_absent_targets (messages : list TelegramMessage) (flag : bool) :
    exists g,
      buildReplyGraph messages flag = Some g
      /\ forall n, In n (nodes g) ->
           (isForwardedReply n = true <->
            forall msg, In msg messages -> id msg <> node_id n)
           /\ (isForwardedReply n = true ->
               flag = true
               /\ (exists e, In e (edges g) /\ source e = node_id n)
               /\ node_message n = createPhantomMessage (node_id n)
               /\ node_text n = js "[External message]"
               /\ reactionCount n = 0%N
               /\ hasMedia n = false)
           /\ (isForwardedReply n = false ->
               In (node_message n) messages
               /\ id (node_message n) = node_id n
               /\ node_text n = str_slice0 120 (getMessageText (node_message n))
               /\ reactionCount n = reactionTotal (node_message n)
               /\ hasMedia n = hasMediaField (node_message n)).
Proof.
    destruct (buildReplyGraph_shape messages flag)
      as (g & Hg & HE & _ & _ & _ & Hids & Hnodes & _).
    exists g. split; [exact Hg|]. intros n Hn.
    destruct (Hnodes n Hn) as (c & _ & _ & Heq).
    set (i := node_id n) in *. set (mm := messageMapOf messages) in *.
    assert (Habsent : isForwardedReply n = true <->
                      forall msg, In msg messages -> id msg <> i).
    { rewrite Heq. cbn [isForwardedReply set_chainId buildNode].
      rewrite negb_true_iff, bool_decide_eq_false. unfold mm.
      rewrite messageMap_has. split.
      - intros Hno msg Hin Hid. apply Hno. now exists msg.
      - intros Hno (msg & Hin & Hid). now apply (Hno msg). }
    split; [exact Habsent|]. split.
    - intros Hphantom.
      assert (Hno : forall msg, In msg messages -> id msg <> i) by now apply Habsent.
      assert (Hnone : mm !! i = None).
      { destruct (mm !! i) as [msg|] eqn:El; [|reflexivity].
        apply messageMap_lookup in El as [Hin Hid]. now destruct (Hno msg). }
      apply (in_map node_id) in Hn. apply Hids in Hn as (m & Hm & Hi).
      destruct (edge_of_reply messages flag m Hm) as (Hin & _ & _ & Hid & Hsrc).
      fold i in Hi. destruct Hi as [Hi|Hi]; [|destruct (Hno m Hin); congruence].
      split.
      { destruct Hsrc as [(t & Ht & Hidt)|Hf]; [|exact Hf].
        destruct (Hno t Ht). congruence. }
      split.
      { exists (edgeOf m). split; [|now symmetry]. rewrite HE. now apply in_map. }
      rewrite Heq. cbn [node_message node_text reactionCount hasMedia set_chainId buildNode].
      rewrite Hnone. repeat split.
    - intros Hreal.
      assert (Hsome : exists msg, mm !! i = Some msg).
      { destruct (mm !! i) as [msg|] eqn:El; [eauto|].
        rewrite Heq in Hreal. cbn [isForwardedReply set_chainId buildNode] in Hreal.
        rewrite El in Hreal. rewrite bool_decide_eq_false_2 in Hreal; [discriminate|].
        intros [x Hx]. discriminate. }
      destruct Hsome as [msg Hmsg].
      destruct (messageMap_lookup messages i msg Hmsg) as [Hin Hid].
      rewrite Heq. cbn [node_message node_text reactionCount hasMedia set_chainId buildNode].
      rewrite Hmsg. cbn [default from_option]. repeat split; assumption.
Qed.

  (** X11.  Every node carries the id of the chain it belongs to: the
      [chainId] of each node of a chain is that chain's [id], the chain ids
      are the numbers 1 to the number of chains, each once, and so every node
      of the graph has a [chainId] in that range (never the initial 0). *)
Theorem nodes_carry_their_chain_id (messages : list TelegramMessage) (flag : bool) :
    exists g,
      buildReplyGraph messages flag = Some g
      /\ (forall c n, In c (chains g) -> In n (chain_nodes c) -> chainId n = chain_id c)
      /\ Permutation (map chain_id (chains g))
                     (map Z.of_nat (seq 1 (length (chains g))))
      /\ (forall n, In n (nodes g) -> 1 <= chainId n <= Z.of_nat (length (chains g))).
Proof.
    destruct (buildReplyGraph_shape messages flag)
      as (g & Hg & _ & _ & _ & _ & _ & Hnodes & Hchains & _ & Hperm & _).
    exists g. split; [exact Hg|]. split; [|split; [exact Hperm|]].
    - intros c n Hc Hn. destruct (Hchains c Hc) as (d & -> & _).
      unfold chainOf in *. cbn [chain_nodes chain_id] in *.
      apply in_map_iff in Hn as (i & <- & _). reflexivity.
    - intros n Hn. destruct (Hnodes n Hn) as (c & Hc & _ & Heq).
      assert (Hid : chainId n = chain_id c) by (rewrite Heq; reflexivity).
      apply (in_map chain_id) in Hc. apply (Permutation_in _ Hperm) in Hc.
      apply in_map_iff in Hc as (k & Hk & Hseq). apply in_seq in Hseq. lia.
Qed.

Lemma pickRoot_cases (roots chain : list Z) :
    (roots = [] /\ pickRoot roots chain = hd 0 chain)
    \/ (exists rest, roots = 0 :: rest /\ pickRoot roots chain = hd 0 chain)
    \/ (exists r rest, roots = r :: rest /\ r <> 0 /\ pickRoot roots chain = r).
Proof.
    destruct roots as [|r rest]; [now left|]. right. unfold pickRoot.
    destruct (Z.eqb_spec r 0) as [->|Hne]; [left|right]; eauto.
Qed.

Lemma includes_targets (E : list GraphEdge) (i : Z) :
    includes_id (map target E) i = existsb (fun e => target e =? i) E.
Proof.
    unfold includes_id. induction E as [|e E IH]; [reflexivity|].
    cbn [map existsb]. now rewrite IH, Z.eqb_sym.
Qed.

  (** X12.  The chains come by descending number of nodes; every chain has
      at least one node, no node id twice, a [rootId] that is the id of one
      of its nodes, and a depth that is at least 0 and below its number of
      nodes.  The root is the first node of the chain, in the order the
      search found them, that has no incoming edge in the chain, when there
      is one and its id is not 0; when every node of the chain has an
      incoming edge, or when that first node has the id 0, the root is the
      first node of the chain.  So the root has no incoming edge in its
      chain, unless it is the first node in one of these two cases. *)
Theorem chains_are_sorted_rooted_and_bounded (messages : list TelegramMessage)
          (flag : bool) :
    exists g,
      buildReplyGraph messages flag = Some g
      /\ StronglySorted (key_ge (fun c => Z.of_nat (length (chain_nodes c)))) (chains g)
      /\ forall c, In c (chains g) ->
           chain_nodes c <> []
           /\ List.NoDup (map node_id (chain_nodes c))
           /\ In (rootId c) (map node_id (chain_nodes c))
           /\ 0 <= depth c < Z.of_nat (length (chain_nodes c))
           /\ rootId c
              = match filter (fun i => negb (existsb (fun e => target e =? i) (chain_edges c)))
                             (map node_id (chain_nodes c)) with
                | r :: _ => if r =? 0 then hd 0 (map node_id (chain_nodes c)) else r
                | [] => hd 0 (map node_id (chain_nodes c))
                end
           /\ ((forall e, In e (chain_edges c) -> target e <> rootId c)
               \/ (rootId c = hd 0 (map node_id (chain_nodes c))
                   /\ ((forall n, In n (chain_nodes c) ->
                          exists e, In e (chain_edges c) /\ target e = node_id n)
                       \/ (exists n, In n (chain_nodes c) /\ node_id n = 0
                                     /\ forall e, In e (chain_edges c) -> target e <> 0)))).
Proof.
    destruct (buildReplyGraph_shape messages flag)
      as (g & Hg & _ & _ & _ & _ & _ & _ & Hchains & _ & _ & Hsorted).
    exists g. split; [exact Hg|]. split; [exact Hsorted|].
    intros c Hc.
    destruct (Hchains c Hc) as (d & -> & (Hne & Hroot & Hdepth & _ & Hpick) & Hnd & _).
    rewrite chainOf_ids.
    split.
    { unfold chainOf. cbn [chain_nodes]. destruct (draft_nodeIds d); [congruence|discriminate]. }
    split; [now apply NoDup_ListNoDup|].
    split; [now apply list_elem_of_In|].
    split; [unfold chainOf; cbn [chain_nodes depth]; now rewrite length_map|].
    split.
    { unfold chainOf at 1 2. cbn [chain_edges rootId]. rewrite Hpick. unfold pickRoot.
      erewrite filter_ext; [reflexivity|].
      intros i. cbn beta. now rewrite includes_targets. }
    unfold chainOf. cbn [chain_nodes chain_edges rootId].
    set (incoming := map target (draft_edges d)) in *.
    assert (Hinc : forall i, includes_id incoming i = true
                             <-> exists e, In e (draft_edges d) /\ target e = i).
    { intros i. rewrite includes_id_elem, list_elem_of_In. unfold incoming.
      rewrite in_map_iff. split; intros (e & H1 & H2); exists e; tauto. }
    assert (Hnode : forall n, In n (map (fun i => set_chainId (draft_id d)
                                           (buildNode (messageMapOf messages) i))
                                        (draft_nodeIds d))
                              <-> In (node_id n) (draft_nodeIds d)
                                  /\ n = set_chainId (draft_id d)
                                           (buildNode (messageMapOf messages) (node_id n))).
    { intros n. rewrite in_map_iff. split.
      - intros (i & <- & Hi). split; [exact Hi | reflexivity].
      - intros (Hi & Heq). exists (node_id n). split; [now symmetry | exact Hi]. }
    destruct (pickRoot_cases
                (filter (fun i => negb (includes_id incoming i)) (draft_nodeIds d))
                (draft_nodeIds d))
      as [[Hnil Hr]|[(rest & Hroots & Hr)|(r & rest & Hroots & Hr0 & Hr)]];
      rewrite Hpick, Hr.
    - right. split; [reflexivity|]. left. intros n Hn. apply Hnode in Hn as [Hi _].
      apply Hinc. destruct (includes_id incoming (node_id n)) eqn:E; [reflexivity|].
      assert (Hin : In (node_id n) (filter (fun i => negb (includes_id incoming i))
                                          (draft_nodeIds d)))
        by (apply filter_In; split; [exact Hi | now rewrite E]).
      rewrite Hnil in Hin. contradiction.
    - right. split; [reflexivity|]. right.
      assert (Hin : In 0 (filter (fun i => negb (includes_id incoming i)) (draft_nodeIds d)))
        by (rewrite Hroots; now left).
      apply filter_In in Hin as [Hi Hno]. apply negb_true_iff in Hno.
      exists (set_chainId (draft_id d) (buildNode (messageMapOf messages) 0)).
      split; [apply Hnode; split; [exact Hi | reflexivity]|]. split; [reflexivity|].
      intros e He Ht. assert (includes_id incoming 0 = true) by (apply Hinc; eauto).
      congruence.
    - left. intros e He Ht.
      assert (Hin : In r (filter (fun i => negb (includes_id incoming i)) (draft_nodeIds d)))
        by (rewrite Hroots; now left).
      apply filter_In in Hin as [_ Hno]. apply negb_true_iff in Hno.
      assert (includes_id incoming r = true) by (apply Hinc; eauto). congruence.
Qed.

  (** X13.  No reply crosses chains: every edge of the graph is an edge of
      exactly one chain, which holds both of its end points, and a chain's
      edges are the edges of the graph that touch one of its nodes. *)
Theorem chains_are_closed_under_replies (messages : list TelegramMessage) (flag : bool) :
    exists g,
      buildReplyGraph messages flag = Some g
      /\ (forall e, In e (edges g) ->
            exists c, In c (chains g)
                      /\ In e (chain_edges c)
                      /\ In (source e) (map node_id (chain_nodes c))
                      /\ In (target e) (map node_id (chain_nodes c))
                      /\ forall c', In c' (chains g) -> In e (chain_edges c') -> c' = c)
      /\ (forall c e, In c (chains g) ->
            In e (chain_edges c) <->
            In e (edges g)
            /\ (In (source e) (map node_id (chain_nodes c))
                \/ In (target e) (map node_id (chain_nodes c)))).
Proof.
    destruct (buildReplyGraph_shape messages flag)
      as (g & Hg & HE & _ & _ & _ & Hids & Hnodes & Hchains & Hdisj & _).
    exists g. split; [exact Hg|].
    assert (Hedges : forall c e, In c (chains g) ->
              In e (chain_edges c) <->
              In e (edges g)
              /\ In (source e) (map node_id (chain_nodes c))
              /\ In (target e) (map node_id (chain_nodes c))).
    { intros c e Hc. destruct (Hchains c Hc) as (d & -> & (_ & _ & _ & Hfilter & _) & _).
      rewrite chainOf_ids. unfold chainOf. cbn [chain_edges]. rewrite Hfilter.
      rewrite filter_In, andb_true_iff, !includes_id_elem, <- !list_elem_of_In.
      reflexivity. }
    assert (Hclosed : forall c e, In c (chains g) -> In e (edges g) ->
              In (source e) (map node_id (chain_nodes c))
              <-> In (target e) (map node_id (chain_nodes c))).
    { intros c e Hc He. destruct (Hchains c Hc) as (d & -> & _ & _ & _ & Hcl).
      rewrite chainOf_ids, <- !list_elem_of_In. now apply Hcl. }
    split.
    - intros e He.
      assert (Hsrc : In (source e) (map node_id (nodes g))).
      { rewrite HE in He. apply in_map_iff in He as (m & <- & Hm).
        apply Hids. exists m. split; [exact Hm | now left]. }
      apply in_map_iff in Hsrc as (n & Hid & Hn).
      destruct (Hnodes n Hn) as (c & Hc & Hnc & _).
      assert (Hs : In (source e) (map node_id (chain_nodes c))).
      { rewrite <- Hid. now apply in_map. }
      assert (Ht : In (target e) (map node_id (chain_nodes c))) by now apply Hclosed.
      exists c. split; [exact Hc|]. split; [now apply Hedges|].
      split; [exact Hs|]. split; [exact Ht|].
      intros c' Hc' He'. apply (Hedges c' e Hc') in He' as (_ & Hs' & _).
      now apply (Hdisj c' c (source e)).
    - intros c e Hc. rewrite (Hedges c e Hc). split.
      + intros (He & Hs & _). split; [exact He | now left].
      + intros (He & [Hs|Ht]); (split; [exact He|]); split;
          try assumption; now apply (Hclosed c e Hc He).
Qed.

Lemma reply_counters_ignore_the_flag_witness :
    exists g0 g1,
      buildReplyGraph two_threads false = Some g0
      /\ buildReplyGraph two_threads true = Some g1
      /\ selfReplyCount g1 = 4 /\ crossChannelReplyCount g1 = 1
      /\ Z.of_nat (length (edges g0)) = selfReplyCount g0
      /\ Z.of_nat (length (edges g1)) = selfReplyCount g1 + crossChannelReplyCount g1.
Proof.
    destruct (reply_counters_ignore_the_flag two_threads)
      as (g0 & g1 & Hg0 & Hg1 & _ & _ & _ & He0 & He1 & _).
    exists g0, g1. split; [exact Hg0|]. split; [exact Hg1|].
    assert (Hsome : Some g1 = buildReplyGraph two_threads true) by (symmetry; exact Hg1).
    vm_compute in Hsome. injection Hsome as Heq.
    split; [rewrite Heq; reflexivity|]. split; [rewrite Heq; reflexivity|].
    split; [exact He0 | exact He1].
Defined.

Lemma reply_edges_join_graph_nodes_witness :
    exists g,
      buildReplyGraph two_threads true = Some g
      /\ map node_id (nodes g) = [2; 1; 3; 4; 5; 77; 6]
      /\ List.NoDup (map node_id (nodes g)).
Proof.
    destruct (reply_edges_join_graph_nodes two_threads true) as (g & Hg & _ & _ & Hnd & _).
    exists g. split; [exact Hg|]. split; [|exact Hnd].
    assert (Hsome : Some g = buildReplyGraph two_threads true) by (symmetry; exact Hg).
    vm_compute in Hsome. injection Hsome as Heq. rewrite Heq. reflexivity.
Defined.

Lemma phantom_nodes_are_absent_targets_witness :
    exists g,
      buildReplyGraph two_threads true = Some g
      /\ map isForwardedReply (nodes g) = [false; false; false; false; false; true; false]
      /\ forall n, In n (nodes g) -> isForwardedReply n = true ->
                   node_message n = createPhantomMessage (node_id n).
Proof.
    destruct (phantom_nodes_are_absent_targets two_threads true) as (g & Hg & Hnodes).
    exists g. split; [exact Hg|]. split.
    - assert (Hsome : Some g = buildReplyGraph two_threads true) by (symmetry; exact Hg).
      vm_compute in Hsome. injection Hsome as Heq. rewrite Heq. reflexivity.
    - intros n Hn Hphantom. apply (Hnodes n Hn). exact Hphantom.
Defined.

Lemma nodes_carry_their_chain_id_witness :
    exists g,
      buildReplyGraph two_threads true = Some g
      /\ map chainId (nodes g) = [1; 1; 1; 1; 2; 2; 2]
      /\ forall c n, In c (chains g) -> In n (chain_nodes c) -> chainId n = chain_id c.
Proof.
    destruct (nodes_carry_their_chain_id two_threads true) as (g & Hg & Hlabel & _).
    exists g. split; [exact Hg|]. split; [|exact Hlabel].
    assert (Hsome : Some g = buildReplyGraph two_threads true) by (symmetry; exact Hg).
    vm_compute in Hsome. injection Hsome as Heq. rewrite Heq. reflexivity.
Defined.

Lemma chains_are_sorted_rooted_and_bounded_witness :
    exists g,
      buildReplyGraph two_threads true = Some g
      /\ map (fun c => (rootId c, depth c, length (chain_nodes c))) (chains g)
         = [ (1, 2, 4%nat); (77, 2, 3%nat) ]
      /\ StronglySorted (key_ge (fun c => Z.of_nat (length (chain_nodes c)))) (chains g).
Proof.
    destruct (chains_are_sorted_rooted_and_bounded two_threads true) as (g & Hg & Hs & _).
    exists g. split; [exact Hg|]. split; [|exact Hs].
    assert (Hsome : Some g = buildReplyGraph two_threads true) by (symmetry; exact Hg).
    vm_compute in Hsome. injection Hsome as Heq. rewrite Heq. reflexivity.
Defined.

Lemma chains_are_closed_under_replies_witness :
    exists g,
      buildReplyGraph two_threads true = Some g
      /\ map (fun c => length (chain_edges c)) (chains g) = [3%nat; 2%nat]
      /\ forall e, In e (edges g) -> exists c, In c (chains g) /\ In e (chain_edges c).
Proof.
    destruct (chains_are_closed_under_replies two_threads true) as (g & Hg & Hedges & _).
    exists g. split; [exact Hg|]. split.
    - assert (Hsome : Some g = buildReplyGraph two_threads true) by (symmetry; exact Hg).
      vm_compute in Hsome. injection Hsome as Heq. rewrite Heq. reflexivity.
    - intros e He. destruct (Hedges e He) as (c & Hc & Hin & _).
      exists c. split; assumption.
Defined.

End ReplyGraphExtras.

(* ===================================================================== *)
(** ** reply-graph: [buildForwardGraph] *)
(* ===================================================================== *)

Section ForwardGraphFacts.
Import ReplyGraph ForwardGraph.

  (** *** Grouping by source *)




Lemma filter_none {A : Type} (p : A -> bool) (l : list A) :
    (forall x, In x l -> p x = false) -> filter p l = [].
Proof.
    induction l as [|x l IH]; intros Hl; simpl; [reflexivity|].
    rewrite (Hl x) by (now left). apply IH. intros y Hy. apply Hl. now right.
Qed.

Lemma filter_all {A : Type} (p : A -> bool) (l : list A) :
    (forall x, In x l -> p x = true) -> filter p l = l.
Proof.
    induction l as [|x l IH]; intros Hl; simpl; [reflexivity|].
    rewrite (Hl x) by (now left). f_equal. apply IH. intros y Hy. apply Hl. now right.
Qed.


Lemma pushTo_all (src : jsstring) (msg : TelegramMessage) (m : list SourceEntry) :
    Permutation (concat (map snd (pushTo src msg m))) (msg :: concat (map snd m)).
Proof.
    induction m as [|[k msgs] m IH]; simpl; [reflexivity|].
    destruct (str_eqb k src); simpl.
    - rewrite <- app_assoc. simpl.
      symmetry. apply Permutation_middle.
    - rewrite IH. symmetry. apply Permutation_middle.
Qed.

Lemma sourceMap_all (forwarded : list TelegramMessage) :
    Permutation (concat (map snd (sourceMapOf forwarded))) forwarded.
Proof.
    unfold sourceMapOf. induction forwarded as [|msg l IH] using rev_ind; [reflexivity|].
    rewrite fold_left_app. cbn [fold_left]. rewrite pushTo_all, IH.
    apply Permutation_cons_append.
Qed.

  (** *** The loop over the sorted sources *)

Lemma fold_addSource (l : list SourceEntry) (st : Hubs) :
    fold_left addSource l st
    = {| lastChainId := lastChainId st + Z.of_nat (length l);
         hubSources := hubSources st ++ map sourceOf l;
         hubNodes := hubNodes st ++ nodesFrom (lastChainId st) l;
         hubEdges := hubEdges st ++ edgesFrom (lastChainId st) l |}.
Proof.
    revert st. induction l as [|entry l IH]; intros st.
    - simpl. rewrite !app_nil_r, Z.add_0_r. now destruct st.
    - cbn [fold_left]. rewrite IH. unfold addSource.
      cbn [lastChainId hubSources hubNodes hubEdges nodesFrom edgesFrom map length].
      f_equal; rewrite <- ?app_assoc; try reflexivity; lia.
Qed.

Lemma chainId_nodesFrom (c : Z) (l : list SourceEntry) (n : GraphNode) :
    In n (nodesFrom c l) -> c < chainId n <= c + Z.of_nat (length l).
Proof.
    revert c. induction l as [|entry l IH]; intros c; simpl; [contradiction|].
    intros [<-|Hn]; [simpl; lia|].
    apply in_app_or in Hn as [Hn|Hn].
    - apply in_map_iff in Hn as (m & <- & _). simpl. lia.
    - apply IH in Hn. lia.
Qed.

Lemma source_edgesFrom (c : Z) (l : list SourceEntry) (e : GraphEdge) :
    In e (edgesFrom c l) ->
    exists k, c < k <= c + Z.of_nat (length l) /\ source e = hubIdOf k.
Proof.
    revert c. induction l as [|entry l IH]; intros c; simpl; [contradiction|].
    intros He. apply in_app_or in He as [He|He].
    - apply in_map_iff in He as (m & <- & _). exists (c + 1). simpl. split; [lia|reflexivity].
    - apply IH in He as (k & Hk & Hs). exists k. split; [lia | exact Hs].
Qed.

  (** The nodes with a chain id are the hub of that source and the nodes of
      its messages. *)
Lemma filter_nodesFrom (c : Z) (l : list SourceEntry) (idx : nat) (entry : SourceEntry) :
    nth_error l idx = Some entry ->
    filter (fun n => chainId n =? c + Z.of_nat idx + 1) (nodesFrom c l)
    = hubNode (c + Z.of_nat idx + 1) entry :: map (msgNode (c + Z.of_nat idx + 1)) entry.2.
Proof.
    revert c idx. induction l as [|e l IH]; intros c [|idx] Hnth; try discriminate.
    - injection Hnth as ->. cbn [nodesFrom]. rewrite filter_app.
      replace (c + Z.of_nat 0 + 1) with (c + 1) by lia.
      rewrite filter_all.
      + rewrite filter_none; [now rewrite app_nil_r|].
        intros n Hn. apply chainId_nodesFrom in Hn. apply Z.eqb_neq. lia.
      + intros n [<-|Hn]; [apply Z.eqb_eq; simpl; lia|].
        apply in_map_iff in Hn as (m & <- & _). apply Z.eqb_eq. simpl. lia.
    - simpl in Hnth. cbn [nodesFrom]. rewrite filter_app.
      rewrite filter_none.
      + replace (c + Z.of_nat (S idx) + 1) with (c + 1 + Z.of_nat idx + 1) by lia.
        now apply IH.
      + intros n [<-|Hn]; [apply Z.eqb_neq; simpl; lia|].
        apply in_map_iff in Hn as (m & <- & _). apply Z.eqb_neq. simpl. lia.
Qed.

Lemma hubIdOf_inj (a b : Z) : hubIdOf a = hubIdOf b -> a = b.
Proof. unfold hubIdOf. lia. Qed.

Lemma filter_edgesFrom (c : Z) (l : list SourceEntry) (idx : nat) (entry : SourceEntry) :
    nth_error l idx = Some entry ->
    filter (fun e => source e =? hubIdOf (c + Z.of_nat idx + 1)) (edgesFrom c l)
    = map (fun msg => {| source := hubIdOf (c + Z.of_nat idx + 1); target := id msg |})
          entry.2.
Proof.
    revert c idx. induction l as [|e l IH]; intros c [|idx] Hnth; try discriminate.
    - injection Hnth as ->. cbn [edgesFrom]. rewrite filter_app.
      replace (c + Z.of_nat 0 + 1) with (c + 1) by lia.
      rewrite filter_all.
      + rewrite filter_none; [now rewrite app_nil_r|].
        intros x Hx. apply source_edgesFrom in Hx as (k & Hk & ->).
        apply Z.eqb_neq. intros Heq%hubIdOf_inj. lia.
      + intros x Hx. apply in_map_iff in Hx as (m & <- & _). simpl. apply Z.eqb_refl.
    - simpl in Hnth. cbn [edgesFrom]. rewrite filter_app.
      rewrite filter_none.
      + replace (c + Z.of_nat (S idx) + 1) with (c + 1 + Z.of_nat idx + 1) by lia.
        now apply IH.
      + intros x Hx. apply in_map_iff in Hx as (m & <- & _). simpl.
        apply Z.eqb_neq. intros Heq%hubIdOf_inj. lia.
Qed.

  (** The chain of a source, as [buildForwardGraph] returns it. *)
Lemma chainAt_source (l : list SourceEntry) (idx : nat) (entry : SourceEntry) :
    nth_error l idx = Some entry ->
    chainAt (nodesFrom 0 l) (edgesFrom 0 l) idx
    = {| chain_id := Z.of_nat idx + 1;
         chain_nodes := hubNode (Z.of_nat idx + 1) entry
                        :: map (msgNode (Z.of_nat idx + 1)) entry.2;
         chain_edges := map (fun msg => {| source := hubIdOf (Z.of_nat idx + 1);
                                           target := id msg |}) entry.2;
         rootId := hubIdOf (Z.of_nat idx + 1);
         depth := 1 |}.
Proof.
    intros Hnth. unfold chainAt.
    pose proof (filter_nodesFrom 0 l idx entry Hnth) as Hn.
    pose proof (filter_edgesFrom 0 l idx entry Hnth) as He.
    rewrite !Z.add_0_l in Hn, He. now rewrite Hn, He.
Qed.

Lemma nodesFrom_blocks (c : Z) (l : list SourceEntry) :
    concat (map (fun idx => filter (fun n => chainId n =? c + Z.of_nat idx + 1)
                                   (nodesFrom c l))
                (seq 0 (length l)))
    = nodesFrom c l.
Proof.
    revert c. induction l as [|e l IH]; intros c; [reflexivity|].
    cbn [length seq map concat]. rewrite <- seq_shift, map_map.
    rewrite (filter_nodesFrom c (e :: l) 0 e eq_refl).
    replace (c + Z.of_nat 0 + 1) with (c + 1) by lia.
    cbn [nodesFrom]. f_equal.
    etransitivity; [|apply (IH (c + 1))]. f_equal. apply map_ext. intros idx.
    rewrite filter_app, filter_none.
    - replace (c + Z.of_nat (S idx) + 1) with (c + 1 + Z.of_nat idx + 1) by lia.
      reflexivity.
    - intros n [<-|Hn]; [apply Z.eqb_neq; simpl; lia|].
      apply in_map_iff in Hn as (m & <- & _). apply Z.eqb_neq. simpl. lia.
Qed.

Lemma edgesFrom_blocks (c : Z) (l : list SourceEntry) :
    concat (map (fun idx => filter (fun e => source e =? hubIdOf (c + Z.of_nat idx + 1))
                                   (edgesFrom c l))
                (seq 0 (length l)))
    = edgesFrom c l.
Proof.
    revert c. induction l as [|e l IH]; intros c; [reflexivity|].
    cbn [length seq map concat]. rewrite <- seq_shift, map_map.
    rewrite (filter_edgesFrom c (e :: l) 0 e eq_refl).
    replace (c + Z.of_nat 0 + 1) with (c + 1) by lia.
    cbn [edgesFrom]. f_equal.
    etransitivity; [|apply (IH (c + 1))]. f_equal. apply map_ext. intros idx.
    rewrite filter_app, filter_none.
    - replace (c + Z.of_nat (S idx) + 1) with (c + 1 + Z.of_nat idx + 1) by lia.
      reflexivity.
    - intros x Hx. apply in_map_iff in Hx as (m & <- & _). simpl.
      apply Z.eqb_neq. intros Heq%hubIdOf_inj. lia.
Qed.

Lemma length_nodesFrom (c : Z) (l : list SourceEntry) :
    length (nodesFrom c l) = (length l + length (concat (map snd l)))%nat.
Proof.
    revert c. induction l as [|e l IH]; intros c; [reflexivity|].
    simpl. rewrite !length_app, length_map, IH. lia.
Qed.

Lemma length_edgesFrom (c : Z) (l : list SourceEntry) :
    length (edgesFrom c l) = length (concat (map snd l)).
Proof.
    revert c. induction l as [|e l IH]; intros c; [reflexivity|].
    simpl. now rewrite !length_app, length_map, IH.
Qed.



Lemma length_concat_perm (l l' : list SourceEntry) :
    Permutation l l' -> length (concat (map snd l)) = length (concat (map snd l')).
Proof.
    induction 1; simpl; rewrite ?length_app in *; lia.
Qed.


  (** The state after the loop of [buildForwardGraph]. *)
Lemma buildForwardGraph_unfold (allMessages : list TelegramMessage) :
    let sorted := array_sort (descending (fun entry : SourceEntry => Z.of_nat (length entry.2)))
                    (sourceMapOf (forwardedOf allMessages)) in
    buildForwardGraph allMessages
    = {| nodes := nodesFrom 0 sorted;
         edges := edgesFrom 0 sorted;
         chains := map (chainAt (nodesFrom 0 sorted) (edgesFrom 0 sorted))
                       (seq 0 (length sorted));
         sources := map sourceOf sorted;
         totalForwarded := Z.of_nat (length (forwardedOf allMessages));
         selfReplyCount := 0;
         crossChannelReplyCount := 0 |}.
Proof.
    intros sorted. unfold buildForwardGraph. fold sorted.
    rewrite fold_addSource. reflexivity.
Qed.


  (** X15.  The forward graph is one star per source: the chain of the
      [k]-th source (counting from 1) has the id [k], depth 1 and the root
      [-(k * 10000)], which is the id of its hub node; its nodes are the hub,
      labelled with the source name and its reaction total, followed by one
      node per message of the source, and its edges go from the hub to each
      of these messages.  The chains, taken in order, make up the nodes and
      the edges of the graph, so there are as many nodes as sources and
      forwarded messages together, and as many edges as forwarded messages;
      both reply counters are 0. *)
Theorem forward_graph_is_one_star_per_source (allMessages : list TelegramMessage) :
    let g := buildForwardGraph allMessages in
    length (chains g) = length (sources g)
    /\ (forall k s, nth_error (sources g) k = Some s ->
          let cId := Z.of_nat k + 1 in
          nth_error (chains g) k
          = Some {| chain_id := cId;
                    chain_nodes :=
                      {| node_id := hubIdOf cId;
                         node_message := createPhantomMessage (hubIdOf cId);
                         node_text := name s;
                         reactionCount := totalReactions s;
                         hasMedia := false;
                         isForwardedReply := true;
                         chainId := cId |}
                      :: map (msgNode cId) (messages s);
                    chain_edges :=
                      map (fun msg => {| source := hubIdOf cId; target := id msg |})
                          (messages s);
                    rootId := hubIdOf cId;
                    depth := 1 |})
    /\ concat (map chain_nodes (chains g)) = nodes g
    /\ concat (map chain_edges (chains g)) = edges g
    /\ Z.of_nat (length (nodes g)) = Z.of_nat (length (sources g)) + totalForwarded g
    /\ Z.of_nat (length (edges g)) = totalForwarded g
    /\ selfReplyCount g = 0
    /\ crossChannelReplyCount g = 0.
Proof.
    intros g. unfold g. rewrite buildForwardGraph_unfold.
    cbn [totalForwarded sources chains nodes edges selfReplyCount crossChannelReplyCount].
    set (forwarded := forwardedOf allMessages).
    set (sorted := array_sort _ (sourceMapOf forwarded)).
    assert (Hperm : Permutation sorted (sourceMapOf forwarded)) by apply array_sort_perm.
    assert (Hlen : length (concat (map snd sorted)) = length forwarded).
    { rewrite (length_concat_perm _ _ Hperm).
      apply (Permutation_length (sourceMap_all forwarded)). }
    split; [now rewrite !length_map, length_seq|].
    split.
    { intros k s Hs. rewrite nth_error_map in Hs.
      destruct (nth_error sorted k) as [entry|] eqn:Hk; [|discriminate].
      injection Hs as <-.
      assert (Hlt : (k < length sorted)%nat) by (apply nth_error_Some; congruence).
      rewrite nth_error_map, nth_error_seq.
      destruct (Nat.ltb_spec k (length sorted)); [|lia].
      cbn [option_map Nat.add]. f_equal. now apply chainAt_source. }
    split.
    { rewrite map_map. cbn [chainAt chain_nodes].
      apply (nodesFrom_blocks 0 sorted). }
    split.
    { rewrite map_map. cbn [chainAt chain_edges].
      apply (edgesFrom_blocks 0 sorted). }
    rewrite length_nodesFrom, length_edgesFrom, length_map, Hlen.
    split; [lia|]. repeat split.
Qed.


Lemma forward_graph_is_one_star_per_source_witness :
    let g := buildForwardGraph forwards_and_others in
    map node_id (nodes g) = [-10000; 20; 20]
    /\ map (fun c => (chain_id c, rootId c, depth c)) (chains g) = [ (1, -10000, 1) ]
    /\ concat (map chain_nodes (chains g)) = nodes g.
Proof.
    intros g. split; [vm_compute; reflexivity|]. split; [vm_compute; reflexivity|].
    apply (forward_graph_is_one_star_per_source forwards_and_others).
Defined.

End ForwardGraphFacts.
(* ===================================================================== *)
(** ** Lists sorted by a key *)
(* ===================================================================== *)

Section SortedByKey.
Lemma sorted_weaken {A : Type} (k k' : A -> Z) (l : list A) :
    (forall a b, In a l -> In b l -> k b <= k a -> k' b <= k' a) ->
    StronglySorted (key_ge k) l -> StronglySorted (key_ge k') l.
Proof.
    intros Hk Hs. induction Hs as [|x l Hs IH Hx]; constructor.
    - apply IH. intros a b Ha Hb. apply Hk; now right.
    - rewrite Forall_forall in *. intros y Hy.
      apply Hk; [now left | now right | now apply Hx].
Qed.
End SortedByKey.

(* ===================================================================== *)
(** ** post-scoring: [findSimilarPosts] *)
(* ===================================================================== *)

Section SimilarPostsFacts.
Import PostScoring.
Context `{CaseMapping}.

  (** Without hashtags, significant words and a forward source of the
      target, only the media bonus is left. *)
Lemma similarity_bare_target (target msg : TelegramMessage) :
    truthy_str (forwarded_from target) = false ->
    sp_score (similarity target [] [] msg) <= 5.
Proof.
    intros Hfw. unfold similarity.
    change (Z.of_nat (length (filter (set_has (hashtagsOf msg (toLowerCase (getMessageText msg))))
                                     []))) with 0.
    change (Z.of_nat (length (filter (set_has (wordsOf (toLowerCase (getMessageText msg))))
                                     []))) with 0.
    change (0 <? 0) with false. cbv iota. cbn [andb].
    destruct (forwarded_from target) as [[|c src]|]; try discriminate Hfw;
      destruct (forwarded_from msg) as [src'|];
      destruct (media_type target) as [mt|]; destruct (media_type msg) as [mt'|];
      cbn [truthy_str andb];
      repeat match goal with
             | |- context [if ?b then _ else _] => destruct b
             end;
      cbn [sp_score]; lia.
Qed.

  (** Every part of the score comes with one reason. *)
Lemma similarity_reasons (target : TelegramMessage) (tags words : list jsstring)
        (msg : TelegramMessage) :
    (length (sp_reasons (similarity target tags words msg)) <= 4)%nat
    /\ (0 < sp_score (similarity target tags words msg) ->
        (1 <= length (sp_reasons (similarity target tags words msg)))%nat).
Proof.
    unfold similarity.
    set (shared := Z.of_nat (length (filter _ tags))).
    set (sharedWords := Z.of_nat (length (filter _ words))).
    set (size := Z.of_nat (length words)).
    set (wordScore := Z.min 40 _).
    generalize (counted sharedWords " shared keyword") as wordReason.
    generalize (counted shared " shared hashtag" ++ js ": "
                ++ join_with (js ", ") (firstn 3 (filter
                     (set_has (hashtagsOf msg (toLowerCase (getMessageText msg)))) tags)))
      as tagReason.
    intros tagReason wordReason.
    clearbody wordScore shared sharedWords size.
    destruct (0 <? shared); destruct ((0 <? sharedWords) && (0 <? size));
      destruct (forwarded_from target) as [src|]; destruct (forwarded_from msg) as [src'|];
      destruct (media_type target) as [mt|]; destruct (media_type msg) as [mt'|];
      repeat match goal with
             | |- context [if ?b then _ else _] => destruct b
             end;
      cbn [sp_score sp_reasons app length]; split; intros; lia.
Qed.

  (** X17.  A target without hashtag, without significant word and without
      forward source has no similar posts, whatever the other messages are:
      the media-type bonus of 5 alone stays below the threshold.  And every
      post that [findSimilarPosts] returns is a content message with another
      id than the target, with one to four reasons. *)
Theorem similar_posts_need_a_shared_feature (target : TelegramMessage)
          (allMessages : list TelegramMessage) (limit : Z) :
    (hashtagsOf target (toLowerCase (getMessageText target)) = [] ->
     wordsOf (toLowerCase (getMessageText target)) = [] ->
     truthy_str (forwarded_from target) = false ->
     findSimilarPosts target allMessages limit = [])
    /\ (forall c, In c (findSimilarPosts target allMessages limit) ->
          In (sp_message c) allMessages
          /\ type (sp_message c) = message
          /\ id (sp_message c) <> id target
          /\ (1 <= length (sp_reasons c) <= 4)%nat).
Proof.
    rewrite findSimilarPosts_unfold. split.
    - intros Htags Hwords Hfw.
      rewrite filter_none.
      { simpl array_sort. unfold slice0. apply firstn_nil. }
      intros c Hc. apply in_map_iff in Hc as (m & <- & _).
      unfold similarityTo. rewrite Htags, Hwords.
      pose proof (similarity_bare_target target m Hfw).
      apply Z.ltb_ge. lia.
    - intros c Hc. apply in_slice0 in Hc.
      apply (Permutation_in _ (array_sort_perm _ _)) in Hc.
      apply filter_In in Hc as [Hc Hscore]. apply Z.ltb_lt in Hscore.
      apply in_map_iff in Hc as (m & <- & Hm).
      unfold otherPosts in Hm. apply filter_In in Hm as (Hm & [Hty Hid]%andb_prop).
      unfold similarityTo in *. rewrite similarity_message.
      split; [exact Hm|]. split; [now destruct (type m)|].
      split; [apply negb_true_iff, Z.eqb_neq in Hid; exact Hid|].
      destruct (similarity_reasons target
                  (hashtagsOf target (toLowerCase (getMessageText target)))
                  (wordsOf (toLowerCase (getMessageText target))) m) as [Hmax Hmin].
      split; [apply Hmin; lia | exact Hmax].
Qed.
End SimilarPostsFacts.

Section SimilarPostsMoreScenario.
Import PostScoring.

Lemma similar_posts_need_a_shared_feature_witness :
    findSimilarPosts bare_target fruit_corpus 6 = []
    /\ map (fun c => (id (sp_message c), length (sp_reasons c)))
           (findSimilarPosts fruit_target fruit_corpus 6)
       = [ (13, 1%nat); (12, 1%nat) ].
Proof.
    split; [|vm_compute; reflexivity].
    apply (similar_posts_need_a_shared_feature bare_target fruit_corpus 6);
      vm_compute; reflexivity.
Defined.
End SimilarPostsMoreScenario.

(* ===================================================================== *)
(** ** Numbers: rounding does not pass an integer *)
(* ===================================================================== *)

Section RoundingBounds.
Local Open Scope Q_scope.

Lemma round_half_even_le (q : Q) (M : Z) :
    q <= inject_Z M -> (round_half_even q <= M)%Z.
Proof.
    intros Hq. unfold round_half_even.
    assert (Hf : (Qfloor q <= M)%Z).
    { rewrite <- (Qfloor_Z M). now apply Qfloor_resp_le. }
    destruct (Z.eq_dec (Qfloor q) M) as [Heq|Hne].
    - assert (Hlt : q - inject_Z (Qfloor q) < 1 # 2).
      { rewrite Heq. apply Qle_lt_trans with 0; [|reflexivity].
        unfold Qminus. rewrite <- (Qplus_opp_r (inject_Z M)).
        apply Qplus_le_l. exact Hq. }
      assert (Hc : Qcompare (q - inject_Z (Qfloor q)) (1 # 2) = Lt) by (now apply Qlt_alt).
      rewrite Hc. lia.
    - destruct (Qcompare _ _); [destruct (Z.even _)| |]; lia.
Qed.

Lemma Math_round_le (q : Q) (n : Z) : q <= inject_Z n -> (Math_round q <= n)%Z.
Proof.
    intros Hq. unfold Math_round.
    destruct (Z.le_gt_cases (Qfloor (q + (1 # 2))) n) as [Hle|Hgt]; [exact Hle|].
    exfalso.
    assert (Hfl : inject_Z (n + 1) <= q + (1 # 2)).
    { apply Qle_trans with (inject_Z (Qfloor (q + (1 # 2)))); [|apply Qfloor_le].
      rewrite <- Zle_Qle. lia. }
    rewrite inject_Z_plus in Hfl.
    assert (Hlt : q + (1 # 2) < inject_Z n + inject_Z 1).
    { apply Qle_lt_trans with (inject_Z n + (1 # 2)).
      - apply Qplus_le_l. exact Hq.
      - apply Qplus_lt_r. reflexivity. }
    apply (Qlt_irrefl (q + (1 # 2))). eapply Qlt_le_trans; eauto.
Qed.

Lemma pow2_nonneg_exp (k : Z) : (0 <= k)%Z -> pow2 k == inject_Z (2 ^ k).
Proof. intros Hk. unfold pow2. now rewrite Zpower_Qpower. Qed.

Lemma pow2_neq_0 (k : Z) : ~ pow2 k == 0.
Proof.
    intros Heq. pose proof (pow2_pos k) as Hp. rewrite Heq in Hp.
    now apply Qlt_irrefl in Hp.
Qed.

Lemma pow2_opp (k : Z) : pow2 (- k) * pow2 k == 1.
Proof.
    unfold pow2. rewrite Qpower_opp. rewrite Qmult_comm. apply Qmult_inv_r.
    apply pow2_neq_0.
Qed.

  (** For [q] below [2^53], the exponent of the last place is not positive. *)
Lemma exponent_le_52 (q : Q) (N : Z) :
    0 < q -> q <= inject_Z N -> (N < 2 ^ 53)%Z -> (exponent q <= 52)%Z.
Proof.
    intros Hpos Hle HN. destruct q as [n d].
    assert (Hn : (0 < n)%Z) by (unfold Qlt in Hpos; simpl in Hpos; lia).
    assert (HnN : (n <= N * Z.pos d)%Z) by (unfold Qle in Hle; simpl in Hle; lia).
    assert (HNpos : (0 < N)%Z) by nia.
    assert (Hlog : (Z.log2 n <= Z.log2 N + Z.log2 (Z.pos d) + 1)%Z).
    { etransitivity; [apply Z.log2_le_mono; exact HnN|].
      apply Z.log2_mul_above; lia. }
    assert (HlogN : (Z.log2 N < 53)%Z) by (apply Z.log2_lt_pow2; lia).
    unfold exponent. cbn [Qnum Qden].
    set (k := (Z.log2 n - Z.log2 (Z.pos d))%Z).
    assert (Hk : (k <= 53)%Z) by (unfold k; lia).
    destruct (Qle_bool (pow2 k) (n # d)) eqn:E; [|lia].
    destruct (Z.eq_dec k 53) as [Hk53|]; [|lia].
    exfalso. apply Qle_bool_iff in E. rewrite Hk53 in E.
    assert (H53 : pow2 53 <= inject_Z N) by (eapply Qle_trans; eauto).
    rewrite pow2_nonneg_exp in H53 by lia. rewrite <- Zle_Qle in H53. lia.
Qed.

  (** Rounding to a double does not pass an integer below [2^53]. *)
Lemma round_double_le (q : Q) (N : Z) :
    0 <= q -> q <= inject_Z N -> (N < 2 ^ 53)%Z -> round_double q <= inject_Z N.
Proof.
    intros Hq Hle HN. unfold round_double.
    destruct (Qnum q) as [|n|n] eqn:En.
    - eapply Qle_trans; [exact Hq | exact Hle].
    - assert (Hpos : 0 < q).
      { destruct q as [qn qd]. simpl in En. subst qn. reflexivity. }
      pose proof (exponent_le_52 q N Hpos Hle HN) as He.
      set (e := (exponent q - 52)%Z) in *.
      assert (He0 : (0 <= - e)%Z) by (unfold e; lia).
      set (M := (N * 2 ^ (- e))%Z).
      assert (HM : inject_Z M == inject_Z N * pow2 (- e)).
      { unfold M. rewrite inject_Z_mult, <- pow2_nonneg_exp by exact He0. reflexivity. }
      assert (Hx : q / pow2 e <= inject_Z M).
      { rewrite HM. apply Qle_shift_div_r; [apply pow2_pos|].
        rewrite <- Qmult_assoc, pow2_opp, Qmult_1_r. exact Hle. }
      apply round_half_even_le in Hx.
      apply Qle_trans with (inject_Z M * pow2 e).
      + apply Qmult_le_compat_r; [|apply Qlt_le_weak, pow2_pos].
        now rewrite <- Zle_Qle.
      + rewrite HM, <- Qmult_assoc, pow2_opp, Qmult_1_r. apply Qle_refl.
    - exfalso. destruct q as [qn qd]. simpl in En. subst qn.
      unfold Qle in Hq. simpl in Hq. lia.
Qed.

Lemma fdiv_le_1 (a b : Q) : 0 <= a -> a <= b -> 0 < b -> fdiv a b <= 1.
Proof.
    intros Ha Hab Hb. unfold fdiv. apply (round_double_le _ 1); [| |reflexivity].
    - apply Qdiv_nonneg; [exact Ha | now apply Qlt_le_weak].
    - apply Qle_shift_div_r; [exact Hb|]. now rewrite Qmult_1_l.
Qed.

Lemma fmul_le (a : Q) (w : Z) :
    0 <= a -> a <= 1 -> (0 <= w < 2 ^ 53)%Z -> fmul a (inject_Z w) <= inject_Z w.
Proof.
    intros Ha Ha1 Hw. unfold fmul. apply round_double_le; [| |lia].
    - apply Qmult_le_0_compat; [exact Ha | apply inject_Z_nonneg; lia].
    - rewrite <- (Qmult_1_l (inject_Z w)) at 2.
      apply Qmult_le_compat_r; [exact Ha1 | apply inject_Z_nonneg; lia].
Qed.

Lemma Math_min_le_r (a b : Q) : Math_min a b <= b.
Proof.
    unfold Math_min. destruct (Qle_bool a b) eqn:E; [now apply Qle_bool_iff | apply Qle_refl].
Qed.
End RoundingBounds.


(* ===================================================================== *)
(** ** calendar-wrapped: the streak *)
(* ===================================================================== *)

Section StreakFacts.
Import Calendar.

Lemma streakLoop_bounds (parse : jsstring -> option Z) (rest : list jsstring)
        (prev : jsstring) (st : Z * Z) (n : Z) :
    0 <= st.1 <= n -> 1 <= st.2 <= n ->
    let st' := streakLoop parse prev rest st in
    0 <= st'.1 <= n + Z.of_nat (length rest)
    /\ 1 <= st'.2 <= n + Z.of_nat (length rest).
Proof.
    revert prev st n. induction rest as [|curr rest IH]; intros prev st n H1 H2.
    - simpl. lia.
    - cbn [streakLoop length].
      destruct (oneDayApart parse prev curr).
      + destruct (IH curr (st.1, st.2 + 1) (n + 1)) as [Ha Hb]; cbn [fst snd]; lia.
      + destruct (IH curr (Z.max st.1 st.2, 1) (n + 1)) as [Ha Hb]; cbn [fst snd]; lia.
Qed.

Lemma longestStreak_bounds (parse : jsstring -> option Z) (days : list jsstring) :
    1 <= longestStreak parse days <= Z.max 1 (Z.of_nat (length days)).
Proof.
    unfold longestStreak. destruct days as [|first rest]; [simpl; lia|].
    destruct (streakLoop_bounds parse rest first (0, 1) 1) as [Ha Hb];
      cbn [fst snd]; try lia.
    cbn [length]. lia.
Qed.

  (** Without a pair of days that is read as one day apart, the streak
      stays 1. *)
Lemma streakLoop_never_apart (parse : jsstring -> option Z) (rest : list jsstring)
        (prev : jsstring) (st : Z * Z) :
    (forall k, In k rest -> parse (dashesToSlashes k) = None) ->
    0 <= st.1 <= 1 -> st.2 = 1 ->
    let st' := streakLoop parse prev rest st in
    0 <= st'.1 <= 1 /\ st'.2 = 1.
Proof.
    revert prev st. induction rest as [|curr rest IH]; intros prev st Hnone H1 H2.
    - simpl. lia.
    - cbn [streakLoop].
      assert (Hcurr : oneDayApart parse prev curr = false).
      { unfold oneDayApart. rewrite (Hnone curr) by (now left).
        now destruct (parse (dashesToSlashes prev)). }
      rewrite Hcurr. apply IH.
      + intros k Hk. apply Hnone. now right.
      + cbn [fst]. lia.
      + reflexivity.
Qed.

Lemma longestStreak_never_apart (parse : jsstring -> option Z) (days : list jsstring) :
    (forall k, In k days -> parse (dashesToSlashes k) = None) ->
    longestStreak parse days = 1.
Proof.
    intros Hnone. unfold longestStreak. destruct days as [|first rest]; [reflexivity|].
    destruct (streakLoop_never_apart parse rest first (0, 1)) as [Ha Hb];
      cbn [fst snd]; try lia.
    intros k Hk. apply Hnone. now right.
Qed.

Lemma length_set_add (x : jsstring) (s : list jsstring) :
    (length (set_add x s) <= S (length s))%nat.
Proof. unfold set_add. destruct (existsb _ s); rewrite ?length_app; simpl; lia. Qed.

Lemma in_set_add (x y : jsstring) (s : list jsstring) :
    In y (set_add x s) -> y = x \/ In y s.
Proof.
    unfold set_add. destruct (existsb _ s); [now right|].
    intros [Hy|[<-|[]]]%in_app_or; [now right | now left].
Qed.

Lemma daySet_fold (filtered : list TelegramMessage) (acc : list jsstring) :
    let days :=
      fold_left
        (fun daySet msg =>
           match Date_ofExport (date msg) with
           | Some d => set_add (dayKey d) daySet
           | None => daySet
           end)
        filtered acc in
    (length days <= length acc + length filtered)%nat
    /\ (forall k, In k days ->
          In k acc
          \/ exists msg d, In msg filtered /\ Date_ofExport (date msg) = Some d
                           /\ k = dayKey d).
Proof.
    revert acc. induction filtered as [|msg l IH]; intros acc; simpl.
    - split; [lia|]. intros k Hk. now left.
    - destruct (Date_ofExport (date msg)) as [d|] eqn:Ed.
      + destruct (IH (set_add (dayKey d) acc)) as [Hlen Hin].
        pose proof (length_set_add (dayKey d) acc).
        split; [lia|]. intros k Hk.
        destruct (Hin k Hk) as [Hacc|(m & d' & Hm & Hd' & ->)].
        * apply in_set_add in Hacc as [->|Hacc]; [|now left].
          right. exists msg, d. split; [now left|]. now split.
        * right. exists m, d'. split; [now right|]. now split.
      + destruct (IH acc) as [Hlen Hin]. split; [lia|]. intros k Hk.
        destruct (Hin k Hk) as [Hacc|(m & d' & Hm & Hd' & ->)]; [now left|].
        right. exists m, d'. split; [now right|]. now split.
Qed.

  (** X19.  Whatever the parser behind [new Date], the streak of
      [computeWrappedStats] is at least 1 and at most the number of distinct
      days with a post in scope (or 1 when there is none), which in turn is
      at most the number of posts in scope.  A scope without posts still has
      a streak of 1, with an average of 0 posts per day. *)
Theorem streak_is_between_1_and_the_days (parse : jsstring -> option Z)
          (messages : list TelegramMessage) (scope : Scope) :
    let stats := wrappedStatsWith parse messages scope in
    let days := daySetOf (filter (inScope scope) messages) in
    1 <= streakDays stats <= Z.max 1 (Z.of_nat (length days))
    /\ Z.of_nat (length days) <= totalPosts stats
    /\ 0 <= totalPosts stats <= Z.of_nat (length messages)
    /\ (totalPosts stats = 0 ->
        streakDays stats = 1 /\ avgPostsPerDay stats = 0%Q).
Proof.
    intros stats days. unfold stats, wrappedStatsWith.
    cbn [streakDays totalPosts avgPostsPerDay]. fold days.
    set (filtered := filter (inScope scope) messages) in *.
    assert (Hdays : (length days <= length filtered)%nat).
    { destruct (daySet_fold filtered []) as [Hlen _]. simpl in Hlen. exact Hlen. }
    assert (Hsorted : length (array_sort compareStrings days) = length days)
      by apply Permutation_length, array_sort_perm.
    pose proof (longestStreak_bounds parse (array_sort compareStrings days)) as Hs.
    rewrite Hsorted in Hs.
    split; [exact Hs|]. split; [lia|].
    split; [pose proof (filter_length_le (inScope scope) messages); unfold filtered; lia|].
    intros Hzero.
    assert (Hnil : days = []) by (destruct days; [reflexivity | simpl in Hdays; lia]).
    rewrite Hnil. split; reflexivity.
Qed.

  (** *** January: the keys have month 0 *)

Lemma decimal_digits_digits (fuel : nat) (n : Z) (acc : jsstring) :
    0 <= n -> forallb is_digit acc = true ->
    forallb is_digit (decimal_digits fuel n acc) = true.
Proof.
    revert n acc. induction fuel as [|fuel IH]; intros n acc Hn Hacc; simpl; [exact Hacc|].
    assert (Hd : forallb is_digit ((48 + n mod 10) :: acc) = true).
    { simpl. rewrite Hacc, andb_true_r. unfold is_digit, in_range.
      pose proof (Z.mod_pos_bound n 10). apply andb_true_intro.
      split; [apply Z.leb_le | apply Z.leb_le]; lia. }
    destruct (n <? 10); [exact Hd|].
    apply IH; [apply Z.div_pos; lia | exact Hd].
Qed.

Lemma decimal_digits_nonempty (fuel : nat) (n : Z) (acc : jsstring) :
    (acc <> [] \/ fuel <> O) -> decimal_digits fuel n acc <> [].
Proof.
    revert n acc. induction fuel as [|fuel IH]; intros n acc Hne; simpl.
    - destruct Hne as [Hne|Hne]; [exact Hne | congruence].
    - destruct (n <? 10); [discriminate|]. apply IH. left. discriminate.
Qed.

Lemma decimal_digits_only (n : Z) :
    0 <= n -> decimal n <> [] /\ forallb is_digit (decimal n) = true.
Proof.
    intros Hn. unfold decimal. destruct (Z.ltb_spec n 0); [lia|]. split.
    - apply decimal_digits_nonempty. now right.
    - now apply decimal_digits_digits.
Qed.

Lemma split_on_digits (sep : Z) (s cur rest : jsstring) :
    is_digit sep = false -> forallb is_digit s = true ->
    split_on sep cur (s ++ sep :: rest) = (rev cur ++ s) :: split_on sep [] rest.
Proof.
    intros Hsep. revert cur. induction s as [|c s IH]; intros cur Hs; simpl.
    - rewrite Z.eqb_refl, app_nil_r. reflexivity.
    - simpl in Hs. apply andb_prop in Hs as [Hc Hs].
      destruct (Z.eqb_spec c sep) as [->|Hne]; [congruence|].
      rewrite (IH (c :: cur) Hs). simpl. now rewrite <- app_assoc.
Qed.

Lemma split_on_digits_end (sep : Z) (s cur : jsstring) :
    is_digit sep = false -> forallb is_digit s = true ->
    split_on sep cur s = [rev cur ++ s].
Proof.
    intros Hsep. revert cur. induction s as [|c s IH]; intros cur Hs; simpl.
    - now rewrite app_nil_r.
    - simpl in Hs. apply andb_prop in Hs as [Hc Hs].
      destruct (Z.eqb_spec c sep) as [->|Hne]; [congruence|].
      rewrite (IH (c :: cur) Hs). simpl. now rewrite <- app_assoc.
Qed.

Lemma dashesToSlashes_digits (s : jsstring) :
    forallb is_digit s = true -> dashesToSlashes s = s.
Proof.
    unfold dashesToSlashes. induction s as [|c s IH]; intros Hs; [reflexivity|].
    simpl in Hs. apply andb_prop in Hs as [Hc Hs]. simpl. rewrite (IH Hs).
    destruct (Z.eqb_spec c 45) as [->|]; [discriminate Hc | reflexivity].
Qed.

Lemma parseDigits_digits (s : jsstring) :
    s <> [] -> forallb is_digit s = true -> exists n, parseDigits s = Some n.
Proof.
    intros Hne Hs. unfold parseDigits. destruct s; [congruence|]. rewrite Hs. eauto.
Qed.

  (** V8 does not read a date whose month is 0. *)
Lemma legacy_month_0 (y d : Z) :
    0 <= y -> 0 <= d ->
    Date_parse_legacy
      (dashesToSlashes (decimal y ++ js "-" ++ decimal 0 ++ js "-" ++ decimal d)) = None.
Proof.
    intros Hy Hd.
    destruct (decimal_digits_only y Hy) as [Hy1 Hy2].
    destruct (decimal_digits_only d Hd) as [Hd1 Hd2].
    destruct (parseDigits_digits _ Hy1 Hy2) as [a Ha].
    destruct (parseDigits_digits _ Hd1 Hd2) as [c Hc].
    unfold dashesToSlashes. rewrite !map_app.
    fold (dashesToSlashes (decimal y)). fold (dashesToSlashes (decimal d)).
    rewrite (dashesToSlashes_digits (decimal y)), (dashesToSlashes_digits (decimal d))
      by assumption.
    change (map _ (js "-")) with [47]. change (map _ (decimal 0)) with [48].
    unfold Date_parse_legacy, slashNumbers.
    change ([47] ++ [48] ++ [47] ++ decimal d) with (47 :: ([48] ++ 47 :: decimal d)).
    rewrite split_on_digits by (assumption || reflexivity).
    rewrite split_on_digits by reflexivity.
    rewrite split_on_digits_end by (assumption || reflexivity).
    cbn [rev app]. rewrite Ha, Hc.
    change (parseDigits [48]) with (Some 0).
    cbn [mbind option_bind].
    destruct (in_range 1 31 a); cbv beta iota zeta;
      change (in_range 1 31 0) with false; change (in_range 1 12 0) with false;
      rewrite ?andb_false_r; reflexivity.
Qed.

Lemma Date_ofExport_fields (s : jsstring) (d : LocalDate) :
    Date_ofExport s = Some d -> 0 <= fullYear d /\ 0 <= dayOfMonth d.
Proof.
    unfold Date_ofExport.
    destruct (split_on 84 [] s) as [|ds [|ts [|? ?]]]; try discriminate.
    destruct (split_on 45 [] ds) as [|ys [|ms [|das [|? ?]]]]; try discriminate.
    destruct (split_on 58 [] ts) as [|hs [|mins [|ss [|? ?]]]]; try discriminate.
    destruct (_ && _); [|discriminate].
    destruct (parseDigits ys) as [y|] eqn:Ey; [|discriminate].
    destruct (parseDigits ms) as [m|]; [|discriminate].
    destruct (parseDigits das) as [da|]; [|discriminate].
    destruct (parseDigits hs) as [h|]; [|discriminate].
    destruct (parseDigits mins) as [mi|]; [|discriminate].
    destruct (parseDigits ss) as [sec|]; [|discriminate].
    cbn [mbind option_bind].
    destruct (in_range 1 12 m && in_range 1 (daysInMonth y m) da
              && in_range 0 23 h && in_range 0 59 mi && in_range 0 59 sec) eqn:E;
      [|discriminate].
    intros [= <-]. cbn [fullYear dayOfMonth].
    apply andb_prop in E as [E _]. apply andb_prop in E as [E _].
    apply andb_prop in E as [E _]. apply andb_prop in E as [_ E].
    unfold in_range in E. apply andb_prop in E as [E _]. apply Z.leb_le in E.
    split; [|lia].
    unfold parseDigits in Ey. destruct ys as [|c ys]; [discriminate|].
    destruct (forallb is_digit (c :: ys)) eqn:Eds; [|discriminate].
    injection Ey as <-. clear - Eds.
    assert (Hfold : forall l acc, forallb is_digit l = true -> 0 <= acc ->
                      0 <= fold_left (fun n c => n * 10 + (c - 48)) l acc).
    { induction l as [|x l IH]; intros acc Hl Hacc; simpl; [exact Hacc|].
      simpl in Hl. apply andb_prop in Hl as [Hx Hl]. apply IH; [exact Hl|].
      unfold is_digit, in_range in Hx. apply andb_prop in Hx as [Hx _].
      apply Z.leb_le in Hx. lia. }
    apply (Hfold (c :: ys) 0 Eds). lia.
Qed.

  (** X20.  With the date parser of V8, a scope that lies in January has a
      streak of 1 whatever the posts are: the day keys are built with
      [getMonth()], which is 0 for January, and [new Date] does not read a
      month 0 back, so no two days are ever one day apart.  This holds for
      the month scope of January of any year, and for a year scope whose
      posts are all in January. *)
Theorem january_streak_is_always_1 (messages : list TelegramMessage) (scope : Scope) :
    (forall msg d, In msg messages -> inScope scope msg = true ->
                   Date_ofExport (date msg) = Some d -> month d = 0) ->
    streakDays (computeWrappedStats messages scope) = 1.
Proof.
    intros Hjan. unfold computeWrappedStats, wrappedStatsWith. cbn [streakDays].
    apply longestStreak_never_apart. intros k Hk.
    apply (Permutation_in _ (array_sort_perm _ _)) in Hk.
    destruct (daySet_fold (filter (inScope scope) messages) []) as [_ Hin].
    destruct (Hin k Hk) as [[]|(msg & d & Hmsg & Hd & ->)].
    apply filter_In in Hmsg as [Hmsg Hscope].
    destruct (Date_ofExport_fields _ _ Hd) as [Hy Hday].
    unfold dayKey. rewrite (Hjan msg d Hmsg Hscope Hd).
    now apply legacy_month_0.
Qed.

Lemma january_streak_is_always_1_witness :
    (forall msg d, In msg january_posts -> inScope (ScopeMonth 2024 0) msg = true ->
                   Date_ofExport (date msg) = Some d -> month d = 0)
    /\ totalPosts (computeWrappedStats january_posts (ScopeMonth 2024 0)) = 7
    /\ streakDays (computeWrappedStats january_posts (ScopeMonth 2024 0)) = 1.
Proof.
    assert (Hjan : forall msg d, In msg january_posts ->
                     inScope (ScopeMonth 2024 0) msg = true ->
                     Date_ofExport (date msg) = Some d -> month d = 0).
    { intros msg d _ Hscope Hd. unfold inScope in Hscope. rewrite Hd in Hscope.
      apply andb_prop in Hscope as [_ Hscope]. apply andb_prop in Hscope as [_ Hm].
      now apply Z.eqb_eq in Hm. }
    split; [exact Hjan|]. split; [vm_compute; reflexivity|].
    apply (january_streak_is_always_1 january_posts (ScopeMonth 2024 0) Hjan).
Defined.

Lemma streak_is_between_1_and_the_days_witness :
    totalPosts (wrappedStatsWith Date_parse_legacy january_posts (ScopeYear 2023)) = 0
    /\ streakDays (wrappedStatsWith Date_parse_legacy january_posts (ScopeYear 2023)) = 1.
Proof.
    assert (Hzero : totalPosts (wrappedStatsWith Date_parse_legacy january_posts
                                  (ScopeYear 2023)) = 0)
      by (vm_compute; reflexivity).
    split; [exact Hzero|].
    apply (streak_is_between_1_and_the_days Date_parse_legacy january_posts (ScopeYear 2023)).
    exact Hzero.
Defined.

End StreakFacts.

(* ===================================================================== *)
(** ** telegram-types: [computeStats] *)
(* ===================================================================== *)

Section SortedByComparator.
Context {A : Type}.
Variable cmp : A -> A -> Z.
Hypothesis cmp_total : forall a b, 0 < cmp a b -> cmp b a <= 0.
Hypothesis cmp_trans : forall a b c, cmp a b <= 0 -> cmp b c <= 0 -> cmp a c <= 0.

Lemma insert_sorted_sorted (x : A) (l : list A) :
    StronglySorted (fun a b => cmp a b <= 0) l ->
    StronglySorted (fun a b => cmp a b <= 0) (insert_sorted cmp x l).
Proof.
    induction 1 as [|y l Hs IH Hy]; simpl.
    - repeat constructor.
    - destruct (Z.leb_spec (cmp x y) 0) as [Hle|Hgt].
      + constructor; [now constructor|].
        constructor; [exact Hle|].
        eapply Forall_impl; [|exact Hy]. intros z Hz. now apply (cmp_trans x y z).
      + constructor; [exact IH|].
        rewrite (insert_sorted_perm cmp x l).
        constructor; [now apply cmp_total | exact Hy].
Qed.

Lemma array_sort_sorted (l : list A) :
    StronglySorted (fun a b => cmp a b <= 0) (array_sort cmp l).
Proof.
    induction l as [|x l IH]; simpl; [constructor|].
    now apply insert_sorted_sorted.
Qed.
End SortedByComparator.

Section StringOrder.
Import Calendar TelegramTypes.

Lemma str_ltb_asym (s t : jsstring) : str_ltb s t = true -> str_ltb t s = false.
Proof.
    revert t. induction s as [|a s IH]; intros [|b t]; simpl; try congruence.
    intros Hst. apply orb_prop in Hst as [Hab|[Hab Hst]%andb_prop].
    - apply Z.ltb_lt in Hab.
      destruct (Z.ltb_spec b a); [lia|]. destruct (Z.eqb_spec b a); [lia|]. reflexivity.
    - apply Z.eqb_eq in Hab. subst b. rewrite Z.ltb_irrefl, Z.eqb_refl. simpl.
      now apply IH.
Qed.

  (** [c < a] puts any [b] above [c] or below [a]. *)
Lemma str_ltb_between (c a b : jsstring) :
    str_ltb c a = true -> str_ltb b a = true \/ str_ltb c b = true.
Proof.
    revert a b. induction c as [|z c IH]; intros [|x a] [|y b]; simpl;
      try discriminate; auto.
    intros Hca.
    destruct (Z.ltb_spec y x) as [Hyx|Hyx]; [now left|].
    destruct (Z.ltb_spec z y) as [Hzy|Hzy]; [now right|].
    apply orb_prop in Hca as [Hzx|[Hzx Hca]%andb_prop].
    - apply Z.ltb_lt in Hzx. lia.
    - apply Z.eqb_eq in Hzx. subst z. assert (y = x) by lia. subst y.
      rewrite Z.eqb_refl. simpl. now apply IH.
Qed.

Lemma str_leb_refl (s : jsstring) : str_leb s s = true.
Proof.
    unfold str_leb. destruct (str_ltb s s) eqn:E; [|reflexivity].
    now rewrite (str_ltb_asym s s E) in E.
Qed.

Lemma compareStrings_le (s t : jsstring) :
    compareStrings s t <= 0 <-> str_leb s t = true.
Proof.
    unfold compareStrings, str_leb.
    destruct (str_ltb s t) eqn:Est.
    - rewrite (str_ltb_asym s t Est). simpl. split; [reflexivity | lia].
    - destruct (str_ltb t s); simpl; split; try lia; discriminate.
Qed.

Lemma dates_sorted (l : list jsstring) :
    StronglySorted (fun a b => str_leb a b = true) (array_sort compareStrings l).
Proof.
    eapply StronglySorted_ind with (P := fun l => StronglySorted (fun a b => str_leb a b = true) l);
      [constructor| |apply (array_sort_sorted compareStrings)].
    - intros a l' _ IH Ha. constructor; [exact IH|].
      eapply Forall_impl; [|exact Ha]. intros b. apply compareStrings_le.
    - intros a b Hab. apply compareStrings_le. unfold str_leb.
      unfold compareStrings in Hab.
      destruct (str_ltb a b) eqn:Eab; [lia|]. reflexivity.
    - intros a b c Hab Hbc. apply compareStrings_le in Hab, Hbc. apply compareStrings_le.
      unfold str_leb in *. destruct (str_ltb c a) eqn:Eca; [|reflexivity].
      destruct (str_ltb_between c a b Eca) as [Hba|Hcb].
      + now rewrite Hba in Hab.
      + now rewrite Hcb in Hbc.
Qed.

Lemma sorted_hd_last (l : list jsstring) :
    StronglySorted (fun a b => str_leb a b = true) l ->
    forall x, In x l -> str_leb (hd [] l) x = true /\ str_leb x (last l []) = true.
Proof.
    induction 1 as [|a l Hs IH Ha]; intros x Hx; [contradiction|].
    rewrite Forall_forall in Ha. cbn [hd]. split.
    - destruct Hx as [<-|Hx]; [apply str_leb_refl | now apply Ha].
    - destruct l as [|b l]; [destruct Hx as [<-|[]]; apply str_leb_refl|].
      change (last (a :: b :: l) []) with (last (b :: l) []).
      destruct Hx as [<-|Hx]; [|now apply IH].
      apply Ha. clear. revert b. induction l as [|c l IHl]; intros b; [now left|].
      right. apply IHl.
Qed.

Lemma hd_last_in (l : list jsstring) :
    l <> [] -> In (hd [] l) l /\ In (last l []) l.
Proof.
    intros Hne. destruct l as [|a l]; [congruence|]. split; [now left|].
    clear. revert a. induction l as [|b l IH]; intros a; [now left|].
    right. apply IH.
Qed.
End StringOrder.

Section ChannelStatsFacts.
Import TelegramTypes.

Lemma kind_partition (l : list TelegramMessage) :
    (length (filter (fun m => MessageKind_eqb (type m) message) l)
     + length (filter (fun m => MessageKind_eqb (type m) service) l) = length l)%nat.
Proof.
    induction l as [|m l IH]; [reflexivity|].
    simpl. destruct (type m); simpl; lia.
Qed.

  (** X21.  [computeStats] counts every message once, as a content message
      or as a service message; the link, media, forward and reply counts are
      counts of content messages; and the date range runs from the smallest
      to the largest [date] string of all messages, service messages
      included, in the order of code units, with two empty strings for an
      export without messages. *)
Theorem channel_stats_count_every_message (data : TelegramExport) :
    let stats := computeStats data in
    totalMessages stats + totalServiceMessages stats = Z.of_nat (length (messages data))
    /\ 0 <= messagesWithLinks stats <= totalMessages stats
    /\ 0 <= messagesWithMedia stats <= totalMessages stats
    /\ 0 <= forwardedMessages stats <= totalMessages stats
    /\ 0 <= repliedMessages stats <= totalMessages stats
    /\ (messages data = [] ->
        range_start (dateRange stats) = [] /\ range_end (dateRange stats) = [])
    /\ (messages data <> [] ->
        In (range_start (dateRange stats)) (map date (messages data))
        /\ In (range_end (dateRange stats)) (map date (messages data)))
    /\ (forall m, In m (messages data) ->
          str_leb (range_start (dateRange stats)) (date m) = true
          /\ str_leb (date m) (range_end (dateRange stats)) = true).
Proof.
    intros stats. unfold stats, computeStats.
    cbn [totalMessages totalServiceMessages messagesWithLinks messagesWithMedia
         forwardedMessages repliedMessages dateRange range_start range_end].
    set (content := filter (fun m => MessageKind_eqb (type m) message) (messages data)).
    set (dates := array_sort Calendar.compareStrings (map date (messages data))).
    assert (Hperm : Permutation dates (map date (messages data))) by apply array_sort_perm.
    split; [pose proof (kind_partition (messages data)); unfold content; lia|].
    split; [pose proof (filter_length_le hasLink content); lia|].
    split; [pose proof (filter_length_le hasMediaField content); lia|].
    split; [pose proof (filter_length_le (fun m => truthy_str (forwarded_from m)) content);
            lia|].
    split; [pose proof (filter_length_le (fun m => truthy_num (reply_to_message_id m))
                          content); lia|].
    split.
    { intros Hnil. unfold dates. rewrite Hnil. split; reflexivity. }
    split.
    { intros Hne.
      assert (Hdates : dates <> []).
      { intros Hd. apply Hne. apply Permutation_length in Hperm.
        rewrite Hd, length_map in Hperm. now destruct (messages data). }
      destruct (hd_last_in dates Hdates) as [Hh Hl].
      split; now apply (Permutation_in _ Hperm). }
    intros m Hm. apply sorted_hd_last; [apply dates_sorted|].
    apply (Permutation_in _ (Permutation_sym Hperm)). now apply in_map.
Qed.

  (** *** The reaction tallies *)










Lemma channel_stats_count_every_message_witness :
    totalMessages (computeStats january_export) = 8
    /\ range_start (dateRange (computeStats january_export)) = js "2024-01-01T12:00:00"
    /\ range_end (dateRange (computeStats january_export)) = js "2024-01-11T12:00:00"
    /\ totalMessages (computeStats january_export)
       + totalServiceMessages (computeStats january_export)
       = Z.of_nat (length (messages january_export)).
Proof.
    split; [vm_compute; reflexivity|]. split; [vm_compute; reflexivity|].
    split; [vm_compute; reflexivity|].
    destruct (channel_stats_count_every_message january_export) as (Hcount & _).
    exact Hcount.
Defined.


End ChannelStatsFacts.

(* ===================================================================== *)
(** ** fraud-detector: severity follows the score *)
(* ===================================================================== *)

Section FraudOrder.
Import Fraud FraudMore.
Context `{CaseMapping}.

Lemma severityOf_mono (a b : Z) :
    a <= b -> severityLevels (severityOf a) <= severityLevels (severityOf b).
Proof.
    intros Hab. unfold severityOf.
    destruct (Z.leb_spec 10 a), (Z.leb_spec 7 a), (Z.leb_spec 4 a),
      (Z.leb_spec 10 b), (Z.leb_spec 7 b), (Z.leb_spec 4 b); simpl; lia.
Qed.

  (** X23.  The results of [findFraud] come by descending severity:
      [critical] results first, then [high], [medium] and [low].  The
      severity is a function of the score that never decreases when the score
      grows, and the results are sorted by descending score. *)
Theorem fraud_results_come_by_severity (messages : list TelegramMessage)
          (options : FindOptions) :
    StronglySorted (key_ge (fun r => severityLevels (r_severity r)))
                   (findFraud messages options)
    /\ (forall a b, In a (findFraud messages options) -> In b (findFraud messages options) ->
                    r_score b <= r_score a ->
                    severityLevels (r_severity b) <= severityLevels (r_severity a)).
Proof.
    assert (Hmono : forall a b,
               In a (findFraud messages options) -> In b (findFraud messages options) ->
               r_score b <= r_score a ->
               severityLevels (r_severity b) <= severityLevels (r_severity a)).
    { intros a b Ha Hb Hle.
      apply in_findFraud in Ha as (_ & ma & _ & Hra).
      apply in_findFraud in Hb as (_ & mb & _ & Hrb).
      apply analyze_Some in Hra as (_ & _ & _ & _ & _ & ->).
      apply analyze_Some in Hrb as (_ & _ & _ & _ & _ & ->).
      now apply severityOf_mono. }
    split; [|exact Hmono].
    apply (sorted_weaken r_score); [exact Hmono|].
    rewrite findFraud_filter. apply sorted_slice0, array_sort_desc.
Qed.

  (** X24.  The score of a result is the sum of what the checks add: 2 for
      every reason of the URL check when it found a suspicious URL, the score
      of the phishing check only in that case, the scores of the money and of
      the impersonation check, and 2 for urgency language.  So phishing
      phrases without a suspicious URL add nothing, and neither they nor
      urgency language alone can produce a result. *)
Theorem fraud_score_adds_up_the_checks (msg : TelegramMessage) (r : FraudResult) :
    analyzeMessageForFraud msg = Some r ->
    let text := getMessageText msg in
    let urgent := includes (toLowerCase text) (js "urgent")
                  || includes (toLowerCase text) (js "emergency")
                  || includes (toLowerCase text) (js "immediately") in
    r_score r
    = (if isSuspicious (checkSuspiciousUrl text)
       then Z.of_nat (length (url_reasons (checkSuspiciousUrl text))) * 2
            + score (checkPhishing text)
       else 0)
      + score (checkMoneyRequest text)
      + score (checkImpersonation text (from msg))
      + (if urgent then 2 else 0)
    /\ (isSuspicious (checkSuspiciousUrl text) = false ->
        3 <= score (checkMoneyRequest text) + score (checkImpersonation text (from msg))
             + (if urgent then 2 else 0)).
Proof.
    intros Hr text urgent.
    destruct (analyze_Some msg r Hr) as (_ & _ & Hs & Hscore & _).
    fold text in Hscore.
    assert (Hzero : forall c : Check, detected c = (0 <? score c) -> 0 <= score c ->
                      (if detected c then score c else 0) = score c).
    { intros c Hd Hc. rewrite Hd. destruct (Z.ltb_spec 0 (score c)); lia. }
    assert (Hp : 0 <= score (checkPhishing text)).
    { unfold checkPhishing. cbn [finish score].
      repeat first [ etransitivity; [|apply score_hit_if; lia]
                   | etransitivity; [|apply score_fold_hits; lia] ].
      reflexivity. }
    assert (Hm : 0 <= score (checkMoneyRequest text)).
    { unfold checkMoneyRequest. cbn [finish score].
      repeat first [ etransitivity; [|apply score_hit_if; lia]
                   | etransitivity; [|apply score_fold_hits; lia] ].
      reflexivity. }
    assert (Hi : 0 <= score (checkImpersonation text (from msg))).
    { unfold checkImpersonation. cbn [finish score].
      repeat first [ etransitivity; [|apply score_hit_if; lia]
                   | etransitivity; [|apply score_fold_hits; lia] ].
      reflexivity. }
    assert (Hsum : r_score r
                   = (if isSuspicious (checkSuspiciousUrl text)
                      then Z.of_nat (length (url_reasons (checkSuspiciousUrl text))) * 2
                           + score (checkPhishing text)
                      else 0)
                     + score (checkMoneyRequest text)
                     + score (checkImpersonation text (from msg))
                     + (if urgent then 2 else 0)).
    { rewrite Hscore, totalScore_tallyChecks. fold urgent.
      rewrite (Hzero (checkPhishing text) (detected_phishing text) Hp).
      rewrite (Hzero (checkMoneyRequest text) (detected_money text) Hm).
      rewrite (Hzero (checkImpersonation text (from msg))
                 (detected_impersonation text (from msg)) Hi).
      reflexivity. }
    split; [exact Hsum|].
    intros Hu. rewrite Hu in Hsum. lia.
Qed.
End FraudOrder.

Section FraudOrderScenario.
Import Fraud FraudMore.

Lemma fraud_results_come_by_severity_witness :
    map r_severity (findFraud scam_messages
                      {| minSeverity := None; maxResults := None; types := None |})
    = [critical; medium; medium]
    /\ StronglySorted (key_ge (fun r => severityLevels (r_severity r)))
         (findFraud scam_messages
            {| minSeverity := None; maxResults := None; types := None |}).
Proof.
    split; [vm_compute; reflexivity|].
    destruct (fraud_results_come_by_severity scam_messages
                {| minSeverity := None; maxResults := None; types := None |}) as [Hs _].
    exact Hs.
Defined.

Lemma fraud_score_adds_up_the_checks_witness :
    analyzeMessageForFraud urgent_message = Some (urgent_result urgent_message)
    /\ isSuspicious (checkSuspiciousUrl (getMessageText urgent_message)) = false
    /\ score (checkMoneyRequest (getMessageText urgent_message)) = 20
    /\ r_score (urgent_result urgent_message)
       = 0 + score (checkMoneyRequest (getMessageText urgent_message))
         + score (checkImpersonation (getMessageText urgent_message) (from urgent_message))
         + 2.
Proof.
    assert (Hr : analyzeMessageForFraud urgent_message = Some (urgent_result urgent_message))
      by (vm_compute; reflexivity).
    split; [exact Hr|]. split; [vm_compute; reflexivity|].
    split; [vm_compute; reflexivity|].
    destruct (fraud_score_adds_up_the_checks urgent_message (urgent_result urgent_message) Hr)
      as [Hsum _].
    exact Hsum.
Defined.
End FraudOrderScenario.

(* ===================================================================== *)
(** ** telegram-types: [detectExportType] and [getDMParticipants] *)
(* ===================================================================== *)

Section SetFacts.
  (** [new Set] of strings: the distinct elements. *)
Lemma set_fold_spec (l acc : list jsstring) :
    List.NoDup acc ->
    let s := fold_left (fun s x => set_add x s) l acc in
    List.NoDup s
    /\ (forall x, In x s <-> In x acc \/ In x l)
    /\ (length acc <= length s)%nat.
Proof.
    revert acc. induction l as [|y l IH]; intros acc Hnd; simpl.
    - split; [exact Hnd|]. split; [|lia]. intros x. tauto.
    - assert (Hadd : List.NoDup (set_add y acc)
                     /\ (forall x, In x (set_add y acc) <-> In x acc \/ x = y)
                     /\ (length acc <= length (set_add y acc))%nat).
      { unfold set_add. destruct (existsb (str_eqb y) acc) eqn:E.
        - apply existsb_exists in E as (z & Hz & Hyz). apply str_eqb_eq in Hyz. subst z.
          split; [exact Hnd|]. split; [|lia]. intros x. split; [tauto|].
          intros [Hx| ->]; assumption.
        - split.
          + apply NoDup_ListNoDup, list.NoDup_app.
            split; [now apply NoDup_ListNoDup|].
            split; [|apply NoDup_ListNoDup; repeat constructor; intros []].
            intros x Hx Hx'. apply list.list_elem_of_singleton in Hx'. subst x.
            apply list_elem_of_In in Hx.
            assert (Hex : existsb (str_eqb y) acc = true)
              by (apply existsb_exists; exists y; split; [exact Hx | apply str_eqb_refl]).
            congruence.
          + split; [|rewrite length_app; simpl; lia].
            intros x. rewrite in_app_iff. simpl. intuition congruence. }
      destruct Hadd as (Hnd' & Hin' & Hlen').
      destruct (IH (set_add y acc) Hnd') as (Hnd'' & Hin'' & Hlen'').
      split; [exact Hnd''|]. split; [|lia].
      intros x. rewrite Hin'', Hin'. intuition congruence.
Qed.

Lemma set_of_list_length_perm (l l' : list jsstring) :
    Permutation l l' -> length (set_of_list l) = length (set_of_list l').
Proof.
    intros Hperm. unfold set_of_list.
    destruct (set_fold_spec l [] (List.NoDup_nil _)) as (Hnd & Hin & _).
    destruct (set_fold_spec l' [] (List.NoDup_nil _)) as (Hnd' & Hin' & _).
    apply Permutation_length, NoDup_Permutation; [exact Hnd | exact Hnd' |].
    intros x. rewrite Hin, Hin'. simpl. split; intros [[]|Hx]; right.
    - now apply (Permutation_in _ Hperm).
    - now apply (Permutation_in _ (Permutation_sym Hperm)).
Qed.
End SetFacts.

Section ExportTypeFacts.
Import TelegramTypes.
Context `{CaseMapping}.
Variable from_id : TelegramMessage -> option jsstring.

Lemma senderIds_cons (msg : TelegramMessage) (rest : list TelegramMessage) :
    senderIds from_id (msg :: rest)
    = (if truthy_str (senderIdOf from_id msg)
       then [default [] (senderIdOf from_id msg)] else [])
      ++ senderIds from_id rest.
Proof.
    unfold senderIds. cbn [omap list_omap].
    destruct (truthy_str (senderIdOf from_id msg)) eqn:E; [|reflexivity].
    destruct (senderIdOf from_id msg) as [i|]; [reflexivity | discriminate].
Qed.

  (** Leaving the loop early gives the answer of the whole loop. *)
Lemma sendersLoop_spec (msgs : list TelegramMessage) (senders : list jsstring) :
    List.NoDup senders -> (length senders <= 2)%nat ->
    sendersLoop from_id msgs senders
    = let all := fold_left (fun s x => set_add x s) (senderIds from_id msgs) senders in
      if (2 <? length all)%nat then None else Some all.
Proof.
    revert senders. induction msgs as [|msg rest IH]; intros senders Hnd Hlen.
    - unfold senderIds. cbn [sendersLoop omap list_omap fold_left].
      destruct (Nat.ltb_spec 2 (length senders)); [lia | reflexivity].
    - cbn [sendersLoop]. rewrite senderIds_cons.
      destruct (truthy_str (senderIdOf from_id msg)).
      + cbn [app fold_left].
        set (senders1 := set_add (default [] (senderIdOf from_id msg)) senders).
        destruct (set_fold_spec [default [] (senderIdOf from_id msg)] senders Hnd)
          as (Hnd1 & _ & _). cbn [fold_left] in Hnd1. fold senders1 in Hnd1.
        destruct (set_fold_spec (senderIds from_id rest) senders1 Hnd1) as (_ & _ & Hmono).
        destruct (Nat.ltb_spec 2 (length senders1)) as [Hbig|Hsmall].
        * cbv zeta.
          match goal with |- _ = if (2 <? ?n)%nat then _ else _ =>
            destruct (Nat.ltb_spec 2 n); [reflexivity|lia] end.
        * now apply IH.
      + cbn [app]. destruct (Nat.ltb_spec 2 (length senders)); [lia|]. now apply IH.
Qed.

  (** X25.  [detectExportType] answers [dm] for a type that names a
      personal chat, else [group] for a type that names a group; otherwise it
      counts the distinct sender ids ([from_id], or [from] when that is
      missing) of the messages: three or more make a group, exactly two a
      direct chat, fewer a channel.  Leaving the loop at the third sender
      does not change the answer, which therefore does not depend on the
      order of the messages. *)
Theorem export_type_counts_distinct_senders (data : TelegramExport) :
    let t := toLowerCase (export_type data) in
    let n := length (set_of_list (senderIds from_id (messages data))) in
    let namesDm := includes t (js "personal_chat") || str_eqb t (js "private") in
    let namesGroup := includes t (js "supergroup") || includes t (js "private_group")
                      || includes t (js "basic_group") || includes t (js "public_group") in
    (namesDm = true -> detectExportType from_id data = dm)
    /\ (namesDm = false -> namesGroup = true -> detectExportType from_id data = group)
    /\ (namesDm = false -> namesGroup = false ->
        (detectExportType from_id data = group <-> (3 <= n)%nat)
        /\ (detectExportType from_id data = dm <-> n = 2%nat)
        /\ (detectExportType from_id data = channel <-> (n <= 1)%nat))
    /\ (forall data',
          export_type data' = export_type data ->
          Permutation (messages data') (messages data) ->
          detectExportType from_id data' = detectExportType from_id data).
Proof.
    intros t n namesDm namesGroup.
    assert (Hloop : forall d, sendersLoop from_id (messages d) []
                      = if (2 <? length (set_of_list (senderIds from_id (messages d))))%nat
                        then None
                        else Some (set_of_list (senderIds from_id (messages d)))).
    { intros d. rewrite sendersLoop_spec; [reflexivity | constructor | simpl; lia]. }
    split; [|split; [|split]].
    - intros Hdm. unfold detectExportType. fold t. fold namesDm. now rewrite Hdm.
    - intros Hdm Hgroup. unfold detectExportType. fold t. fold namesDm. rewrite Hdm.
      fold namesGroup. now rewrite Hgroup.
    - intros Hdm Hgroup. unfold detectExportType. fold t. fold namesDm. rewrite Hdm.
      fold namesGroup. rewrite Hgroup, Hloop. fold n.
      destruct (Nat.ltb_spec 2 n) as [Hbig|Hsmall].
      + repeat split; try discriminate; try lia; reflexivity.
      + cbv beta iota. fold n. destruct (Nat.eqb_spec n 2) as [Heq|Hne];
          repeat split; try discriminate; try lia; reflexivity.
    - intros data' Htype Hperm. unfold detectExportType. rewrite Htype, !Hloop.
      assert (Hids : Permutation (senderIds from_id (messages data'))
                                 (senderIds from_id (messages data)))
        by (unfold senderIds; now apply omap_Permutation).
      rewrite (set_of_list_length_perm _ _ Hids).
      destruct (_ || _); [reflexivity|]. destruct (_ || _); [reflexivity|].
      destruct (2 <? _)%nat; [reflexivity|].
      cbv beta iota. now rewrite (set_of_list_length_perm _ _ Hids).
Qed.

  (** *** [getDMParticipants] *)

Lemma participantsLoop_second (msgs : list TelegramMessage) (i1 n1 : jsstring) :
    participantsLoop from_id msgs [(i1, n1)]
    = match find (fun m => negb (str_eqb i1 (default [] (from_id m))))
                 (filter (hasSender from_id) msgs) with
      | Some m2 => [ (i1, n1); (default [] (from_id m2), default [] (from m2)) ]
      | None => [ (i1, n1) ]
      end.
Proof.
    induction msgs as [|m rest IH]; [reflexivity|].
    cbn [participantsLoop filter].
    destruct (hasSender from_id m); [|exact IH].
    cbn [find knows existsb fst]. rewrite orb_false_r.
    destruct (str_eqb i1 (default [] (from_id m))); cbn [negb]; [exact IH | reflexivity].
Qed.

  (** X26.  [getDMParticipants] looks only at content messages that carry
      both a sender name and a sender id.  It answers with the name on the
      first of them and the name on the first later one whose id differs from
      the first id, in this order, and with [null] when there is no such pair:
      that is, exactly when all of them share one id.  Further senders are
      never looked at. *)
Theorem dm_participants_are_the_first_two_ids (msgs : list TelegramMessage) :
    let withSender := filter (hasSender from_id) msgs in
    let differs (m1 m : TelegramMessage) :=
      negb (str_eqb (default [] (from_id m1)) (default [] (from_id m))) in
    getDMParticipants from_id msgs
    = match withSender with
      | [] => None
      | m1 :: later =>
          match find (differs m1) later with
          | Some m2 => Some (default [] (from m1), default [] (from m2))
          | None => None
          end
      end
    /\ (getDMParticipants from_id msgs = None
        <-> forall m1 m2, In m1 withSender -> In m2 withSender ->
                          default [] (from_id m1) = default [] (from_id m2)).
Proof.
    intros withSender differs.
    assert (Hloop : participantsLoop from_id msgs []
                    = match withSender with
                      | [] => []
                      | m1 :: later =>
                          match find (differs m1) later with
                          | Some m2 => [ (default [] (from_id m1), default [] (from m1));
                                         (default [] (from_id m2), default [] (from m2)) ]
                          | None => [ (default [] (from_id m1), default [] (from m1)) ]
                          end
                      end).
    { subst withSender. induction msgs as [|m rest IH]; [reflexivity|].
      cbn [participantsLoop filter]. destruct (hasSender from_id m); [|exact IH].
      cbn [knows existsb app length Nat.leb]. apply participantsLoop_second. }
    assert (Heq : getDMParticipants from_id msgs
                  = match withSender with
                    | [] => None
                    | m1 :: later =>
                        match find (differs m1) later with
                        | Some m2 => Some (default [] (from m1), default [] (from m2))
                        | None => None
                        end
                    end).
    { unfold getDMParticipants. rewrite Hloop. destruct withSender as [|m1 later]; [reflexivity|].
      destruct (find (differs m1) later); reflexivity. }
    split; [exact Heq|]. rewrite Heq. clear Heq Hloop.
    destruct withSender as [|m1 later]; [split; [intros _ ? ? [] | reflexivity]|].
    destruct (find (differs m1) later) as [m2|] eqn:Hfind.
    - split; [discriminate|]. intros Hsame. exfalso.
      apply find_some in Hfind as (Hin & Hdiff). unfold differs in Hdiff.
      rewrite (Hsame m1 m2) in Hdiff by (simpl; tauto).
      now rewrite str_eqb_refl in Hdiff.
    - split; [|reflexivity]. intros _.
      assert (Hfirst : forall m, In m (m1 :: later)
                                 -> default [] (from_id m1) = default [] (from_id m)).
      { intros m [<-|Hin]; [reflexivity|].
        pose proof (find_none _ _ Hfind m Hin) as Hm. unfold differs in Hm.
        apply negb_false_iff in Hm. now apply str_eqb_eq in Hm. }
      intros a b Ha Hb. now rewrite <- (Hfirst a Ha), <- (Hfirst b Hb).
Qed.
End ExportTypeFacts.

Section ExportTypeScenario.
Import TelegramTypes.

Lemma export_type_counts_distinct_senders_witness :
    set_of_list (senderIds user_id (messages chat_export))
    = [ js "user:Alice"; js "user:Bob" ]
    /\ detectExportType user_id chat_export = dm.
Proof.
    split; [vm_compute; reflexivity|].
    destruct (export_type_counts_distinct_senders user_id chat_export)
      as (_ & _ & Hcount & _).
    destruct Hcount as (_ & Hdm & _); [vm_compute; reflexivity | vm_compute; reflexivity |].
    apply Hdm. vm_compute. reflexivity.
Defined.

Lemma dm_participants_are_the_first_two_ids_witness :
    getDMParticipants user_id (messages chat_export) = Some (js "Alice", js "Bob")
    /\ (getDMParticipants user_id [ urgent_message; neutral_message ] = None
        <-> forall m1 m2,
              In m1 (filter (hasSender user_id) [ urgent_message; neutral_message ]) ->
              In m2 (filter (hasSender user_id) [ urgent_message; neutral_message ]) ->
              default [] (user_id m1) = default [] (user_id m2)).
Proof.
    split.
    - destruct (dm_participants_are_the_first_two_ids user_id (messages chat_export))
        as (Heq & _).
      rewrite Heq. vm_compute. reflexivity.
    - destruct (dm_participants_are_the_first_two_ids user_id
                  [ urgent_message; neutral_message ]) as (_ & Hnone).
      exact Hnone.
Defined.
End ExportTypeScenario.

(* ===================================================================== *)
(** ** fraud-detector: what [getFraudStats] tallies *)
(* ===================================================================== *)

Section FraudTallies.
Import Fraud FraudMore.

Lemma byTypeAt_fold (l : list FraudResult) (b : ByType) (ty : FraudType) :
    byTypeAt (fold_left (fun b fraud => incrType (r_type fraud) b) l b) ty
    = byTypeAt b ty + Z.of_nat (length (resultsOfType ty l)).
Proof.
    revert b. induction l as [|x l IH]; intros b; cbn [fold_left resultsOfType List.filter].
    - cbn. lia.
    - rewrite IH. unfold resultsOfType.
      destruct (r_type x), ty; cbn [FraudType_eqb byTypeAt incrType length
        n_phishing n_money_request n_impersonation n_urgency n_suspicious_link]; lia.
Qed.

Lemma bySeverityAt_fold (l : list FraudResult) (b : BySeverity) (s : Severity) :
    bySeverityAt (fold_left (fun b fraud => incrSeverity (r_severity fraud) b) l b) s
    = bySeverityAt b s + Z.of_nat (length (resultsOfSeverity s l)).
Proof.
    revert b. induction l as [|x l IH]; intros b; cbn [fold_left resultsOfSeverity List.filter].
    - cbn. lia.
    - rewrite IH. unfold resultsOfSeverity, Severity_eqb.
      destruct (r_severity x), s; cbn [severityLevels Z.eqb Pos.eqb bySeverityAt incrSeverity
        length n_low n_medium n_high n_critical]; lia.
Qed.

Lemma contributorOf_other (l : list FraudResult) (f : FraudResult) (n : jsstring) :
    n <> senderOf f -> contributorOf (l ++ [f]) n = contributorOf l n.
Proof.
    intros Hn. unfold contributorOf. rewrite resultsFrom_snoc.
    assert (E : str_eqb (senderOf f) n = false) by (apply str_eqb_neq; congruence).
    now rewrite E, app_nil_r.
Qed.

Lemma contributorOf_credited (l : list FraudResult) (f : FraudResult) :
    contributorOf (l ++ [f]) (senderOf f)
    = {| name := senderOf f;
         c_count := c_count (contributorOf l (senderOf f)) + 1;
         c_totalScore := c_totalScore (contributorOf l (senderOf f)) + r_score f |}.
Proof.
    unfold contributorOf. cbn [c_count c_totalScore]. rewrite resultsFrom_snoc, str_eqb_refl.
    rewrite length_app, sumScores_app. unfold sumScores at 2. cbn [length map fold_right].
    f_equal; lia.
Qed.

Lemma map_contributorOf_others (l : list FraudResult) (f : FraudResult)
        (names : list jsstring) :
    ~ In (senderOf f) names ->
    map (contributorOf (l ++ [f])) names = map (contributorOf l) names.
Proof.
    intros Hnot. apply map_ext_in. intros n Hn. apply contributorOf_other.
    intros ->. contradiction.
Qed.

  (** Crediting the sender of one more result. *)
Lemma creditSender_contributors (l : list FraudResult) (f : FraudResult)
        (names : list jsstring) :
    List.NoDup names ->
    (forall g, In g l -> In (senderOf g) names) ->
    creditSender (senderOf f) (r_score f) (map (contributorOf l) names)
    = map (contributorOf (l ++ [f])) (set_add (senderOf f) names).
Proof.
    intros Hnd Hcov. unfold set_add.
    destruct (existsb (str_eqb (senderOf f)) names) eqn:E.
    - apply existsb_exists in E as (n & Hin & Hn). apply str_eqb_eq in Hn. subst n.
      clear Hcov. induction names as [|n names IH]; [contradiction|].
      inversion Hnd as [|? ? Hnotin Hnd']; subst.
      cbn [map creditSender]. change (name (contributorOf l n)) with n.
      destruct (str_eqb n (senderOf f)) eqn:En.
      + apply str_eqb_eq in En. subst n.
        rewrite (map_contributorOf_others l f names Hnotin).
        now rewrite contributorOf_credited.
      + apply str_eqb_neq in En. rewrite (contributorOf_other l f n En).
        f_equal. apply IH; [exact Hnd'|]. destruct Hin as [Heq|Hin]; [congruence | exact Hin].
    - assert (Hnot : ~ In (senderOf f) names).
      { intros Hin. assert (existsb (str_eqb (senderOf f)) names = true)
          by (apply existsb_exists; exists (senderOf f); split;
              [exact Hin | apply str_eqb_refl]).
        congruence. }
      rewrite map_app, (map_contributorOf_others l f names Hnot). cbn [map].
      rewrite contributorOf_credited.
      assert (Hnone : resultsFrom (senderOf f) l = []).
      { apply resultsFrom_nil. intros g Hg Heq. apply Hnot. rewrite <- Heq. now apply Hcov. }
      unfold contributorOf at 3 4. cbn [c_count c_totalScore]. rewrite Hnone.
      clear E Hnd Hcov Hnone.
      induction names as [|n names IH]; [reflexivity|].
      cbn [map creditSender]. change (name (contributorOf l n)) with n.
      assert (En : str_eqb n (senderOf f) = false).
      { apply str_eqb_neq. intros ->. apply Hnot. now left. }
      rewrite En. cbn [app]. f_equal. apply IH. intros Hin. apply Hnot. now right.
Qed.

  (** [senderScores] after the loop: one entry per sender, in the order of
      the senders' first results. *)
Lemma senderScores_closed_form (allFraud : list FraudResult) :
    senderScoresOf allFraud
    = map (contributorOf allFraud) (set_of_list (map senderOf allFraud)).
Proof.
    induction allFraud as [|f l IH] using rev_ind; [reflexivity|].
    unfold senderScoresOf, set_of_list in *.
    rewrite map_app, !fold_left_app. cbn [map fold_left]. rewrite IH.
    destruct (set_fold_spec (map senderOf l) [] (List.NoDup_nil _)) as (Hnd & Hin & _).
    apply creditSender_contributors; [exact Hnd|].
    intros g Hg. apply Hin. right. now apply in_map.
Qed.
End FraudTallies.

Section FraudStatsClaim.
Import Fraud FraudMore.
Context `{CaseMapping}.

  (** C10.  [getFraudStats] aggregates over [findFraud] called with
      [maxResults = 1000]: over the first 1000 entries of the flagged
      messages ranked by descending score, and over nothing else.  The
      reported total is the number of flagged messages capped at 1000, and
      every counted result scores at least as much as every flagged result
      left out.  Each entry of [byType] is the number of counted results of
      that type and each entry of [bySeverity] the number of counted results
      of that severity, so that each tally adds up to the total.
      [topContributors] holds, for the senders of the counted results in the
      order of their first counted result, the number and the summed score of
      the sender's counted results, sorted by descending summed score and cut
      to five entries. *)
Theorem getFraudStats_counts_top_1000 (messages : list TelegramMessage) :
    let flagged := omap analyzeMessageForFraud messages in
    let ranked := array_sort (descending r_score) flagged in
    let kept := firstn 1000 ranked in
    let stats := getFraudStats messages in
    findFraud messages {| minSeverity := None; maxResults := Some 1000; types := None |} = kept
    /\ stats = statsOf kept
    /\ total stats = Z.min 1000 (Z.of_nat (length flagged))
    /\ total stats <= 1000
    /\ Permutation ranked flagged
    /\ (forall a b, In a kept -> In b (skipn 1000 ranked) -> r_score b <= r_score a)
    /\ sumByType (byType stats) = total stats
    /\ sumBySeverity (bySeverity stats) = total stats
    /\ (forall ty, byTypeAt (byType stats) ty = Z.of_nat (length (resultsOfType ty kept)))
    /\ (forall s, bySeverityAt (bySeverity stats) s
                  = Z.of_nat (length (resultsOfSeverity s kept)))
    /\ topContributors stats
       = firstn 5 (array_sort (descending c_totalScore)
                     (map (contributorOf kept) (set_of_list (map senderOf kept)))).
Proof.
    intros flagged ranked kept stats.
    assert (Hfind : findFraud messages
                      {| minSeverity := None; maxResults := Some 1000; types := None |} = kept).
    { rewrite findFraud_maxResults. fold flagged. fold ranked.
      now rewrite slice0_firstn by lia. }
    assert (Hstats : stats = statsOf kept).
    { unfold stats, getFraudStats. now rewrite Hfind. }
    assert (Hlen : Z.of_nat (length kept) = Z.min 1000 (Z.of_nat (length flagged))).
    { unfold kept, ranked. rewrite length_firstn.
      rewrite (Permutation_length (array_sort_perm (descending r_score) flagged)). lia. }
    split; [exact Hfind|]. split; [exact Hstats|].
    rewrite Hstats, topContributors_statsOf, senderScores_closed_form.
    cbn [statsOf total byType bySeverity].
    split; [exact Hlen|]. split; [lia|].
    split; [apply array_sort_perm|].
    split; [apply sorted_prefix_dominates, array_sort_desc|].
    split; [rewrite sumByType_fold; unfold sumByType; simpl; lia|].
    split; [rewrite sumBySeverity_fold; unfold sumBySeverity; simpl; lia|].
    split; [intros ty; rewrite byTypeAt_fold; destruct ty; cbn; lia|].
    split; [intros s; rewrite bySeverityAt_fold; destruct s; cbn; lia|].
    reflexivity.
Qed.
End FraudStatsClaim.

Section FraudStatsScenario.
Import Fraud FraudMore.

  (** More than 1000 flagged messages: the statistics report 1000. *)
Lemma getFraudStats_counts_top_1000_witness :
    let messages := repeat urgent_message 1001 in
    length (omap analyzeMessageForFraud messages) = 1001%nat
    /\ total (getFraudStats messages) = 1000.
Proof.
    intros messages.
    destruct urgent_message_flagged as (r & Hr).
    assert (Hlen : length (omap analyzeMessageForFraud messages) = 1001%nat).
    { unfold messages. rewrite (omap_repeat _ _ _ Hr). apply repeat_length. }
    split; [exact Hlen|].
    destruct (getFraudStats_counts_top_1000 messages) as (_ & _ & Htot & _).
    rewrite Htot, Hlen. reflexivity.
Defined.
End FraudStatsScenario.

(* ===================================================================== *)
(** ** Numbers: doubles with their infinities *)
(* ===================================================================== *)

Section DoubleFacts.
Import Double.
Local Open Scope Q_scope.

  (** On every pair of the sample operands the operations on [double]
      compute what binary64 arithmetic computes, and a count is read as the
      binary64 value nearest to it. *)
Example double_is_binary64 :
    forallb (fun x => forallb (agrees_with_binary64 x) sample_operands) sample_operands = true
    /\ map of_Z [0; 1; 2 ^ 53 + 1; 10 ^ 15 + 1; 10 ^ 308; 2 ^ 1024 - 2 ^ 970 - 1;
                 2 ^ 1024 - 2 ^ 970; 10 ^ 400]%Z
       = map (fun z => of_binary64 (binary64 z 0))
             [0; 1; 2 ^ 53 + 1; 10 ^ 15 + 1; 10 ^ 308; 2 ^ 1024 - 2 ^ 970 - 1;
              2 ^ 1024 - 2 ^ 970; 10 ^ 400]%Z.
Proof. split; vm_compute; reflexivity. Qed.

  (** *** Rounding *)

Lemma Qred_inject_Z (z : Z) : Qred (inject_Z z) = inject_Z z.
Proof.
    unfold Qred, inject_Z.
    pose proof (Z.ggcd_gcd z 1) as Hg. pose proof (Z.ggcd_correct_divisors z 1) as Hd.
    destruct (Z.ggcd z 1) as (g & aa & bb). cbn [fst snd] in *.
    rewrite Z.gcd_1_r in Hg. subst g. destruct Hd as [Ha Hb].
    rewrite Z.mul_1_l in Ha, Hb. subst. reflexivity.
Qed.

Lemma Qred_int (q : Q) (z : Z) : q == inject_Z z -> Qred q = inject_Z z.
Proof. intros Hq. rewrite (Qred_complete _ _ Hq). apply Qred_inject_Z. Qed.

Lemma round_half_even_ge (q : Q) (M : Z) :
    inject_Z M <= q -> (M <= round_half_even q)%Z.
Proof.
    intros Hq. assert (Hf : (M <= Qfloor q)%Z).
    { rewrite <- (Qfloor_Z M). now apply Qfloor_resp_le. }
    unfold round_half_even. destruct (Qcompare _ _); [destruct (Z.even _)| |]; lia.
Qed.

Lemma scaled_integer (N e : Z) :
    (e <= 0)%Z -> inject_Z (N * 2 ^ (- e)) * pow2 e == inject_Z N.
Proof.
    intros He. rewrite inject_Z_mult, <- pow2_nonneg_exp by lia.
    now rewrite <- Qmult_assoc, pow2_opp, Qmult_1_r.
Qed.

Lemma round_at_le (e : Z) (q : Q) (N : Z) :
    (e <= 0)%Z -> q <= inject_Z N -> round_at e q <= inject_Z N.
Proof.
    intros He Hle. unfold round_at.
    assert (Hx : q / pow2 e <= inject_Z (N * 2 ^ (- e))).
    { apply Qle_shift_div_r; [apply pow2_pos|]. now rewrite scaled_integer. }
    apply round_half_even_le in Hx.
    rewrite <- (scaled_integer N e He).
    apply Qmult_le_compat_r; [|apply Qlt_le_weak, pow2_pos]. now rewrite <- Zle_Qle.
Qed.

Lemma round_at_ge (e : Z) (q : Q) (N : Z) :
    (e <= 0)%Z -> inject_Z N <= q -> inject_Z N <= round_at e q.
Proof.
    intros He Hle. unfold round_at.
    assert (Hx : inject_Z (N * 2 ^ (- e)) <= q / pow2 e).
    { apply Qle_shift_div_l; [apply pow2_pos|]. now rewrite scaled_integer. }
    apply round_half_even_ge in Hx.
    rewrite <- (scaled_integer N e He).
    apply Qmult_le_compat_r; [|apply Qlt_le_weak, pow2_pos]. now rewrite <- Zle_Qle.
Qed.

Lemma round_at_nonneg (e : Z) (q : Q) : 0 <= q -> 0 <= round_at e q.
Proof.
    intros Hq. unfold round_at.
    apply Qmult_le_0_compat; [|apply Qlt_le_weak, pow2_pos].
    apply inject_Z_nonneg, round_half_even_nonneg, Qdiv_nonneg; [exact Hq|].
    apply Qlt_le_weak, pow2_pos.
Qed.

  (** [2^(exponent q)] is not above [q]. *)
Lemma exponent_ge (q : Q) : 0 < q -> pow2 (exponent q) <= q.
Proof.
    intros Hpos. destruct q as [n d].
    assert (Hn : (0 < n)%Z) by (unfold Qlt in Hpos; simpl in Hpos; lia).
    unfold exponent. cbn [Qnum Qden].
    set (a := Z.log2 n). set (b := Z.log2 (Z.pos d)).
    destruct (Qle_bool (pow2 (a - b)) (n # d)) eqn:E; [now apply Qle_bool_iff|].
    assert (Ha : (0 <= a)%Z) by apply Z.log2_nonneg.
    assert (Hb : (0 <= b)%Z) by apply Z.log2_nonneg.
    assert (Hna : (2 ^ a <= n)%Z) by (apply Z.log2_spec; lia).
    assert (Hdb : (Z.pos d < 2 ^ (b + 1))%Z).
    { replace (b + 1)%Z with (Z.succ b) by lia. apply Z.log2_spec. lia. }
    replace (a - b - 1)%Z with (a + - (b + 1))%Z by lia.
    unfold pow2. rewrite Qpower_plus by discriminate. rewrite Qpower_opp.
    fold (pow2 a). fold (pow2 (b + 1)).
    apply Qle_shift_div_r; [apply pow2_pos|].
    rewrite !pow2_nonneg_exp by lia.
    unfold Qle, Qmult, inject_Z. cbn [Qnum Qden].
    assert (0 < 2 ^ a)%Z by (apply Z.pow_pos_nonneg; lia).
    nia.
Qed.

Lemma last_place_nonpos (q : Q) (N : Z) :
    0 < q -> q <= inject_Z N -> (N < 2 ^ 53)%Z -> (last_place q <= 0)%Z.
Proof.
    intros Hpos Hle HN. pose proof (exponent_le_52 q N Hpos Hle HN). unfold last_place. lia.
Qed.

Lemma round_binary64_zero (q : Q) : q == 0 -> round_binary64 q = finite 0.
Proof.
    intros Hq. destruct q as [n d]. unfold Qeq in Hq. simpl in Hq.
    assert (n = 0%Z) by lia. subst n. reflexivity.
Qed.

Lemma round_binary64_pos (q : Q) :
    0 < q ->
    round_binary64 q
    = if Qle_bool (pow2 1024) (round_at (last_place q) q) then infinity false
      else finite (Qred (round_at (last_place q) q)).
Proof.
    destruct q as [[|n|n] d]; intros Hq; try reflexivity;
      unfold Qlt in Hq; simpl in Hq; lia.
Qed.

Lemma round_binary64_neg (q : Q) :
    q < 0 ->
    round_binary64 q
    = if Qle_bool (pow2 1024) (round_at (last_place (- q)) (- q)) then infinity true
      else finite (Qred (- round_at (last_place (- q)) (- q))).
Proof.
    destruct q as [[|n|n] d]; intros Hq; try reflexivity;
      unfold Qlt in Hq; simpl in Hq; lia.
Qed.

Lemma below_overflow (r : Q) (N : Z) :
    r <= inject_Z N -> (N < 2 ^ 53)%Z -> Qle_bool (pow2 1024) r = false.
Proof.
    intros Hr HN. destruct (Qle_bool (pow2 1024) r) eqn:E; [|reflexivity].
    exfalso. apply Qle_bool_iff in E. rewrite pow2_nonneg_exp in E by lia.
    assert (Hle : inject_Z (2 ^ 1024) <= inject_Z N) by (eapply Qle_trans; eauto).
    rewrite <- Zle_Qle in Hle.
    assert (2 ^ 53 < 2 ^ 1024)%Z by (apply Z.pow_lt_mono_r; lia). lia.
Qed.

  (** Rounding does not pass an integer below [2^53], from either side. *)
Lemma round_binary64_le (q : Q) (N : Z) :
    0 <= q -> q <= inject_Z N -> (N < 2 ^ 53)%Z ->
    exists r, round_binary64 q = finite r /\ 0 <= r <= inject_Z N.
Proof.
    intros Hq Hle HN. destruct (Qlt_le_dec 0 q) as [Hpos|Hz].
    - rewrite round_binary64_pos by exact Hpos.
      pose proof (last_place_nonpos q N Hpos Hle HN) as He.
      pose proof (round_at_le _ q N He Hle) as Hr.
      pose proof (round_at_nonneg (last_place q) q Hq) as Hr0.
      rewrite (below_overflow _ N Hr HN).
      eexists. split; [reflexivity|]. rewrite Qred_correct. now split.
    - assert (Hq0 : q == 0) by (apply Qle_antisym; assumption).
      rewrite round_binary64_zero by exact Hq0. exists 0.
      split; [reflexivity|]. split; [apply Qle_refl|].
      eapply Qle_trans; [exact Hq | exact Hle].
Qed.

Lemma round_binary64_ge (q : Q) (N : Z) :
    (0 <= N < 2 ^ 53)%Z -> inject_Z N <= q -> le (int N) (round_binary64 q) = true.
Proof.
    intros HN Hle.
    assert (Hq : 0 <= q).
    { eapply Qle_trans; [|exact Hle]. apply inject_Z_nonneg. lia. }
    destruct (Qlt_le_dec 0 q) as [Hpos|Hz].
    - rewrite round_binary64_pos by exact Hpos.
      destruct (Qle_bool (pow2 1024) _); [reflexivity|].
      cbn [le int]. apply Qle_bool_iff. rewrite Qred_correct.
      destruct (Z.le_gt_cases (last_place q) 0) as [He|He]; [now apply round_at_ge|].
      assert (Hexp : last_place q = (exponent q - 52)%Z) by (unfold last_place in *; lia).
      set (e := last_place q) in *.
      assert (H52 : inject_Z (2 ^ 52) <= q / pow2 e).
      { apply Qle_shift_div_l; [apply pow2_pos|].
        rewrite <- pow2_nonneg_exp by lia. unfold pow2.
        rewrite <- Qpower_plus by discriminate.
        replace (52 + e)%Z with (exponent q) by lia. now apply exponent_ge. }
      apply round_half_even_ge in H52. unfold round_at.
      apply Qle_trans with (inject_Z (2 ^ 52) * pow2 e).
      + rewrite pow2_nonneg_exp by lia. rewrite <- inject_Z_mult, <- Zle_Qle.
        assert (H2 : (2 ^ 1 <= 2 ^ e)%Z) by (apply Z.pow_le_mono_r; lia).
        change (2 ^ 1)%Z with 2%Z in H2.
        change (2 ^ 53)%Z with (2 ^ 52 * 2)%Z in HN.
        assert (0 < 2 ^ 52)%Z by reflexivity. nia.
      + apply Qmult_le_compat_r; [|apply Qlt_le_weak, pow2_pos]. now rewrite <- Zle_Qle.
    - assert (Hq0 : q == 0) by (apply Qle_antisym; assumption).
      rewrite round_binary64_zero by exact Hq0. cbn [le int].
      apply Qle_bool_iff. now rewrite <- Hq0.
Qed.

  (** An integer below [2^53] is a double. *)
Lemma round_binary64_int (q : Q) (z : Z) :
    q == inject_Z z -> (Z.abs z < 2 ^ 53)%Z -> round_binary64 q = int z.
Proof.
    intros Hq Hz. unfold int.
    destruct (Z.lt_trichotomy z 0) as [Hneg|[->|Hpos]].
    - assert (Hq' : - q == inject_Z (- z)) by (now rewrite Hq, inject_Z_opp).
      assert (Hlt : q < 0).
      { rewrite Hq. change 0 with (inject_Z 0). rewrite <- Zlt_Qlt. exact Hneg. }
      assert (Hpos : 0 < - q).
      { rewrite Hq'. change 0 with (inject_Z 0). rewrite <- Zlt_Qlt. lia. }
      rewrite round_binary64_neg by exact Hlt.
      assert (He : (last_place (- q) <= 0)%Z).
      { apply (last_place_nonpos _ (- z)); [exact Hpos | rewrite Hq'; apply Qle_refl | lia]. }
      assert (Hle : round_at (last_place (- q)) (- q) <= inject_Z (- z))
        by (apply round_at_le; [exact He | rewrite Hq'; apply Qle_refl]).
      assert (Hge : inject_Z (- z) <= round_at (last_place (- q)) (- q))
        by (apply round_at_ge; [exact He | rewrite Hq'; apply Qle_refl]).
      rewrite (below_overflow _ (- z) Hle) by lia. f_equal. apply Qred_int.
      rewrite (Qle_antisym _ _ Hle Hge), inject_Z_opp. apply Qopp_involutive.
    - now rewrite round_binary64_zero.
    - assert (Hlt : 0 < q).
      { rewrite Hq. change 0 with (inject_Z 0). rewrite <- Zlt_Qlt. exact Hpos. }
      rewrite round_binary64_pos by exact Hlt.
      assert (He : (last_place q <= 0)%Z).
      { apply (last_place_nonpos _ z); [exact Hlt | rewrite Hq; apply Qle_refl | lia]. }
      assert (Hle : round_at (last_place q) q <= inject_Z z)
        by (apply round_at_le; [exact He | rewrite Hq; apply Qle_refl]).
      assert (Hge : inject_Z z <= round_at (last_place q) q)
        by (apply round_at_ge; [exact He | rewrite Hq; apply Qle_refl]).
      rewrite (below_overflow _ z Hle) by lia. f_equal. apply Qred_int.
      apply Qle_antisym; assumption.
Qed.

  (** *** Order *)

Lemma le_finite (x y : Q) : le (finite x) (finite y) = true <-> x <= y.
Proof. apply Qle_bool_iff. Qed.

  (** A double that is at least an integer is a finite value at least that
      integer, or positive infinity. *)
Lemma at_least_cases (N : Z) (d : double) :
    le (int N) d = true ->
    (exists q, d = finite q /\ inject_Z N <= q) \/ d = infinity false.
Proof.
    destruct d as [q|[]|]; cbn [le int negb]; intros Hd; try discriminate.
    - left. exists q. split; [reflexivity | now apply Qle_bool_iff].
    - now right.
Qed.

Lemma at_least_weaken (N M : Z) (d : double) :
    (M <= N)%Z -> le (int N) d = true -> le (int M) d = true.
Proof.
    intros HM Hd. destruct (at_least_cases N d Hd) as [(q & -> & Hq)| ->]; [|reflexivity].
    apply le_finite. eapply Qle_trans; [|exact Hq]. now rewrite <- Zle_Qle.
Qed.

Lemma le_refl_nonneg (d : double) : le (int 0) d = true -> le d d = true.
Proof.
    intros Hd. destruct (at_least_cases 0 d Hd) as [(q & -> & _)| ->]; [|reflexivity].
    apply le_finite, Qle_refl.
Qed.

Lemma le_trans_nonneg (a b c : double) :
    le a b = true -> le b c = true -> le a c = true.
Proof.
    destruct a as [x|[]|], b as [y|[]|], c as [z|[]|]; cbn [le negb orb];
      intros Hab Hbc; try discriminate; try reflexivity.
    apply Qle_bool_iff. apply Qle_bool_iff in Hab, Hbc. eapply Qle_trans; eauto.
Qed.

Lemma gt_false_le (a b : double) :
    le (int 0) a = true -> le (int 0) b = true -> gt a b = false -> le a b = true.
Proof.
    intros Ha Hb. destruct (at_least_cases 0 a Ha) as [(x & -> & _)| ->],
                          (at_least_cases 0 b Hb) as [(y & -> & _)| ->];
      cbn [gt lt le negb andb orb]; intros Hgt; try discriminate; try reflexivity.
    now apply negb_false_iff in Hgt.
Qed.

Lemma gt_true_le (a b : double) :
    le (int 0) a = true -> le (int 0) b = true -> gt a b = true -> le b a = true.
Proof.
    intros Ha Hb. destruct (at_least_cases 0 a Ha) as [(x & -> & _)| ->],
                          (at_least_cases 0 b Hb) as [(y & -> & _)| ->];
      cbn [gt lt le negb andb orb]; intros Hgt; try discriminate; try reflexivity.
    apply negb_true_iff in Hgt. apply Qle_bool_iff.
    destruct (Qlt_le_dec y x) as [Hlt|Hle]; [now apply Qlt_le_weak|].
    apply Qle_bool_iff in Hle. congruence.
Qed.

Lemma gt_zero_positive (q : Q) : gt (finite q) (finite 0) = true <-> 0 < q.
Proof.
    cbn [gt lt]. rewrite negb_true_iff. split.
    - intros Hq. destruct (Qlt_le_dec 0 q) as [Hlt|Hle]; [exact Hlt|].
      apply Qle_bool_iff in Hle. congruence.
    - intros Hq. destruct (Qle_bool q 0) eqn:E; [|reflexivity].
      apply Qle_bool_iff in E. exfalso. eapply Qlt_irrefl, Qlt_le_trans; eauto.
Qed.

Lemma positive_not_zero (q : Q) : 0 < q -> is_zero q = false /\ is_negative q = false.
Proof.
    destruct q as [[|n|n] d]; intros Hq; unfold Qlt in Hq; simpl in Hq;
      try lia. split; reflexivity.
Qed.

  (** *** The operations on non-negative doubles *)

Lemma round_binary64_nonneg (q : Q) : 0 <= q -> le (int 0) (round_binary64 q) = true.
Proof. intros Hq. apply round_binary64_ge; [lia | exact Hq]. Qed.

Lemma of_N_nonneg (n : N) : le (int 0) (of_N n) = true.
Proof. apply round_binary64_nonneg, inject_Z_nonneg. lia. Qed.

Lemma add_at_least (N : Z) (a b : double) :
    (0 <= N < 2 ^ 53)%Z -> le (int N) a = true -> le (int 0) b = true ->
    le (int N) (add a b) = true.
Proof.
    intros HN Ha Hb.
    destruct (at_least_cases N a Ha) as [(x & -> & Hx)| ->],
             (at_least_cases 0 b Hb) as [(y & -> & Hy)| ->]; try reflexivity.
    cbn [add]. apply round_binary64_ge; [exact HN|].
    rewrite <- (Qplus_0_r (inject_Z N)). now apply Qplus_le_compat.
Qed.

Lemma add_NaN_l (b : double) : add NaN b = NaN.
Proof. reflexivity. Qed.

Lemma add_int (a b : Z) :
    (Z.abs (a + b) < 2 ^ 53)%Z -> add (int a) (int b) = int (a + b).
Proof.
    intros Hab. cbn [add int]. apply round_binary64_int; [|exact Hab].
    now rewrite inject_Z_plus.
Qed.

Lemma sub_int (a b : Z) :
    (Z.abs (a - b) < 2 ^ 53)%Z -> sub (int a) (int b) = int (a - b).
Proof.
    intros Hab. cbn [sub neg add int]. apply round_binary64_int; [|exact Hab].
    unfold Z.sub. now rewrite inject_Z_plus, inject_Z_opp.
Qed.

Lemma mul_int (a b : Z) :
    (Z.abs (a * b) < 2 ^ 53)%Z -> mul (int a) (int b) = int (a * b).
Proof.
    intros Hab. cbn [mul int]. apply round_binary64_int; [|exact Hab].
    now rewrite inject_Z_mult.
Qed.

  (** Times a positive literal. *)
Lemma mul_literal_nonneg (a : double) (c : Q) :
    0 < c -> le (int 0) a = true -> le (int 0) (mul a (finite c)) = true.
Proof.
    intros Hc Ha. destruct (positive_not_zero c Hc) as [Hz Hn].
    destruct (at_least_cases 0 a Ha) as [(x & -> & Hx)| ->]; cbn [mul].
    - apply round_binary64_nonneg, Qmult_le_0_compat; [exact Hx | now apply Qlt_le_weak].
    - now rewrite Hz, Hn.
Qed.

  (** A finite value divided by a positive double. *)
Lemma div_finite_nonneg (x : Q) (b : double) :
    0 <= x -> gt b (finite 0) = true -> le (int 0) (div (finite x) b) = true.
Proof.
    intros Hx Hb. destruct b as [y|[]|]; try discriminate Hb; cbn [div].
    - apply gt_zero_positive in Hb. destruct (positive_not_zero y Hb) as [-> _].
      apply round_binary64_nonneg, Qdiv_nonneg; [exact Hx | now apply Qlt_le_weak].
    - reflexivity.
Qed.

Lemma div_infinity_finite (y : Q) :
    0 < y -> div (infinity false) (finite y) = infinity false.
Proof. intros Hy. cbn [div]. now destruct (positive_not_zero y Hy) as [_ ->]. Qed.

  (** A part of a whole, times a weight, rounded: an integer up to the
      weight. *)
Lemma weighted_ratio (x y : Q) (w : Z) :
    0 <= x -> x <= y -> 0 < y -> (0 <= w < 2 ^ 53)%Z ->
    exists n, Math_round (mul (div (finite x) (finite y)) (int w)) = int n
              /\ (0 <= n <= w)%Z.
Proof.
    intros Hx Hxy Hy Hw. cbn [div]. destruct (positive_not_zero y Hy) as [-> _].
    destruct (round_binary64_le (x / y) 1) as (r & -> & Hr0 & Hr1); [| |reflexivity|].
    { apply Qdiv_nonneg; [exact Hx | now apply Qlt_le_weak]. }
    { apply Qle_shift_div_r; [exact Hy|]. now rewrite Qmult_1_l. }
    cbn [mul int].
    destruct (round_binary64_le (r * inject_Z w) w) as (r' & -> & Hr0' & Hr1'); [| |lia|].
    { apply Qmult_le_0_compat; [exact Hr0 | apply inject_Z_nonneg; lia]. }
    { rewrite <- (Qmult_1_l (inject_Z w)) at 2.
      apply Qmult_le_compat_r; [exact Hr1 | apply inject_Z_nonneg; lia]. }
    cbn [Math_round]. exists (Qfloor (r' + (1 # 2))). split; [reflexivity|].
    split; [now apply Math_round_nonneg | now apply Math_round_le].
Qed.

Lemma weighted_unit (u : Q) (w : Z) :
    0 <= u -> u <= 1 -> (0 <= w < 2 ^ 53)%Z ->
    exists n, Math_round (mul (finite u) (int w)) = int n /\ (0 <= n <= w)%Z.
Proof.
    intros Hu0 Hu1 Hw. cbn [mul int].
    destruct (round_binary64_le (u * inject_Z w) w) as (r' & -> & Hr0' & Hr1'); [| |lia|].
    { apply Qmult_le_0_compat; [exact Hu0 | apply inject_Z_nonneg; lia]. }
    { rewrite <- (Qmult_1_l (inject_Z w)) at 2.
      apply Qmult_le_compat_r; [exact Hu1 | apply inject_Z_nonneg; lia]. }
    cbn [Math_round]. exists (Qfloor (r' + (1 # 2))). split; [reflexivity|].
    split; [now apply Math_round_nonneg | now apply Math_round_le].
Qed.

Lemma Math_round_at_least (N : Z) (d : double) :
    le (int N) d = true -> le (int N) (Math_round d) = true.
Proof.
    intros Hd. destruct (at_least_cases N d Hd) as [(q & -> & Hq)| ->]; [|reflexivity].
    cbn [Math_round]. apply le_finite. rewrite <- Zle_Qle.
    rewrite <- (Qfloor_Z N). apply Qfloor_resp_le.
    eapply Qle_trans; [exact Hq|]. rewrite <- (Qplus_0_r q) at 1.
    apply Qplus_le_r. discriminate.
Qed.

  (** [Math.round] of a non-negative double is a non-negative integer or
      positive infinity. *)
Lemma Math_round_integer (d : double) :
    le (int 0) d = true ->
    (exists n, Math_round d = int n /\ (0 <= n)%Z) \/ Math_round d = infinity false.
Proof.
    intros Hd. destruct (at_least_cases 0 d Hd) as [(q & -> & Hq)| ->]; [left|now right].
    exists (Qfloor (q + (1 # 2))). split; [reflexivity | now apply Math_round_nonneg].
Qed.

Lemma Math_min_100_int (k : Z) : Math_min (finite 100) (int k) = int (Z.min 100 k).
Proof.
    cbn [Math_min int le]. destruct (Qle_bool 100 (inject_Z k)) eqn:E.
    - apply Qle_bool_iff in E. change 100 with (inject_Z 100) in E.
      rewrite <- Zle_Qle in E. now rewrite Z.min_l.
    - destruct (Z.le_gt_cases 100 k) as [Hle|Hgt].
      + exfalso. assert (Hq : Qle_bool 100 (inject_Z k) = true).
        { apply Qle_bool_iff. change 100 with (inject_Z 100). now rewrite <- Zle_Qle. }
        congruence.
      + rewrite Z.min_r by lia. reflexivity.
Qed.

Lemma Math_min_100_at_least (d : double) :
    le (int 100) d = true -> Math_min (finite 100) d = int 100.
Proof.
    intros Hd. destruct (at_least_cases 100 d Hd) as [(q & -> & Hq)| ->]; [|reflexivity].
    cbn [Math_min le]. apply Qle_bool_iff in Hq. unfold inject_Z in Hq. now rewrite Hq.
Qed.
End DoubleFacts.

(* ===================================================================== *)
(** ** post-scoring: [computePostScore] in doubles *)
(* ===================================================================== *)

Section PostScoreFacts.
Import PostScoring Double.
Local Open Scope Z_scope.

Lemma or_zero_nonneg (d : double) : le (int 0) d = true -> or_zero d = d.
Proof.
    intros Hd. now destruct (at_least_cases 0 d Hd) as [(q & -> & _)| ->].
Qed.

Lemma reaction_fold_nonneg (rs : list Reaction) (acc : double) :
    le (int 0) acc = true ->
    le (int 0) (fold_left (fun s r => add s (of_N (count r))) rs acc) = true.
Proof.
    revert acc. induction rs as [|r rs IH]; intros acc Hacc; cbn [fold_left]; [exact Hacc|].
    apply IH. apply add_at_least; [lia | exact Hacc | apply of_N_nonneg].
Qed.

  (** A reaction sum is a non-negative number or positive infinity. *)
Lemma reactionSum_nonneg (m : TelegramMessage) : le (int 0) (reactionSum m) = true.
Proof.
    unfold reactionSum. destruct (reactions m) as [rs|]; [|reflexivity].
    assert (H : le (int 0) (fold_left (fun s r => add s (of_N (count r))) rs (finite 0)) = true)
      by (now apply reaction_fold_nonneg).
    now rewrite or_zero_nonneg.
Qed.

Lemma count_fold_mono (rs : list Reaction) (s : N) :
    (s <= fold_left (fun s r => s + count r) rs s)%N.
Proof.
    revert s. induction rs as [|r rs IH]; intros s; cbn [fold_left]; [lia|].
    etransitivity; [|apply IH]. lia.
Qed.

Lemma reaction_fold_exact (rs : list Reaction) (s : N) :
    Z.of_N (fold_left (fun s r => (s + count r)%N) rs s) < 2 ^ 53 ->
    fold_left (fun s r => add s (of_N (count r))) rs (int (Z.of_N s))
    = int (Z.of_N (fold_left (fun s r => (s + count r)%N) rs s)).
Proof.
    revert s. induction rs as [|r rs IH]; intros s Hs; cbn [fold_left] in *; [reflexivity|].
    pose proof (count_fold_mono rs (s + count r)) as Hmono.
    assert (Hc : of_N (count r) = int (Z.of_N (count r))).
    { apply round_binary64_int; [reflexivity | lia]. }
    rewrite Hc, add_int by lia. rewrite <- N2Z.inj_add. now apply IH.
Qed.

  (** While the counts add up to less than [2^53] the sum in doubles is the
      exact sum. *)
Lemma reactionSum_exact (m : TelegramMessage) :
    Z.of_N (reactionTotal m) < 2 ^ 53 -> reactionSum m = int (Z.of_N (reactionTotal m)).
Proof.
    unfold reactionSum, reactionTotal. destruct (reactions m) as [rs|]; [|reflexivity].
    intros Hs. change (finite 0) with (int (Z.of_N 0)).
    now rewrite reaction_fold_exact.
Qed.

  (** *** The corpus maxima *)

Lemma corpusMaxima_snoc (posts : list TelegramMessage) (m : TelegramMessage) :
    corpusMaxima (posts ++ [m])
    = (if gt (reactionSum m) (corpusMaxima posts).1
       then reactionSum m else (corpusMaxima posts).1,
       if (corpusMaxima posts).2 <? str_length (getMessageText m)
       then str_length (getMessageText m) else (corpusMaxima posts).2).
Proof. unfold corpusMaxima. now rewrite fold_left_app. Qed.

Lemma corpusMaxima_spec (posts : list TelegramMessage) :
    le (int 0) (corpusMaxima posts).1 = true
    /\ (forall m, In m posts -> le (reactionSum m) (corpusMaxima posts).1 = true)
    /\ ((corpusMaxima posts).1 = finite 0
        \/ exists m, In m posts /\ (corpusMaxima posts).1 = reactionSum m)
    /\ 0 <= (corpusMaxima posts).2
    /\ (forall m, In m posts -> str_length (getMessageText m) <= (corpusMaxima posts).2).
Proof.
    induction posts as [|p posts (Hnn & Hmax & Hwho & Hlen0 & Hlen)] using rev_ind.
    { cbn. split; [reflexivity|]. split; [intros ? []|]. split; [now left|].
      split; [lia | intros ? []]. }
    rewrite corpusMaxima_snoc. cbn [fst snd].
    set (mx := corpusMaxima posts) in *.
    pose proof (reactionSum_nonneg p) as Hp.
    split; [now destruct (gt (reactionSum p) mx.1)|].
    split.
    { intros m [Hm|Hm]%in_app_or.
      - destruct (gt (reactionSum p) mx.1) eqn:E; [|now apply Hmax].
        eapply le_trans_nonneg; [now apply Hmax|]. now apply gt_true_le.
      - destruct Hm as [<-|[]].
        destruct (gt (reactionSum p) mx.1) eqn:E;
          [now apply le_refl_nonneg | now apply gt_false_le]. }
    split.
    { destruct (gt (reactionSum p) mx.1).
      - right. exists p. split; [apply in_or_app; right; now left | reflexivity].
      - destruct Hwho as [H0|(m & Hm & Heq)]; [now left|].
        right. exists m. split; [apply in_or_app; now left | exact Heq]. }
    split; [destruct (Z.ltb_spec mx.2 (str_length (getMessageText p))); lia|].
    intros m [Hm|[<-|[]]]%in_app_or.
    - specialize (Hlen m Hm).
      destruct (Z.ltb_spec mx.2 (str_length (getMessageText p))); lia.
    - destruct (Z.ltb_spec mx.2 (str_length (getMessageText p))); lia.
Qed.

  (** The maximum is infinite exactly when the sum of a post is. *)
Lemma corpusMaxima_infinite (posts : list TelegramMessage) :
    (corpusMaxima posts).1 = infinity false
    <-> exists m, In m posts /\ reactionSum m = infinity false.
Proof.
    destruct (corpusMaxima_spec posts) as (_ & Hmax & Hwho & _). split.
    - intros Hinf. destruct Hwho as [H0|(m & Hm & Heq)]; [congruence|].
      exists m. split; [exact Hm | congruence].
    - intros (m & Hm & Hinf). specialize (Hmax m Hm). rewrite Hinf in Hmax.
      destruct (corpusMaxima posts).1 as [q|[]|]; try discriminate. reflexivity.
Qed.

  (** No post with a reaction: the maximum stays 0. *)
Lemma corpusMaxima_zero (posts : list TelegramMessage) :
    (forall m, In m posts -> gt (reactionSum m) (finite 0) = false) ->
    (corpusMaxima posts).1 = finite 0.
Proof.
    induction posts as [|p posts IH] using rev_ind; intros Hall; [reflexivity|].
    rewrite corpusMaxima_snoc. cbn [fst].
    rewrite IH by (intros m Hm; apply Hall, in_or_app; now left).
    now rewrite Hall by (apply in_or_app; right; now left).
Qed.

Lemma corpusMaxima_no_text (posts : list TelegramMessage) :
    (forall m, In m posts -> str_length (getMessageText m) = 0) ->
    (corpusMaxima posts).2 = 0.
Proof.
    induction posts as [|p posts IH] using rev_ind; intros Hall; [reflexivity|].
    rewrite corpusMaxima_snoc. cbn [snd].
    rewrite IH by (intros m Hm; apply Hall, in_or_app; now left).
    now rewrite Hall by (apply in_or_app; right; now left).
Qed.

  (** *** The six parts *)

Lemma literal_0_3_value :
    literal_0_3 = finite (5404319552844595 # 18014398509481984).
Proof. vm_compute. reflexivity. Qed.

Lemma le_int (a b : Z) : a <= b -> le (int a) (int b) = true.
Proof. intros Hab. apply le_finite. now rewrite <- Zle_Qle. Qed.

Lemma ge_int (p k : Z) : ge (int p) (int k) = (k <=? p).
Proof.
    cbn [ge le int]. destruct (Z.leb_spec k p) as [Hle|Hgt].
    - apply Qle_bool_iff. now rewrite <- Zle_Qle.
    - destruct (Qle_bool (inject_Z k) (inject_Z p)) eqn:E; [|reflexivity].
      apply Qle_bool_iff in E. rewrite <- Zle_Qle in E. lia.
Qed.

Lemma Math_max_1 (d : double) :
    le (int 0) d = true ->
    (exists y, Math_max d (finite 1) = finite y /\ (1 <= y)%Q)
    \/ Math_max d (finite 1) = infinity false.
Proof.
    intros Hd. destruct (at_least_cases 0 d Hd) as [(q & -> & Hq)| ->]; [left|now right].
    cbn [Math_max le]. destruct (Qle_bool q 1) eqn:E.
    - exists 1%Q. split; [reflexivity | apply Qle_refl].
    - exists q. split; [reflexivity|].
      destruct (Qlt_le_dec 1 q) as [Hlt|Hle]; [now apply Qlt_le_weak|].
      apply Qle_bool_iff in Hle. congruence.
Qed.

Lemma Math_min_1 (d : double) :
    le (int 0) d = true ->
    exists u, Math_min d (finite 1) = finite u /\ (0 <= u)%Q /\ (u <= 1)%Q.
Proof.
    intros Hd. destruct (at_least_cases 0 d Hd) as [(q & -> & Hq)| ->].
    - cbn [Math_min le]. destruct (Qle_bool q 1) eqn:E.
      + exists q. split; [reflexivity|]. split; [exact Hq | now apply Qle_bool_iff].
      + exists 1%Q. split; [reflexivity|]. split; [discriminate | apply Qle_refl].
    - exists 1%Q. split; [reflexivity|]. split; [discriminate | apply Qle_refl].
Qed.

  (** The text part is an integer between 0 and 20. *)
Lemma textLength_part (maxReactions : double) (maxTextLen : Z) (m : TelegramMessage) :
    exists t, s_textLength (subScores maxReactions maxTextLen m) = int t /\ 0 <= t <= 20.
Proof.
    unfold subScores. cbn [s_textLength].
    destruct (Z.ltb_spec 0 maxTextLen) as [Hpos|Hz];
      [|exists 0; split; [reflexivity | lia]].
    set (L := str_length (getMessageText m)).
    assert (HL : (0 <= inject_Z L)%Q) by (apply inject_Z_nonneg; unfold L, str_length; lia).
    assert (Hden : le (int 0) (mul (of_length maxTextLen) literal_0_3) = true).
    { rewrite literal_0_3_value. apply mul_literal_nonneg; [reflexivity|].
      apply le_int. lia. }
    assert (Hq : le (int 0)
                    (div (of_length L)
                         (Math_max (mul (of_length maxTextLen) literal_0_3) (finite 1)))
                 = true).
    { destruct (Math_max_1 _ Hden) as [(y & -> & Hy)| ->]; [|reflexivity].
      apply div_finite_nonneg; [exact HL|]. apply gt_zero_positive.
      eapply Qlt_le_trans; [|exact Hy]. reflexivity. }
    destruct (Math_min_1 _ Hq) as (u & -> & Hu0 & Hu1).
    change (finite 20) with (int 20). apply weighted_unit; [exact Hu0 | exact Hu1 | lia].
Qed.

Lemma flag_weight (b : bool) (w : Z) :
    Z.abs w < 2 ^ 53 -> mul (flag b) (int w) = int (if b then w else 0).
Proof.
    intros Hw. destruct b; cbn [flag].
    - change (finite 1) with (int 1). rewrite mul_int by lia. f_equal. lia.
    - change (finite 0) with (int 0). now rewrite mul_int by lia.
Qed.

  (** The five parts that do not depend on the reactions. *)
Lemma other_parts (maxReactions : double) (maxTextLen : Z) (m : TelegramMessage) :
    exists t md l p f,
      s_textLength (subScores maxReactions maxTextLen m) = int t
      /\ s_media (subScores maxReactions maxTextLen m) = int md
      /\ s_links (subScores maxReactions maxTextLen m) = int l
      /\ s_replies (subScores maxReactions maxTextLen m) = int p
      /\ s_forwarded (subScores maxReactions maxTextLen m) = int f
      /\ 0 <= t <= 20
      /\ md = (if hasMediaField m then 10 else 0)
      /\ l = (if hasLinks (getMessageText m) then 8 else 0)
      /\ p = (if truthy_num (reply_to_message_id m) then 7 else 0)
      /\ f = (if truthy_str (forwarded_from m) then 5 else 0).
Proof.
    destruct (textLength_part maxReactions maxTextLen m) as (t & Ht & Ht20).
    exists t, (if hasMediaField m then 10 else 0),
      (if hasLinks (getMessageText m) then 8 else 0),
      (if truthy_num (reply_to_message_id m) then 7 else 0),
      (if truthy_str (forwarded_from m) then 5 else 0).
    split; [exact Ht|]. unfold subScores. cbn [s_media s_links s_replies s_forwarded].
    change (finite 10) with (int 10). change (finite 8) with (int 8).
    change (finite 7) with (int 7). change (finite 5) with (int 5).
    rewrite !flag_weight by (cbn; lia). repeat split; try reflexivity; lia.
Qed.

  (** The reactions part is NaN when the sum of the message and the
      corpus maximum are both infinite; otherwise it is a non-negative
      integer or positive infinity. *)
Lemma reactions_part (mx : double) (len : Z) (m : TelegramMessage) :
    le (int 0) mx = true ->
    (s_reactions (subScores mx len m) = NaN
     /\ reactionSum m = infinity false /\ mx = infinity false)
    \/ (((exists n, s_reactions (subScores mx len m) = int n /\ 0 <= n)
         \/ s_reactions (subScores mx len m) = infinity false)
        /\ ~ (reactionSum m = infinity false /\ mx = infinity false)).
Proof.
    intros Hmx. unfold subScores. cbn [s_reactions].
    pose proof (reactionSum_nonneg m) as Hr.
    destruct (gt mx (finite 0)) eqn:Hpos.
    2:{ right. split; [left; exists 0; split; [reflexivity | lia]|].
        intros [_ Hinf]. rewrite Hinf in Hpos. discriminate Hpos. }
    destruct (at_least_cases 0 _ Hr) as [(x & -> & Hx)| ->].
    - right. split; [|intros [? _]; discriminate].
      apply Math_round_integer, mul_literal_nonneg; [reflexivity|].
      now apply div_finite_nonneg.
    - destruct (at_least_cases 0 _ Hmx) as [(y & -> & Hy)| ->].
      + right. split; [|intros [_ ?]; discriminate]. right.
        apply gt_zero_positive in Hpos. now rewrite div_infinity_finite by exact Hpos.
      + left. repeat split; reflexivity.
Qed.

  (** For a message whose sum is finite and not above the maximum, the
      reactions part is an integer between 0 and 50. *)
Lemma reactions_part_in_corpus (mx : double) (len : Z) (m : TelegramMessage) :
    le (int 0) mx = true -> le (reactionSum m) mx = true ->
    reactionSum m <> infinity false ->
    exists r, s_reactions (subScores mx len m) = int r /\ 0 <= r <= 50.
Proof.
    intros Hmx Hle Hfin. unfold subScores. cbn [s_reactions].
    destruct (gt mx (finite 0)) eqn:Hpos; [|exists 0; split; [reflexivity | lia]].
    destruct (at_least_cases 0 _ (reactionSum_nonneg m)) as [(x & Hx & Hx0)|Hinf];
      [|contradiction].
    rewrite Hx in *.
    destruct (at_least_cases 0 _ Hmx) as [(y & -> & Hy)| ->].
    - apply gt_zero_positive in Hpos. apply le_finite in Hle.
      change (finite 50) with (int 50).
      apply weighted_ratio; [exact Hx0 | exact Hle | exact Hpos | lia].
    - exists 0. split; [reflexivity | lia].
Qed.

  (** *** The total *)

Lemma cappedSum_value (b : Breakdown) (t md l p f : Z) :
    s_textLength b = int t -> s_media b = int md -> s_links b = int l ->
    s_replies b = int p -> s_forwarded b = int f ->
    0 <= t <= 20 -> 0 <= md <= 10 -> 0 <= l <= 8 -> 0 <= p <= 7 -> 0 <= f <= 5 ->
    (s_reactions b = NaN -> cappedSum b = NaN)
    /\ (forall n, s_reactions b = int n -> 0 <= n ->
                  cappedSum b = int (Z.min 100 (n + t + md + l + p + f)))
    /\ (s_reactions b = infinity false -> cappedSum b = int 100).
Proof.
    intros Ht Hmd Hl Hp Hf Bt Bmd Bl Bp Bf. unfold cappedSum.
    rewrite Ht, Hmd, Hl, Hp, Hf.
    assert (Hbig : forall R, le (int 100) R = true ->
               Math_min (finite 100)
                 (add (add (add (add (add R (int t)) (int md)) (int l)) (int p)) (int f))
               = int 100).
    { intros R HR. apply Math_min_100_at_least.
      repeat (apply add_at_least; [lia | | apply le_int; lia]). exact HR. }
    split; [intros ->; reflexivity|]. split.
    - intros n -> Hn. destruct (Z.le_gt_cases n (2 ^ 52)) as [Hsmall|Hlarge].
      + assert (H52 : 2 ^ 52 + 50 < 2 ^ 53) by reflexivity.
        rewrite !add_int by lia. apply Math_min_100_int.
      + assert (H52 : 100 < 2 ^ 52) by reflexivity.
        rewrite Hbig by (apply le_int; lia). f_equal. lia.
    - intros ->. now apply Hbig.
Qed.

  (** The total is NaN when the sum of the message and the corpus maximum
      are both infinite, and an integer between 0 and 100 otherwise. *)
Lemma total_cases (mx : double) (len : Z) (m : TelegramMessage) :
    le (int 0) mx = true ->
    (cappedSum (subScores mx len m) = NaN
     /\ reactionSum m = infinity false /\ mx = infinity false)
    \/ ((exists k, cappedSum (subScores mx len m) = int k /\ 0 <= k <= 100)
        /\ ~ (reactionSum m = infinity false /\ mx = infinity false)).
Proof.
    intros Hmx.
    destruct (other_parts mx len m)
      as (t & md & l & p & f & Ht & Hmd & Hl & Hp & Hf & Bt & Emd & El & Ep & Ef).
    assert (Bmd : 0 <= md <= 10) by (rewrite Emd; destruct (hasMediaField m); lia).
    assert (Bl : 0 <= l <= 8) by (rewrite El; destruct (hasLinks _); lia).
    assert (Bp : 0 <= p <= 7) by (rewrite Ep; destruct (truthy_num _); lia).
    assert (Bf : 0 <= f <= 5) by (rewrite Ef; destruct (truthy_str _); lia).
    destruct (cappedSum_value _ t md l p f Ht Hmd Hl Hp Hf Bt Bmd Bl Bp Bf)
      as (HNaN & Hint & Hinf).
    destruct (reactions_part mx len m Hmx)
      as [(HR & Hmsg & Hinfmx)|([(n & HR & Hn)|HR] & Hnot)].
    - left. split; [exact (HNaN HR) | split; assumption].
    - right. split; [|exact Hnot]. exists (Z.min 100 (n + t + md + l + p + f)).
      split; [exact (Hint n HR Hn) | lia].
    - right. split; [|exact Hnot]. exists 100. split; [exact (Hinf HR) | lia].
Qed.

Lemma int_not_NaN (k : Z) : int k <> NaN.
Proof. discriminate. Qed.
End PostScoreFacts.

Section PostScoreClaim.
Import PostScoring Double.
Local Open Scope Z_scope.

  (** The post with two counts of 1e308, alone in its corpus. *)
Lemma overflow_post_score :
    reactionSum overflow_post = infinity false
    /\ s_reactions (breakdown (computePostScore overflow_post [overflow_post])) = NaN
    /\ total (computePostScore overflow_post [overflow_post]) = NaN
    /\ of_binary64 (binary64_reactions_part (binary64 (10 ^ 308) 0)) = NaN.
Proof.
    split; [vm_compute; reflexivity|]. split; [vm_compute; reflexivity|].
    split; vm_compute; reflexivity.
Qed.

  (** C4.  With reaction counts that are natural numbers, the total of
      [computePostScore] is an integer between 0 and 100 for every message
      and every corpus except when adding the reaction counts of the message
      overflows to Infinity and some content message of the corpus has such
      a sum too: then, and only then, the total is NaN.  This happens for
      [overflow_post] scored in the corpus that holds just this post, whose
      two counts of 1e308 add up to Infinity: the reactions part is
      Infinity / Infinity * 50, which the machine computes as NaN as well.
      A corpus without a positive reaction sum gives the reactions part 0 and
      a corpus without text gives the text part 0. *)
Theorem post_score_total_is_NaN_on_overflow (msg : TelegramMessage)
          (allMessages : list TelegramMessage) :
    let s := computePostScore msg allMessages in
    let posts := filter (fun m => MessageKind_eqb (type m) message) allMessages in
    (total s = NaN
     <-> reactionSum msg = infinity false
         /\ exists m, In m posts /\ reactionSum m = infinity false)
    /\ (total s = NaN \/ exists k, total s = int k /\ 0 <= k <= 100)
    /\ ((forall m, In m posts -> gt (reactionSum m) (finite 0) = false) ->
        s_reactions (breakdown s) = int 0)
    /\ ((forall m, In m posts -> str_length (getMessageText m) = 0) ->
        s_textLength (breakdown s) = int 0)
    /\ reactionSum overflow_post = infinity false
    /\ s_reactions (breakdown (computePostScore overflow_post [overflow_post])) = NaN
    /\ total (computePostScore overflow_post [overflow_post]) = NaN
    /\ of_binary64 (binary64_reactions_part (binary64 (10 ^ 308) 0)) = NaN.
Proof.
    intros s posts.
    change (total s) with (cappedSum (subScores (corpusMaxima posts).1
                                                (corpusMaxima posts).2 msg)).
    change (breakdown s) with (subScores (corpusMaxima posts).1 (corpusMaxima posts).2 msg).
    destruct (corpusMaxima_spec posts) as (Hnn & _).
    pose proof (corpusMaxima_infinite posts) as Hinf.
    destruct (total_cases (corpusMaxima posts).1 (corpusMaxima posts).2 msg Hnn)
      as [(HNaN & Hmsg & Hmx)|((k & Hk & Bk) & Hnot)].
    - split; [split; [intros _; split; [exact Hmsg | now apply Hinf] | intros _; exact HNaN]|].
      split; [now left|].
      split; [intros Hzero; rewrite (corpusMaxima_zero posts Hzero) in Hmx; discriminate|].
      split; [intros Hzero; unfold subScores; cbn [s_textLength];
              now rewrite (corpusMaxima_no_text posts Hzero)|].
      exact overflow_post_score.
    - split.
      { split.
        - intros HNaN. rewrite Hk in HNaN. now apply int_not_NaN in HNaN.
        - intros [Hmsg Hex]. exfalso. apply Hnot. split; [exact Hmsg | now apply Hinf]. }
      split; [right; now exists k|].
      split; [intros Hzero; unfold subScores; cbn [s_reactions];
              now rewrite (corpusMaxima_zero posts Hzero)|].
      split; [intros Hzero; unfold subScores; cbn [s_textLength];
              now rewrite (corpusMaxima_no_text posts Hzero)|].
      exact overflow_post_score.
Qed.

Lemma post_score_total_is_NaN_on_overflow_witness :
    total (computePostScore overflow_post [overflow_post]) = NaN
    /\ total (computePostScore liked_post []) = int 30
    /\ s_reactions (breakdown (computePostScore liked_post [neutral_message])) = int 0
    /\ total (computePostScore liked_post [neutral_message]) = int 50.
Proof.
    split.
    - destruct (post_score_total_is_NaN_on_overflow overflow_post [overflow_post])
        as ([_ HNaN] & _).
      apply HNaN. split; [vm_compute; reflexivity|].
      exists overflow_post. split; [now left | vm_compute; reflexivity].
    - split; [vm_compute; reflexivity|]. split; [|vm_compute; reflexivity].
      destruct (post_score_total_is_NaN_on_overflow liked_post [neutral_message])
        as (_ & _ & Hzero & _).
      apply Hzero. intros m [<-|[]]. vm_compute. reflexivity.
Defined.
End PostScoreClaim.

Section PostScoreParts.
Import PostScoring Double.
Local Open Scope Z_scope.

Lemma percentile_part (rank len : nat) :
    (rank <= len)%nat ->
    exists pc,
      Math_round (mul (div (of_length (Z.of_nat rank))
                           (of_length (Z.max (Z.of_nat len) 1)))
                      (finite 100))
      = int pc
      /\ 0 <= pc <= 100.
Proof.
    intros Hle.
    apply (weighted_ratio (inject_Z (Z.of_nat rank))
                          (inject_Z (Z.max (Z.of_nat len) 1)) 100).
    - apply inject_Z_nonneg. lia.
    - rewrite <- Zle_Qle. lia.
    - change 0%Q with (inject_Z 0). rewrite <- Zlt_Qlt. lia.
    - lia.
Qed.

Lemma labelOf_int (pc : Z) :
    labelOf (int pc)
    = if 95 <=? pc then js "Exceptional"
      else if 80 <=? pc then js "Strong"
      else if 60 <=? pc then js "Above Average"
      else if 40 <=? pc then js "Average"
      else if 20 <=? pc then js "Below Average"
      else js "Low".
Proof.
    unfold labelOf.
    change (finite 95) with (int 95). change (finite 80) with (int 80).
    change (finite 60) with (int 60). change (finite 40) with (int 40).
    change (finite 20) with (int 20). now rewrite !ge_int.
Qed.

  (** X18.  Every part of the post score stays within its weight, in double
      arithmetic with its infinities: the text part is an integer between 0
      and 20, the media, link, reply and forward parts are 0 or their weight
      10, 8, 7 and 5, and the percentile is an integer between 0 and 100 with
      the label of its bracket.  While the reaction counts of a message add
      up to less than [2^53], their sum in doubles is the exact sum.  For a
      content message of the corpus whose reaction sum is finite the
      reactions part is an integer between 0 and 50, so the parts add up to
      at most 100 and the total is their plain sum: the cap at 100 never
      cuts. *)
Theorem post_score_parts_within_weights (msg : TelegramMessage)
          (allMessages : list TelegramMessage) :
    let s := computePostScore msg allMessages in
    let b := breakdown s in
    exists t md l p f pc,
      s_textLength b = int t /\ 0 <= t <= 20
      /\ s_media b = int md /\ md = (if hasMediaField msg then 10 else 0)
      /\ s_links b = int l /\ l = (if hasLinks (getMessageText msg) then 8 else 0)
      /\ s_replies b = int p /\ p = (if truthy_num (reply_to_message_id msg) then 7 else 0)
      /\ s_forwarded b = int f /\ f = (if truthy_str (forwarded_from msg) then 5 else 0)
      /\ percentile s = int pc /\ 0 <= pc <= 100
      /\ label s = (if 95 <=? pc then js "Exceptional"
                    else if 80 <=? pc then js "Strong"
                    else if 60 <=? pc then js "Above Average"
                    else if 40 <=? pc then js "Average"
                    else if 20 <=? pc then js "Below Average"
                    else js "Low")
      /\ (Z.of_N (reactionTotal msg) < 2 ^ 53 ->
          reactionSum msg = int (Z.of_N (reactionTotal msg)))
      /\ (reactionSum msg <> infinity false -> In msg allMessages -> type msg = message ->
          exists r, s_reactions b = int r /\ 0 <= r <= 50
                    /\ total s = int (r + t + md + l + p + f)).
Proof.
    intros s b. unfold b, s, computePostScore.
    set (posts := filter (fun m => MessageKind_eqb (type m) message) allMessages).
    set (mx := corpusMaxima posts).
    cbn [breakdown percentile label total].
    set (allScores := array_sort (fun a b => sign (sub a b))
                        (map (fun m => cappedSum (subScores mx.1 mx.2 m)) posts)).
    destruct (other_parts mx.1 mx.2 msg)
      as (t & md & l & p & f & Ht & Hmd & Hl & Hp & Hf & Bt & Emd & El & Ep & Ef).
    destruct (percentile_part
                (length (filter (fun s => le s (cappedSum (subScores mx.1 mx.2 msg)))
                                allScores))
                (length allScores)) as (pc & Hpc & Bpc); [apply filter_length_le|].
    exists t, md, l, p, f, pc.
    split; [exact Ht|]. split; [exact Bt|]. split; [exact Hmd|]. split; [exact Emd|].
    split; [exact Hl|]. split; [exact El|]. split; [exact Hp|]. split; [exact Ep|].
    split; [exact Hf|]. split; [exact Ef|]. split; [exact Hpc|]. split; [exact Bpc|].
    split; [rewrite Hpc; apply labelOf_int|].
    split; [apply reactionSum_exact|].
    intros Hfin Hin Hty.
    assert (Hpost : In msg posts).
    { apply filter_In. split; [exact Hin|]. now rewrite Hty. }
    destruct (corpusMaxima_spec posts) as (Hnn & Hmax & _). fold mx in Hnn, Hmax.
    destruct (reactions_part_in_corpus mx.1 mx.2 msg Hnn (Hmax msg Hpost) Hfin)
      as (r & Hr & Br).
    exists r. split; [exact Hr|]. split; [exact Br|].
    assert (Bmd : 0 <= md <= 10) by (rewrite Emd; destruct (hasMediaField msg); lia).
    assert (Bl : 0 <= l <= 8) by (rewrite El; destruct (hasLinks _); lia).
    assert (Bp : 0 <= p <= 7) by (rewrite Ep; destruct (truthy_num _); lia).
    assert (Bf : 0 <= f <= 5) by (rewrite Ef; destruct (truthy_str _); lia).
    destruct (cappedSum_value _ t md l p f Ht Hmd Hl Hp Hf Bt Bmd Bl Bp Bf)
      as (_ & Hint & _).
    rewrite (Hint r Hr) by lia. f_equal. lia.
Qed.

Lemma post_score_parts_within_weights_witness :
    reactionSum liked_post <> infinity false
    /\ In liked_post [neutral_message; liked_post]
    /\ type liked_post = message
    /\ s_reactions (breakdown (computePostScore liked_post [neutral_message; liked_post]))
       = int 50
    /\ total (computePostScore liked_post [neutral_message; liked_post]) = int 100
    /\ exists r, s_reactions (breakdown (computePostScore liked_post
                                           [neutral_message; liked_post])) = int r
                 /\ 0 <= r <= 50.
Proof.
    assert (Hfin : reactionSum liked_post <> infinity false) by (vm_compute; discriminate).
    assert (Hin : In liked_post [neutral_message; liked_post]) by (right; now left).
    split; [exact Hfin|]. split; [exact Hin|]. split; [reflexivity|].
    split; [vm_compute; reflexivity|]. split; [vm_compute; reflexivity|].
    destruct (post_score_parts_within_weights liked_post [neutral_message; liked_post])
      as (t & md & l & p & f & pc & H).
    destruct H as (_ & _ & _ & _ & _ & _ & _ & _ & _ & _ & _ & _ & _ & _ & Hparts).
    destruct (Hparts Hfin Hin eq_refl) as (r & Hr & Br & _).
    exists r. split; [exact Hr | exact Br].
Defined.
End PostScoreParts.

(* ===================================================================== *)
(** ** post-scoring: [getTopPosts] in doubles *)
(* ===================================================================== *)

Section SortExtensional.
Context {A : Type}.

Lemma insert_sorted_ext (cmp cmp' : A -> A -> Z) (x : A) (l : list A) :
    (forall y, In y l -> (cmp x y <=? 0) = (cmp' x y <=? 0)) ->
    insert_sorted cmp x l = insert_sorted cmp' x l.
Proof.
    induction l as [|y l IH]; intros Hl; cbn [insert_sorted]; [reflexivity|].
    rewrite (Hl y) by now left. destruct (cmp' x y <=? 0); [reflexivity|].
    f_equal. apply IH. intros z Hz. apply Hl. now right.
Qed.

  (** Sorting depends on the comparator only through the sign it gives on
      the elements of the list. *)
Lemma array_sort_ext_in (cmp cmp' : A -> A -> Z) (l : list A) :
    (forall a b, In a l -> In b l -> (cmp a b <=? 0) = (cmp' a b <=? 0)) ->
    array_sort cmp l = array_sort cmp' l.
Proof.
    induction l as [|x l IH]; intros Hl; cbn [array_sort]; [reflexivity|].
    rewrite IH by (intros a b Ha Hb; apply Hl; now right).
    apply insert_sorted_ext. intros y Hy. apply Hl; [now left|]. right.
    now apply (Permutation_in _ (array_sort_perm cmp' l)).
Qed.
End SortExtensional.

Section TopPostsFacts.
Import PostScoring TopPosts Double.
Local Open Scope Z_scope.

Lemma gt_int_0 (z : Z) : gt (int z) (finite 0) = (0 <? z).
Proof.
    cbn [gt lt int]. destruct (Z.ltb_spec 0 z) as [Hlt|Hge].
    - apply negb_true_iff. destruct (Qle_bool (inject_Z z) 0) eqn:E; [|reflexivity].
      apply Qle_bool_iff in E. change 0%Q with (inject_Z 0) in E.
      rewrite <- Zle_Qle in E. lia.
    - apply negb_false_iff. apply Qle_bool_iff. change 0%Q with (inject_Z 0).
      now rewrite <- Zle_Qle.
Qed.

Lemma sign_int (z : Z) : sign (int z) = Z.sgn z.
Proof. reflexivity. Qed.

  (** While ten times the reaction total plus the bonuses stays below
      [2^53], total and score are exact. *)
Lemma topPostOf_exact (m : TelegramMessage) :
    Z.of_N (reactionTotal m) * 10 + 8 < 2 ^ 53 ->
    totalReactions (topPostOf m) = int (Z.of_N (reactionTotal m))
    /\ score (topPostOf m) = int (Z.of_N (reactionTotal m) * 10 + bonus m).
Proof.
    intros Hm. unfold topPostOf, bonus. cbn [totalReactions score].
    rewrite reactionSum_exact by lia. split; [reflexivity|].
    change (finite 10) with (int 10). rewrite mul_int by lia.
    destruct (100 <? str_length (getMessageText m)); destruct (truthy_str (photo m));
      change (finite 5) with (int 5); change (finite 3) with (int 3);
      change (finite 0) with (int 0); rewrite !add_int by lia; f_equal; lia.
Qed.

Lemma bonus_bounds (m : TelegramMessage) : 0 <= bonus m <= 8.
Proof.
    unfold bonus. destruct (100 <? _); destruct (truthy_str _); lia.
Qed.

Lemma byScore_exact (a b : TelegramMessage) :
    Z.of_N (reactionTotal a) * 10 + 8 < 2 ^ 53 ->
    Z.of_N (reactionTotal b) * 10 + 8 < 2 ^ 53 ->
    byScore (topPostOf a) (topPostOf b)
    = Z.sgn ((Z.of_N (reactionTotal b) * 10 + bonus b)
             - (Z.of_N (reactionTotal a) * 10 + bonus a)).
Proof.
    intros Ha Hb. unfold byScore.
    destruct (topPostOf_exact a Ha) as [_ ->]. destruct (topPostOf_exact b Hb) as [_ ->].
    pose proof (bonus_bounds a). pose proof (bonus_bounds b).
    rewrite sub_int by lia. apply sign_int.
Qed.

  (** X16.  [getTopPosts] returns content messages of the list whose
      reaction sum is positive, each with the total and the score the
      callback computes; a non-negative [limit] bounds their number, and
      when it is not reached every content message with a positive sum is
      returned.  While ten times the reaction total of every message plus 8
      stays below [2^53] the arithmetic is exact: the score is ten times the
      total plus a bonus of at most 8, and the posts come by descending score
      and therefore also by descending reaction total.  Above that bound the
      scores are rounded and the order by reaction total can break, as it
      does for [big_posts]. *)
Theorem top_posts_are_ranked_by_reactions (messages : list TelegramMessage) (limit : Z) :
    let top := getTopPosts messages limit in
    let reacted :=
      filter (fun m => MessageKind_eqb (type m) message
                       && gt (reactionSum m) (finite 0)) messages in
    (forall p, In p top ->
       In (tp_message p) messages
       /\ type (tp_message p) = message
       /\ p = topPostOf (tp_message p)
       /\ totalReactions p = reactionSum (tp_message p)
       /\ gt (totalReactions p) (finite 0) = true)
    /\ (0 <= limit -> Z.of_nat (length top) = Z.min limit (Z.of_nat (length reacted)))
    /\ (Z.of_nat (length reacted) <= limit -> Permutation (map tp_message top) reacted)
    /\ ((forall m, In m messages -> Z.of_N (reactionTotal m) * 10 + 8 < 2 ^ 53) ->
        (forall p, In p top ->
           exists n b,
             n = Z.of_N (reactionTotal (tp_message p))
             /\ totalReactions p = int n /\ 1 <= n
             /\ score p = int (n * 10 + b) /\ 0 <= b <= 8)
        /\ StronglySorted (fun a b => le (score b) (score a) = true) top
        /\ StronglySorted (key_ge (fun p => Z.of_N (reactionTotal (tp_message p)))) top)
    /\ map (fun p => id (tp_message p)) (getTopPosts big_posts 20) = [51; 52]
    /\ map reactionTotal big_posts = [(10 ^ 15 + 1)%N; (10 ^ 15 + 2)%N].
Proof.
    intros top reacted.
    set (kept := filter (fun p => gt (totalReactions p) (finite 0))
                   (map topPostOf (filter (fun m => MessageKind_eqb (type m) message) messages))).
    assert (Htop : top = slice0 (array_sort byScore kept) limit) by reflexivity.
    assert (Hkept : kept = map topPostOf reacted).
    { unfold kept, reacted. clear. induction messages as [|m l IH]; [reflexivity|].
      cbn [filter map]. destruct (MessageKind_eqb (type m) message); cbn [andb filter map];
        [|exact IH].
      cbn [topPostOf totalReactions].
      destruct (gt (reactionSum m) (finite 0)); cbn [map]; now rewrite IH. }
    assert (Hin : forall p, In p top -> exists m, In m reacted /\ p = topPostOf m).
    { intros p Hp. rewrite Htop in Hp. apply in_slice0 in Hp.
      apply (Permutation_in _ (array_sort_perm _ _)) in Hp.
      rewrite Hkept in Hp. apply in_map_iff in Hp as (m & <- & Hm). eauto. }
    split; [|split; [|split; [|split]]].
    - intros p Hp. destruct (Hin p Hp) as (m & Hm & ->).
      apply filter_In in Hm as (Hm & [Hty Hr]%andb_prop).
      cbn [topPostOf tp_message totalReactions]. split; [exact Hm|].
      split; [now destruct (type m)|]. split; [reflexivity|]. split; [reflexivity|].
      exact Hr.
    - intros Hl. rewrite Htop, slice0_length by exact Hl.
      now rewrite (Permutation_length (array_sort_perm _ _)), Hkept, length_map.
    - intros Hl. rewrite Htop, slice0_all.
      + rewrite (Permutation_map tp_message (array_sort_perm _ _)), Hkept, map_map.
        cbn [topPostOf tp_message]. now rewrite map_id.
      + now rewrite (Permutation_length (array_sort_perm _ _)), Hkept, length_map.
    - intros Hexact.
      assert (Hre : forall m, In m reacted ->
                      Z.of_N (reactionTotal m) * 10 + 8 < 2 ^ 53
                      /\ 1 <= Z.of_N (reactionTotal m)).
      { intros m Hm. apply filter_In in Hm as (Hm & [_ Hr]%andb_prop).
        specialize (Hexact m Hm). split; [exact Hexact|].
        rewrite reactionSum_exact, gt_int_0 in Hr by lia. apply Z.ltb_lt in Hr. lia. }
      set (key := fun p : TopPost =>
                    Z.of_N (reactionTotal (tp_message p)) * 10 + bonus (tp_message p)).
      assert (Hsort : array_sort byScore kept = array_sort (descending key) kept).
      { apply array_sort_ext_in. intros a b Ha Hb. rewrite Hkept in Ha, Hb.
        apply in_map_iff in Ha as (ma & <- & Hma). apply in_map_iff in Hb as (mb & <- & Hmb).
        destruct (Hre ma Hma) as [Ea _]. destruct (Hre mb Hmb) as [Eb _].
        rewrite byScore_exact by assumption. unfold descending, key.
        cbn [topPostOf tp_message].
        set (d := _ - _). destruct (Z.leb_spec d 0), (Z.leb_spec (Z.sgn d) 0); lia. }
      assert (Hsorted : StronglySorted (key_ge key) top).
      { rewrite Htop, Hsort. apply sorted_slice0, array_sort_desc. }
      assert (Hscore : forall p, In p top ->
                         Z.of_N (reactionTotal (tp_message p)) * 10 + 8 < 2 ^ 53
                         /\ 1 <= Z.of_N (reactionTotal (tp_message p))
                         /\ score p = int (key p)
                         /\ totalReactions p = int (Z.of_N (reactionTotal (tp_message p)))).
      { intros p Hp. destruct (Hin p Hp) as (m & Hm & ->). cbn [topPostOf tp_message].
        destruct (Hre m Hm) as [Em E1]. destruct (topPostOf_exact m Em) as [Ht Hs].
        repeat split; assumption. }
      split; [|split].
      + intros p Hp. destruct (Hscore p Hp) as (_ & E1 & Hs & Ht).
        exists (Z.of_N (reactionTotal (tp_message p))), (bonus (tp_message p)).
        split; [reflexivity|]. split; [exact Ht|]. split; [exact E1|].
        split; [exact Hs | apply bonus_bounds].
      + clear Htop. induction Hsorted as [|x l Hs IH Hx]; constructor.
        * apply IH; intros p Hp; [apply Hin | apply Hscore]; now right.
        * rewrite Forall_forall in *. intros y Hy.
          destruct (Hscore x (or_introl eq_refl)) as (_ & _ & -> & _).
          destruct (Hscore y (or_intror Hy)) as (_ & _ & -> & _).
          apply le_int. now apply Hx.
      + apply (sorted_weaken key); [|exact Hsorted].
        intros a b Ha Hb Hle. unfold key in Hle.
        pose proof (bonus_bounds (tp_message a)). pose proof (bonus_bounds (tp_message b)).
        lia.
    - split; vm_compute; reflexivity.
Qed.

Lemma top_posts_are_ranked_by_reactions_witness :
    (forall m, In m [ neutral_message; liked_post; urgent_message ] ->
               Z.of_N (reactionTotal m) * 10 + 8 < 2 ^ 53)
    /\ map (fun p => (id (tp_message p), totalReactions p, score p))
           (getTopPosts [ neutral_message; liked_post; urgent_message ] 30)
       = [ (20, int 1000, int 10003) ]
    /\ StronglySorted (key_ge (fun p => Z.of_N (reactionTotal (tp_message p))))
         (getTopPosts [ neutral_message; liked_post; urgent_message ] 30).
Proof.
    assert (Hexact : forall m, In m [ neutral_message; liked_post; urgent_message ] ->
                               Z.of_N (reactionTotal m) * 10 + 8 < 2 ^ 53).
    { intros m [<-|[<-|[<-|[]]]]; vm_compute; reflexivity. }
    split; [exact Hexact|]. split; [vm_compute; reflexivity|].
    destruct (top_posts_are_ranked_by_reactions
                [ neutral_message; liked_post; urgent_message ] 30)
      as (_ & _ & _ & Hranked & _).
    destruct (Hranked Hexact) as (_ & _ & Hsorted). exact Hsorted.
Defined.
End TopPostsFacts.
